(* ===== verification/_CoqProject ===== *)
-Q . S2P
Prelude.v
Bytes.v
Text.v
Metrics.v
BTree.v
Common.v
WalService.v
PageService.v
Consensus.v
WalStorage.v
Safekeeper.v
Cluster.v
PageVersion.v
Layer.v
WalRedoProto.v
WalRedo.v
WalRedoProcess.v
WalRedoMock.v
Repository.v
WalDecode.v
WalRecordFormat.v
WalStream.v
WalIngest.v
Timeline.v
Tenant.v
TenantManager.v
ObjStore.v
Catalog.v
Offload.v
OffloadRace.v
WalReceiver.v
PageServer.v
Control.v
BaseBackup.v
Http.v
HttpApi.v
PageMetrics.v
Exposition.v
ProxyProtocol.v
Cancel.v
Dialogue.v
Scram.v
Compute.v
Schedule.v
Reaper.v
Proxy.v
ProxyMetrics.v
Splice.v
Databases.v
Client.v
Console.v
Platform.v
ConsolePage.v
Cli.v
Smgr.v
Entrypoint.v
RedoBackend.v
Startup.v
