(* ===== verification/Prelude.v ===== *)
(** * AethelDB, verified

    AethelDB is a PostgreSQL with storage and compute apart.  Compute nodes run
    queries and keep no pages.  Safekeepers store the write-ahead log (WAL) on a
    quorum.  The page server turns committed WAL into page versions and serves
    pages at any log position (LSN), on any branch.  A proxy admits clients, starts
    and stops compute nodes, and passes bytes.  The console aethelctl provisions
    databases over all of them.  This library is a shallow embedding of those
    programs (src/) and of what makes them correct.

    ** The parts, and the files that model them

    Shared: Prelude (results, the state and error monad, its program logic, generic
    lemmas), Bytes, Text and BTree (integers on the wire, Rust strings, ordered
    maps), Common (src/common: LSNs, identifiers, page keys), Metrics (the metrics of
    the three servers, which are the files metrics.rs, and the registry they are kept
    in), Exposition (src/common/src/metrics.rs and telemetry.rs: the endpoint that
    serves the registry, and the set-up of tracing).

    Protocols: WalService and PageService (src/common/src/wal_service.rs and
    page_service.rs), WalRedoProto (src/pageserver/src/walredo_proto.rs),
    ProxyProtocol (src/proxy/src/protocol.rs), Http (the request reader and strings
    the HTTP endpoints share).  Encoders and decoders are functions on byte lists.

    Safekeeper (src/safekeeper): WalStorage is storage.rs over a disk whose system
    calls can fail one by one and whose unsynced bytes a crash can lose; Consensus
    is consensus.rs; Safekeeper is server.rs and replicator.rs, the handlers over
    both; Cluster is a group of such nodes, whose steps are their critical sections.

    Page server (src/pageserver): PageVersion (page.rs), Layer (layer.rs), WalRedo
    (walredo.rs, the redo trait as a class with laws), WalRedoProcess and WalRedoMock
    (walredo_process.rs and the reference child), Repository (repository.rs),
    WalDecode, WalRecordFormat and WalStream (waldecode.rs: one record, a writer for
    its format, and the framing of the stream), WalIngest (the two over the
    repository), Timeline, Tenant, TenantManager and Catalog (the files of these
    names; a shared [Arc] is an index into an arena), ObjStore and Offload (object
    storage and the upload of layers), OffloadRace (uploads in steps, between other
    operations), WalReceiver (walreceiver.rs, connected to the
    safekeeper's own loop), PageServer (server.rs), Control and HttpApi (the two
    management endpoints), BaseBackup (the import tool), PageMetrics (the operations
    with the metric calls they make).

    Proxy (src/proxy): Cancel, Dialogue and Scram (cancel.rs and scram.rs; an async
    function over a stream is a tree of reads and writes), Compute (tenant.rs,
    activator.rs, k8s.rs, idle.rs and control.rs as tasks over a shared heap),
    Schedule (all interleavings of tasks, and a logic for them), Reaper, Proxy and
    Splice (proxy.rs), ProxyMetrics (what the metrics say of the connections).

    Console (src/aethelctl): Databases (databases.rs), Client (lib.rs and deploy.rs),
    Console (serve.rs), Cli (main.rs), Platform (the console over a page server and a
    proxy), ConsolePage (console/index.html: the requests the page makes).

    Startup holds the [main] functions of the three servers, from their parsed
    arguments on, and the cloud object stores.

    Compute node (src/compute): Smgr (the storage manager extension), Entrypoint
    (entrypoint.sh), RedoBackend (the two patches to PostgreSQL: storage managers chosen
    by a hook, and the wal-redo process).

    ** How code is translated

    A pure function is a function; a method on [&mut self] is a [stateM], which
    keeps the state it reached also when it fails; [Result] and panics are the three
    cases of [outcome].  Integers are [Z], with the wrap-around, the overflow panic or
    the saturation of the source written where it has one.  A [HashMap] is a [gmap],
    with its iteration order a parameter where it is walked; a [BTreeMap] is a sorted
    list.  A lock held over a whole operation makes it one step; code that releases
    it in between is several.  Traits and third-party code are type classes: the
    operations in one class, what callers rely on in another ([WalRedoLaws],
    [ObjectStoreLaws], [CryptoLaws], [RedoService], [PostgresLaws] and so on).
    Clients are proved against the class, and every class has an instance: the
    repository's own code where it is there, a small concrete one otherwise.

    ** What is shown

    Durability.  A position a safekeeper reports committed is on a quorum of disks
    and stays there through crashes and restarts; two nodes that serve committed
    bytes agree when there is one proposer; a term has one leader as long as no
    member restarts; the store implements an abstract log, and what it acknowledged
    survives a crash.

    Page history.  What is read at an LSN is the replay of every version up to it:
    in the repository through freezing, upload and compaction, on a branch through
    its ancestors and through garbage collection on them, and over the network to a
    compute node.  WAL bytes in any chunks become exactly the versions their records
    call for, and committed WAL reaches the pages.  A base backup reads back as the
    files it was made from.  The storage manager of a compute node is a remote call
    to the page server under any division of the messages.

    Redo.  The process backend replays a page's records as if one by one, over any
    child that keeps [RedoService]; the mock and the wal-redo backend both do, the
    latter down to PostgreSQL's buffer manager and redo routines.

    Management.  Acknowledged topology survives a restart; the two endpoints agree
    and obey no one without the token; a layer marked as uploaded is in the store
    however uploads and collections interleave; the console's requests provision,
    branch and restore a database across the page server and the proxy, and a
    read-only console starts dry runs only; a button of its page runs the operation
    it stands for, and the deploy form is what is deployed; a compute node that is
    started again serves the timeline of its new environment.

    Clients.  Only an authenticated client wakes a compute node, and a SCRAM proof
    counts for its own nonce only; connection counts are exact in every interleaving;
    the reaper stops idle nodes only; a cancel request reaches the backend that
    issued the key.

    Metrics.  No use of a metric panics, and the values served are those of the calls
    made: the gauges of the proxy are the connections being served, in every
    interleaving, and each wake for a client is counted once; a scrape gets the
    registry whole.

    Formats.  Decoders invert encoders and are total on arbitrary bytes.

    Each file also states, as lemmas on concrete inputs, what the code does not do:
    where it differs from its comments, or fails.

    ** Fuel

    A loop that is not structural has a counter that is large enough, which the
    theorems about its results show.  The stream decoder and the decompressor use up input on every round, so
    its length bounds them; so do the reading loops of WalRedoMock, RedoBackend and
    the servers.  A chain of ancestors is shorter than the arena, since a parent is
    older than its branch.  Restoring the catalog places a timeline on every useful
    round.  Numbers are printed in at most 20 decimal digits, as many as 64 bits
    need.  The negotiation and the splice of the proxy may go on for ever: they get a
    number of rounds, at the end of which the connection ends as after a failed read.

    ** Not modelled

    What is logged, which nothing reads back.  Parsing of command lines, which is left to a library.  Accepting sockets, timers, signals and the
    start of tasks: the loops here run on what they are given.  TLS beyond its place
    in the client's stream.  PostgreSQL outside of the code the
    repository adds to it: its buffer manager, decoder and redo routines are
    parameters with laws, and of the storage manager calls the first patch touches,
    those that run other PostgreSQL code as well are left out.  The charts and the
    layout of the console's page, whose browser is a parameter; the deployment
    manifests and the test drivers.  A peer that neither answers nor
    closes its connection, for which callers without a timeout wait for ever. *)

From Stdlib Require Export ZArith Lia Bool.
From Stdlib Require Export Strings.Byte.
From stdpp Require Export base tactics numbers list gmap strings.

#[export] Set Default Goal Selector "!".

Global Open Scope Z_scope.

(** ** Results of Rust functions

    [Ok] and [Err] are the two variants of [Result]; [Panic] is a Rust panic
    (an out-of-range index, a failed [unwrap], an arithmetic overflow in a
    build with overflow checks). *)

Inductive outcome (E A : Type) : Type :=
| Ok (a : A)
| Err (e : E)
| Panic.
Arguments Ok {E A} a.
Arguments Err {E A} e.
Arguments Panic {E A}.

Definition bind {E A B} (m : outcome E A) (k : A -> outcome E B) : outcome E B :=
  match m with
  | Ok a => k a
  | Err e => Err e
  | Panic => Panic
  end.

Definition map_err {E F A} (f : E -> F) (m : outcome E A) : outcome F A :=
  match m with
  | Ok a => Ok a
  | Err e => Err (f e)
  | Panic => Panic
  end.

Definition ok_or {E A} (o : option A) (e : E) : outcome E A :=
  match o with Some a => Ok a | None => Err e end.

Definition unwrap {E A} (o : option A) : outcome E A :=
  match o with Some a => Ok a | None => Panic end.

Definition is_ok {E A} (m : outcome E A) : bool :=
  match m with Ok _ => true | _ => false end.

Declare Scope rust_scope.
Delimit Scope rust_scope with rust.
Notation "'let?' x := m 'in' k" := (bind m (fun x => k))
  (at level 10, x pattern, m at level 100, k at level 200) : rust_scope.
Notation "'ensure' c 'else' e 'in' k" := (if c then k else Err e)
  (at level 10, c at level 100, e at level 100, k at level 200) : rust_scope.
Global Open Scope rust_scope.

(** ** Methods with [&mut self]

    A method that may fail after changing [self] returns the state it leaves
    behind together with its result. *)

Definition stateM (S E A : Type) : Type := S -> S * outcome E A.

Definition sret {S E A} (a : A) : stateM S E A := fun s => (s, Ok a).
Definition serr {S E A} (e : E) : stateM S E A := fun s => (s, Err e).
Definition spanic {S E A} : stateM S E A := fun s => (s, Panic).
Definition sget {S E} : stateM S E S := fun s => (s, Ok s).
Definition smod {S E} (f : S -> S) : stateM S E unit := fun s => (f s, Ok tt).
Definition slift {S E A} (m : outcome E A) : stateM S E A := fun s => (s, m).

Definition sbind {S E A B} (m : stateM S E A) (k : A -> stateM S E B) : stateM S E B :=
  fun s => match m s with
           | (s', Ok a) => k a s'
           | (s', Err e) => (s', Err e)
           | (s', Panic) => (s', Panic)
           end.

Lemma sbind_Ok {S E A B} (m : stateM S E A) (k : A -> stateM S E B) s s' a :
  m s = (s', Ok a) -> sbind m k s = k a s'.
Proof. unfold sbind. by intros ->. Qed.

Lemma sbind_assoc {S E A B C} (m : stateM S E A) (k : A -> stateM S E B) (h : B -> stateM S E C) s :
  sbind (sbind m k) h s = sbind m (fun a => sbind (k a) h) s.
Proof. unfold sbind. by destruct (m s) as [s' []]. Qed.

Notation "'let!' x := m 'in' k" := (sbind m (fun x => k))
  (at level 10, x pattern, m at level 100, k at level 200) : rust_scope.

(** ** Machine integers as [Z] *)

Definition u8_max : Z := 2 ^ 8 - 1.
Definition u16_max : Z := 2 ^ 16 - 1.
Definition u32_max : Z := 2 ^ 32 - 1.
Definition u64_max : Z := 2 ^ 64 - 1.

Definition in_u8 (z : Z) : Prop := 0 <= z < 2 ^ 8.
Definition in_u16 (z : Z) : Prop := 0 <= z < 2 ^ 16.
Definition in_u32 (z : Z) : Prop := 0 <= z < 2 ^ 32.
Definition in_u64 (z : Z) : Prop := 0 <= z < 2 ^ 64.

(** [a + b] on [u64] with overflow checks. *)
Definition add_u64 {E} (a b : Z) : outcome E Z :=
  if a + b <=? u64_max then Ok (a + b) else Panic.

(** [a - b] on an unsigned type with overflow checks. *)
Definition sub_checked {E} (a b : Z) : outcome E Z :=
  if b <=? a then Ok (a - b) else Panic.

Definition saturating_sub (a b : Z) : Z := Z.max 0 (a - b).

(** ** Lists with [Z] lengths and Rust slices *)

Definition len {A} (l : list A) : Z := Z.of_nat (length l).

(** The [n] elements of [l] from [o] on (truncated at the end of [l]). *)
Definition sub {A} (l : list A) (o n : Z) : list A :=
  take (Z.to_nat n) (drop (Z.to_nat o) l).

(** [&l[lo..hi]] *)
Definition slice {E A} (l : list A) (lo hi : Z) : outcome E (list A) :=
  if (0 <=? lo) && (lo <=? hi) && (hi <=? len l)
  then Ok (sub l lo (hi - lo)) else Panic.

(** [l.get(lo..hi)] *)
Definition get_range {A} (l : list A) (lo hi : Z) : option (list A) :=
  if (0 <=? lo) && (lo <=? hi) && (hi <=? len l)
  then Some (sub l lo (hi - lo)) else None.

(** [l.get(i)] *)
Definition get {A} (l : list A) (i : Z) : option A :=
  if 0 <=? i then l !! Z.to_nat i else None.

(** [l[i]] *)
Definition index {E A} (l : list A) (i : Z) : outcome E A := unwrap (get l i).

Create Rewrite HintDb len.
Create HintDb rust.

(** ** Tactics *)

(** Reduce a decided test of a conditional, then clean up. *)
Ltac case_test :=
  match goal with
  | |- context [if ?b then _ else _] =>
      lazymatch type of b with bool => destruct b eqn:? end
  | H : context [if ?b then _ else _] |- _ =>
      lazymatch type of b with bool => destruct b eqn:? end
  end.

Ltac bool_to_prop :=
  repeat match goal with
  | H : (_ && _) = true |- _ => apply andb_true_iff in H; destruct H
  | H : (_ || _) = false |- _ => apply orb_false_iff in H; destruct H
  | H : (_ && _) = false |- _ => apply andb_false_iff in H
  | H : (_ || _) = true |- _ => apply orb_true_iff in H
  | H : (_ <=? _) = true |- _ => apply Z.leb_le in H
  | H : (_ <=? _) = false |- _ => apply Z.leb_gt in H
  | H : (_ <? _) = true |- _ => apply Z.ltb_lt in H
  | H : (_ <? _) = false |- _ => apply Z.ltb_ge in H
  | H : (_ =? _) = true |- _ => apply Z.eqb_eq in H
  | H : (_ =? _) = false |- _ => apply Z.eqb_neq in H
  | H : negb _ = true |- _ => apply negb_true_iff in H
  | H : negb _ = false |- _ => apply negb_false_iff in H
  end.

(** [lia] after the lengths in the context have been computed. *)
Ltac len_lia :=
  autorewrite with len in *; unfold len in *; cbn [length] in *; lia.

(** Closed side conditions: ranges and lengths of concrete values. *)
Ltac by_compute := repeat split; vm_compute; first [ reflexivity | congruence ].

(** ** Generic lemmas *)

Section Outcome.
Context {E A B C : Type}.
Implicit Types (m : outcome E A).

Lemma bind_Ok_inv m (k : A -> outcome E B) b :
  bind m k = Ok b -> exists a, m = Ok a /\ k a = Ok b.
Proof. destruct m; simpl; intros H; try discriminate; eauto. Qed.

Lemma bind_ret m : bind m Ok = m.
Proof. by destruct m. Qed.

Lemma bind_assoc m (k : A -> outcome E B) (h : B -> outcome E C) :
  bind (bind m k) h = bind m (fun a => bind (k a) h).
Proof. destruct m; reflexivity. Qed.

Lemma bind_no_panic m (k : A -> outcome E B) :
  m <> Panic -> (forall a, m = Ok a -> k a <> Panic) -> bind m k <> Panic.
Proof. destruct m; simpl; intros Hm Hk; [by apply Hk | done | done]. Qed.

Lemma ok_or_no_panic (o : option A) (e : E) : ok_or o e <> Panic.
Proof. by destruct o. Qed.
End Outcome.

Lemma map_err_no_panic {E F A} (f : E -> F) (m : outcome E A) :
  m <> Panic -> map_err f m <> Panic.
Proof. by destruct m. Qed.

#[export] Hint Resolve ok_or_no_panic map_err_no_panic : rust.

(** Split a monadic equation [bind .. = Ok _] into its steps. *)
Ltac inv_ok :=
  repeat match goal with
  | H : Ok _ = Ok _ |- _ => injection H as H
  | H : Err _ = Ok _ |- _ => discriminate H
  | H : Panic = Ok _ |- _ => discriminate H
  | H : bind _ _ = Ok _ |- _ =>
      apply bind_Ok_inv in H; destruct H as (? & ? & H)
  end.

(** ** Running a method

    [runs m s Q R]: the method [m] started in [s] does not panic; it ends in [Q]
    when it succeeds and in [R] when it fails. *)

Definition runs {S E A} (m : stateM S E A) (s : S) (Q : A -> S -> Prop) (R : E -> S -> Prop) : Prop :=
  match m s with
  | (s', Ok a) => Q a s'
  | (s', Err e) => R e s'
  | (_, Panic) => False
  end.

Section Runs.
Context {S E A B : Type}.
Implicit Types (s : S).

Lemma runs_bind (m : stateM S E A) (k : A -> stateM S E B) s Q' Q R :
  runs m s Q' R -> (forall a s', Q' a s' -> runs (k a) s' Q R) -> runs (sbind m k) s Q R.
Proof.
  unfold runs, sbind. intros Hm Hk. destruct (m s) as [s' []]; [by apply Hk | done | done].
Qed.

Lemma runs_conseq (m : stateM S E A) s (Q' Q : A -> S -> Prop) (R' R : E -> S -> Prop) :
  runs m s Q' R' -> (forall a s', Q' a s' -> Q a s') -> (forall e s', R' e s' -> R e s') ->
  runs m s Q R.
Proof. unfold runs. destruct (m s) as [s' []]; auto. Qed.

Lemma runs_eq (m m' : stateM S E A) s Q R : m s = m' s -> runs m' s Q R -> runs m s Q R.
Proof. unfold runs. by intros ->. Qed.

Lemma runs_get (k : S -> stateM S E B) s Q R :
  runs (k s) s Q R -> runs (sbind sget k) s Q R.
Proof. done. Qed.

Lemma runs_mod f (k : unit -> stateM S E B) s Q R :
  runs (k tt) (f s) Q R -> runs (sbind (smod f) k) s Q R.
Proof. done. Qed.

Lemma runs_ret (a : A) (k : A -> stateM S E B) s Q R :
  runs (k a) s Q R -> runs (sbind (sret a) k) s Q R.
Proof. done. Qed.

Lemma runs_lift (a : A) (m : outcome E A) (k : A -> stateM S E B) s Q R :
  m = Ok a -> runs (k a) s Q R -> runs (sbind (slift m) k) s Q R.
Proof. by intros ->. Qed.
End Runs.

Section Len.
Context {A : Type}.
Implicit Types (l k : list A).

Lemma len_nonneg l : 0 <= len l.
Proof. unfold len; lia. Qed.

Lemma len_nil : len (@nil A) = 0.
Proof. reflexivity. Qed.

Lemma len_cons x l : len (x :: l) = 1 + len l.
Proof. unfold len; cbn [length]; lia. Qed.

Lemma len_app l k : len (l ++ k) = len l + len k.
Proof. unfold len; rewrite length_app; lia. Qed.

Lemma len_take n l : len (take (Z.to_nat n) l) = Z.min (Z.max 0 n) (len l).
Proof. unfold len; rewrite length_take; lia. Qed.

Lemma len_drop n l : len (drop (Z.to_nat n) l) = Z.max 0 (len l - Z.max 0 n).
Proof. unfold len; rewrite length_drop; lia. Qed.

Lemma len_replicate n (x : A) : len (replicate (Z.to_nat n) x) = Z.max 0 n.
Proof. unfold len; rewrite length_replicate; lia. Qed.

Lemma len_rev l : len (rev l) = len l.
Proof. unfold len; by rewrite length_rev. Qed.

Lemma len_zero_nil l : len l = 0 -> l = [].
Proof. destruct l; [done | rewrite len_cons; pose proof (len_nonneg l); lia]. Qed.

Lemma len_length l (n : nat) : length l = n -> len l = Z.of_nat n.
Proof. unfold len; lia. Qed.
End Len.

#[export] Hint Rewrite @len_nil @len_cons @len_app @len_take @len_drop
  @len_replicate @len_rev : len.

Section Sub.
Context {A : Type}.
Implicit Types (l k : list A) (o n : Z).

Lemma sub_len l o n :
  0 <= o -> 0 <= n -> o + n <= len l -> len (sub l o n) = n.
Proof. intros. unfold sub, len in *. rewrite length_take, length_drop. lia. Qed.

Lemma sub_len_le l o n : 0 <= n -> len (sub l o n) <= n.
Proof. intros. unfold sub, len. rewrite length_take. lia. Qed.

Lemma sub_zero l o : sub l o 0 = [].
Proof. reflexivity. Qed.

Lemma sub_full l n : n = len l -> sub l 0 n = l.
Proof. intros ->. unfold sub, len. rewrite Nat2Z.id. apply firstn_all. Qed.

Lemma sub_app_ge l k o n : len l <= o -> sub (l ++ k) o n = sub k (o - len l) n.
Proof.
  intros H. unfold sub, len in *. rewrite drop_app_ge by lia.
  do 2 f_equal. lia.
Qed.

Lemma sub_app_exact l k n : n = len l -> sub (l ++ k) 0 n = l.
Proof.
  intros ->. unfold sub, len. rewrite Nat2Z.id. apply take_app_length.
Qed.

Lemma sub_app_le l k o n :
  0 <= o -> 0 <= n -> o + n <= len l -> sub (l ++ k) o n = sub l o n.
Proof.
  intros. unfold sub, len in *.
  rewrite drop_app_le by lia. rewrite take_app_le by (rewrite length_drop; lia).
  done.
Qed.

Lemma sub_app_split l o n m :
  0 <= o -> 0 <= n -> 0 <= m -> sub l o (n + m) = sub l o n ++ sub l (o + n) m.
Proof.
  intros. unfold sub. replace (Z.to_nat (n + m)) with (Z.to_nat n + Z.to_nat m)%nat by lia.
  rewrite <- take_take_drop, drop_drop. do 3 f_equal. lia.
Qed.

Lemma sub_sub l o n o' n' :
  0 <= o -> 0 <= o' -> 0 <= n' -> o' + n' <= n -> sub (sub l o n) o' n' = sub l (o + o') n'.
Proof.
  intros. unfold sub.
  rewrite skipn_firstn_comm, take_take, drop_drop. f_equal; [lia |]. f_equal. lia.
Qed.

Lemma sub_lookup l o n i :
  0 <= o -> (Z.of_nat i < n) -> sub l o n !! i = l !! (Z.to_nat o + i)%nat.
Proof. intros. unfold sub. rewrite lookup_take_lt by lia. apply lookup_drop. Qed.

Lemma get_Some_iff l i x : get l i = Some x <-> 0 <= i /\ l !! Z.to_nat i = Some x.
Proof. unfold get. destruct (Z.leb_spec 0 i); split; [by auto | by intros [] | done | lia]. Qed.

Lemma get_lt l i : 0 <= i < len l -> exists x, get l i = Some x.
Proof.
  intros H. destruct (lookup_lt_is_Some_2 l (Z.to_nat i)) as [x Hx].
  { unfold len in H; lia. }
  exists x. apply get_Some_iff. split; [lia | done].
Qed.

Lemma get_None_ge l i : 0 <= i -> get l i = None -> len l <= i.
Proof.
  unfold get. case_test; bool_to_prop; [| lia].
  intros _ H%lookup_ge_None. unfold len; lia.
Qed.

Lemma get_nil i : get (@nil A) i = None.
Proof. unfold get. by case_test. Qed.

Lemma get_ge_None l i : len l <= i -> get l i = None.
Proof. unfold get, len. intros H. case_test; [| done]. apply lookup_ge_None. lia. Qed.

Lemma get_app_l l k i : i < len l -> get (l ++ k) i = get l i.
Proof.
  unfold get, len. intros. case_test; [| done]. bool_to_prop.
  apply lookup_app_l. lia.
Qed.

Lemma get_app_r l k i : len l <= i -> get (l ++ k) i = get k (i - len l).
Proof.
  unfold get, len. intros. rewrite !(proj2 (Z.leb_le _ _)) by lia.
  rewrite lookup_app_r by lia. f_equal. lia.
Qed.

Lemma get_cons_0 x l : get (x :: l) 0 = Some x.
Proof. reflexivity. Qed.

Lemma slice_ok {E} l lo hi :
  0 <= lo <= hi -> hi <= len l -> slice (E := E) l lo hi = Ok (sub l lo (hi - lo)).
Proof.
  intros. unfold slice. by rewrite !(proj2 (Z.leb_le _ _)) by lia.
Qed.

Lemma get_range_ok l lo hi :
  0 <= lo <= hi -> hi <= len l -> get_range l lo hi = Some (sub l lo (hi - lo)).
Proof.
  intros. unfold get_range. by rewrite !(proj2 (Z.leb_le _ _)) by lia.
Qed.

Lemma get_range_Some l lo hi k :
  get_range l lo hi = Some k -> 0 <= lo <= hi /\ hi <= len l /\ k = sub l lo (hi - lo).
Proof. unfold get_range. case_test; [| done]. intros [= <-]. bool_to_prop. repeat split; lia. Qed.

Lemma index_ok {E} l i : 0 <= i < len l -> index (E := E) l i <> Panic.
Proof. intros [x Hx]%get_lt. unfold index. by rewrite Hx. Qed.
End Sub.

(** Locate a field inside a concatenation of encoded fields: skip the fields
    before the offset, then take the one that starts there. *)
Ltac sub_field :=
  repeat (rewrite sub_app_ge by len_lia);
  first [ rewrite sub_app_exact by len_lia
        | rewrite sub_full by len_lia ].

Ltac get_field :=
  repeat (rewrite get_app_r by len_lia);
  first [ rewrite get_app_l by len_lia | idtac ].
