(* ===== verification/Bytes.v ===== *)
(** Bytes and fixed-width integers on the wire.

    A [u8] is a [Byte.byte]; a wider unsigned integer is a [Z] in its range.
    [be_bytes]/[be_val] and [le_bytes]/[le_val] are Rust's
    [to_be_bytes]/[from_be_bytes] and [to_le_bytes]/[from_le_bytes]; [get_be]
    and [get_le] read one at an offset of a buffer, panicking like a Rust index
    when the buffer is too short. *)

From S2P Require Import Prelude.

Abbreviation bytes := (list byte).

#[export] Instance byte_eq_dec : EqDecision byte := Byte.byte_eq_dec.

Definition b2z (b : byte) : Z := Z.of_N (Byte.to_N b).

(** [z as u8] *)
Definition z2b (z : Z) : byte :=
  match Byte.of_N (Z.to_N (z mod 256)) with
  | Some b => b
  | None => x00
  end.

#[export] Program Instance byte_countable : Countable byte :=
  inj_countable Byte.to_N (fun n => Byte.of_N n) _.
Next Obligation. intros b. apply Byte.of_to_N. Qed.

Fixpoint le_bytes (n : nat) (z : Z) : bytes :=
  match n with
  | O => []
  | S n' => z2b z :: le_bytes n' (z / 256)
  end.

Fixpoint le_val (l : bytes) : Z :=
  match l with
  | [] => 0
  | b :: l' => b2z b + 256 * le_val l'
  end.

Definition be_bytes (n : nat) (z : Z) : bytes := rev (le_bytes n z).

Definition be_val (l : bytes) : Z := le_val (rev l).

(** [uN::from_be_bytes(buf[o..o+N].try_into().unwrap())] *)
Definition get_be {E} (n : Z) (buf : bytes) (o : Z) : outcome E Z :=
  let? s := slice buf o (o + n) in Ok (be_val s).

Definition get_le {E} (n : Z) (buf : bytes) (o : Z) : outcome E Z :=
  let? s := slice buf o (o + n) in Ok (le_val s).

(** [buf[i]] as a number *)
Definition get_u8 {E} (buf : bytes) (i : Z) : outcome E Z :=
  let? b := index buf i in Ok (b2z b).

(** [buf[lo..hi].try_into().unwrap()] into a 16-byte array *)
Definition array16 {E} (buf : bytes) (lo hi : Z) : outcome E bytes :=
  let? s := slice buf lo hi in
  if len s =? 16 then Ok s else Panic.

(** ** Bytes *)

Lemma b2z_range b : 0 <= b2z b < 256.
Proof.
  unfold b2z. pose proof (Byte.to_N_bounded b). lia.
Qed.

Lemma z2b_b2z b : z2b (b2z b) = b.
Proof.
  unfold z2b. rewrite Z.mod_small by apply b2z_range.
  unfold b2z. by rewrite N2Z.id, Byte.of_to_N.
Qed.

Lemma b2z_z2b z : b2z (z2b z) = z mod 256.
Proof.
  unfold z2b. pose proof (Z.mod_pos_bound z 256 eq_refl) as Hr.
  destruct (Byte.of_N _) eqn:E.
  - apply Byte.to_of_N in E. unfold b2z. rewrite E. lia.
  - apply Byte.of_N_None_iff in E. lia.
Qed.

Lemma b2z_z2b_small z : in_u8 z -> b2z (z2b z) = z.
Proof. intros H. rewrite b2z_z2b. apply Z.mod_small. unfold in_u8 in H. lia. Qed.

Lemma b2z_inj a b : b2z a = b2z b -> a = b.
Proof. intros H. by rewrite <- (z2b_b2z a), <- (z2b_b2z b), H. Qed.

(** ** Little endian *)

Lemma length_le_bytes n z : length (le_bytes n z) = n.
Proof. revert z; induction n; intros; simpl; auto. Qed.

Lemma pow_256_succ n : 256 ^ Z.of_nat (S n) = 256 * 256 ^ Z.of_nat n.
Proof. rewrite Nat2Z.inj_succ, Z.pow_succ_r; lia. Qed.

Lemma le_val_range l : 0 <= le_val l < 256 ^ len l.
Proof.
  unfold len. induction l as [|b l IH]; [simpl; lia |].
  cbn [le_val length]. rewrite pow_256_succ. pose proof (b2z_range b). nia.
Qed.

Lemma le_val_le_bytes n z : le_val (le_bytes n z) = z mod 256 ^ Z.of_nat n.
Proof.
  revert z; induction n as [|n IH]; intros z.
  - simpl. by rewrite Z.mod_1_r.
  - cbn [le_bytes le_val]. rewrite IH, b2z_z2b, pow_256_succ.
    rewrite Z.rem_mul_r by lia. lia.
Qed.

Lemma le_bytes_le_val n l : length l = n -> le_bytes n (le_val l) = l.
Proof.
  intros <-. induction l as [|b l IH]; [done |].
  cbn [length le_val le_bytes]. f_equal.
  - apply b2z_inj. rewrite b2z_z2b, (Z.mul_comm 256), Z_mod_plus_full.
    apply Z.mod_small, b2z_range.
  - rewrite (Z.mul_comm 256), Z.div_add by lia.
    rewrite (Z.div_small (b2z b)) by apply b2z_range. by rewrite Z.add_0_l.
Qed.

(** ** Big endian *)

Lemma length_be_bytes n z : length (be_bytes n z) = n.
Proof. unfold be_bytes. by rewrite length_rev, length_le_bytes. Qed.

Lemma len_be_bytes n z : len (be_bytes n z) = Z.of_nat n.
Proof. unfold len. by rewrite length_be_bytes. Qed.

Lemma len_le_bytes n z : len (le_bytes n z) = Z.of_nat n.
Proof. unfold len. by rewrite length_le_bytes. Qed.

#[export] Hint Rewrite len_be_bytes len_le_bytes : len.

Lemma be_val_be_bytes n z : be_val (be_bytes n z) = z mod 256 ^ Z.of_nat n.
Proof. unfold be_val, be_bytes. rewrite rev_involutive. apply le_val_le_bytes. Qed.

Lemma be_bytes_be_val n l : length l = n -> be_bytes n (be_val l) = l.
Proof.
  intros H. unfold be_val, be_bytes. rewrite le_bytes_le_val by by rewrite length_rev.
  apply rev_involutive.
Qed.

Lemma be_val_range l : 0 <= be_val l < 256 ^ len l.
Proof. unfold be_val. rewrite <- len_rev. apply le_val_range. Qed.

Lemma be_val_u16 z : in_u16 z -> be_val (be_bytes 2 z) = z.
Proof. intros H. rewrite be_val_be_bytes. apply Z.mod_small, H. Qed.

Lemma be_val_u32 z : in_u32 z -> be_val (be_bytes 4 z) = z.
Proof. intros H. rewrite be_val_be_bytes. apply Z.mod_small, H. Qed.

Lemma be_val_u64 z : in_u64 z -> be_val (be_bytes 8 z) = z.
Proof. intros H. rewrite be_val_be_bytes. apply Z.mod_small, H. Qed.

Lemma le_val_u16 z : in_u16 z -> le_val (le_bytes 2 z) = z.
Proof. intros H. rewrite le_val_le_bytes. apply Z.mod_small, H. Qed.

Lemma le_val_u32 z : in_u32 z -> le_val (le_bytes 4 z) = z.
Proof. intros H. rewrite le_val_le_bytes. apply Z.mod_small, H. Qed.

Lemma le_val_u64 z : in_u64 z -> le_val (le_bytes 8 z) = z.
Proof. intros H. rewrite le_val_le_bytes. apply Z.mod_small, H. Qed.

#[export] Hint Resolve be_val_u16 be_val_u32 be_val_u64
  le_val_u16 le_val_u32 le_val_u64 : rust.

(** ** Reads at an offset *)

Section Reads.
Context {E : Type}.
Implicit Types (buf : bytes) (o n : Z).

Lemma get_be_ok n buf o :
  0 <= o -> 0 <= n -> o + n <= len buf ->
  get_be (E := E) n buf o = Ok (be_val (sub buf o n)).
Proof.
  intros. unfold get_be. rewrite slice_ok by lia. simpl. do 3 f_equal. lia.
Qed.

Lemma get_le_ok n buf o :
  0 <= o -> 0 <= n -> o + n <= len buf ->
  get_le (E := E) n buf o = Ok (le_val (sub buf o n)).
Proof.
  intros. unfold get_le. rewrite slice_ok by lia. simpl. do 3 f_equal. lia.
Qed.

Lemma get_u8_ok buf i b : get buf i = Some b -> get_u8 (E := E) buf i = Ok (b2z b).
Proof. intros H. unfold get_u8, index. by rewrite H. Qed.

Lemma get_u8_in_range buf i :
  0 <= i < len buf -> exists b, get buf i = Some b /\ get_u8 (E := E) buf i = Ok (b2z b).
Proof. intros [b Hb]%get_lt. eauto using get_u8_ok. Qed.

Lemma array16_ok buf lo hi :
  0 <= lo -> hi = lo + 16 -> hi <= len buf ->
  array16 (E := E) buf lo hi = Ok (sub buf lo 16).
Proof.
  intros ? -> ?. unfold array16. rewrite slice_ok by lia. simpl.
  replace (lo + 16 - lo) with 16 by lia.
  by rewrite sub_len by lia.
Qed.

Lemma get_be_no_panic n buf o :
  0 <= o -> 0 <= n -> o + n <= len buf -> get_be (E := E) n buf o <> Panic.
Proof. intros. by rewrite get_be_ok. Qed.

Lemma get_le_no_panic n buf o :
  0 <= o -> 0 <= n -> o + n <= len buf -> get_le (E := E) n buf o <> Panic.
Proof. intros. by rewrite get_le_ok. Qed.

Lemma get_u8_no_panic buf i : 0 <= i < len buf -> get_u8 (E := E) buf i <> Panic.
Proof. intros H. destruct (get_u8_in_range buf i H) as (b & _ & ->). done. Qed.

Lemma array16_no_panic buf lo hi :
  0 <= lo -> hi = lo + 16 -> hi <= len buf -> array16 (E := E) buf lo hi <> Panic.
Proof. intros. by rewrite array16_ok. Qed.

Lemma slice_no_panic {A} (l : list A) lo hi :
  0 <= lo <= hi -> hi <= len l -> slice (E := E) l lo hi <> Panic.
Proof. intros. by rewrite slice_ok. Qed.
End Reads.

#[export] Hint Resolve get_be_no_panic get_le_no_panic get_u8_no_panic
  array16_no_panic slice_no_panic : rust.

(** Prove that a chain of guarded reads does not panic. *)
Ltac no_panic :=
  repeat first
    [ progress bool_to_prop
    | discriminate
    | apply get_be_no_panic; lia
    | apply get_le_no_panic; lia
    | apply get_u8_no_panic; lia
    | apply array16_no_panic; lia
    | apply slice_no_panic; lia
    | apply index_ok; lia
    | apply bind_no_panic; [| intros ? ?]
    | case_test
    | apply ok_or_no_panic
    | match goal with
      | |- context [match ?x with _ => _ end] => destruct x
      end ].

(** ** Decoding a concatenation of fields

    Each read either skips the first field or takes it. *)

Section Fields.
Context {E : Type}.
Implicit Types (l k : bytes) (o n lo hi : Z).

Lemma slice_skip l k lo hi :
  len l <= lo -> slice (E := E) (l ++ k) lo hi = slice k (lo - len l) (hi - len l).
Proof.
  intros H. pose proof (len_nonneg l). unfold slice. rewrite len_app.
  destruct (Z.leb_spec lo hi), (Z.leb_spec hi (len l + len k));
    rewrite ?(proj2 (Z.leb_le _ _)) by lia; cbn [andb].
  - rewrite sub_app_ge by lia. do 2 f_equal. lia.
  - by rewrite (proj2 (Z.leb_gt (hi - len l) (len k))) by lia.
  - by rewrite (proj2 (Z.leb_gt (lo - len l) (hi - len l))) by lia.
  - by rewrite (proj2 (Z.leb_gt (lo - len l) (hi - len l))) by lia.
Qed.

Lemma slice_here l k lo hi : lo = 0 -> hi = len l -> slice (E := E) (l ++ k) lo hi = Ok l.
Proof.
  intros -> ->. pose proof (len_nonneg l). pose proof (len_nonneg k).
  rewrite slice_ok by (rewrite ?len_app; lia). rewrite sub_app_exact by lia. done.
Qed.

Lemma slice_last l lo hi : lo = 0 -> hi = len l -> slice (E := E) l lo hi = Ok l.
Proof. intros. rewrite <- (app_nil_r l) at 1. by apply slice_here. Qed.

Lemma get_be_skip n l k o :
  len l <= o -> get_be (E := E) n (l ++ k) o = get_be n k (o - len l).
Proof.
  intros. unfold get_be. rewrite slice_skip by lia.
  by replace (o + n - len l) with (o - len l + n) by lia.
Qed.

Lemma get_be_here n l k o :
  o = 0 -> n = len l -> get_be (E := E) n (l ++ k) o = Ok (be_val l).
Proof. intros -> ->. unfold get_be. by rewrite slice_here. Qed.

Lemma get_be_last n l o : o = 0 -> n = len l -> get_be (E := E) n l o = Ok (be_val l).
Proof. intros -> ->. unfold get_be. by rewrite slice_last. Qed.

Lemma get_le_skip n l k o :
  len l <= o -> get_le (E := E) n (l ++ k) o = get_le n k (o - len l).
Proof.
  intros. unfold get_le. rewrite slice_skip by lia.
  by replace (o + n - len l) with (o - len l + n) by lia.
Qed.

Lemma get_le_here n l k o :
  o = 0 -> n = len l -> get_le (E := E) n (l ++ k) o = Ok (le_val l).
Proof. intros -> ->. unfold get_le. by rewrite slice_here. Qed.

Lemma get_le_last n l o : o = 0 -> n = len l -> get_le (E := E) n l o = Ok (le_val l).
Proof. intros -> ->. unfold get_le. by rewrite slice_last. Qed.

Lemma array16_skip l k lo hi :
  len l <= lo -> array16 (E := E) (l ++ k) lo hi = array16 k (lo - len l) (hi - len l).
Proof. intros. unfold array16. by rewrite slice_skip. Qed.

Lemma array16_here l k lo hi :
  lo = 0 -> hi = 16 -> len l = 16 -> array16 (E := E) (l ++ k) lo hi = Ok l.
Proof. intros -> -> H. unfold array16. rewrite slice_here by done. cbn [bind]. by rewrite H. Qed.

Lemma get_u8_skip l k o :
  len l <= o -> get_u8 (E := E) (l ++ k) o = get_u8 k (o - len l).
Proof. intros. unfold get_u8, index. by rewrite get_app_r. Qed.

Lemma get_u8_here b k o : o = 0 -> get_u8 (E := E) (b :: k) o = Ok (b2z b).
Proof. by intros ->. Qed.
End Fields.

(** A leading byte is a field of its own. *)
Lemma cons_field (b : byte) k : b :: k = [b] ++ k.
Proof. done. Qed.

(** The length of a field: fixed by its encoder, or known in the context. *)
Ltac field_len l :=
  lazymatch l with
  | be_bytes ?n _ => eval vm_compute in (Z.of_nat n)
  | le_bytes ?n _ => eval vm_compute in (Z.of_nat n)
  | [_] => constr:(1)
  | _ => match goal with H : len l = ?m |- _ => m end
  end.

Ltac len_eq :=
  first [ eassumption | reflexivity | apply len_be_bytes | apply len_le_bytes ].

Ltac skip_with lem l o k :=
  let m := field_len l in
  let H := fresh "Hlen" in
  assert (H : len l = m) by len_eq;
  rewrite lem by (rewrite H; first [ apply Z.leb_le; reflexivity | lia ]);
  rewrite H; clear H;
  let o' := eval vm_compute in (o - m) in change (o - m) with o'.

(** Skip one field in the read at the head of the goal. *)
Ltac skip_field :=
  lazymatch goal with
  | |- bind (get_be ?n (?b :: ?k) ?o) _ = _ => rewrite (cons_field b k); skip_field
  | |- bind (get_le ?n (?b :: ?k) ?o) _ = _ => rewrite (cons_field b k); skip_field
  | |- bind (get_u8 (?b :: ?k) ?o) _ = _ => rewrite (cons_field b k); skip_field
  | |- bind (array16 (?b :: ?k) ?o _) _ = _ => rewrite (cons_field b k); skip_field
  | |- bind (slice (?b :: ?k) ?o _) _ = _ => rewrite (cons_field b k); skip_field
  | |- bind (@get_be ?E ?n (?l ++ ?k) ?o) _ = _ => skip_with (get_be_skip (E := E) n l k o) l o k
  | |- bind (@get_le ?E ?n (?l ++ ?k) ?o) _ = _ => skip_with (get_le_skip (E := E) n l k o) l o k
  | |- bind (@get_u8 ?E (?l ++ ?k) ?o) _ = _ => skip_with (get_u8_skip (E := E) l k o) l o k
  | |- bind (@array16 ?E (?l ++ ?k) ?o ?h) _ = _ => skip_with (array16_skip (E := E) l k o h) l o k
  | |- bind (@slice ?E _ (?l ++ ?k) ?o ?h) _ = _ => skip_with (slice_skip (E := E) l k o h) l o k
  end.

Ltac take_field :=
  let flen := first [ len_eq | symmetry; len_eq | autorewrite with len; lia ] in
  lazymatch goal with
  | |- bind (get_be _ (_ ++ _) _) _ = _ => rewrite get_be_here; [| reflexivity | flen ]
  | |- bind (get_be _ _ _) _ = _ => rewrite get_be_last; [| reflexivity | flen ]
  | |- bind (get_le _ (_ ++ _) _) _ = _ => rewrite get_le_here; [| reflexivity | flen ]
  | |- bind (get_le _ _ _) _ = _ => rewrite get_le_last; [| reflexivity | flen ]
  | |- bind (get_u8 ([?b] ++ ?k) _) _ = _ =>
      change ([b] ++ k) with (b :: k); rewrite get_u8_here; [| reflexivity ]
  | |- bind (get_u8 _ _) _ = _ => rewrite get_u8_here; [| reflexivity ]
  | |- bind (array16 _ _ _) _ = _ => rewrite array16_here; [| reflexivity | flen | flen ]
  | |- bind (slice (_ ++ _) _ _) _ = _ =>
      first [ rewrite slice_here; [| reflexivity | flen ]
            | rewrite slice_last; [| reflexivity | flen ] ]
  | |- bind (slice _ _ _) _ = _ => rewrite slice_last; [| reflexivity | flen ]
  end.

(** Evaluate the next read of a decoder on a concatenation of fields. *)
Ltac read_field :=
  rewrite ?bind_assoc;
  first [ take_field | skip_field; read_field ];
  rewrite ?be_val_u16, ?be_val_u32, ?be_val_u64, ?le_val_u16, ?le_val_u32, ?le_val_u64 by assumption;
  cbn [bind ok_or map_err].

(** Decide a guard that computes, or pass one that holds. *)
Ltac pass_guard :=
  match goal with
  | |- context [if ?b then _ else _] =>
      let H := fresh "Hguard" in
      assert (H : b = false) by reflexivity; rewrite H; clear H; cbn iota
  | |- context [if ?b then _ else _] =>
      let H := fresh "Hguard" in
      assert (H : b = true);
      [ first [ reflexivity
              | apply negb_true_iff, Z.ltb_ge; autorewrite with len; lia
              | apply Z.leb_le; autorewrite with len; lia
              | apply Z.eqb_eq; autorewrite with len; lia ]
      | rewrite H; clear H; cbn iota ]
  end.

(** A decoder on its encoder's output: reads and guards in order. *)
Ltac run_decoder := repeat first [ read_field | pass_guard ].

(** ** Decoding with a cursor

    [at_pos buf pos l]: what is left of [buf] at [pos] is [l]. *)

Definition at_pos (buf : bytes) (pos : Z) (l : bytes) : Prop :=
  0 <= pos /\ drop (Z.to_nat pos) buf = l /\ pos + len l = len buf.

Section Cursor.
Context {E : Type}.
Implicit Types (buf a l : bytes) (pos n : Z).

Lemma at_pos_start buf : at_pos buf 0 buf.
Proof. split; [lia |]. split; [by rewrite drop_0 | lia]. Qed.

Lemma at_pos_app buf pos a l n : at_pos buf pos (a ++ l) -> n = len a -> at_pos buf (pos + n) l.
Proof.
  intros (H0 & Hd & Hl) ->. rewrite len_app in Hl. pose proof (len_nonneg a).
  split; [lia |]. split; [| lia].
  replace (Z.to_nat (pos + len a)) with (Z.to_nat pos + length a)%nat by (unfold len; lia).
  rewrite <- drop_drop, Hd. apply drop_app_length.
Qed.

Lemma at_pos_cons buf pos b l : at_pos buf pos (b :: l) -> at_pos buf (pos + 1) l.
Proof. intros H. by apply (at_pos_app _ _ [b]). Qed.

Lemma at_pos_room buf pos a l : at_pos buf pos (a ++ l) -> pos + len a <= len buf.
Proof. intros (_ & _ & Hl). rewrite len_app in Hl. pose proof (len_nonneg l). lia. Qed.

Lemma at_pos_slice buf pos a l n :
  at_pos buf pos (a ++ l) -> n = len a -> slice (E := E) buf pos (pos + n) = Ok a.
Proof.
  intros Ha ->. pose proof (at_pos_room _ _ _ _ Ha). destruct Ha as (H0 & Hd & Hl).
  pose proof (len_nonneg a). rewrite slice_ok by lia. unfold sub. rewrite Hd.
  replace (Z.to_nat (pos + len a - pos)) with (length a) by (unfold len; lia).
  by rewrite take_app_length.
Qed.

Lemma at_pos_get_be buf pos a l n :
  at_pos buf pos (a ++ l) -> n = len a -> get_be (E := E) n buf pos = Ok (be_val a).
Proof. intros. unfold get_be. by erewrite at_pos_slice. Qed.

Lemma at_pos_get_le buf pos a l n :
  at_pos buf pos (a ++ l) -> n = len a -> get_le (E := E) n buf pos = Ok (le_val a).
Proof. intros. unfold get_le. by erewrite at_pos_slice. Qed.

Lemma at_pos_get buf pos b l : at_pos buf pos (b :: l) -> get buf pos = Some b.
Proof.
  intros (H0 & Hd & Hl). apply get_Some_iff. split; [done |].
  rewrite <- (Nat.add_0_r (Z.to_nat pos)), <- lookup_drop, Hd. done.
Qed.
End Cursor.

(** Normalise a constant cursor position. *)
Ltac cursor_norm Ha :=
  match type of Ha with
  | at_pos ?b ?p ?l => let p' := eval vm_compute in p in change (at_pos b p' l) in Ha
  end.

Ltac skip_bytes Ha k := apply (at_pos_app _ _ _ _ k) in Ha; [cursor_norm Ha | done].
