(* ===== verification/Text.v ===== *)
(** Rust strings, as the UTF-8 bytes they hold.

    [str_slice] is [&s[lo..hi]], which panics off a character boundary;
    [trim] and [split_whitespace] use Unicode white space; [from_str_radix] and
    [to_radix] are the standard library's integer parsing and formatting. *)

From S2P Require Import Prelude Bytes.

(** A string literal. *)
Definition text (s : string) : bytes := String.list_byte_of_string s.

Definition ch (b : byte) : Z := b2z b.

(** ** Characters *)

Definition is_continuation (b : byte) : bool := (128 <=? ch b) && (ch b <? 192).

(** [s.is_char_boundary(i)] *)
Definition is_char_boundary (s : bytes) (i : Z) : bool :=
  (i =? 0) || (i =? len s) ||
  match get s i with Some b => negb (is_continuation b) | None => false end.

(** [&s[lo..hi]] on a [&str] *)
Definition str_slice {E} (s : bytes) (lo hi : Z) : outcome E bytes :=
  if (0 <=? lo) && (lo <=? hi) && (hi <=? len s)
     && is_char_boundary s lo && is_char_boundary s hi
  then Ok (sub s lo (hi - lo)) else Panic.

(** One leading white-space character (Unicode [White_Space]), removed. *)
Definition ws_prefix (s : bytes) : option bytes :=
  match s with
  | [] => None
  | b :: s1 =>
      if ((9 <=? ch b) && (ch b <=? 13)) || (ch b =? 32) then Some s1
      else
        match s1 with
        | [] => None
        | b1 :: s2 =>
            if (ch b =? 194) && ((ch b1 =? 133) || (ch b1 =? 160)) then Some s2
            else
              match s2 with
              | [] => None
              | b2 :: s3 =>
                  if ((ch b =? 225) && (ch b1 =? 154) && (ch b2 =? 128))
                     || ((ch b =? 226) && (ch b1 =? 128)
                         && (((128 <=? ch b2) && (ch b2 <=? 138))
                             || (ch b2 =? 168) || (ch b2 =? 169) || (ch b2 =? 175)))
                     || ((ch b =? 226) && (ch b1 =? 129) && (ch b2 =? 159))
                     || ((ch b =? 227) && (ch b1 =? 128) && (ch b2 =? 128))
                  then Some s3 else None
              end
        end
  end.

(** The whole of [s] is one white-space character. *)
Definition is_ws_char (s : bytes) : bool :=
  match ws_prefix s with Some [] => true | _ => false end.

(** One trailing white-space character, removed from the reversed string. *)
Definition ws_suffix_rev (r : bytes) : option bytes :=
  match r with
  | b2 :: b1 :: b0 :: r3 =>
      if is_ws_char [b2] then Some (b1 :: b0 :: r3)
      else if is_ws_char [b1; b2] then Some (b0 :: r3)
      else if is_ws_char [b0; b1; b2] then Some r3 else None
  | [b2; b1] =>
      if is_ws_char [b2] then Some [b1]
      else if is_ws_char [b1; b2] then Some [] else None
  | [b2] => if is_ws_char [b2] then Some [] else None
  | [] => None
  end.

Fixpoint strip_while (fuel : nat) (step : bytes -> option bytes) (s : bytes) : bytes :=
  match fuel with
  | O => s
  | S n => match step s with Some s' => strip_while n step s' | None => s end
  end.

(** [s.trim()] *)
Definition trim (s : bytes) : bytes :=
  let s1 := strip_while (length s) ws_prefix s in
  rev (strip_while (length s1) ws_suffix_rev (rev s1)).

(** [s.split_whitespace()] *)
Fixpoint split_ws (fuel : nat) (word s : bytes) : list bytes :=
  let flush := match word with [] => [] | _ => [word] end in
  match fuel, s with
  | S n, b :: s' =>
      match ws_prefix s with
      | Some r => flush ++ split_ws n [] r
      | None => split_ws n (word ++ [b]) s'
      end
  | _, _ => flush
  end.

Definition split_whitespace (s : bytes) : list bytes := split_ws (length s) [] s.

Definition space : byte := z2b 32.

(** [l.join(" ")] *)
Fixpoint join_words (l : list bytes) : bytes :=
  match l with
  | [] => []
  | [w] => w
  | w :: l' => w ++ space :: join_words l'
  end.

(** [s.split_once(c)] for an ASCII character [c] *)
Fixpoint split_once (c : byte) (s : bytes) : option (bytes * bytes) :=
  match s with
  | [] => None
  | b :: s' =>
      if decide (b = c) then Some ([], s')
      else match split_once c s' with
           | Some (l, r) => Some (b :: l, r)
           | None => None
           end
  end.

(** ** Integers *)

(** [c.to_digit(radix)] *)
Definition digit_val (radix : Z) (b : byte) : option Z :=
  let z := ch b in
  let d := if (48 <=? z) && (z <=? 57) then Some (z - 48)
           else if (97 <=? z) && (z <=? 122) then Some (z - 87)
           else if (65 <=? z) && (z <=? 90) then Some (z - 55)
           else None in
  match d with
  | Some v => if v <? radix then Some v else None
  | None => None
  end.

Inductive int_error := Empty | InvalidDigit | PosOverflow.

Fixpoint parse_digits (radix max acc : Z) (s : bytes) : outcome int_error Z :=
  match s with
  | [] => Ok acc
  | b :: s' =>
      let? d := ok_or (digit_val radix b) InvalidDigit in
      ensure acc * radix <=? max else PosOverflow in
      ensure acc * radix + d <=? max else PosOverflow in
      parse_digits radix max (acc * radix + d) s'
  end.

(** [uN::from_str_radix(s, radix)], with [max] the largest value of the type;
    [s.parse::<uN>()] is the case [radix = 10]. *)
Definition from_str_radix (radix max : Z) (s : bytes) : outcome int_error Z :=
  match s with
  | [] => Err Empty
  | b :: ((_ :: _) as rest) =>
      if ch b =? 43 then parse_digits radix max 0 rest
      else parse_digits radix max 0 s
  | _ => parse_digits radix max 0 s
  end.

Definition parse_u64 (s : bytes) : option Z :=
  match from_str_radix 10 u64_max s with Ok z => Some z | _ => None end.

Definition digit_lower (d : Z) : byte := z2b (if d <? 10 then 48 + d else 87 + d).
Definition digit_upper (d : Z) : byte := z2b (if d <? 10 then 48 + d else 55 + d).

(** The digits of [z] without leading zeros, most significant first. *)
Fixpoint to_radix (digit : Z -> byte) (radix : Z) (fuel : nat) (z : Z) : bytes :=
  match fuel with
  | O => []
  | S n =>
      if z <? radix then [digit z]
      else to_radix digit radix n (z / radix) ++ [digit (z mod radix)]
  end.

(** [{:X}] of an unsigned 64-bit value *)
Definition fmt_upper_hex (z : Z) : bytes := to_radix digit_upper 16 16 z.

(** [{}] of an unsigned 64-bit value *)
Definition fmt_dec (z : Z) : bytes := to_radix digit_lower 10 20 z.

(** [{:02x}] of a byte *)
Definition fmt_02x (b : byte) : bytes :=
  [digit_lower (b2z b / 16); digit_lower (b2z b mod 16)].

(** [{:0<n>x}] of an unsigned value that fits [n] digits *)
Fixpoint fmt_hex_pad (n : nat) (z : Z) : bytes :=
  match n with
  | O => []
  | S n' => fmt_hex_pad n' (z / 16) ++ [digit_lower (z mod 16)]
  end.

(** ** UTF-8 *)

Definition in_byte_range (lo hi : Z) (b : byte) : bool := (lo <=? ch b) && (ch b <=? hi).

(** The bytes allowed after the lead byte [b0] of a three- or four-byte
    character (no overlong forms, no surrogates, at most U+10FFFF). *)
Definition second_ok3 (b0 b1 : byte) : bool :=
  if ch b0 =? 224 then in_byte_range 160 191 b1
  else if ch b0 =? 237 then in_byte_range 128 159 b1
  else in_byte_range 128 191 b1.

Definition second_ok4 (b0 b1 : byte) : bool :=
  if ch b0 =? 240 then in_byte_range 144 191 b1
  else if ch b0 =? 244 then in_byte_range 128 143 b1
  else in_byte_range 128 191 b1.

Definition test_next (f : byte -> bool) (s : bytes) : bool :=
  match s with b :: _ => f b | [] => false end.

(** Scan one character at the head of a non-empty [s]: whether it is valid and
    how many bytes it (or the maximal invalid prefix) takes. *)
Definition utf8_scan (s : bytes) : bool * nat :=
  match s with
  | [] => (false, 0%nat)
  | b0 :: s1 =>
      if ch b0 <? 128 then (true, 1%nat)
      else if in_byte_range 194 223 b0 then
        if test_next is_continuation s1 then (true, 2%nat) else (false, 1%nat)
      else if in_byte_range 224 239 b0 then
        if test_next (second_ok3 b0) s1 then
          if test_next is_continuation (drop 1 s1) then (true, 3%nat) else (false, 2%nat)
        else (false, 1%nat)
      else if in_byte_range 240 244 b0 then
        if test_next (second_ok4 b0) s1 then
          if test_next is_continuation (drop 1 s1) then
            if test_next is_continuation (drop 2 s1) then (true, 4%nat) else (false, 3%nat)
          else (false, 2%nat)
        else (false, 1%nat)
      else (false, 1%nat)
  end.

Definition REPLACEMENT_CHARACTER : bytes := [xef; xbf; xbd].

Fixpoint utf8_lossy (fuel : nat) (s : bytes) : bytes :=
  match fuel, s with
  | S f, _ :: _ =>
      let '(valid, n) := utf8_scan s in
      (if valid then take n s else REPLACEMENT_CHARACTER) ++ utf8_lossy f (drop n s)
  | _, _ => []
  end.

(** [String::from_utf8_lossy(s)] *)
Definition from_utf8_lossy (s : bytes) : bytes := utf8_lossy (length s) s.

Fixpoint utf8_all (fuel : nat) (s : bytes) : bool :=
  match fuel, s with
  | S f, _ :: _ => let '(valid, n) := utf8_scan s in valid && utf8_all f (drop n s)
  | _, _ => true
  end.

(** [s] is the bytes of a Rust [str]. *)
Definition utf8_valid (s : bytes) : bool := utf8_all (length s) s.

Lemma utf8_scan_pos b s : (1 <= (utf8_scan (b :: s)).2)%nat.
Proof. unfold utf8_scan. repeat case_test; simpl; lia. Qed.

Lemma utf8_lossy_all fuel s :
  (length s <= fuel)%nat -> utf8_all fuel s = true -> utf8_lossy fuel s = s.
Proof.
  revert s; induction fuel as [|f IH]; intros [|b s] Hl; try done.
  - cbn in Hl. lia.
  - cbn [utf8_all utf8_lossy]. pose proof (utf8_scan_pos b s) as Hp.
    destruct (utf8_scan (b :: s)) as [v n]. intros [-> Hr]%andb_true_iff.
    rewrite IH; [apply take_drop | | done].
    rewrite length_drop. cbn in *. lia.
Qed.

Lemma from_utf8_lossy_valid s : utf8_valid s = true -> from_utf8_lossy s = s.
Proof. by apply utf8_lossy_all. Qed.

(** ** Digits *)

Lemma forall_below (P : Z -> Prop) (n : nat) :
  (forall i : nat, (i < n)%nat -> P (Z.of_nat i)) -> forall d, 0 <= d < Z.of_nat n -> P d.
Proof. intros H d Hd. rewrite <- (Z2Nat.id d) by lia. apply H. lia. Qed.

(** Check a property of the sixteen digit values by evaluation. *)
Ltac by_digit :=
  apply (forall_below _ 16);
  let i := fresh "i" in let H := fresh "H" in
  intros i H; do 16 (destruct i as [|i]; [vm_compute; intuition discriminate |]);
  exfalso; lia.

Lemma digit_val_upper d : 0 <= d < 16 -> digit_val 16 (digit_upper d) = Some d.
Proof. revert d. by_digit. Qed.

Lemma digit_val_lower d : 0 <= d < 16 -> digit_val 16 (digit_lower d) = Some d.
Proof. revert d. by_digit. Qed.

Lemma digit_upper_plain d :
  0 <= d < 16 -> ch (digit_upper d) <> 43 /\ ch (digit_upper d) <> 47 /\ 33 <= ch (digit_upper d) < 128.
Proof. revert d. by_digit. Qed.

Lemma digit_lower_plain d :
  0 <= d < 16 -> ch (digit_lower d) <> 43 /\ ch (digit_lower d) <> 47 /\ 33 <= ch (digit_lower d) < 128.
Proof. revert d. by_digit. Qed.

Lemma digit_lower_inj a b :
  0 <= a < 16 -> 0 <= b < 16 -> digit_lower a = digit_lower b -> a = b.
Proof.
  intros Ha Hb H. apply (f_equal (digit_val 16)) in H.
  rewrite !digit_val_lower in H by lia. congruence.
Qed.

Lemma parse_digits_app radix max acc l k :
  parse_digits radix max acc (l ++ k) =
  bind (parse_digits radix max acc l) (fun a => parse_digits radix max a k).
Proof.
  revert acc; induction l as [|b l IH]; intros acc; [done |].
  cbn. destruct (digit_val radix b); cbn; [| done].
  do 2 (case_test; [| done]). apply IH.
Qed.

Section Radix.
Context (digit : Z -> byte) (radix : Z).
Hypothesis radix_ok : 2 <= radix.
Hypothesis digit_val_digit : forall d, 0 <= d < radix -> digit_val radix (digit d) = Some d.

Lemma parse_to_radix max fuel z :
  0 <= z < radix ^ Z.of_nat fuel -> z <= max -> fuel <> O ->
  parse_digits radix max 0 (to_radix digit radix fuel z) = Ok z.
Proof.
  revert z; induction fuel as [|n IH]; intros z Hz Hm Hf; [done |].
  cbn [to_radix]. destruct (Z.ltb_spec z radix).
  - cbn. rewrite digit_val_digit by lia. cbn.
    by rewrite !(proj2 (Z.leb_le _ _)) by lia.
  - rewrite parse_digits_app.
    rewrite Nat2Z.inj_succ, Z.pow_succ_r in Hz by lia.
    pose proof (Z.div_mod z radix ltac:(lia)) as Hdm.
    pose proof (Z.mod_pos_bound z radix ltac:(lia)) as Hmb.
    rewrite IH; cycle 1.
    + split; [apply Z.div_pos; lia | apply Z.div_lt_upper_bound; lia].
    + nia.
    + destruct n; [rewrite Z.pow_0_r in Hz; lia | done].
    + cbn. rewrite digit_val_digit by lia. cbn.
      rewrite !(proj2 (Z.leb_le _ _)) by lia. f_equal. lia.
Qed.

Lemma to_radix_digits fuel z :
  0 <= z -> Forall (fun b => exists d, 0 <= d < radix /\ b = digit d) (to_radix digit radix fuel z).
Proof.
  revert z; induction fuel as [|n IH]; intros z Hz; [constructor |].
  cbn [to_radix]. destruct (Z.ltb_spec z radix).
  - constructor; [| constructor]. exists z. by split; [lia |].
  - apply Forall_app. split; [apply IH, Z.div_pos; lia |].
    constructor; [| constructor]. exists (z mod radix). split; [| done].
    apply Z.mod_pos_bound; lia.
Qed.
End Radix.

Lemma to_radix_nonempty digit radix fuel z : fuel <> O -> to_radix digit radix fuel z <> [].
Proof.
  destruct fuel; [done |]. intros _. cbn. case_test; [done |].
  intros [_ H]%app_eq_nil. discriminate.
Qed.

(** Parsing a string that starts with a digit skips the sign test. *)
Lemma from_str_radix_digits radix max b s :
  ch b <> 43 -> from_str_radix radix max (b :: s) = parse_digits radix max 0 (b :: s).
Proof.
  intros H. unfold from_str_radix. destruct s; [done |].
  apply Z.eqb_neq in H. by rewrite H.
Qed.

Lemma len_to_radix digit radix fuel z : len (to_radix digit radix fuel z) <= Z.of_nat fuel.
Proof.
  revert z; induction fuel as [| n IH]; intros z; [done |]. cbn [to_radix]. case_test; [unfold len; cbn; lia |].
  rewrite len_app. specialize (IH (z / radix)). unfold len at 2. cbn [length]. lia.
Qed.

Lemma digit_val_decimal d : 0 <= d < 10 -> digit_val 10 (digit_lower d) = Some d.
Proof.
  intros Hd. pose proof (digit_val_lower d ltac:(lia)) as Hv. unfold digit_val in *. cbv zeta in *.
  match goal with |- match ?o with _ => _ end = _ => destruct o as [v|]; [| done] end.
  destruct (v <? 16); [injection Hv as -> | done]. by rewrite (proj2 (Z.ltb_lt _ _)) by lia.
Qed.

Lemma fmt_dec_digits z : 0 <= z -> Forall (fun b => exists d, 0 <= d < 10 /\ b = digit_lower d) (fmt_dec z).
Proof. apply to_radix_digits. lia. Qed.

(** [parse::<u64>] reads back what [{}] wrote. *)
Lemma parse_fmt_dec z : in_u64 z -> parse_u64 (fmt_dec z) = Some z.
Proof.
  intros Hz. unfold in_u64 in Hz. unfold parse_u64. pose proof (fmt_dec_digits z ltac:(lia)) as Hd.
  assert (Hp : parse_digits 10 u64_max 0 (fmt_dec z) = Ok z).
  { apply parse_to_radix; [lia | apply digit_val_decimal | | unfold u64_max; lia | done].
    split; [lia |]. eapply Z.lt_trans; [apply Hz | done]. }
  assert (Hne : fmt_dec z <> []) by by apply to_radix_nonempty.
  destruct Hd as [| b s (d & Hr & ->) _]; [done |].
  rewrite from_str_radix_digits; [by rewrite Hp |]. by destruct (digit_lower_plain d ltac:(lia)).
Qed.

(** ** Strings without white space *)

Definition printable (b : byte) : Prop := 33 <= ch b < 128.

Lemma ws_prefix_printable b s : printable b -> ws_prefix (b :: s) = None.
Proof.
  unfold printable. intros Hb. cbn -[Z.leb Z.eqb].
  assert (forall k, 128 <= k -> (ch b =? k) = false) as Hk.
  { intros k ?. apply Z.eqb_neq. lia. }
  rewrite (Hk 194), (Hk 225), (Hk 226), (Hk 227) by lia. cbn [andb orb].
  replace ((9 <=? ch b) && (ch b <=? 13) || (ch b =? 32)) with false; cycle 1.
  { symmetry. apply orb_false_iff. split; [apply andb_false_iff; right | apply Z.eqb_neq; lia].
    apply Z.leb_gt. lia. }
  destruct s as [|? [|]]; done.
Qed.

(** Refute a multi-byte white-space test on a printable last byte. *)
Ltac by_ws :=
  unfold printable in *;
  repeat match goal with
  | H : (_ || _) = true |- _ => apply orb_true_iff in H; destruct H as [H|H]
  | H : (_ && _) = true |- _ => apply andb_true_iff in H; destruct H
  end; bool_to_prop; lia.

Lemma ws_suffix_printable b r : printable b -> ws_suffix_rev (b :: r) = None.
Proof.
  intros Hb. unfold ws_suffix_rev, is_ws_char.
  assert (H1 : ws_prefix [b] = None) by by apply ws_prefix_printable.
  assert (H2 : forall b1, match ws_prefix [b1; b] with Some [] => true | _ => false end = false).
  { intros b1. unfold ws_prefix. repeat case_test; try done. exfalso. by_ws. }
  assert (H3 : forall b0 b1,
    match ws_prefix [b0; b1; b] with Some [] => true | _ => false end = false).
  { intros b0 b1. unfold ws_prefix. repeat case_test; try done. exfalso. by_ws. }
  destruct r as [|b1 [|b0 r]]; rewrite ?H1, ?H2, ?H3; done.
Qed.

Lemma strip_while_None fuel step s : step s = None -> strip_while fuel step s = s.
Proof. destruct fuel; cbn; [done |]. by intros ->. Qed.

Lemma trim_printable s : Forall printable s -> trim s = s.
Proof.
  intros H. unfold trim. rewrite (strip_while_None _ ws_prefix); cycle 1.
  { destruct H; [done |]. by apply ws_prefix_printable. }
  rewrite strip_while_None; [apply rev_involutive |].
  apply Forall_rev in H. destruct H; [done |]. by apply ws_suffix_printable.
Qed.

(** Words joined by spaces are split back. *)
Definition word (w : bytes) : Prop := w <> [] /\ Forall printable w.

Lemma split_ws_word w : forall n acc s,
  Forall printable w -> (length w <= n)%nat -> split_ws n acc (w ++ s) = split_ws (n - length w) (acc ++ w) s.
Proof.
  induction w as [| b w IH]; intros n acc s Hw Hn; [by rewrite app_nil_r, Nat.sub_0_r |].
  apply Forall_cons in Hw as [Hb Hw]. destruct n as [| n]; [cbn in Hn; lia |]. cbn [app split_ws].
  rewrite ws_prefix_printable by done. cbn in Hn. rewrite IH by (done || lia). cbn. by rewrite <- app_assoc.
Qed.

Lemma split_ws_join ws : forall n, Forall word ws -> (length (join_words ws) <= n)%nat -> split_ws n [] (join_words ws) = ws.
Proof.
  induction ws as [| w ws IH]; intros n Hws Hn; [by destruct n |]. apply Forall_cons in Hws as [[Hne Hw] Hws].
  destruct ws as [| w' ws].
  - cbn [join_words] in *. rewrite <- (app_nil_r w) at 1. rewrite split_ws_word by done. cbn [app].
    destruct (n - length w)%nat; by destruct w.
  - cbn [join_words] in Hn |- *. rewrite length_app in Hn. cbn [length] in Hn.
    rewrite split_ws_word by (done || lia). cbn [app].
    destruct (n - length w)%nat as [| m] eqn:Em; [lia |]. cbn [split_ws].
    change (ws_prefix (space :: ?s)) with (Some s). cbn iota.
    destruct w as [| b w]; [done |]. cbn [app]. f_equal. apply IH; [done |]. cbn [join_words]. lia.
Qed.

Lemma split_whitespace_join ws : Forall word ws -> split_whitespace (join_words ws) = ws.
Proof. intros H. by apply split_ws_join. Qed.

Lemma fmt_dec_word z : 0 <= z -> word (fmt_dec z).
Proof.
  intros Hz. split; [by apply to_radix_nonempty |]. eapply Forall_impl; [by apply fmt_dec_digits |].
  intros b (d & Hd & ->). destruct (digit_lower_plain d ltac:(lia)) as (_ & _ & ?). unfold printable. lia.
Qed.

Lemma split_once_app c l r :
  Forall (fun b => b <> c) l -> split_once c (l ++ c :: r) = Some (l, r).
Proof.
  induction 1 as [|b l Hb _ IH]; cbn.
  - by rewrite decide_True.
  - by rewrite decide_False, IH.
Qed.
