(* ===== verification/Metrics.v ===== *)
(** The services' metrics (src/{proxy,safekeeper,pageserver}/src/metrics.rs) and the
    registry they live in.

    A static is registered with the process's registry when it is first used, and a
    registration that fails panics.  The registry is the [prometheus] crate: a
    parameter with its documented laws.  An operation of a service makes calls on
    the statics; the calls a process has made are kept as a log, newest first, and
    [replay] is what they do to the registry. *)

From S2P Require Import Prelude Bytes Text.

(** ** Statics *)

Inductive metric_kind :=
| IntCounter
| IntCounterVec (labels : list bytes)
| IntGauge
| IntGaugeVec (labels : list bytes).

Record metric := mkMetric { m_name : bytes; m_help : bytes; m_kind : metric_kind }.

#[export] Instance metric_kind_eq_dec : EqDecision metric_kind.
Proof. solve_decision. Defined.
#[export] Instance metric_eq_dec : EqDecision metric.
Proof. solve_decision. Defined.

(** [register_int_counter!] and its siblings. *)
Definition int_counter (name help : string) : metric := mkMetric (text name) (text help) IntCounter.
Definition int_gauge (name help : string) : metric := mkMetric (text name) (text help) IntGauge.
Definition int_counter_vec (name help : string) (labels : list string) : metric :=
  mkMetric (text name) (text help) (IntCounterVec (text <$> labels)).
Definition int_gauge_vec (name help : string) (labels : list string) : metric :=
  mkMetric (text name) (text help) (IntGaugeVec (text <$> labels)).

(** *** The proxy *)

Definition DB_CONNECTIONS : metric :=
  int_counter_vec "aethel_proxy_database_connections_total" "Client connections spliced, per database" ["database"].
Definition DB_ACTIVE : metric :=
  int_gauge_vec "aethel_proxy_database_active_connections" "Connections currently splicing, per database" ["database"].
Definition DB_WAKES : metric :=
  int_counter_vec "aethel_proxy_database_wakes_total" "Compute cold starts triggered, per database" ["database"].
Definition DB_COMPUTE_UP : metric :=
  int_gauge_vec "aethel_proxy_database_compute_up" "1 when a database's compute is running, else 0" ["database"].
Definition CONNECTIONS : metric := int_counter "aethel_proxy_connections_total" "Client connections accepted".
Definition WAKES : metric := int_counter "aethel_proxy_wakes_total" "Compute cold starts triggered".
Definition AUTH_FAILURES : metric := int_counter "aethel_proxy_auth_failures_total" "SCRAM authentication failures".
Definition IDLE_REAPS : metric := int_counter "aethel_proxy_idle_reaps_total" "Idle compute nodes scaled to zero".
Definition ACTIVE_CONNECTIONS : metric := int_gauge "aethel_proxy_active_connections" "Connections currently splicing".
Definition CANCELS_ROUTED : metric := int_counter "aethel_proxy_cancels_routed_total" "CancelRequests routed to a backend".
Definition CANCELS_UNKNOWN : metric :=
  int_counter "aethel_proxy_cancels_unknown_total" "CancelRequests for an unknown session key".

Definition proxy_statics : list metric :=
  [DB_CONNECTIONS; DB_ACTIVE; DB_WAKES; DB_COMPUTE_UP; CONNECTIONS; WAKES; AUTH_FAILURES; IDLE_REAPS;
   ACTIVE_CONNECTIONS; CANCELS_ROUTED; CANCELS_UNKNOWN].

(** *** The safekeeper *)

Definition APPENDS : metric := int_counter "aethel_safekeeper_appends_total" "WAL append requests received".
Definition WAL_BYTES : metric := int_counter "aethel_safekeeper_wal_bytes_total" "WAL bytes durably appended".
Definition REPLICATED : metric :=
  int_counter "aethel_safekeeper_replicated_total" "Replication appends received from a leader".
Definition VOTES_GRANTED : metric := int_counter "aethel_safekeeper_votes_granted_total" "Leadership votes granted".
Definition COMMIT_LSN : metric := int_gauge "aethel_safekeeper_commit_lsn" "Current quorum-committed LSN".

Definition safekeeper_statics : list metric := [APPENDS; WAL_BYTES; REPLICATED; VOTES_GRANTED; COMMIT_LSN].

(** *** The page server *)

Definition GET_PAGE : metric := int_counter "aethel_pageserver_get_page_total" "GetPage requests served".
Definition WAL_RECORDS : metric := int_counter "aethel_pageserver_wal_records_total" "WAL records ingested".
Definition LAYERS_OFFLOADED : metric :=
  int_counter "aethel_pageserver_layers_offloaded_total" "Layers uploaded to object storage".
Definition GC_VERSIONS_REMOVED : metric :=
  int_counter "aethel_pageserver_gc_versions_removed_total" "Page versions removed by compaction/GC".
Definition CONTROL_AUTH_FAILURES : metric :=
  int_counter "aethel_pageserver_control_auth_failures_total" "Control-plane requests rejected for a missing or invalid token".
Definition TIMELINES : metric := int_gauge "aethel_pageserver_timelines" "Timelines (branches) currently known".

Definition pageserver_statics : list metric :=
  [GET_PAGE; WAL_RECORDS; LAYERS_OFFLOADED; GC_VERSIONS_REMOVED; CONTROL_AUTH_FAILURES; TIMELINES].

(** ** Calls *)

Inductive metric_call :=
| Inc (m : metric) (labels : list bytes)
| IncBy (m : metric) (labels : list bytes) (n : Z)
| Dec (m : metric) (labels : list bytes)
| SetTo (m : metric) (labels : list bytes) (v : Z).

Definition target (c : metric_call) : metric * list bytes :=
  match c with Inc m l | IncBy m l _ | Dec m l | SetTo m l _ => (m, l) end.

Definition effect (c : metric_call) (v : Z) : Z :=
  match c with Inc _ _ => v + 1 | IncBy _ _ n => v + n | Dec _ _ => v - 1 | SetTo _ _ n => n end.

(** [v as i64] *)
Definition as_signed64 (v : Z) : Z := (v + 2 ^ 63) mod 2 ^ 64 - 2 ^ 63.

(** [metrics::set_compute_up] of the proxy. *)
Definition compute_up_call (database : bytes) (up : bool) : metric_call := SetTo DB_COMPUTE_UP [database] (if up then 1 else 0).

Definition label_names (m : metric) : list bytes :=
  match m_kind m with IntCounter | IntGauge => [] | IntCounterVec l | IntGaugeVec l => l end.

Definition is_gauge (m : metric) : bool :=
  match m_kind m with IntGauge | IntGaugeVec _ => true | _ => false end.

(** A value for every label, and an operation the type has. *)
Definition fits (c : metric_call) : bool :=
  bool_decide (length (target c).2 = length (label_names (target c).1)) &&
  match c with
  | Inc _ _ => true
  | IncBy m _ n => negb (is_gauge m) && (0 <=? n)
  | Dec m _ | SetTo m _ _ => is_gauge m
  end.

(** Counters are unsigned, gauges signed. *)
Definition in_width (m : metric) (v : Z) : Prop :=
  if is_gauge m then - 2 ^ 63 <= v < 2 ^ 63 else 0 <= v < 2 ^ 64.

(** What a log says a metric is at. *)
Fixpoint tally (m : metric) (l : list bytes) (log : list metric_call) : Z :=
  match log with
  | [] => 0
  | c :: log' => if decide (target c = (m, l)) then effect c (tally m l log') else tally m l log'
  end.

(** ** The registry *)

(** [[a-zA-Z_:][a-zA-Z0-9_:]*]; a label has no colon. *)
Definition name_char (colon first : bool) (b : byte) : bool :=
  let c := b2z b in
  ((65 <=? c) && (c <=? 90)) || ((97 <=? c) && (c <=? 122)) || (c =? 95) || (colon && (c =? 58)) ||
  (negb first && (48 <=? c) && (c <=? 57)).

Definition valid_name (colon : bool) (s : bytes) : bool :=
  match s with [] => false | b :: s' => name_char colon true b && forallb (name_char colon false) s' end.

Definition described (m : metric) : bool :=
  valid_name true (m_name m) && forallb (valid_name false) (label_names m) && bool_decide (m_help m <> []).

(** [prometheus]: a registration may fail, and so may a look-up of label values. *)
Class Prometheus (R : Type) := {
  prom_empty : R;
  prom_register : metric -> R -> option R;
  prom_call : metric_call -> R -> option R;
  prom_encode : R -> bytes;
  prom_names : R -> gset bytes;
  prom_value : R -> bytes -> list bytes -> Z
}.

(** A described metric under a new name can be registered, at zero; a call that
    fits a registered metric moves the one value it names, while it does not
    overflow. *)
Class PrometheusLaws (R : Type) `{Prometheus R} := {
  prom_start : prom_names prom_empty = ∅ /\ forall n l, prom_value prom_empty n l = 0;
  prom_registers m r : described m = true -> m_name m ∉ prom_names r ->
    exists r', prom_register m r = Some r' /\ prom_names r' = {[m_name m]} ∪ prom_names r /\
      forall n l, prom_value r' n l = prom_value r n l;
  prom_calls c r : fits c = true -> m_name (target c).1 ∈ prom_names r ->
    in_width (target c).1 (effect c (prom_value r (m_name (target c).1) (target c).2)) ->
    exists r', prom_call c r = Some r' /\ prom_names r' = prom_names r /\
      prom_value r' (m_name (target c).1) (target c).2 = effect c (prom_value r (m_name (target c).1) (target c).2) /\
      forall n l, (n, l) <> (m_name (target c).1, (target c).2) -> prom_value r' n l = prom_value r n l
}.

Section Process.
Context {R : Type} `{PrometheusLaws R}.

(** The statics that have been used, and the registry. *)
Record process := mkProcess { forced : list metric; registry : R }.

Definition process_start : process := mkProcess [] prom_empty.

(** [Lazy::new(|| register_..!(..).unwrap())] *)
Definition force (m : metric) (p : process) : outcome False process :=
  if decide (m ∈ forced p) then Ok p
  else match prom_register m (registry p) with
       | Some r => Ok (mkProcess (m :: forced p) r)
       | None => Panic
       end.

Definition perform (c : metric_call) (p : process) : outcome False process :=
  let? p := force (target c).1 p in
  match prom_call c (registry p) with
  | Some r => Ok (mkProcess (forced p) r)
  | None => Panic
  end.

Fixpoint replay (log : list metric_call) : outcome False process :=
  match log with
  | [] => Ok process_start
  | c :: log' => let? p := replay log' in perform c p
  end.

(** The values stay within their types. *)
Fixpoint bounded (log : list metric_call) : Prop :=
  match log with
  | [] => True
  | c :: log' => in_width (target c).1 (tally (target c).1 (target c).2 log) /\ bounded log'
  end.

Section Service.
Context (statics : list metric).
Hypothesis statics_described : forallb described statics = true.
Hypothesis statics_distinct : NoDup (m_name <$> statics).

Lemma statics_by_name m m' : m ∈ statics -> m' ∈ statics -> m_name m = m_name m' -> m = m'.
Proof using statics_distinct.
  intros [i Hi]%list_elem_of_lookup [j Hj]%list_elem_of_lookup E.
  assert (i = j) as ->; [| congruence].
  eapply (NoDup_lookup _ _ _ _ statics_distinct); rewrite list_lookup_fmap, ?Hi, ?Hj; cbn; by rewrite ?E.
Qed.

Definition in_step (log : list metric_call) (p : process) : Prop :=
  (forall m, m ∈ forced p -> m ∈ statics) /\
  (forall n, n ∈ prom_names (registry p) <-> exists m, m ∈ forced p /\ m_name m = n) /\
  (forall m l, m ∈ statics -> prom_value (registry p) (m_name m) l = tally m l log).

Lemma force_ok m log p :
  m ∈ statics -> in_step log p -> exists p', force m p = Ok p' /\ m ∈ forced p' /\ in_step log p'.
Proof using All.
  intros Hm (Hf & Hn & Hv). unfold force. case_decide as Hin; [by exists p |].
  destruct (prom_registers m (registry p)) as (r & -> & En & Ev).
  - rewrite forallb_forall in statics_described. by apply statics_described, list_elem_of_In.
  - rewrite Hn. intros (m' & Hm' & E). apply statics_by_name in E; [by subst | by apply Hf | done].
  - exists (mkProcess (m :: forced p) r). cbn [forced]. split; [done |]. split; [by left |]. split; [| split]; cbn [forced registry].
    + intros m' [-> | Hm']%elem_of_cons; [done | by apply Hf].
    + intros n. rewrite En, elem_of_union, elem_of_singleton, Hn. split.
      * intros [-> | (m' & Hm' & E)]; [by exists m; split; [left |] | by exists m'; split; [right |]].
      * intros (m' & [-> | Hm']%elem_of_cons & E); [by left | by right; exists m'].
    + intros m' l Hm'. rewrite Ev. by apply Hv.
Qed.

Lemma perform_ok c log p :
  (target c).1 ∈ statics -> fits c = true -> in_width (target c).1 (tally (target c).1 (target c).2 (c :: log)) ->
  in_step log p -> exists p', perform c p = Ok p' /\ in_step (c :: log) p'.
Proof using All.
  intros Hm Hc Hw Hp. unfold perform. destruct (force_ok _ _ _ Hm Hp) as (q & -> & Hin & Hf & Hn & Hv). cbn [bind].
  cbn [tally] in Hw. rewrite decide_True in Hw by (by destruct (target c)). rewrite <- (Hv _ _ Hm) in Hw.
  destruct (prom_calls c (registry q)) as (r & -> & En & Ev & Eo); [done | by apply Hn; eexists | done |].
  exists (mkProcess (forced q) r). split; [done |]. split; [done |]. cbn [forced registry]. split; [intros n; by rewrite En |].
  intros m l Hml. cbn [tally]. case_decide as E.
  - rewrite E in *. cbn [fst snd] in *. by rewrite Ev, Hv.
  - rewrite Eo; [by apply Hv |]. intros [= En' El]. apply E. rewrite (surjective_pairing (target c)), El. f_equal.
    symmetry. by apply statics_by_name.
Qed.

(** No call panics, and every value is the log's. *)
Lemma replay_ok log :
  Forall (fun c => (target c).1 ∈ statics /\ fits c = true) log -> bounded log ->
  exists p, replay log = Ok p /\ forall m l, m ∈ statics -> prom_value (registry p) (m_name m) l = tally m l log.
Proof using All.
  intros Hlog Hb. enough (exists p, replay log = Ok p /\ in_step log p) as (p & E & _ & _ & Hv) by (by exists p).
  induction Hlog as [| c log [Hm Hc] Hlog IH]; cbn [replay bounded] in *.
  - exists process_start. split; [done |]. destruct prom_start as [En Ev]. split; [| split]; cbn [forced registry process_start].
    + by intros m Hm%elem_of_nil.
    + intros n. rewrite En. split; [by intros ?%elem_of_empty | by intros (m & Hm%elem_of_nil & _)].
    + intros m l _. by rewrite Ev.
  - destruct Hb as [Hw Hb]. destruct (IH Hb) as (p & -> & Hp). cbn [bind]. by apply perform_ok.
Qed.
End Service.
End Process.
Arguments process R : clear implicits.

(** The statics of each service can all be registered. *)
Lemma proxy_statics_ok : forallb described proxy_statics = true /\ NoDup (m_name <$> proxy_statics).
Proof. split; [| apply (bool_decide_eq_true_1 _)]; by_compute. Qed.

Lemma safekeeper_statics_ok : forallb described safekeeper_statics = true /\ NoDup (m_name <$> safekeeper_statics).
Proof. split; [| apply (bool_decide_eq_true_1 _)]; by_compute. Qed.

Lemma pageserver_statics_ok : forallb described pageserver_statics = true /\ NoDup (m_name <$> pageserver_statics).
Proof. split; [| apply (bool_decide_eq_true_1 _)]; by_compute. Qed.

(** A registry of the metrics' values. *)
Record small_registry := mkSmall { sr_names : gset bytes; sr_values : gmap (bytes * list bytes) Z }.

#[export] Instance small_prometheus : Prometheus small_registry := {|
  prom_empty := mkSmall ∅ ∅;
  prom_register m r :=
    if described m && bool_decide (m_name m ∉ sr_names r) then Some (mkSmall ({[m_name m]} ∪ sr_names r) (sr_values r)) else None;
  prom_call c r :=
    let key := (m_name (target c).1, (target c).2) in
    if fits c && bool_decide (m_name (target c).1 ∈ sr_names r)
    then Some (mkSmall (sr_names r) (<[key := effect c (default 0 (sr_values r !! key))]> (sr_values r))) else None;
  prom_encode r := flat_map (fun e => e.1.1 ++ [space] ++ fmt_dec e.2 ++ [z2b 10]) (map_to_list (sr_values r));
  prom_names := sr_names;
  prom_value r n l := default 0 (sr_values r !! (n, l))
|}.

#[export] Instance small_laws : PrometheusLaws small_registry.
Proof.
  split; cbn [prom_empty prom_register prom_call prom_names prom_value small_prometheus].
  - split; [done |]. intros n l. cbn [sr_values]. by rewrite lookup_empty.
  - intros m r -> Hm. rewrite bool_decide_true by done. cbn. by eexists.
  - intros c r -> Hc _. rewrite bool_decide_true by done. cbn. eexists. split; [done |]. split; [done |]. cbn [sr_values].
    split; [by rewrite lookup_insert_eq |]. intros n l Hne. by rewrite lookup_insert_ne by congruence.
Qed.
