(* ===== verification/BTree.v ===== *)
(** Ordered maps: Rust's [BTreeMap], as an association list in key order.

    [kcmp] is [Ord::cmp]; derived orders of structs and tuples are
    lexicographic ([pair_order], [inj_order]).  Iteration ([for .. in &map],
    [iter], [range]) is in key order, which the code relies on in several
    places, so the map is the sorted list itself and [bt_sorted] is its
    invariant. *)

From S2P Require Import Prelude.

Class TotalOrder (K : Type) := {
  kcmp : K -> K -> comparison;
  kcmp_eq : forall a b, kcmp a b = Eq <-> a = b;
  kcmp_opp : forall a b, kcmp b a = CompOpp (kcmp a b);
  kcmp_trans : forall a b c, kcmp a b = Lt -> kcmp b c = Lt -> kcmp a c = Lt
}.

Definition klt {K} `{TotalOrder K} (a b : K) : Prop := kcmp a b = Lt.
Definition kleb {K} `{TotalOrder K} (a b : K) : bool :=
  match kcmp a b with Gt => false | _ => true end.

#[export] Program Instance Z_order : TotalOrder Z := {| kcmp := Z.compare |}.
Next Obligation. apply Z.compare_eq_iff. Qed.
Next Obligation. intros. apply Z.compare_antisym. Qed.
Next Obligation. intros a b c. rewrite !Z.compare_lt_iff. lia. Qed.

Definition lex (c d : comparison) : comparison :=
  match c with Eq => d | _ => c end.

#[export] Program Instance pair_order {A B} `{TotalOrder A, TotalOrder B} :
  TotalOrder (A * B) := {| kcmp p q := lex (kcmp p.1 q.1) (kcmp p.2 q.2) |}.
Next Obligation.
  intros A B OA OB [a b] [a' b']; simpl. unfold lex. split.
  - destruct (kcmp a a') eqn:E; try done. apply kcmp_eq in E as ->.
    intros E%kcmp_eq. congruence.
  - intros [= -> ->]. rewrite (proj2 (kcmp_eq a' a') eq_refl). by apply kcmp_eq.
Qed.
Next Obligation.
  intros A B OA OB [a b] [a' b']; simpl. unfold lex.
  rewrite (kcmp_opp a a'), (kcmp_opp b b'). by destruct (kcmp a a').
Qed.
Next Obligation.
  intros A B OA OB [a b] [a' b'] [a'' b'']; simpl. unfold lex.
  destruct (kcmp a a') eqn:E1; try done; destruct (kcmp a' a'') eqn:E2; try done.
  - apply kcmp_eq in E1 as ->. rewrite E2. apply kcmp_trans.
  - apply kcmp_eq in E1 as ->. by rewrite E2.
  - apply kcmp_eq in E2 as ->. by rewrite E1.
  - by rewrite (kcmp_trans _ _ _ E1 E2).
Qed.

(** The order a key type inherits along an injection into an ordered type. *)
Definition inj_order {A B} `{TotalOrder B} (f : A -> B)
  (f_inj : forall x y, f x = f y -> x = y) : TotalOrder A.
Proof.
  refine {| kcmp x y := kcmp (f x) (f y) |}.
  - intros a b. rewrite kcmp_eq. split; [apply f_inj | by intros ->].
  - intros a b. apply kcmp_opp.
  - intros a b c. apply kcmp_trans.
Defined.

(** ** Operations *)

Section Ops.
Context {K V : Type} `{TotalOrder K}.
Implicit Types (m : list (K * V)) (k : K).

Fixpoint bt_get k m : option V :=
  match m with
  | [] => None
  | (k', v) :: m' => match kcmp k k' with
                     | Eq => Some v
                     | _ => bt_get k m'
                     end
  end.

Fixpoint bt_insert k (v : V) m : list (K * V) :=
  match m with
  | [] => [(k, v)]
  | (k', v') :: m' => match kcmp k k' with
                      | Lt => (k, v) :: m
                      | Eq => (k, v) :: m'
                      | Gt => (k', v') :: bt_insert k v m'
                      end
  end.

Fixpoint bt_remove k m : list (K * V) :=
  match m with
  | [] => []
  | (k', v') :: m' => match kcmp k k' with
                      | Eq => m'
                      | _ => (k', v') :: bt_remove k m'
                      end
  end.

(** [m.range(lo..=hi)] *)
Definition bt_range (lo hi : K) m : list (K * V) :=
  List.filter (fun e => kleb lo e.1 && kleb e.1 hi) m.

Fixpoint bt_sorted m : Prop :=
  match m with
  | [] => True
  | (k, _) :: m' => (forall e, In e m' -> klt k e.1) /\ bt_sorted m'
  end.

(** ** Order facts *)

Lemma kcmp_refl k : kcmp k k = Eq.
Proof. by apply kcmp_eq. Qed.

Lemma klt_irrefl k : ~ klt k k.
Proof. unfold klt. by rewrite kcmp_refl. Qed.

Lemma klt_trans k1 k2 k3 : klt k1 k2 -> klt k2 k3 -> klt k1 k3.
Proof. apply kcmp_trans. Qed.

Lemma kcmp_Gt k1 k2 : kcmp k1 k2 = Gt <-> klt k2 k1.
Proof. unfold klt. rewrite (kcmp_opp k1 k2). destruct (kcmp k1 k2); simpl; split; congruence. Qed.

Lemma klt_ne k1 k2 : klt k1 k2 -> k1 <> k2.
Proof. intros Hlt ->. by apply klt_irrefl in Hlt. Qed.

Lemma kleb_le k1 k2 : kleb k1 k2 = true <-> klt k1 k2 \/ k1 = k2.
Proof.
  unfold kleb, klt. destruct (kcmp k1 k2) eqn:E.
  - apply kcmp_eq in E. split; auto.
  - split; auto.
  - split; [done |]. intros [? | ->]; [done |]. by rewrite kcmp_refl in E.
Qed.

Lemma kleb_lt_trans k1 k2 k3 : kleb k1 k2 = true -> klt k2 k3 -> klt k1 k3.
Proof. rewrite kleb_le. intros [? | ->]; [by eapply klt_trans | done]. Qed.

Lemma kleb_refl k : kleb k k = true.
Proof. unfold kleb. by rewrite kcmp_refl. Qed.

#[export] Instance total_order_eq_dec : EqDecision K.
Proof.
  intros a b. destruct (kcmp a b) eqn:E.
  - left. by apply kcmp_eq.
  - right. intros ->. by rewrite kcmp_refl in E.
  - right. intros ->. by rewrite kcmp_refl in E.
Defined.

(** ** Lookups in a sorted map *)

Lemma bt_get_In m k v : bt_sorted m -> bt_get k m = Some v <-> In (k, v) m.
Proof.
  induction m as [|[k' v'] m IH]; simpl; [done |]. intros [Hlt Hs].
  destruct (kcmp k k') eqn:E.
  - apply kcmp_eq in E as <-. split; [intros [= <-]; by left |].
    intros [[= <-] | Hin]; [done |]. apply Hlt in Hin. by apply klt_irrefl in Hin.
  - rewrite IH by done. split; [by right |]. intros [[= <- <-] | Hin]; [| done].
    by rewrite kcmp_refl in E.
  - rewrite IH by done. split; [by right |]. intros [[= <- <-] | Hin]; [| done].
    by rewrite kcmp_refl in E.
Qed.

Lemma bt_get_In_1 m k v : bt_get k m = Some v -> In (k, v) m.
Proof.
  induction m as [|[k' v'] m IH]; simpl; [done |].
  destruct (kcmp k k') eqn:E; [| auto ..].
  apply kcmp_eq in E as <-. intros [= <-]; by left.
Qed.

Lemma bt_insert_In m k v e :
  In e (bt_insert k v m) -> e = (k, v) \/ In e m.
Proof.
  induction m as [|[k' v'] m IH]; simpl; [intros [<- | []]; auto |].
  destruct (kcmp k k'); simpl; intros Hin; intuition auto.
Qed.

Lemma bt_insert_sorted m k v : bt_sorted m -> bt_sorted (bt_insert k v m).
Proof.
  induction m as [|[k' v'] m IH]; simpl; [done |]. intros [Hlt Hs].
  destruct (kcmp k k') eqn:E; simpl.
  - apply kcmp_eq in E as <-. done.
  - split; [| done]. intros e [<- | Hin]; [done |].
    eapply klt_trans; [exact E | by apply Hlt].
  - split; [| by apply IH]. intros e [-> | Hin]%bt_insert_In; [by apply kcmp_Gt | by apply Hlt].
Qed.

Lemma bt_get_insert_eq m k v : bt_get k (bt_insert k v m) = Some v.
Proof.
  induction m as [|[k' v'] m IH]; simpl; [by rewrite kcmp_refl |].
  destruct (kcmp k k') eqn:E; simpl; rewrite ?kcmp_refl, ?E; done.
Qed.

Lemma bt_get_insert_ne m k v k' : k <> k' -> bt_get k' (bt_insert k v m) = bt_get k' m.
Proof.
  intros Hne. assert (Hk : kcmp k' k <> Eq) by (by intros ->%kcmp_eq).
  induction m as [|[k1 v1] m IH]; simpl.
  - by destruct (kcmp k' k).
  - destruct (kcmp k k1) eqn:E; simpl.
    + apply kcmp_eq in E as <-. by destruct (kcmp k' k).
    + by destruct (kcmp k' k).
    + by destruct (kcmp k' k1).
Qed.

Lemma bt_get_insert m k v k' :
  bt_get k' (bt_insert k v m) = if decide (k = k') then Some v else bt_get k' m.
Proof. case_decide as E; [subst; apply bt_get_insert_eq | by apply bt_get_insert_ne]. Qed.

Lemma bt_remove_In m k e : In e (bt_remove k m) -> In e m.
Proof.
  induction m as [|[k' v'] m IH]; simpl; [done |].
  destruct (kcmp k k'); simpl; intuition auto.
Qed.

Lemma bt_remove_sorted m k : bt_sorted m -> bt_sorted (bt_remove k m).
Proof.
  induction m as [|[k' v'] m IH]; simpl; [done |]. intros [Hlt Hs].
  destruct (kcmp k k'); simpl; [done | |];
    (split; [| by apply IH]; intros e He; by apply Hlt, (bt_remove_In _ k)).
Qed.

Lemma bt_get_remove m k k' :
  bt_sorted m -> bt_get k' (bt_remove k m) = if decide (k = k') then None else bt_get k' m.
Proof.
  induction m as [|[k1 v1] m IH]; simpl; [by case_decide |]. intros [Hlt Hs].
  destruct (kcmp k k1) eqn:E; simpl.
  - apply kcmp_eq in E as <-. case_decide as D.
    + subst k'. destruct (bt_get k m) eqn:G; [| done].
      apply bt_get_In_1, Hlt in G. by apply klt_irrefl in G.
    + destruct (kcmp k' k) eqn:E'; [| done ..]. by apply kcmp_eq in E' as ->.
  - rewrite IH by done. case_decide as D; [| done]. subst k'. by rewrite E.
  - rewrite IH by done. case_decide as D; [| done]. subst k'. by rewrite E.
Qed.

(** Sorted maps are determined by their lookups. *)
Lemma bt_ext m1 m2 :
  bt_sorted m1 -> bt_sorted m2 -> (forall k, bt_get k m1 = bt_get k m2) -> m1 = m2.
Proof.
  revert m2; induction m1 as [|[k1 v1] m1 IH]; intros [|[k2 v2] m2] S1 S2 Hext.
  - done.
  - specialize (Hext k2). simpl in Hext. by rewrite kcmp_refl in Hext.
  - specialize (Hext k1). simpl in Hext. by rewrite kcmp_refl in Hext.
  - destruct S1 as [L1 S1], S2 as [L2 S2].
    assert (k1 = k2) as <-.
    { pose proof (Hext k1) as H1. pose proof (Hext k2) as H2. simpl in H1, H2.
      rewrite kcmp_refl in H1, H2.
      destruct (kcmp k1 k2) eqn:E; [by apply kcmp_eq | |].
      - symmetry in H1. apply bt_get_In_1, L2 in H1. simpl in H1.
        exfalso. apply (klt_irrefl k1). by eapply klt_trans.
      - rewrite (kcmp_opp k1 k2), E in H2. simpl in H2.
        apply bt_get_In_1, L1 in H2. simpl in H2. apply kcmp_Gt in E.
        exfalso. apply (klt_irrefl k1). by eapply klt_trans. }
    assert (v1 = v2) as <-.
    { specialize (Hext k1). simpl in Hext. rewrite kcmp_refl in Hext. congruence. }
    f_equal. apply IH; [done .. |]. intros k. specialize (Hext k). simpl in Hext.
    destruct (kcmp k k1) eqn:E; [| done ..]. apply kcmp_eq in E as ->.
    destruct (bt_get k1 m1) eqn:G1.
    { apply bt_get_In_1, L1 in G1. by apply klt_irrefl in G1. }
    destruct (bt_get k1 m2) eqn:G2; [| done].
    apply bt_get_In_1, L2 in G2. by apply klt_irrefl in G2.
Qed.

(** Filtering keeps a map sorted and answers lookups accordingly. *)
Lemma bt_filter_sorted (f : K * V -> bool) m : bt_sorted m -> bt_sorted (List.filter f m).
Proof.
  induction m as [|[k v] m IH]; simpl; [done |]. intros [Hlt Hs].
  case_test; simpl; [| by apply IH]. split; [| by apply IH].
  intros e [? _]%filter_In. by apply Hlt.
Qed.

Lemma bt_get_filter (f : K * V -> bool) m k :
  bt_sorted m ->
  bt_get k (List.filter f m) =
  match bt_get k m with Some v => if f (k, v) then Some v else None | None => None end.
Proof.
  intros Hs. destruct (bt_get k (List.filter f m)) eqn:G.
  - apply bt_get_In_1, filter_In in G as [Hin Hf].
    apply bt_get_In in Hin; [| done]. by rewrite Hin, Hf.
  - destruct (bt_get k m) eqn:G'; [| done]. case_test; [| done]. exfalso.
    apply bt_get_In_1 in G'. assert (In (k, v) (List.filter f m)) as Hin by by apply filter_In.
    apply bt_get_In in Hin; [congruence | by apply bt_filter_sorted].
Qed.
End Ops.

(** Insert every entry of [es], later entries overwriting earlier ones. *)
Definition bt_extend {K V} `{TotalOrder K} (es m : list (K * V)) : list (K * V) :=
  fold_left (fun acc e => bt_insert e.1 e.2 acc) es m.

Section Extend.
Context {K V : Type} `{TotalOrder K}.
Implicit Types (m es : list (K * V)).

Lemma bt_extend_sorted es m : bt_sorted m -> bt_sorted (bt_extend es m).
Proof.
  revert m; induction es as [|e es IH]; intros m Hs; [done |].
  by apply IH, bt_insert_sorted.
Qed.

(** Extending with a sorted map whose keys are fresh: lookups are the union. *)
Lemma bt_get_extend es m k :
  bt_sorted es ->
  bt_get k (bt_extend es m) =
  match bt_get k es with Some v => Some v | None => bt_get k m end.
Proof.
  revert m; induction es as [|[k1 v1] es IH]; intros m Hs; [done |].
  destruct Hs as [Hlt Hs]. change (bt_extend ((k1, v1) :: es) m) with (bt_extend es (bt_insert k1 v1 m)).
  rewrite IH by done. cbn [bt_get].
  destruct (kcmp k k1) eqn:E.
  - apply kcmp_eq in E as ->. rewrite bt_get_insert_eq.
    destruct (bt_get k1 es) eqn:G; [| done].
    apply bt_get_In_1, Hlt in G. by apply klt_irrefl in G.
  - destruct (bt_get k es); [done |]. rewrite bt_get_insert_ne; [done |].
    intros ->. by rewrite kcmp_refl in E.
  - destruct (bt_get k es); [done |]. rewrite bt_get_insert_ne; [done |].
    intros ->. by rewrite kcmp_refl in E.
Qed.
End Extend.

(** Within one first component, a range of a map keyed by pairs is the part
    with that component and second component in the interval. *)
Lemma bt_range_pair {A V} `{TotalOrder A} (a : A) (lo hi : Z) (m : list (A * Z * V)) :
  bt_range (a, lo) (a, hi) m =
  List.filter (fun e => bool_decide (e.1.1 = a) && ((lo <=? e.1.2) && (e.1.2 <=? hi))) m.
Proof.
  unfold bt_range. apply filter_ext. intros [[a' l] v]. simpl.
  unfold kleb. simpl. unfold lex.
  rewrite (kcmp_opp a a').
  destruct (kcmp a a') eqn:E; simpl.
  - apply kcmp_eq in E as ->. rewrite bool_decide_true by done. simpl.
    reflexivity.
  - rewrite bool_decide_false; [done |]. intros ->. by rewrite kcmp_refl in E.
  - rewrite bool_decide_false; [done |]. intros ->. by rewrite kcmp_refl in E.
Qed.

Lemma klt_pair_same {A} `{TotalOrder A} (a : A) (l l' : Z) : klt (a, l) (a, l') <-> l < l'.
Proof.
  unfold klt. change (kcmp (a, l) (a, l')) with (lex (kcmp a a) (kcmp l l')).
  rewrite kcmp_refl. apply Z.compare_lt_iff.
Qed.

Lemma klt_Z (a b : Z) : klt a b <-> a < b.
Proof. apply Z.compare_lt_iff. Qed.

Lemma bt_sorted_eq {K V} `{TotalOrder K} (m1 m2 : list (K * V)) :
  bt_sorted m1 -> bt_sorted m2 -> (forall e, In e m1 <-> In e m2) -> m1 = m2.
Proof.
  intros H1 H2 Hin. apply bt_ext; [done .. |]. intros k. apply option_eq. intros v.
  rewrite !bt_get_In by done. apply Hin.
Qed.

(** ** Sorting by a key: [sort_by(|a, b| a.key.cmp(&b.key))], a stable sort *)

Fixpoint list_cmp {A} `{TotalOrder A} (l k : list A) : comparison :=
  match l, k with
  | [], [] => Eq
  | [], _ :: _ => Lt
  | _ :: _, [] => Gt
  | x :: l', y :: k' => lex (kcmp x y) (list_cmp l' k')
  end.

#[export] Program Instance list_order {A} `{TotalOrder A} : TotalOrder (list A) := {| kcmp := list_cmp |}.
Next Obligation.
  intros A OA l; induction l as [|x l IH]; intros [|y k]; [done .. |]. cbn [list_cmp]. unfold lex. split.
  - destruct (kcmp x y) eqn:E; [| done | done]. apply kcmp_eq in E as ->. intros E%IH. congruence.
  - intros [= -> ->]. rewrite (proj2 (kcmp_eq y y) eq_refl). by apply IH.
Qed.
Next Obligation.
  intros A OA l; induction l as [|x l IH]; intros [|y k]; [done .. |]. cbn [list_cmp]. unfold lex.
  rewrite (kcmp_opp x y), IH. by destruct (kcmp x y).
Qed.
Next Obligation.
  intros A OA l; induction l as [|x l IH]; intros [|y k] [|z j]; try done. cbn [list_cmp]. unfold lex.
  destruct (kcmp x y) eqn:E1; [| | done]; (destruct (kcmp y z) eqn:E2; [| | done]).
  - apply kcmp_eq in E1 as ->. rewrite E2. apply IH.
  - apply kcmp_eq in E1 as ->. by rewrite E2.
  - apply kcmp_eq in E2 as ->. by rewrite E1.
  - by rewrite (kcmp_trans _ _ _ E1 E2).
Qed.

Section Sort.
Context {A K : Type} `{TotalOrder K} (key : A -> K).

Fixpoint insert_key (x : A) (l : list A) : list A :=
  match l with
  | [] => [x]
  | y :: l' => if kleb (key x) (key y) then x :: l else y :: insert_key x l'
  end.

Definition sort_key (l : list A) : list A := foldr insert_key [] l.

Lemma insert_key_perm x l : insert_key x l ≡ₚ x :: l.
Proof. induction l as [|y l IH]; [done |]. cbn. case_test; [done |]. rewrite IH. apply Permutation_swap. Qed.

Lemma sort_key_perm l : sort_key l ≡ₚ l.
Proof. induction l as [|x l IH]; [done |]. cbn. by rewrite insert_key_perm, IH. Qed.

Definition keyed (x : A) : K * A := (key x, x).

Lemma insert_key_sorted x l :
  key x ∉ key <$> l -> bt_sorted (keyed <$> l) -> bt_sorted (keyed <$> insert_key x l).
Proof.
  induction l as [|y l IH]; intros Hx Hs; [done |]. cbn [insert_key].
  cbn [fmap list_fmap] in Hx. apply not_elem_of_cons in Hx as [Hne Hx]. destruct Hs as [Hlt Hs].
  destruct (kleb (key x) (key y)) eqn:E.
  - apply kleb_le in E as [E | E]; [| done]. split; [| by split]. intros e [<- | He]; [done |].
    eapply klt_trans; [exact E | by apply Hlt].
  - split; [| by apply IH]. intros e He. apply list_elem_of_In, list_elem_of_fmap in He as (z & -> & Hz).
    rewrite insert_key_perm in Hz. apply elem_of_cons in Hz as [-> | Hz].
    + cbn. unfold kleb in E. apply kcmp_Gt. by destruct (kcmp (key x) (key y)).
    + apply Hlt. apply list_elem_of_In. by apply list_elem_of_fmap_2.
Qed.

Lemma sort_key_sorted l : NoDup (key <$> l) -> bt_sorted (keyed <$> sort_key l).
Proof.
  induction l as [|x l IH]; [done |]. cbn. rewrite NoDup_cons. intros [Hx Hl].
  apply insert_key_sorted; [| by apply IH]. by rewrite (sort_key_perm l).
Qed.

(** With distinct keys the result does not depend on the order of the input. *)
Lemma sort_key_unique l k : l ≡ₚ k -> NoDup (key <$> l) -> sort_key l = sort_key k.
Proof.
  intros Hp Hl. assert (Hk : NoDup (key <$> k)) by (by rewrite <- Hp).
  assert (E : keyed <$> sort_key l = keyed <$> sort_key k).
  { apply bt_sorted_eq; [by apply sort_key_sorted .. |]. intros e. rewrite <- !list_elem_of_In.
    by rewrite !sort_key_perm, Hp. }
  apply (f_equal (fmap snd)) in E. rewrite <- !list_fmap_compose in E.
  by rewrite !list_fmap_id in E.
Qed.
End Sort.
