(* ===== verification/Common.v ===== *)
(** The shared vocabulary (src/common/src/{error,lsn,ids,page}.rs): log
    positions with their [HIGH/LOW] text form, 16-byte identifiers with their
    hexadecimal text form, and the relation and page keys with the derived
    lexicographic order.  A newtype over an integer or a byte array is that
    integer or byte list; error messages carry their static text only. *)

From S2P Require Import Prelude Bytes Text BTree.

(** [u8] and [str] comparison. *)
#[export] Instance byte_order : TotalOrder byte := inj_order b2z b2z_inj.

(** ** error.rs *)

Inductive Error := Parse (msg : string).

Definition parse_error {A} (msg : string) : outcome Error A := Err (Parse msg).

(** ** lsn.rs *)

Abbreviation Lsn := Z.

Definition INVALID : Lsn := 0.

Definition Lsn_is_valid (l : Lsn) : bool := negb (l =? 0).

(** [%] panics on a zero block size. *)
Definition Lsn_align_down {E} (l : Lsn) (block_size : Z) : outcome E Lsn :=
  if block_size =? 0 then Panic else Ok (l - l mod block_size).

Definition Lsn_checked_add (l : Lsn) (bytes : Z) : option Lsn :=
  if l + bytes <=? u64_max then Some (l + bytes) else None.

Definition Lsn_display (l : Lsn) : bytes :=
  fmt_upper_hex (Z.shiftr l 32) ++ z2b 47 :: fmt_upper_hex (Z.land l (2 ^ 32 - 1)).

Definition Lsn_from_str (s : bytes) : outcome Error Lsn :=
  let? (hi, lo) := ok_or (split_once (z2b 47) s) (Parse "LSN is missing the '/' separator") in
  let? hi := map_err (fun _ => Parse "invalid LSN high half") (from_str_radix 16 u32_max (trim hi)) in
  let? lo := map_err (fun _ => Parse "invalid LSN low half") (from_str_radix 16 u32_max (trim lo)) in
  Ok (Z.lor (Z.shiftl hi 32) lo).

(** ** ids.rs *)

Abbreviation Id := (list byte).
Abbreviation TenantId := Id.
Abbreviation TimelineId := Id.

Definition Id_ZERO : Id := replicate 16 x00.

(** The type's invariant: the array has sixteen bytes. *)
Definition Id_wf (i : Id) : Prop := len i = 16.

Definition Id_display (i : Id) : bytes := flat_map fmt_02x i.

(** The loop of [from_str]: [n] bytes left to fill, the next at index [i]. *)
Fixpoint Id_from_str_loop (s : bytes) (n : nat) (i : Z) : outcome Error bytes :=
  match n with
  | O => Ok []
  | S n' =>
      let? hi := str_slice s (i * 2) (i * 2 + 2) in
      let? b := map_err (fun _ => Parse "invalid hex in id") (from_str_radix 16 u8_max hi) in
      let? rest := Id_from_str_loop s n' (i + 1) in
      Ok (z2b b :: rest)
  end.

Definition Id_from_str (s : bytes) : outcome Error Id :=
  ensure len s =? 32 else Parse "id must be 32 hex chars" in
  Id_from_str_loop s 16 0.

(** ** page.rs *)

Definition PAGE_SIZE : Z := 8192.

Inductive ForkNumber := Main | Fsm | VisibilityMap | Init.

(** [fork as u8] *)
Definition ForkNumber_as_u8 (f : ForkNumber) : Z :=
  match f with Main => 0 | Fsm => 1 | VisibilityMap => 2 | Init => 3 end.

Definition ForkNumber_from_raw (raw : Z) : option ForkNumber :=
  if raw =? 0 then Some Main
  else if raw =? 1 then Some Fsm
  else if raw =? 2 then Some VisibilityMap
  else if raw =? 3 then Some Init
  else None.

Record RelTag := mkRelTag {
  spc_node : Z;
  db_node : Z;
  rel_node : Z;
  fork : ForkNumber
}.

Record PageKey := mkPageKey {
  rel : RelTag;
  block : Z
}.

(** Every field is a [u32]. *)
Definition RelTag_wf (r : RelTag) : Prop :=
  in_u32 (spc_node r) /\ in_u32 (db_node r) /\ in_u32 (rel_node r).

Definition PageKey_wf (k : PageKey) : Prop := RelTag_wf (rel k) /\ in_u32 (block k).

#[export] Instance ForkNumber_eq_dec : EqDecision ForkNumber.
Proof. solve_decision. Defined.
#[export] Instance RelTag_eq_dec : EqDecision RelTag.
Proof. solve_decision. Defined.
#[export] Instance PageKey_eq_dec : EqDecision PageKey.
Proof. solve_decision. Defined.

(** [derive(PartialOrd, Ord)]: fields in declaration order. *)
Definition RelTag_fields (r : RelTag) : Z * (Z * (Z * Z)) :=
  (spc_node r, (db_node r, (rel_node r, ForkNumber_as_u8 (fork r)))).

Definition PageKey_fields (k : PageKey) : (Z * (Z * (Z * Z))) * Z :=
  (RelTag_fields (rel k), block k).

Lemma ForkNumber_as_u8_inj f g : ForkNumber_as_u8 f = ForkNumber_as_u8 g -> f = g.
Proof. by destruct f, g. Qed.

Lemma RelTag_fields_inj r s : RelTag_fields r = RelTag_fields s -> r = s.
Proof. destruct r, s. intros [= -> -> -> ->%ForkNumber_as_u8_inj]. done. Qed.

Lemma PageKey_fields_inj j k : PageKey_fields j = PageKey_fields k -> j = k.
Proof.
  destruct j as [r b], k as [s c]. unfold PageKey_fields; cbn [rel block].
  intros [Hr Hb]%pair_equal_spec. apply RelTag_fields_inj in Hr. congruence.
Qed.

#[export] Instance RelTag_order : TotalOrder RelTag := inj_order _ RelTag_fields_inj.
#[export] Instance PageKey_order : TotalOrder PageKey := inj_order _ PageKey_fields_inj.

Lemma ForkNumber_from_raw_as_u8 f : ForkNumber_from_raw (ForkNumber_as_u8 f) = Some f.
Proof. by destruct f. Qed.

Lemma ForkNumber_from_raw_inv z f : ForkNumber_from_raw z = Some f -> ForkNumber_as_u8 f = z.
Proof. unfold ForkNumber_from_raw. repeat case_test; intros [= <-]; bool_to_prop; done. Qed.

#[export] Program Instance RelTag_countable : Countable RelTag :=
  inj_countable RelTag_fields
    (fun '(a, (b, (c, d))) => f ← ForkNumber_from_raw d; Some (mkRelTag a b c f)) _.
Next Obligation. intros [a b c f]. cbn. by rewrite ForkNumber_from_raw_as_u8. Qed.

#[export] Program Instance PageKey_countable : Countable PageKey :=
  inj_countable' (fun k => (rel k, block k)) (fun '(r, b) => mkPageKey r b) _.
Next Obligation. by intros []. Qed.

(** ** Text forms *)

Lemma digit_ne_slash d : 0 <= d < 16 -> digit_upper d <> z2b 47.
Proof.
  intros Hd E. apply digit_upper_plain in Hd as (_ & Hs & _). apply Hs. by rewrite E.
Qed.

Lemma upper_hex_digits z :
  0 <= z -> Forall (fun b => exists d, 0 <= d < 16 /\ b = digit_upper d) (fmt_upper_hex z).
Proof. apply to_radix_digits. lia. Qed.

Lemma upper_hex_printable z : 0 <= z -> Forall printable (fmt_upper_hex z).
Proof.
  intros Hz. eapply Forall_impl; [by apply upper_hex_digits |].
  intros b (d & Hd & ->). apply digit_upper_plain in Hd. unfold printable. lia.
Qed.

(** [u32::from_str_radix] reads back what [{:X}] wrote. *)
Lemma parse_upper_hex z :
  in_u32 z -> from_str_radix 16 u32_max (trim (fmt_upper_hex z)) = Ok z.
Proof.
  intros Hz. unfold in_u32 in Hz. rewrite trim_printable by (apply upper_hex_printable; lia).
  pose proof (upper_hex_digits z ltac:(lia)) as Hd.
  assert (Hp : parse_digits 16 u32_max 0 (fmt_upper_hex z) = Ok z).
  { apply parse_to_radix; [lia | apply digit_val_upper | | unfold u32_max; lia | done].
    split; [lia |]. eapply Z.lt_trans; [apply Hz | done]. }
  assert (Hne : fmt_upper_hex z <> []) by by apply to_radix_nonempty.
  destruct Hd as [|b s (d & Hr & ->) _]; [done |].
  rewrite from_str_radix_digits; [done |]. by destruct (digit_upper_plain d Hr).
Qed.

Lemma shiftr_land_recompose l :
  in_u64 l -> Z.lor (Z.shiftl (Z.shiftr l 32) 32) (Z.land l (2 ^ 32 - 1)) = l.
Proof.
  intros Hl. change (2 ^ 32 - 1) with (Z.ones 32).
  rewrite <- Z.ldiff_ones_r by lia. rewrite Z.lor_comm. apply Z.bits_inj'. intros n Hn.
  rewrite Z.lor_spec, Z.land_spec, Z.ldiff_spec.
  by destruct (Z.testbit l n), (Z.testbit (Z.ones 32) n).
Qed.

Lemma shiftr_in_u32 l : in_u64 l -> in_u32 (Z.shiftr l 32).
Proof.
  unfold in_u64, in_u32. intros Hl. rewrite Z.shiftr_div_pow2 by lia.
  split; [apply Z.div_pos; lia | apply Z.div_lt_upper_bound; lia].
Qed.

Lemma land_in_u32 l : in_u32 (Z.land l (2 ^ 32 - 1)).
Proof.
  unfold in_u32. change (2 ^ 32 - 1) with (Z.ones 32). rewrite Z.land_ones by lia.
  apply Z.mod_pos_bound. lia.
Qed.

Lemma Lsn_parse_print l : in_u64 l -> Lsn_from_str (Lsn_display l) = Ok l.
Proof.
  intros Hl. pose proof (shiftr_in_u32 l Hl) as H1. pose proof (land_in_u32 l) as H2.
  unfold Lsn_from_str, Lsn_display. rewrite split_once_app; cycle 1.
  { eapply Forall_impl; [apply upper_hex_digits; unfold in_u32 in H1; lia |].
    intros b (d & Hd & ->). by apply digit_ne_slash. }
  cbn [ok_or bind]. rewrite !parse_upper_hex by done. cbn [map_err bind].
  by rewrite shiftr_land_recompose.
Qed.

Lemma parse_digits_no_panic r m a s : parse_digits r m a s <> Panic.
Proof.
  revert a; induction s as [|b s IH]; intros a; [done |]. cbn.
  destruct (digit_val r b); [| done]. cbn. repeat case_test; done.
Qed.

Lemma from_str_radix_no_panic r m s : from_str_radix r m s <> Panic.
Proof.
  unfold from_str_radix. destruct s as [|b [|]]; [done | |];
    try case_test; apply parse_digits_no_panic.
Qed.

Lemma Lsn_from_str_total s : Lsn_from_str s <> Panic.
Proof.
  unfold Lsn_from_str. destruct (split_once _ s) as [[hi lo]|]; [| done]. cbn [ok_or bind].
  apply bind_no_panic; [apply map_err_no_panic, from_str_radix_no_panic |]. intros a _.
  apply bind_no_panic; [apply map_err_no_panic, from_str_radix_no_panic |]. done.
Qed.

(** ** Identifiers *)

Lemma fmt_02x_digits b :
  0 <= b2z b / 16 < 16 /\ 0 <= b2z b mod 16 < 16.
Proof.
  pose proof (b2z_range b). split; [| apply Z.mod_pos_bound; lia].
  split; [apply Z.div_pos; lia | apply Z.div_lt_upper_bound; lia].
Qed.

Lemma parse_02x b : from_str_radix 16 u8_max (fmt_02x b) = Ok (b2z b).
Proof.
  destruct (fmt_02x_digits b) as [Hh Hl]. pose proof (b2z_range b) as Hb.
  unfold fmt_02x. rewrite from_str_radix_digits by (by destruct (digit_lower_plain _ Hh)).
  cbn [parse_digits]. rewrite !digit_val_lower by done. cbn [ok_or bind].
  unfold u8_max. pose proof (Z.div_mod (b2z b) 16 ltac:(lia)).
  rewrite !(proj2 (Z.leb_le _ _)) by lia. f_equal. lia.
Qed.

Lemma Id_display_len i : len (Id_display i) = 2 * len i.
Proof.
  induction i as [|b i IH]; [done |]. cbn [Id_display flat_map]. rewrite len_app, len_cons.
  change (flat_map fmt_02x i) with (Id_display i). change (len (fmt_02x b)) with 2. lia.
Qed.

Lemma Id_display_ascii i : Forall printable (Id_display i).
Proof.
  induction i as [|b i IH]; [constructor |]. cbn [Id_display flat_map].
  apply Forall_app. split; [| done]. destruct (fmt_02x_digits b) as [Hh Hl].
  apply digit_lower_plain in Hh, Hl. unfold printable.
  constructor; [lia | constructor; [lia | constructor]].
Qed.

Lemma ascii_char_boundary s i :
  Forall printable s -> 0 <= i <= len s -> is_char_boundary s i = true.
Proof.
  intros Hs Hi. unfold is_char_boundary.
  destruct (Z.eqb_spec i (len s)); [by rewrite orb_true_r |].
  destruct (get_lt s i) as [x Hx]; [lia |]. rewrite Hx.
  apply get_Some_iff in Hx as [_ Hx].
  eapply Forall_lookup_1 in Hx; [| exact Hs]. unfold printable in Hx.
  unfold is_continuation. rewrite (proj2 (Z.leb_gt _ _)) by lia. apply orb_true_r.
Qed.

Lemma str_slice_ascii {E} s lo hi :
  Forall printable s -> 0 <= lo <= hi -> hi <= len s ->
  str_slice (E := E) s lo hi = Ok (sub s lo (hi - lo)).
Proof.
  intros Hs Hlo Hhi. unfold str_slice. rewrite !ascii_char_boundary by (done || lia).
  by rewrite !(proj2 (Z.leb_le _ _)) by lia.
Qed.

Lemma Id_from_str_loop_display pre i :
  Id_from_str_loop (Id_display (pre ++ i)) (length i) (len pre) = Ok i.
Proof.
  revert pre; induction i as [|b i IH]; intros pre; [done |]. cbn [length Id_from_str_loop].
  rewrite str_slice_ascii; cycle 1.
  { apply Id_display_ascii. }
  { pose proof (len_nonneg pre). lia. }
  { rewrite Id_display_len, len_app, len_cons. pose proof (len_nonneg i). lia. }
  cbn [bind]. unfold Id_display at 1. rewrite flat_map_app.
  change (flat_map fmt_02x pre) with (Id_display pre).
  rewrite sub_app_ge by (rewrite Id_display_len; lia).
  cbn [flat_map]. rewrite Id_display_len.
  replace (len pre * 2 - 2 * len pre) with 0 by lia.
  rewrite sub_app_exact by (change (len (fmt_02x b)) with 2; lia).
  rewrite parse_02x. cbn [map_err bind]. rewrite z2b_b2z.
  specialize (IH (pre ++ [b])). rewrite <- app_assoc in IH. cbn [app] in IH.
  rewrite len_app in IH. change (len [b]) with 1 in IH. by rewrite IH.
Qed.

Lemma Id_parse_print i : Id_wf i -> Id_from_str (Id_display i) = Ok i.
Proof.
  intros Hi. unfold Id_wf in Hi. unfold Id_from_str. rewrite Id_display_len, Hi.
  change (2 * 16 =? 32) with true. cbn iota.
  replace 16%nat with (length i) by (unfold len in Hi; lia).
  apply (Id_from_str_loop_display []).
Qed.

Lemma Id_display_inj i j : Id_wf i -> Id_wf j -> Id_display i = Id_display j -> i = j.
Proof.
  intros Hi Hj E. apply Id_parse_print in Hi, Hj. rewrite E, Hj in Hi. congruence.
Qed.

Lemma Id_from_str_loop_len s n i r : Id_from_str_loop s n i = Ok r -> length r = n.
Proof.
  revert i r; induction n as [|n IH]; intros i r; cbn [Id_from_str_loop]; intros H; inv_ok.
  - by subst.
  - subst. cbn. f_equal. by eapply IH.
Qed.

Lemma Id_from_str_wf s i : Id_from_str s = Ok i -> Id_wf i.
Proof.
  unfold Id_from_str. case_test; [| done]. intros H%Id_from_str_loop_len.
  unfold Id_wf, len. lia.
Qed.

(** An identifier is parsed to an [Ok] or [Err] whenever the text is ASCII. *)
Lemma Id_from_str_ascii_total s : Forall printable s -> Id_from_str s <> Panic.
Proof.
  intros Hs. unfold Id_from_str. destruct (Z.eqb_spec (len s) 32) as [Hl|]; [| done].
  assert (H : forall n i, 0 <= i -> i + Z.of_nat n <= 16 -> Id_from_str_loop s n i <> Panic).
  { induction n as [|n IH]; intros i H0 Hn; [done |]. cbn [Id_from_str_loop].
    rewrite str_slice_ascii by (done || lia). cbn [bind].
    apply bind_no_panic; [apply map_err_no_panic, from_str_radix_no_panic |]. intros b _.
    apply bind_no_panic; [apply IH; lia |]. done. }
  apply H; lia.
Qed.

(** The text forms of the common types.  Every log position and every
    tenant or timeline id parses back from what [Display] prints, distinct ids
    print differently, whatever [FromStr] accepts for an id is 16 bytes, and
    the parser of a log position never panics, nor does that of an id on
    printable ASCII. *)
Theorem text_forms_round_trip l i j s :
  in_u64 l -> Id_wf i -> Id_wf j ->
  Lsn_from_str (Lsn_display l) = Ok l /\ Id_from_str (Id_display i) = Ok i /\
  (Id_display i = Id_display j -> i = j) /\
  (forall k, Id_from_str s = Ok k -> Id_wf k) /\
  Lsn_from_str s <> Panic /\ (Forall printable s -> Id_from_str s <> Panic).
Proof.
  intros. repeat split; eauto using Lsn_parse_print, Id_parse_print, Id_display_inj, Id_from_str_wf,
    Lsn_from_str_total, Id_from_str_ascii_total.
Qed.

Lemma text_forms_round_trip_witness :
  Lsn_from_str (Lsn_display 0x16B3748F0) = Ok 0x16B3748F0 /\ Id_from_str (Id_display Id_ZERO) = Ok Id_ZERO.
Proof.
  destruct (text_forms_round_trip 0x16B3748F0 Id_ZERO Id_ZERO []) as (H1 & H2 & _);
    [by_compute | by_compute | by_compute | by split].
Defined.

(** 32 bytes of UTF-8 whose second character straddles a digit pair make the
    parser of an id slice a string off a character boundary; a sign is
    accepted in place of a digit. *)
Lemma id_parser_slices_bytes :
  Id_from_str (x61 :: xc3 :: xa9 :: replicate 29 x61) = Panic /\
  is_ok (Id_from_str (x2b :: x66 :: replicate 30 x61)) = true.
Proof. by_compute. Qed.
