(* ===== verification/WalService.v ===== *)
(** The WAL service protocol between compute, safekeepers and page server
    (src/common/src/wal_service.rs): the six messages, their encoders and their
    decoders.  Every decoder is total on arbitrary bytes and inverts its
    encoder. *)

From S2P Require Import Prelude Bytes Common.

Definition MAGIC : Z := 0x53574C31.
Definition VERSION : Z := 1.
Definition TYPE_APPEND : Z := 1.
Definition TYPE_READ : Z := 2.
Definition TYPE_REPLICATE : Z := 3.
Definition TYPE_VOTE : Z := 4.
Definition STATUS_OK : Z := 0.
Definition STATUS_STALE_TERM : Z := 1.
Definition STATUS_REJECTED : Z := 2.
Definition PREFIX_LEN : Z := 8.
Definition REQUEST_HEADER_LEN : Z := 60.
Definition RESPONSE_LEN : Z := 32.
Definition READ_REQUEST_LEN : Z := 52.
Definition READ_RESPONSE_HEADER_LEN : Z := 28.
Definition VOTE_REQUEST_LEN : Z := 56.
Definition VOTE_RESPONSE_LEN : Z := 24.

(** ** Messages *)

Record AppendRequest := mkAppendRequest {
  ar_tenant : TenantId;
  ar_timeline : TimelineId;
  ar_term : Z;
  ar_start_lsn : Lsn;
  ar_payload : bytes
}.

Record AppendResponse := mkAppendResponse {
  as_status : Z;
  as_term : Z;
  as_flush_lsn : Lsn;
  as_commit_lsn : Lsn
}.

Record ReadRequest := mkReadRequest {
  rr_tenant : TenantId;
  rr_timeline : TimelineId;
  rr_start_lsn : Lsn;
  rr_max_bytes : Z
}.

Record ReadResponse := mkReadResponse {
  rs_status : Z;
  rs_commit_lsn : Lsn;
  rs_start_lsn : Lsn;
  rs_payload : bytes
}.

Record VoteRequest := mkVoteRequest {
  vr_tenant : TenantId;
  vr_timeline : TimelineId;
  vr_term : Z;
  vr_candidate : Z
}.

Record VoteResponse := mkVoteResponse {
  vs_granted : bool;
  vs_term : Z;
  vs_flush_lsn : Lsn
}.

(** ** Encoders and decoders *)

Definition put_u32 (v : Z) : bytes := be_bytes 4 v.
Definition put_u64 (v : Z) : bytes := be_bytes 8 v.
Definition get_u32 (b : bytes) (o : Z) : outcome Error Z := get_be 4 b o.
Definition get_u64 (b : bytes) (o : Z) : outcome Error Z := get_be 8 b o.

Definition message_type (prefix : bytes) : outcome Error Z :=
  ensure negb (len prefix <? PREFIX_LEN) else Parse "WAL message prefix too short" in
  let? magic := get_u32 prefix 0 in
  ensure magic =? MAGIC else Parse "bad WAL protocol magic" in
  let? version := get_u8 prefix 4 in
  ensure version =? VERSION else Parse "unsupported WAL protocol version" in
  get_u8 prefix 5.

Definition AppendRequest_encode_as (r : AppendRequest) (msg_type : Z) : bytes :=
  put_u32 MAGIC ++ z2b VERSION :: z2b msg_type :: x00 :: x00 ::
  ar_tenant r ++ ar_timeline r ++ put_u64 (ar_term r) ++ put_u64 (ar_start_lsn r) ++
  put_u32 (len (ar_payload r)) ++ ar_payload r.

Definition AppendRequest_encode (r : AppendRequest) : bytes :=
  AppendRequest_encode_as r TYPE_APPEND.

Definition AppendRequest_encode_replicate (r : AppendRequest) : bytes :=
  AppendRequest_encode_as r TYPE_REPLICATE.

Definition AppendRequest_payload_len (header : bytes) : outcome Error Z :=
  ensure negb (len header <? REQUEST_HEADER_LEN) else Parse "append header too short" in
  let? magic := get_u32 header 0 in
  ensure magic =? MAGIC else Parse "bad WAL protocol magic" in
  let? version := get_u8 header 4 in
  ensure version =? VERSION else Parse "unsupported WAL protocol version" in
  let? t := get_u8 header 5 in
  ensure (t =? TYPE_APPEND) || (t =? TYPE_REPLICATE) else Parse "unexpected WAL message type" in
  get_u32 header 56.

Definition AppendRequest_decode (buf : bytes) : outcome Error AppendRequest :=
  let? plen := AppendRequest_payload_len buf in
  ensure negb (len buf <? REQUEST_HEADER_LEN + plen) else Parse "append payload truncated" in
  let? tenant := array16 buf 8 24 in
  let? timeline := array16 buf 24 40 in
  let? term := get_u64 buf 40 in
  let? start_lsn := get_u64 buf 48 in
  let? payload := slice buf REQUEST_HEADER_LEN (REQUEST_HEADER_LEN + plen) in
  Ok (mkAppendRequest tenant timeline term start_lsn payload).

Definition AppendRequest_end_lsn {E} (r : AppendRequest) : outcome E Lsn :=
  add_u64 (ar_start_lsn r) (len (ar_payload r)).

Definition AppendResponse_encode (r : AppendResponse) : bytes :=
  put_u32 MAGIC ++ z2b VERSION :: z2b (as_status r) :: x00 :: x00 ::
  put_u64 (as_term r) ++ put_u64 (as_flush_lsn r) ++ put_u64 (as_commit_lsn r).

Definition AppendResponse_decode (buf : bytes) : outcome Error AppendResponse :=
  ensure negb (len buf <? RESPONSE_LEN) else Parse "append response too short" in
  let? magic := get_u32 buf 0 in
  let? version := get_u8 buf 4 in
  ensure (magic =? MAGIC) && (version =? VERSION) else Parse "bad WAL response header" in
  let? status := get_u8 buf 5 in
  let? term := get_u64 buf 8 in
  let? flush_lsn := get_u64 buf 16 in
  let? commit_lsn := get_u64 buf 24 in
  Ok (mkAppendResponse status term flush_lsn commit_lsn).

Definition ReadRequest_encode (r : ReadRequest) : bytes :=
  put_u32 MAGIC ++ z2b VERSION :: z2b TYPE_READ :: x00 :: x00 ::
  rr_tenant r ++ rr_timeline r ++ put_u64 (rr_start_lsn r) ++ put_u32 (rr_max_bytes r).

Definition ReadRequest_decode (buf : bytes) : outcome Error ReadRequest :=
  ensure negb (len buf <? READ_REQUEST_LEN) else Parse "read request too short" in
  let? t := message_type buf in
  ensure t =? TYPE_READ else Parse "unexpected WAL message type" in
  let? tenant := array16 buf 8 24 in
  let? timeline := array16 buf 24 40 in
  let? start_lsn := get_u64 buf 40 in
  let? max_bytes := get_u32 buf 48 in
  Ok (mkReadRequest tenant timeline start_lsn max_bytes).

Definition ReadResponse_encode (r : ReadResponse) : bytes :=
  put_u32 MAGIC ++ z2b VERSION :: z2b (rs_status r) :: x00 :: x00 ::
  put_u64 (rs_commit_lsn r) ++ put_u64 (rs_start_lsn r) ++
  put_u32 (len (rs_payload r)) ++ rs_payload r.

Definition ReadResponse_payload_len (header : bytes) : outcome Error Z :=
  ensure negb (len header <? READ_RESPONSE_HEADER_LEN)
    else Parse "read response header too short" in
  let? magic := get_u32 header 0 in
  let? version := get_u8 header 4 in
  ensure (magic =? MAGIC) && (version =? VERSION) else Parse "bad WAL read response header" in
  get_u32 header 24.

Definition ReadResponse_decode (buf : bytes) : outcome Error ReadResponse :=
  let? plen := ReadResponse_payload_len buf in
  ensure negb (len buf <? READ_RESPONSE_HEADER_LEN + plen)
    else Parse "read response payload truncated" in
  let? status := get_u8 buf 5 in
  let? commit_lsn := get_u64 buf 8 in
  let? start_lsn := get_u64 buf 16 in
  let? payload := slice buf READ_RESPONSE_HEADER_LEN (READ_RESPONSE_HEADER_LEN + plen) in
  Ok (mkReadResponse status commit_lsn start_lsn payload).

Definition VoteRequest_encode (r : VoteRequest) : bytes :=
  put_u32 MAGIC ++ z2b VERSION :: z2b TYPE_VOTE :: x00 :: x00 ::
  vr_tenant r ++ vr_timeline r ++ put_u64 (vr_term r) ++ put_u64 (vr_candidate r).

Definition VoteRequest_decode (buf : bytes) : outcome Error VoteRequest :=
  ensure negb (len buf <? VOTE_REQUEST_LEN) else Parse "vote request too short" in
  let? t := message_type buf in
  ensure t =? TYPE_VOTE else Parse "unexpected WAL message type" in
  let? tenant := array16 buf 8 24 in
  let? timeline := array16 buf 24 40 in
  let? term := get_u64 buf 40 in
  let? candidate := get_u64 buf 48 in
  Ok (mkVoteRequest tenant timeline term candidate).

Definition VoteResponse_encode (r : VoteResponse) : bytes :=
  put_u32 MAGIC ++ z2b VERSION :: z2b (if vs_granted r then 1 else 0) :: x00 :: x00 ::
  put_u64 (vs_term r) ++ put_u64 (vs_flush_lsn r).

Definition VoteResponse_decode (buf : bytes) : outcome Error VoteResponse :=
  ensure negb (len buf <? VOTE_RESPONSE_LEN) else Parse "vote response too short" in
  let? magic := get_u32 buf 0 in
  let? version := get_u8 buf 4 in
  ensure (magic =? MAGIC) && (version =? VERSION) else Parse "bad vote response header" in
  let? granted := get_u8 buf 5 in
  let? term := get_u64 buf 8 in
  let? flush_lsn := get_u64 buf 16 in
  Ok (mkVoteResponse (negb (granted =? 0)) term flush_lsn).

(** ** Field ranges of the messages *)

Definition AppendRequest_wf (r : AppendRequest) : Prop :=
  Id_wf (ar_tenant r) /\ Id_wf (ar_timeline r) /\ in_u64 (ar_term r) /\
  in_u64 (ar_start_lsn r) /\ in_u32 (len (ar_payload r)).

Definition AppendResponse_wf (r : AppendResponse) : Prop :=
  in_u8 (as_status r) /\ in_u64 (as_term r) /\ in_u64 (as_flush_lsn r) /\
  in_u64 (as_commit_lsn r).

Definition ReadRequest_wf (r : ReadRequest) : Prop :=
  Id_wf (rr_tenant r) /\ Id_wf (rr_timeline r) /\ in_u64 (rr_start_lsn r) /\
  in_u32 (rr_max_bytes r).

Definition ReadResponse_wf (r : ReadResponse) : Prop :=
  in_u8 (rs_status r) /\ in_u64 (rs_commit_lsn r) /\ in_u64 (rs_start_lsn r) /\
  in_u32 (len (rs_payload r)).

Definition VoteRequest_wf (r : VoteRequest) : Prop :=
  Id_wf (vr_tenant r) /\ Id_wf (vr_timeline r) /\ in_u64 (vr_term r) /\
  in_u64 (vr_candidate r).

Definition VoteResponse_wf (r : VoteResponse) : Prop :=
  in_u64 (vs_term r) /\ in_u64 (vs_flush_lsn r).

(** ** Proofs *)

Ltac unfold_wal :=
  unfold message_type in *; unfold put_u32, put_u64, get_u32, get_u64, Id_wf, MAGIC, VERSION,
    TYPE_APPEND, TYPE_READ, TYPE_REPLICATE, TYPE_VOTE, PREFIX_LEN, REQUEST_HEADER_LEN,
    RESPONSE_LEN, READ_REQUEST_LEN, READ_RESPONSE_HEADER_LEN, VOTE_REQUEST_LEN,
    VOTE_RESPONSE_LEN in *.

Lemma magic_u32 : in_u32 0x53574C31.
Proof. unfold in_u32; lia. Qed.

(** Run a decoder on an encoded message followed by [ext]. *)
Ltac wal_round_trip ext :=
  unfold_wal; pose proof magic_u32; pose proof (len_nonneg ext);
  rewrite <- ?app_assoc; rewrite <- ?app_comm_cons; rewrite <- ?app_assoc;
  run_decoder; rewrite ?b2z_z2b_small by assumption; try reflexivity.

Lemma AppendRequest_decode_encode_as r t ext :
  AppendRequest_wf r -> t = TYPE_APPEND \/ t = TYPE_REPLICATE ->
  AppendRequest_decode (AppendRequest_encode_as r t ++ ext) = Ok r.
Proof.
  unfold AppendRequest_wf, AppendRequest_decode, AppendRequest_payload_len,
    AppendRequest_encode_as.
  destruct r as [te ti tm st pl]; cbn [ar_tenant ar_timeline ar_term ar_start_lsn ar_payload].
  pose proof (len_nonneg pl). intros (? & ? & ? & ? & ?) [-> | ->]; wal_round_trip ext.
Qed.

Lemma AppendResponse_decode_encode r ext :
  AppendResponse_wf r -> AppendResponse_decode (AppendResponse_encode r ++ ext) = Ok r.
Proof.
  unfold AppendResponse_wf, AppendResponse_decode, AppendResponse_encode.
  destruct r as [s t f c]; cbn [as_status as_term as_flush_lsn as_commit_lsn].
  intros (? & ? & ? & ?); wal_round_trip ext.
Qed.

Lemma ReadRequest_decode_encode r ext :
  ReadRequest_wf r -> ReadRequest_decode (ReadRequest_encode r ++ ext) = Ok r.
Proof.
  unfold ReadRequest_wf, ReadRequest_decode, ReadRequest_encode.
  destruct r as [te ti st mb]; cbn [rr_tenant rr_timeline rr_start_lsn rr_max_bytes].
  intros (? & ? & ? & ?); wal_round_trip ext.
Qed.

Lemma ReadResponse_decode_encode r ext :
  ReadResponse_wf r -> ReadResponse_decode (ReadResponse_encode r ++ ext) = Ok r.
Proof.
  unfold ReadResponse_wf, ReadResponse_decode, ReadResponse_payload_len, ReadResponse_encode.
  destruct r as [s c st pl]; cbn [rs_status rs_commit_lsn rs_start_lsn rs_payload].
  pose proof (len_nonneg pl). intros (? & ? & ? & ?); wal_round_trip ext.
Qed.

Lemma VoteRequest_decode_encode r ext :
  VoteRequest_wf r -> VoteRequest_decode (VoteRequest_encode r ++ ext) = Ok r.
Proof.
  unfold VoteRequest_wf, VoteRequest_decode, VoteRequest_encode.
  destruct r as [te ti tm ca]; cbn [vr_tenant vr_timeline vr_term vr_candidate].
  intros (? & ? & ? & ?); wal_round_trip ext.
Qed.

Lemma VoteResponse_decode_encode r ext :
  VoteResponse_wf r -> VoteResponse_decode (VoteResponse_encode r ++ ext) = Ok r.
Proof.
  unfold VoteResponse_wf, VoteResponse_decode, VoteResponse_encode.
  destruct r as [[] t f]; cbn [vs_granted vs_term vs_flush_lsn];
    intros (? & ?); wal_round_trip ext.
Qed.

(** The decoders return on every input. *)

Lemma AppendRequest_payload_len_no_panic b : AppendRequest_payload_len b <> Panic.
Proof. unfold AppendRequest_payload_len. unfold_wal. no_panic. Qed.

Lemma AppendRequest_payload_len_ok b n :
  AppendRequest_payload_len b = Ok n -> 60 <= len b /\ 0 <= n < 2 ^ 32.
Proof.
  unfold AppendRequest_payload_len. unfold_wal. case_test; [| done]. bool_to_prop.
  intros H0. rewrite !get_be_ok in H0 by lia. cbn [bind] in H0.
  repeat (case_test; [| done]). inv_ok. repeat (case_test; [| done]). inv_ok.
  repeat (case_test; [| done]). inv_ok. subst.
  pose proof (be_val_range (sub b 56 4)) as Hr. rewrite sub_len in Hr by lia.
  split; [lia | exact Hr].
Qed.

Lemma AppendRequest_decode_no_panic b : AppendRequest_decode b <> Panic.
Proof.
  unfold AppendRequest_decode. apply bind_no_panic; [apply AppendRequest_payload_len_no_panic |].
  intros n Hn%AppendRequest_payload_len_ok. unfold_wal. no_panic.
Qed.

Lemma AppendResponse_decode_no_panic b : AppendResponse_decode b <> Panic.
Proof. unfold AppendResponse_decode. unfold_wal. no_panic. Qed.

Lemma ReadRequest_decode_no_panic b : ReadRequest_decode b <> Panic.
Proof. unfold ReadRequest_decode. unfold_wal. no_panic. Qed.

Lemma ReadResponse_payload_len_ok b n :
  ReadResponse_payload_len b = Ok n -> 28 <= len b /\ 0 <= n < 2 ^ 32.
Proof.
  unfold ReadResponse_payload_len. unfold_wal. case_test; [| done]. bool_to_prop.
  intros H0. rewrite !get_be_ok in H0 by lia. cbn [bind] in H0. inv_ok.
  repeat (case_test; [| done]). inv_ok. subst.
  pose proof (be_val_range (sub b 24 4)) as Hr. rewrite sub_len in Hr by lia.
  split; [lia | exact Hr].
Qed.

Lemma ReadResponse_decode_no_panic b : ReadResponse_decode b <> Panic.
Proof.
  unfold ReadResponse_decode. apply bind_no_panic.
  { unfold ReadResponse_payload_len. unfold_wal. no_panic. }
  intros n Hn%ReadResponse_payload_len_ok. unfold_wal. no_panic.
Qed.

Lemma VoteRequest_decode_no_panic b : VoteRequest_decode b <> Panic.
Proof. unfold VoteRequest_decode. unfold_wal. no_panic. Qed.

Lemma VoteResponse_decode_no_panic b : VoteResponse_decode b <> Panic.
Proof. unfold VoteResponse_decode. unfold_wal. no_panic. Qed.

(** No input, however malformed, makes a WAL service decoder panic: each
    one returns a message or a parse error. *)
Lemma wal_decoders_total (buf : bytes) :
  message_type buf <> Panic /\ AppendRequest_payload_len buf <> Panic /\
  AppendRequest_decode buf <> Panic /\ AppendResponse_decode buf <> Panic /\
  ReadRequest_decode buf <> Panic /\ ReadResponse_payload_len buf <> Panic /\
  ReadResponse_decode buf <> Panic /\ VoteRequest_decode buf <> Panic /\
  VoteResponse_decode buf <> Panic.
Proof.
  split. { unfold message_type. unfold_wal. no_panic. }
  split; [apply AppendRequest_payload_len_no_panic |].
  split; [apply AppendRequest_decode_no_panic |].
  split; [apply AppendResponse_decode_no_panic |].
  split; [apply ReadRequest_decode_no_panic |].
  split. { unfold ReadResponse_payload_len. unfold_wal. no_panic. }
  split; [apply ReadResponse_decode_no_panic |].
  split; [apply VoteRequest_decode_no_panic | apply VoteResponse_decode_no_panic].
Qed.

(** Every WAL service message survives the wire: decoding the encoding of a
    message with in-range fields gives the message back, whatever bytes follow
    it in the buffer; an append and its forwarded (replicate) form decode to the
    same request; and no input makes a decoder panic. *)
Theorem wal_messages_round_trip :
  (forall r ext, AppendRequest_wf r ->
     AppendRequest_decode (AppendRequest_encode r ++ ext) = Ok r /\
     AppendRequest_decode (AppendRequest_encode_replicate r ++ ext) = Ok r) /\
  (forall r ext, AppendResponse_wf r ->
     AppendResponse_decode (AppendResponse_encode r ++ ext) = Ok r) /\
  (forall r ext, ReadRequest_wf r ->
     ReadRequest_decode (ReadRequest_encode r ++ ext) = Ok r) /\
  (forall r ext, ReadResponse_wf r ->
     ReadResponse_decode (ReadResponse_encode r ++ ext) = Ok r) /\
  (forall r ext, VoteRequest_wf r ->
     VoteRequest_decode (VoteRequest_encode r ++ ext) = Ok r) /\
  (forall r ext, VoteResponse_wf r ->
     VoteResponse_decode (VoteResponse_encode r ++ ext) = Ok r) /\
  (forall buf, message_type buf <> Panic /\ AppendRequest_payload_len buf <> Panic /\
     AppendRequest_decode buf <> Panic /\ AppendResponse_decode buf <> Panic /\
     ReadRequest_decode buf <> Panic /\ ReadResponse_payload_len buf <> Panic /\
     ReadResponse_decode buf <> Panic /\ VoteRequest_decode buf <> Panic /\ VoteResponse_decode buf <> Panic).
Proof.
  split; [| split; [| split; [| split; [| split; [| split]]]]]; [intros r ext H .. | exact wal_decoders_total].
  - split; apply AppendRequest_decode_encode_as; auto.
  - by apply AppendResponse_decode_encode.
  - by apply ReadRequest_decode_encode.
  - by apply ReadResponse_decode_encode.
  - by apply VoteRequest_decode_encode.
  - by apply VoteResponse_decode_encode.
Qed.

Lemma wal_messages_round_trip_witness :
  let r := mkAppendRequest Id_ZERO Id_ZERO 3 4096 [x01; x02] in
  AppendRequest_wf r /\ AppendRequest_decode (AppendRequest_encode r ++ [xff]) = Ok r.
Proof.
  assert (H : AppendRequest_wf (mkAppendRequest Id_ZERO Id_ZERO 3 4096 [x01; x02])).
  { by_compute. }
  split; [exact H |]. exact (proj1 (proj1 wal_messages_round_trip _ [xff] H)).
Defined.
