(* ===== verification/PageService.v ===== *)
(** The page service protocol between compute and page server
    (src/common/src/page_service.rs): requests for a page or a relation size,
    and their responses.  [String::from_utf8_lossy] is [Text.from_utf8_lossy]. *)

From S2P Require Import Prelude Bytes Text Common.

Definition MAGIC : Z := 0x53504731.
Definition VERSION : Z := 1.
Definition TYPE_GET_PAGE : Z := 1.
Definition TYPE_GET_REL_SIZE : Z := 2.
Definition STATUS_OK : Z := 0.
Definition STATUS_NOT_FOUND : Z := 1.
Definition STATUS_ERROR : Z := 2.
Definition GET_PAGE_PAYLOAD : Z := 16 + 16 + 4 + 4 + 4 + 4 + 8.
Definition GET_REL_SIZE_PAYLOAD : Z := 16 + 16 + 4 + 4 + 4 + 8.
Definition HEADER_LEN : Z := 8.

Inductive Request :=
| GetPage (tenant : TenantId) (timeline : TimelineId) (rel : RelTag) (block : Z) (lsn : Lsn)
| GetRelSize (tenant : TenantId) (timeline : TimelineId) (rel : RelTag) (lsn : Lsn).

Inductive Response :=
| Page (page : bytes)
| RelSize (n : Z)
| NotFound
| Error_ (msg : bytes).

Definition put_u32 (v : Z) : bytes := be_bytes 4 v.
Definition put_u64 (v : Z) : bytes := be_bytes 8 v.
Definition get_u32 (buf : bytes) (off : Z) : outcome Error Z := get_be 4 buf off.
Definition get_u64 (buf : bytes) (off : Z) : outcome Error Z := get_be 8 buf off.

(** The header and the payload prefix the two requests share. *)
Definition Request_prefix (type_tag : Z) (tenant timeline : Id) (rel : RelTag) (rest : bytes) : bytes :=
  put_u32 MAGIC ++ z2b VERSION :: z2b type_tag :: z2b (ForkNumber_as_u8 (fork rel)) :: x00 ::
  tenant ++ timeline ++ put_u32 (spc_node rel) ++ put_u32 (db_node rel) ++
  put_u32 (rel_node rel) ++ rest.

Definition Request_encode (r : Request) : bytes :=
  match r with
  | GetPage tenant timeline rel block lsn =>
      Request_prefix TYPE_GET_PAGE tenant timeline rel (put_u32 block ++ put_u64 lsn)
  | GetRelSize tenant timeline rel lsn =>
      Request_prefix TYPE_GET_REL_SIZE tenant timeline rel (put_u64 lsn)
  end.

Definition Request_total_len (header : bytes) : outcome Error Z :=
  ensure negb (len header <? HEADER_LEN) else Parse "request header too short" in
  let? magic := get_u32 header 0 in
  ensure magic =? MAGIC else Parse "bad protocol magic" in
  let? version := get_u8 header 4 in
  ensure version =? VERSION else Parse "unsupported protocol version" in
  let? t := get_u8 header 5 in
  if t =? TYPE_GET_PAGE then Ok (HEADER_LEN + GET_PAGE_PAYLOAD)
  else if t =? TYPE_GET_REL_SIZE then Ok (HEADER_LEN + GET_REL_SIZE_PAYLOAD)
  else Err (Parse "unknown request type").

(** [unreachable!()] is a panic. *)
Definition Request_decode (buf : bytes) : outcome Error Request :=
  ensure negb (len buf <? HEADER_LEN) else Parse "request shorter than header" in
  let? magic := get_u32 buf 0 in
  ensure magic =? MAGIC else Parse "bad protocol magic" in
  let? version := get_u8 buf 4 in
  ensure version =? VERSION else Parse "unsupported protocol version" in
  let? type_tag := get_u8 buf 5 in
  let? f := get_u8 buf 6 in
  let? fork := ok_or (ForkNumber_from_raw f) (Parse "invalid fork number") in
  let? body := slice buf HEADER_LEN (len buf) in
  let? expected :=
    (if type_tag =? TYPE_GET_PAGE then Ok GET_PAGE_PAYLOAD
     else if type_tag =? TYPE_GET_REL_SIZE then Ok GET_REL_SIZE_PAYLOAD
     else Err (Parse "unknown request type")) in
  ensure negb (len body <? expected) else Parse "request payload truncated" in
  let? tenant := array16 body 0 16 in
  let? timeline := array16 body 16 32 in
  let? spc := get_u32 body 32 in
  let? db := get_u32 body 36 in
  let? rn := get_u32 body 40 in
  let rel := mkRelTag spc db rn fork in
  if type_tag =? TYPE_GET_PAGE then
    let? block := get_u32 body 44 in
    let? lsn := get_u64 body 48 in
    Ok (GetPage tenant timeline rel block lsn)
  else if type_tag =? TYPE_GET_REL_SIZE then
    let? lsn := get_u64 body 44 in
    Ok (GetRelSize tenant timeline rel lsn)
  else Panic.

Definition Response_encode (r : Response) : bytes :=
  let '(status, payload) :=
    match r with
    | Page page => (STATUS_OK, page)
    | RelSize n => (STATUS_OK, put_u32 n)
    | NotFound => (STATUS_NOT_FOUND, [])
    | Error_ msg => (STATUS_ERROR, msg)
    end in
  put_u32 MAGIC ++ z2b VERSION :: z2b status :: x00 :: x00 ::
  put_u32 (len payload) ++ payload.

Definition RESP_HEADER : Z := HEADER_LEN + 4.

Definition Response_decode (buf : bytes) : outcome Error Response :=
  ensure negb (len buf <? RESP_HEADER) else Parse "response shorter than header" in
  let? magic := get_u32 buf 0 in
  ensure magic =? MAGIC else Parse "bad protocol magic" in
  let? version := get_u8 buf 4 in
  ensure version =? VERSION else Parse "unsupported protocol version" in
  let? status := get_u8 buf 5 in
  let? n := get_u32 buf 8 in
  ensure negb (len buf <? RESP_HEADER + n) else Parse "response payload truncated" in
  let? payload := slice buf RESP_HEADER (RESP_HEADER + n) in
  if status =? STATUS_OK then
    if n =? PAGE_SIZE then Ok (Page payload)
    else if n =? 4 then let? v := get_u32 payload 0 in Ok (RelSize v)
    else Err (Parse "OK response with unexpected payload length")
  else if status =? STATUS_NOT_FOUND then Ok NotFound
  else if status =? STATUS_ERROR then Ok (Error_ (from_utf8_lossy payload))
  else Err (Parse "unknown response status").

(** ** Field ranges *)

Definition Request_wf (r : Request) : Prop :=
  match r with
  | GetPage tenant timeline rel block lsn =>
      Id_wf tenant /\ Id_wf timeline /\ RelTag_wf rel /\ in_u32 block /\ in_u64 lsn
  | GetRelSize tenant timeline rel lsn =>
      Id_wf tenant /\ Id_wf timeline /\ RelTag_wf rel /\ in_u64 lsn
  end.

(** A page response carries exactly one page, a message is UTF-8 text. *)
Definition Response_wf (r : Response) : Prop :=
  match r with
  | Page page => len page = PAGE_SIZE
  | RelSize n => in_u32 n
  | NotFound => True
  | Error_ msg => in_u32 (len msg) /\ utf8_valid msg = true
  end.

(** ** Proofs *)

Ltac unfold_page :=
  unfold RESP_HEADER in *; unfold put_u32, put_u64, get_u32, get_u64, Id_wf, RelTag_wf,
    MAGIC, VERSION, TYPE_GET_PAGE,
    TYPE_GET_REL_SIZE, GET_PAGE_PAYLOAD, GET_REL_SIZE_PAYLOAD, HEADER_LEN,
    STATUS_OK, STATUS_NOT_FOUND, STATUS_ERROR, PAGE_SIZE in *.

Lemma page_magic_u32 : in_u32 0x53504731.
Proof. unfold in_u32; lia. Qed.

Lemma fork_byte f : ForkNumber_from_raw (b2z (z2b (ForkNumber_as_u8 f))) = Some f.
Proof. by destruct f. Qed.

Lemma Request_decode_encode r ext :
  Request_wf r -> Request_decode (Request_encode r ++ ext) = Ok r.
Proof.
  pose proof page_magic_u32. pose proof (len_nonneg ext).
  unfold Request_decode, Request_encode, Request_prefix.
  destruct r as [te ti [sp db rn fk] bl ls | te ti [sp db rn fk] ls]; unfold Request_wf; unfold_page;
    cbn [spc_node db_node rel_node fork];
    intros; destruct_and?;
    rewrite <- ?app_assoc; rewrite <- ?app_comm_cons; rewrite <- ?app_assoc.
  all: run_decoder; rewrite fork_byte; cbn [ok_or bind]; run_decoder; reflexivity.
Qed.

Lemma Response_decode_encode r ext :
  Response_wf r -> Response_decode (Response_encode r ++ ext) = Ok r.
Proof.
  pose proof page_magic_u32. pose proof (len_nonneg ext).
  unfold Response_decode, Response_encode.
  destruct r as [pg | n | | msg]; unfold Response_wf; unfold_page; intros Hr;
    rewrite <- ?app_assoc; rewrite <- ?app_comm_cons; rewrite <- ?app_assoc.
  - rewrite Hr. assert (in_u32 8192) by by_compute. run_decoder. reflexivity.
  - rewrite len_be_bytes. assert (in_u32 (Z.of_nat 4)) by by_compute. run_decoder. reflexivity.
  - assert (in_u32 (len (@nil byte))) by by_compute. cbn [app]. run_decoder.
    rewrite slice_ok by (autorewrite with len; lia). reflexivity.
  - destruct Hr as [Hl Hu]. pose proof (len_nonneg msg). run_decoder.
    by rewrite from_utf8_lossy_valid.
Qed.

Lemma Request_total_len_no_panic b : Request_total_len b <> Panic.
Proof. unfold Request_total_len. unfold_page. no_panic. Qed.

Lemma Request_decode_no_panic b : Request_decode b <> Panic.
Proof.
  unfold Request_decode. unfold_page. case_test; [| done]. bool_to_prop.
  rewrite get_be_ok by lia. cbn [bind]. case_test; [| done].
  apply bind_no_panic; [no_panic | intros v _]. case_test; [| done].
  apply bind_no_panic; [no_panic | intros t _].
  apply bind_no_panic; [no_panic | intros f _].
  apply bind_no_panic; [no_panic | intros fk _].
  rewrite slice_ok by lia. cbn [bind].
  pose proof (sub_len b 8 (len b - 8)) as Hl.
  destruct (t =? 1); [| destruct (t =? 2)]; cbn [bind]; [.. | done]; no_panic.
Qed.

Lemma Response_decode_no_panic b : Response_decode b <> Panic.
Proof.
  unfold Response_decode. unfold_page. case_test; [| done]. bool_to_prop.
  rewrite get_be_ok by lia. cbn [bind]. case_test; [| done].
  apply bind_no_panic; [no_panic | intros v _]. case_test; [| done].
  apply bind_no_panic; [no_panic | intros st _].
  rewrite get_be_ok by lia. cbn [bind].
  set (n := be_val _). assert (0 <= n) by apply be_val_range. case_test; [| done].
  bool_to_prop. rewrite slice_ok by lia. cbn [bind].
  pose proof (sub_len b 12 n). replace (8 + 4 + n - (8 + 4)) with n by lia.
  change (8 + 4) with 12 in *. repeat (case_test; [no_panic |]). done.
Qed.

Lemma Request_header tag te ti r rest :
  sub (Request_prefix tag te ti r rest) 0 8 =
  put_u32 MAGIC ++ [z2b VERSION; z2b tag; z2b (ForkNumber_as_u8 (fork r)); x00].
Proof.
  unfold Request_prefix. erewrite <- (sub_app_exact (put_u32 MAGIC ++ [_; _; _; _]));
    [by rewrite <- app_assoc | done].
Qed.

(** The length a server computes from the 8-byte header is the length of the
    whole request. *)
Lemma Request_total_len_encode r :
  Request_wf r -> Request_total_len (sub (Request_encode r) 0 8) = Ok (len (Request_encode r)).
Proof.
  pose proof page_magic_u32. unfold Request_total_len, Request_encode.
  destruct r as [te ti [sp db rn fk] bl ls | te ti [sp db rn fk] ls]; unfold Request_wf;
    rewrite Request_header; unfold Request_prefix; unfold_page;
    cbn [spc_node db_node rel_node fork]; intros; destruct_and?;
    run_decoder; autorewrite with len; f_equal; lia.
Qed.

(** Page service requests and responses survive the wire, whatever follows
    them in the buffer, the length announced by a request header is the request's
    length, so that a server reads exactly one request, and no input makes a
    decoder panic (the [unreachable!()] of the request decoder is unreachable). *)
Theorem page_messages_round_trip :
  (forall r ext, Request_wf r ->
     Request_decode (Request_encode r ++ ext) = Ok r /\
     Request_total_len (sub (Request_encode r) 0 8) = Ok (len (Request_encode r))) /\
  (forall r ext, Response_wf r -> Response_decode (Response_encode r ++ ext) = Ok r) /\
  (forall buf, Request_total_len buf <> Panic /\ Request_decode buf <> Panic /\ Response_decode buf <> Panic).
Proof.
  split; [| split]; [intros r ext H .. | intros buf].
  - split; [by apply Request_decode_encode | by apply Request_total_len_encode].
  - by apply Response_decode_encode.
  - split; [apply Request_total_len_no_panic |]. split; [apply Request_decode_no_panic | apply Response_decode_no_panic].
Qed.

Lemma page_messages_round_trip_witness :
  let r := GetPage Id_ZERO Id_ZERO (mkRelTag 1663 5 16384 Main) 7 0x1000 in
  Request_wf r /\ Request_decode (Request_encode r ++ [xff]) = Ok r.
Proof.
  assert (H : Request_wf (GetPage Id_ZERO Id_ZERO (mkRelTag 1663 5 16384 Main) 7 0x1000))
    by by_compute.
  split; [exact H |]. exact (proj1 (proj1 page_messages_round_trip _ [xff] H)).
Defined.
