(* ===== verification/Consensus.v ===== *)
(** The quorum state machine of one safekeeper (src/safekeeper/src/consensus.rs).

    [commit_lsn] is shown to be the highest position flushed by a quorum, and
    elections to have at most one winner per term, in every reachable state of
    a group whose members run this state machine over an asynchronous network
    ([group_step]); vote grants may be delayed, reordered and delivered more
    than once.  A restarting member comes back through [Consensus_new], which
    forgets its term and its vote: [restart_step] shows that two leaders in one
    term are then reachable. *)

From stdpp Require Import sorting.
From S2P Require Import Prelude Common.

Abbreviation NodeId := Z.
Abbreviation Term := Z.

Inductive Role := Follower | Candidate | Leader.

#[export] Instance Role_eq_dec : EqDecision Role.
Proof. solve_decision. Defined.

Record Consensus := mkConsensus {
  node_id : NodeId;
  members : list NodeId;
  quorum : Z;
  term : Term;
  role : Role;
  voted_for : option NodeId;
  votes : gset NodeId;
  flush : gmap NodeId Lsn
}.

(** ** Operations *)

(** [assert!] is a panic when it fails. *)
Definition Consensus_new {E} (id : NodeId) (ms : list NodeId) : outcome E Consensus :=
  if bool_decide (id ∈ ms)
  then Ok {| node_id := id; members := ms; quorum := len ms / 2 + 1;
             term := 0; role := Follower; voted_for := None; votes := ∅;
             flush := list_to_map ((fun m => (m, INVALID)) <$> ms) |}
  else Panic.

Definition is_leader (c : Consensus) : bool := bool_decide (role c = Leader).

Definition with_flush (f : gmap NodeId Lsn) (c : Consensus) : Consensus :=
  {| node_id := node_id c; members := members c; quorum := quorum c; term := term c;
     role := role c; voted_for := voted_for c; votes := votes c; flush := f |}.

Definition with_election (t : Term) (r : Role) (vf : option NodeId) (vs : gset NodeId)
  (c : Consensus) : Consensus :=
  {| node_id := node_id c; members := members c; quorum := quorum c; term := t;
     role := r; voted_for := vf; votes := vs; flush := flush c |}.

(** [*self.flush.get(m).unwrap_or(&Lsn::INVALID)] *)
Definition flush_of (c : Consensus) (m : NodeId) : Lsn := default INVALID (flush c !! m).

Definition record_flush (c : Consensus) (node : NodeId) (lsn : Lsn) : Consensus :=
  let slot := flush_of c node in
  with_flush (<[node := if slot <? lsn then lsn else slot]> (flush c)) c.

Definition commit_lsn (c : Consensus) : Lsn :=
  let positions := flush_of c <$> members c in
  default INVALID (get (merge_sort Z.ge positions) (quorum c - 1)).

Definition observe_term (c : Consensus) (t : Term) : Consensus :=
  if term c <? t then with_election t Follower None ∅ c else c.

Definition maybe_become_leader (c : Consensus) : Consensus :=
  if bool_decide (role c = Candidate) && (quorum c <=? Z.of_nat (size (votes c)))
  then with_election (term c) Leader (voted_for c) (votes c) c else c.

(** [self.term += 1] overflows at [u64::MAX]. *)
Definition start_election {E} (c : Consensus) : outcome E (Consensus * Term) :=
  let? t := add_u64 (term c) 1 in
  let c := maybe_become_leader (with_election t Candidate (Some (node_id c)) {[node_id c]} c) in
  Ok (c, term c).

Definition handle_vote_request (c : Consensus) (t : Term) (candidate : NodeId) : Consensus * bool :=
  let c := observe_term c t in
  if (t =? term c) && (bool_decide (voted_for c = None) || bool_decide (voted_for c = Some candidate))
  then (with_election (term c) (role c) (Some candidate) (votes c) c, true)
  else (c, false).

Definition handle_vote_granted (c : Consensus) (from : NodeId) (t : Term) : Consensus :=
  if (t =? term c) && bool_decide (role c = Candidate)
  then maybe_become_leader (with_election (term c) (role c) (voted_for c) ({[from]} ∪ votes c) c)
  else c.

(** ** The commit rule *)

(** How many members (with their multiplicity in the configuration) have
    flushed up to [x]. *)
Definition flushed_by (c : Consensus) (x : Lsn) : Z :=
  len (List.filter (fun m => x <=? flush_of c m) (members c)).

(** The configuration part of the state, fixed by [Consensus_new]. *)
Definition config_wf (c : Consensus) : Prop :=
  members c <> [] /\ quorum c = len (members c) / 2 + 1.

Definition count_ge (x : Z) (l : list Z) : Z := len (List.filter (Z.leb x) l).

Lemma count_ge_perm x l k : l ≡ₚ k -> count_ge x l = count_ge x k.
Proof.
  intros H. unfold count_ge. induction H; cbn [List.filter]; auto; try congruence.
  - case_test; rewrite ?len_cons; lia.
  - repeat case_test; rewrite ?len_cons; lia.
Qed.

Lemma count_ge_bound x l : 0 <= count_ge x l <= len l.
Proof.
  unfold count_ge. induction l as [|y l IH]; cbn [List.filter]; [done |].
  case_test; rewrite ?len_cons; lia.
Qed.

Lemma count_ge_zero x l : Forall (fun y => y < x) l -> count_ge x l = 0.
Proof.
  induction 1 as [|y l Hy _ IH]; [done |]. unfold count_ge in *. cbn [List.filter].
  by rewrite (proj2 (Z.leb_gt _ _)) by lia.
Qed.

(** In a descending list, the [i]-th element is at least [x] exactly when more
    than [i] elements are. *)
Lemma sorted_count l x y i :
  StronglySorted Z.ge l -> get l i = Some y -> x <= y <-> i + 1 <= count_ge x l.
Proof.
  intros Hs. revert i; induction Hs as [|z l Hs IH Hz]; intros i Hg.
  - apply get_Some_iff in Hg as [_ Hg]. done.
  - apply get_Some_iff in Hg as [Hi Hg].
    destruct (Z.eq_dec i 0) as [-> | Hi0].
    + injection Hg as ->. unfold count_ge. cbn [List.filter].
      destruct (Z.leb_spec x y).
      * rewrite len_cons. pose proof (len_nonneg (List.filter (Z.leb x) l)). lia.
      * pose proof (count_ge_zero x l) as Hc. unfold count_ge in Hc. rewrite Hc; [lia |].
        eapply Forall_impl; [exact Hz |]. cbn. lia.
    + assert (Hg' : get l (i - 1) = Some y).
      { apply get_Some_iff. split; [lia |].
        replace (Z.to_nat i) with (S (Z.to_nat (i - 1))) in Hg by lia. done. }
      rewrite (IH _ Hg'). unfold count_ge. cbn [List.filter].
      destruct (Z.leb_spec x z); [rewrite len_cons; lia |].
      pose proof (count_ge_zero x l) as H0. unfold count_ge in H0.
      rewrite H0; [lia |]. eapply Forall_impl; [exact Hz |]. cbn. lia.
Qed.

#[export] Instance Zge_total : Total Z.ge.
Proof. intros x y. lia. Qed.
#[export] Instance Zge_trans : Transitive Z.ge.
Proof. intros x y z. lia. Qed.

Lemma flushed_by_count c x : flushed_by c x = count_ge x (flush_of c <$> members c).
Proof.
  unfold flushed_by, count_ge. induction (members c) as [|m ms IH]; [done |].
  cbn. case_test; rewrite ?len_cons; congruence.
Qed.

Lemma quorum_range c : config_wf c -> 1 <= quorum c <= len (members c).
Proof.
  intros [Hm Hq]. assert (1 <= len (members c)).
  { destruct (members c); [done | rewrite len_cons; pose proof (len_nonneg l); lia]. }
  pose proof (Z.div_mod (len (members c)) 2 ltac:(lia)).
  pose proof (Z.mod_pos_bound (len (members c)) 2 ltac:(lia)). lia.
Qed.

Lemma commit_lsn_iff c x :
  config_wf c -> x <= commit_lsn c <-> quorum c <= flushed_by c x.
Proof.
  intros Hw. pose proof (quorum_range c Hw) as Hq. unfold commit_lsn.
  set (p := flush_of c <$> members c).
  assert (Hp : merge_sort Z.ge p ≡ₚ p) by apply merge_sort_Permutation.
  assert (Hl : len (merge_sort Z.ge p) = len (members c)).
  { unfold len. rewrite Hp. unfold p. by rewrite length_fmap. }
  destruct (get_lt (merge_sort Z.ge p) (quorum c - 1)) as [y Hy]; [lia |].
  rewrite Hy. cbn [default]. rewrite (sorted_count _ _ _ _ (StronglySorted_merge_sort _ _) Hy).
  rewrite (count_ge_perm _ _ _ Hp), flushed_by_count. unfold p. lia.
Qed.

(** ** Recording flushes *)

Lemma record_flush_of c node lsn m :
  flush_of (record_flush c node lsn) m =
  if decide (m = node) then Z.max (flush_of c node) lsn else flush_of c m.
Proof.
  unfold record_flush, flush_of at 1, with_flush. cbn [flush].
  destruct (decide (m = node)) as [-> | Hne].
  - rewrite lookup_insert_eq. cbn. destruct (Z.ltb_spec (flush_of c node) lsn); lia.
  - by rewrite lookup_insert_ne.
Qed.

Lemma record_flush_config c node lsn : config_wf c -> config_wf (record_flush c node lsn).
Proof. done. Qed.

Lemma flushed_by_mono c d x :
  members c = members d -> (forall m, flush_of c m <= flush_of d m) ->
  flushed_by c x <= flushed_by d x.
Proof.
  intros Hm Hle. unfold flushed_by. rewrite <- Hm. clear Hm. induction (members c) as [|m ms IH]; [done |].
  cbn [List.filter]. specialize (Hle m).
  destruct (Z.leb_spec x (flush_of c m)), (Z.leb_spec x (flush_of d m)); rewrite ?len_cons; lia.
Qed.

Lemma commit_lsn_mono c d :
  config_wf c -> members c = members d -> quorum c = quorum d ->
  (forall m, flush_of c m <= flush_of d m) -> commit_lsn c <= commit_lsn d.
Proof.
  intros Hw Hm Hq Hle. assert (Hd : config_wf d) by (unfold config_wf in *; by rewrite <- Hm, <- Hq).
  apply commit_lsn_iff; [done |]. rewrite <- Hq.
  pose proof (proj1 (commit_lsn_iff c (commit_lsn c) Hw) (Z.le_refl _)).
  pose proof (flushed_by_mono c d (commit_lsn c) Hm Hle). lia.
Qed.

Lemma commit_lsn_record_flush c node lsn :
  config_wf c -> commit_lsn c <= commit_lsn (record_flush c node lsn).
Proof.
  intros Hw. apply commit_lsn_mono; [done .. |]. intros m. rewrite record_flush_of.
  case_decide; subst; lia.
Qed.

(** Flush positions are unsigned. *)
Lemma commit_lsn_nonneg c :
  config_wf c -> (forall m, 0 <= flush_of c m) -> 0 <= commit_lsn c.
Proof.
  intros Hw Hf. apply commit_lsn_iff; [done |]. pose proof (quorum_range c Hw).
  rewrite flushed_by_count. unfold count_ge. rewrite forallb_filter_id.
  { unfold len in *. rewrite length_fmap. lia. }
  apply forallb_forall. intros y Hy%list_elem_of_In%list_elem_of_fmap.
  destruct Hy as (m & -> & _). apply Z.leb_le, Hf.
Qed.

Lemma Consensus_new_Ok {E} id ms c :
  Consensus_new (E := E) id ms = Ok c ->
  config_wf c /\ node_id c = id /\ members c = ms /\ term c = 0 /\ forall m, flush_of c m = 0.
Proof.
  unfold Consensus_new. case_bool_decide as Hin; [| done]. intros [= <-]. cbn.
  split. { split; [| done]. cbn. intros ->. set_solver. }
  do 3 (split; [done |]). intros m. unfold flush_of. cbn [flush].
  destruct (list_to_map _ !! m) eqn:E'; [| done].
  apply elem_of_list_to_map_2, list_elem_of_fmap in E' as (y & [= _ ->] & _). done.
Qed.

(** ** Elections *)

Record group := mkGroup {
  nodes : gmap NodeId Consensus;
  (** every vote granted so far, as (voter, term, candidate); a candidate's
      vote for itself included *)
  grants : gset (NodeId * Term * NodeId)
}.

Definition set_node (n : NodeId) (c : Consensus) (g : group) : group :=
  mkGroup (<[n := c]> (nodes g)) (grants g).

Definition add_grant (v : NodeId) (t : Term) (x : NodeId) (g : group) : group :=
  mkGroup (nodes g) ({[(v, t, x)]} ∪ grants g).

Definition fresh_node (ms : list NodeId) (n : NodeId) : option Consensus :=
  match Consensus_new (E := unit) n ms with Ok c => Some c | _ => None end.

Definition group_init (ms : list NodeId) : group :=
  mkGroup (map_imap (fun n _ => fresh_node ms n) (gset_to_gmap tt (list_to_set ms))) ∅.

(** One node of the group handles one event.  A vote request may carry any term
    and candidate; a grant reaches only the candidate it was given to, in the
    term it was asked for, but at any later time and any number of times. *)
Inductive group_step (g : group) : group -> Prop :=
| step_elect n c c' t :
    nodes g !! n = Some c -> start_election (E := unit) c = Ok (c', t) ->
    group_step g (add_grant n t n (set_node n c' g))
| step_vote v c c' t x granted :
    nodes g !! v = Some c -> handle_vote_request c t x = (c', granted) ->
    group_step g (if granted : bool then add_grant v t x (set_node v c' g) else set_node v c' g)
| step_granted n c v t :
    (v, t, n) ∈ grants g -> nodes g !! n = Some c ->
    group_step g (set_node n (handle_vote_granted c v t) g)
| step_flush n c m l :
    nodes g !! n = Some c -> group_step g (set_node n (record_flush c m l) g).

Definition leads (g : group) (n : NodeId) (t : Term) : Prop :=
  exists c, nodes g !! n = Some c /\ is_leader c = true /\ term c = t.

(** What holds of a node given the votes granted so far. *)
Record node_inv (ms : list NodeId) (gs : gset (NodeId * Term * NodeId)) (n : NodeId)
  (c : Consensus) : Prop := {
  ni_id : node_id c = n;
  ni_members : members c = ms;
  ni_quorum : quorum c = len ms / 2 + 1;
  ni_voted : forall t x, (n, t, x) ∈ gs -> t < term c \/ t = term c /\ voted_for c = Some x;
  ni_votes : role c <> Follower -> forall v, v ∈ votes c -> (v, term c, n) ∈ gs;
  ni_leader : role c = Leader -> quorum c <= Z.of_nat (size (votes c))
}.

Record group_inv (ms : list NodeId) (g : group) : Prop := {
  gi_node : forall n c, nodes g !! n = Some c -> node_inv ms (grants g) n c;
  gi_voter : forall v t x, (v, t, x) ∈ grants g -> v ∈ ms;
  gi_dom : forall n, is_Some (nodes g !! n) -> n ∈ ms;
  gi_once : forall v t x y, (v, t, x) ∈ grants g -> (v, t, y) ∈ grants g -> x = y
}.

Lemma group_init_inv ms : group_inv ms (group_init ms).
Proof.
  split; unfold group_init; cbn [nodes grants].
  - intros n c Hn. rewrite map_lookup_imap in Hn. apply bind_Some in Hn as ([] & Hd & Hn).
    unfold fresh_node in Hn. destruct (Consensus_new n ms) eqn:E; [| done ..].
    injection Hn as ->. unfold Consensus_new in E. case_bool_decide; [| done].
    injection E as <-. split; cbn; done.
  - set_solver.
  - intros n [c Hn]. rewrite map_lookup_imap in Hn. apply bind_Some in Hn as ([] & Hd & _).
    apply lookup_gset_to_gmap_Some in Hd as [Hd _]. by apply elem_of_list_to_set in Hd.
  - set_solver.
Qed.

(** Granting a vote that the voter's state allows keeps every other node's
    invariant. *)
Lemma node_inv_add_grant ms gs n c v t x :
  n <> v -> node_inv ms gs n c -> node_inv ms ({[(v, t, x)]} ∪ gs) n c.
Proof.
  intros Hne [H1 H2 H3 H4 H5 H6]. split; auto.
  - intros t' x' [[= -> -> ->]%elem_of_singleton | Hin]%elem_of_union; [done | by apply H4].
  - intros Hr w Hw. apply elem_of_union_r. by apply H5.
Qed.

Lemma group_inv_set_node ms g n c c' :
  group_inv ms g -> nodes g !! n = Some c -> node_inv ms (grants g) n c' ->
  group_inv ms (set_node n c' g).
Proof.
  intros [H1 H2 H3 H4] Hn Hc'. split; unfold set_node; cbn [nodes grants]; auto.
  - intros m d. rewrite lookup_insert. case_decide as E; [intros [= <-]; by subst | apply H1].
  - intros m. rewrite lookup_insert. case_decide as E; [| apply H3].
    intros _. subst. apply H3. by rewrite Hn.
Qed.

(** A node records a new vote of its own: it must not have voted for someone
    else in that term, and its new state must reflect the vote. *)
Lemma group_inv_vote ms g n c c' t x :
  group_inv ms g -> nodes g !! n = Some c ->
  node_inv ms ({[(n, t, x)]} ∪ grants g) n c' ->
  (forall y, (n, t, y) ∈ grants g -> y = x) ->
  group_inv ms (add_grant n t x (set_node n c' g)).
Proof.
  intros [H1 H2 H3 H4] Hn Hc' Huniq.
  split; unfold add_grant, set_node; cbn [nodes grants].
  - intros m d. rewrite lookup_insert. case_decide as E.
    + intros [= <-]. by subst.
    + intros Hm. apply node_inv_add_grant; [done | by apply H1].
  - intros v t' y [[= -> -> ->]%elem_of_singleton | Hin]%elem_of_union; [| by eapply H2].
    apply H3. by rewrite Hn.
  - intros m. rewrite lookup_insert. case_decide as E; [| apply H3].
    intros _. subst. apply H3. by rewrite Hn.
  - intros v t' y z. rewrite !elem_of_union, !elem_of_singleton.
    intros [[= -> -> ->] | Hy] [E | Hz].
    + by injection E as ->.
    + symmetry. by apply Huniq.
    + injection E as -> -> ->. by apply Huniq.
    + by eapply H4.
Qed.

(** Becoming leader requires a quorum of the votes. *)
Lemma maybe_leader_inv ms gs n c :
  node_inv ms gs n c -> node_inv ms gs n (maybe_become_leader c).
Proof.
  intros [H1 H2 H3 H4 H5 H6]. unfold maybe_become_leader.
  destruct (bool_decide (role c = Candidate) && _) eqn:E; [| done].
  apply andb_true_iff in E as [E1%bool_decide_eq_true E2%Z.leb_le].
  split; cbn; auto. intros _. apply H5. by rewrite E1.
Qed.

Lemma step_elect_inv ms g n c c' t :
  group_inv ms g -> nodes g !! n = Some c -> start_election (E := unit) c = Ok (c', t) ->
  group_inv ms (add_grant n t n (set_node n c' g)).
Proof.
  intros HI Hn He. pose proof (gi_node _ _ HI _ _ Hn) as [H1 H2 H3 H4 H5 H6].
  unfold start_election, add_u64 in He. case_test; [| done]. cbn [bind] in He.
  injection He as Hc Ht. set (d := with_election _ _ _ _ _) in Hc.
  assert (t = term c + 1) as ->.
  { subst t d. unfold maybe_become_leader. by case_test. }
  eapply group_inv_vote; [done | done | |].
  - rewrite <- Hc. apply maybe_leader_inv. unfold d. rewrite H1. split; cbn; auto.
    + intros t x [[= -> ->]%elem_of_singleton | Hin]%elem_of_union; [by right |].
      left. apply H4 in Hin. lia.
    + intros _ v ->%elem_of_singleton. set_solver.
    + done.
  - intros y Hy. apply H4 in Hy. lia.
Qed.

Lemma step_vote_inv ms g v c c' t x granted :
  group_inv ms g -> nodes g !! v = Some c -> handle_vote_request c t x = (c', granted) ->
  group_inv ms (if granted then add_grant v t x (set_node v c' g) else set_node v c' g).
Proof.
  intros HI Hv Hr. pose proof (gi_node _ _ HI _ _ Hv) as Hc.
  assert (Ho : node_inv ms (grants g) v (observe_term c t) /\ t <= term (observe_term c t)).
  { unfold observe_term. destruct (Z.ltb_spec (term c) t); [| done].
    destruct Hc as [H1 H2 H3 H4 H5 H6]. split; [| done]. split; cbn; auto; try done.
    intros t' y Hy. apply H4 in Hy. lia. }
  destruct Ho as [Ho Ht]. unfold handle_vote_request in Hr.
  set (d := observe_term c t) in *. clearbody d.
  destruct ((t =? _) && _) eqn:E; injection Hr as <- <-.
  - apply andb_true_iff in E as [->%Z.eqb_eq E].
    destruct Ho as [H1 H2 H3 H4 H5 H6].
    assert (Hu : forall y, (v, term d, y) ∈ grants g -> y = x).
    { intros y Hy. apply H4 in Hy as [Hy | [_ Hy]]; [lia |]. rewrite Hy in E.
      apply orb_true_iff in E as [E%bool_decide_eq_true | E%bool_decide_eq_true]; congruence. }
    eapply group_inv_vote; [done | done | | done].
    split; cbn; auto.
    + intros t' y [[= -> ->]%elem_of_singleton | Hin]%elem_of_union; [by right |].
      destruct (H4 _ _ Hin) as [Hlt | [-> Hs]]; [by left | right].
      split; [done |]. by rewrite (Hu y Hin).
    + intros Hne w Hw. apply elem_of_union_r. by apply H5.
  - by eapply group_inv_set_node.
Qed.

Lemma step_granted_inv ms g n c v t :
  group_inv ms g -> (v, t, n) ∈ grants g -> nodes g !! n = Some c ->
  group_inv ms (set_node n (handle_vote_granted c v t) g).
Proof.
  intros HI Hg Hn. pose proof (gi_node _ _ HI _ _ Hn) as Hc.
  eapply group_inv_set_node; [done | done |]. unfold handle_vote_granted.
  destruct ((t =? term c) && _) eqn:E; [| done].
  apply andb_true_iff in E as [->%Z.eqb_eq Er%bool_decide_eq_true].
  apply maybe_leader_inv. destruct Hc as [H1 H2 H3 H4 H5 H6]. split; cbn; auto.
  - intros Hr w [->%elem_of_singleton | Hw]%elem_of_union; [done | by apply H5].
  - by rewrite Er.
Qed.

Lemma group_step_inv ms g g' : group_inv ms g -> group_step g g' -> group_inv ms g'.
Proof.
  intros HI [n c c' t Hn He | v c c' t x b Hv Hr | n c v t Hg Hn | n c m l Hn].
  - by eapply step_elect_inv.
  - by eapply step_vote_inv.
  - by eapply step_granted_inv.
  - eapply group_inv_set_node; [done | done |].
    pose proof (gi_node _ _ HI _ _ Hn) as [H1 H2 H3 H4 H5 H6]. by split.
Qed.

Lemma group_reach_inv ms g : rtc group_step (group_init ms) g -> group_inv ms g.
Proof.
  intros H. pose proof (group_init_inv ms) as HI. induction H as [|g1 g2 g3 Hs _ IH]; [done |].
  apply IH. by eapply group_step_inv.
Qed.

(** The invariant propagates from any state, and granted votes are never lost. *)
Lemma group_steps_inv ms g g' :
  group_inv ms g -> rtc group_step g g' -> group_inv ms g' /\ grants g ⊆ grants g'.
Proof.
  intros HI H. induction H as [|g1 g2 g3 Hs _ IH]; [done |].
  destruct IH as [HI3 Hsub]; [by eapply group_step_inv |]. split; [done |].
  etrans; [| exact Hsub]. destruct Hs as [| ? ? ? ? ? [] | |]; cbn; set_solver.
Qed.

(** Two majorities of one member list share a member. *)
Lemma majorities_meet (ms : list NodeId) (V W : gset NodeId) :
  V ⊆ list_to_set ms -> W ⊆ list_to_set ms ->
  len ms / 2 + 1 <= Z.of_nat (size V) -> len ms / 2 + 1 <= Z.of_nat (size W) ->
  exists v, v ∈ V /\ v ∈ W.
Proof.
  intros HV HW Hv Hw. destruct (set_choose_or_empty (V ∩ W)) as [[v Hin] | He].
  { exists v. set_solver. }
  exfalso. assert (Hd : V ## W) by set_solver.
  assert (Hs : (size (V ∪ W) <= length ms)%nat).
  { transitivity (size (list_to_set ms : gset NodeId)).
    - apply subseteq_size. by apply union_least.
    - clear. induction ms as [|m ms IH]; [done |]. cbn [list_to_set length].
      rewrite size_union_alt, size_singleton.
      assert (list_to_set ms ∖ {[m]} ⊆@{gset NodeId} list_to_set ms) as Hle
        by by apply subseteq_difference_l.
      apply subseteq_size in Hle. lia. }
  rewrite size_union in Hs by done. unfold len in *.
  pose proof (Z.div_mod (Z.of_nat (length ms)) 2 ltac:(lia)).
  pose proof (Z.mod_pos_bound (Z.of_nat (length ms)) 2 ltac:(lia)). lia.
Qed.

(** A leader's votes are granted votes of the members, a quorum of them. *)
Lemma leads_majority ms g n t :
  group_inv ms g -> leads g n t ->
  exists V : gset NodeId, V ⊆ list_to_set ms /\ len ms / 2 + 1 <= Z.of_nat (size V) /\
    forall v, v ∈ V -> (v, t, n) ∈ grants g.
Proof.
  intros HI (c & Hn & Hl & <-). apply bool_decide_eq_true in Hl.
  pose proof (gi_node _ _ HI _ _ Hn) as [H1 H2 H3 H4 H5 H6].
  assert (Hv : forall v, v ∈ votes c -> (v, term c, n) ∈ grants g) by (apply H5; by rewrite Hl).
  exists (votes c). split; [| split; [rewrite <- H3; by apply H6 | done]].
  intros v Hin. apply elem_of_list_to_set. by eapply (gi_voter _ _ HI), Hv.
Qed.

(** The commit position is the highest one flushed by a quorum: a position
    is at or below it exactly when at least a quorum of the members has flushed
    that far. *)
Theorem commit_lsn_is_quorum_position (c : Consensus) (x : Lsn) :
  config_wf c -> x <= commit_lsn c <-> quorum c <= flushed_by c x.
Proof. apply commit_lsn_iff. Qed.

Definition example_flushes : Consensus :=
  {| node_id := 1; members := [1; 2; 3]; quorum := 2; term := 4; role := Leader;
     voted_for := Some 1; votes := {[1; 2]}; flush := {[1 := 300; 2 := 100; 3 := 200]} |}.

Lemma commit_lsn_is_quorum_position_witness :
  commit_lsn example_flushes = 200 /\ (200 <= commit_lsn example_flushes <-> 2 <= 2).
Proof.
  split; [vm_compute; reflexivity |].
  apply (commit_lsn_is_quorum_position example_flushes 200). split; [discriminate | reflexivity].
Defined.

(** Recording acknowledgements, in any order and with stale or repeated
    positions, never moves a member's recorded position or the commit position
    backwards. *)
Theorem acks_are_monotone (c : Consensus) (acks : list (NodeId * Lsn)) :
  config_wf c ->
  let d := fold_left (fun c a => record_flush c a.1 a.2) acks c in
  config_wf d /\ commit_lsn c <= commit_lsn d /\ forall m, flush_of c m <= flush_of d m.
Proof.
  revert c; induction acks as [|[n l] acks IH]; intros c Hw; [done |]. cbn [fold_left fst snd].
  destruct (IH (record_flush c n l)) as (Hd & Hc & Hf); [done |]. split; [done |].
  split; [pose proof (commit_lsn_record_flush c n l Hw); lia |].
  intros m. specialize (Hf m). rewrite record_flush_of in Hf. case_decide; subst; lia.
Qed.

Lemma acks_are_monotone_witness :
  commit_lsn example_flushes
  <= commit_lsn (fold_left (fun c a => record_flush c a.1 a.2) [(2, 250); (2, 90)] example_flushes).
Proof. apply (acks_are_monotone example_flushes [(2, 250); (2, 90)]). by split. Defined.

(** *** Executable traces *)

Inductive event :=
| Elect (n : NodeId)
| Vote (v : NodeId) (t : Term) (x : NodeId)
| Granted (n v : NodeId) (t : Term).

Definition run_event (g : group) (e : event) : option group :=
  match e with
  | Elect n =>
      c ← nodes g !! n;
      match start_election (E := unit) c with
      | Ok (c', t) => Some (add_grant n t n (set_node n c' g))
      | _ => None
      end
  | Vote v t x =>
      c ← nodes g !! v;
      let '(c', granted) := handle_vote_request c t x in
      Some (if granted : bool then add_grant v t x (set_node v c' g) else set_node v c' g)
  | Granted n v t =>
      if bool_decide ((v, t, n) ∈ grants g) then
        c ← nodes g !! n; Some (set_node n (handle_vote_granted c v t) g)
      else None
  end.

Fixpoint run_events (g : group) (es : list event) : option group :=
  match es with
  | [] => Some g
  | e :: es' => g' ← run_event g e; run_events g' es'
  end.

Lemma run_event_step g e g' : run_event g e = Some g' -> group_step g g'.
Proof.
  destruct e as [n | v t x | n v t]; cbn [run_event].
  - intros (c & Hn & H)%bind_Some. destruct (start_election c) as [[c' t] | |] eqn:E; [| done ..].
    injection H as <-. by eapply step_elect.
  - intros (c & Hn & H)%bind_Some. destruct (handle_vote_request c t x) as [c' b] eqn:E.
    injection H as <-. by eapply step_vote.
  - case_bool_decide as Hg; [| done]. intros (c & Hn & H)%bind_Some. injection H as <-.
    by eapply step_granted.
Qed.

Lemma run_events_reach es g g' : run_events g es = Some g' -> rtc group_step g g'.
Proof.
  revert g; induction es as [|e es IH]; intros g; cbn [run_events].
  - intros [= <-]. apply rtc_refl.
  - intros (g1 & H1 & H2)%bind_Some. eapply rtc_l; [by eapply run_event_step | by apply IH].
Qed.

Definition leads_b (g : group) (n : NodeId) (t : Term) : bool :=
  match nodes g !! n with Some c => is_leader c && (term c =? t) | None => false end.

Lemma leads_b_true g n t : leads_b g n t = true -> leads g n t.
Proof.
  unfold leads_b, leads. destruct (nodes g !! n) as [c|]; [| done].
  intros [Hl Ht%Z.eqb_eq]%andb_true_iff. eauto.
Qed.

(** C10: election safety.  In a group whose members all run the state machine and
    do not restart, a term has at most one leader, over the whole life of the
    group: if [n1] leads term [t] in some reachable state and [n2] leads the
    same term then or at any later point, they are the same node. *)
Theorem election_safety (ms : list NodeId) (g1 g2 : group) (n1 n2 : NodeId) (t : Term) :
  rtc group_step (group_init ms) g1 -> rtc group_step g1 g2 ->
  leads g1 n1 t -> leads g2 n2 t -> n1 = n2.
Proof.
  intros H1 H2 L1 L2. apply group_reach_inv in H1.
  destruct (group_steps_inv _ _ _ H1 H2) as [H3 Hsub].
  destruct (leads_majority _ _ _ _ H1 L1) as (V & HV & Vq & Vg).
  destruct (leads_majority _ _ _ _ H3 L2) as (W & HW & Wq & Wg).
  destruct (majorities_meet ms V W) as (v & Hv & Hw); [done .. |].
  eapply (gi_once _ _ H3 v t); [by apply Hsub, Vg | by apply Wg].
Qed.

(** Node 1 of three stands in term 1 and is elected with node 2's vote. *)
Definition election_trace : list event := [Elect 1; Vote 2 1 1; Granted 1 2 1].

Lemma election_trace_run :
  (g ← run_events (group_init [1; 2; 3]) election_trace; Some (leads_b g 1 1)) = Some true.
Proof. vm_compute. reflexivity. Qed.

Lemma election_safety_witness :
  exists g, run_events (group_init [1; 2; 3]) election_trace = Some g /\
    leads g 1 1 /\ forall n, leads g n 1 -> 1 = n.
Proof.
  destruct (proj1 (bind_Some _ _ _) election_trace_run) as (g & E & [= L%leads_b_true]).
  exists g. split; [exact E | split; [exact L |]]. intros n Ln.
  apply (election_safety [1; 2; 3] g g 1 n 1);
    [exact (run_events_reach _ _ _ E) | apply rtc_refl | exact L | exact Ln].
Defined.

(** *** Restarts *)

(** A member restarts: the process comes back with [Consensus::new] (main.rs),
    neither the term nor the vote having been stored. *)
Definition restart (ms : list NodeId) (n : NodeId) (g : group) : option group :=
  c ← fresh_node ms n; Some (set_node n c g).

Inductive restart_step (ms : list NodeId) (g : group) : group -> Prop :=
| rs_step g' : group_step g g' -> restart_step ms g g'
| rs_restart n g' : restart ms n g = Some g' -> restart_step ms g g'.

Lemma restart_trace_run :
  (g1 ← run_events (group_init [1; 2; 3]) election_trace;
   g2 ← restart [1; 2; 3] 2 g1;
   g3 ← run_events g2 [Elect 3; Vote 2 1 3; Granted 3 2 1];
   Some (leads_b g3 1 1, leads_b g3 3 1)) = Some (true, true).
Proof. vm_compute. reflexivity. Qed.

(** Without stable storage for the term and the vote, election safety does
    not survive a restart: node 1 wins term 1 with node 2's vote, node 2
    restarts, and node 3 wins term 1 with node 2's second vote. *)
Theorem restart_two_leaders :
  exists g, rtc (restart_step [1; 2; 3]) (group_init [1; 2; 3]) g /\ leads g 1 1 /\ leads g 3 1.
Proof.
  destruct (proj1 (bind_Some _ _ _) restart_trace_run) as (g1 & E1 & H).
  apply bind_Some in H as (g2 & E2 & H). apply bind_Some in H as (g3 & E3 & [= L1 L3]).
  exists g3. split; [| by split; apply leads_b_true].
  transitivity g1; [eapply (rtc_congruence id); [apply rs_step | by eapply run_events_reach] |].
  eapply rtc_l; [by eapply rs_restart |].
  eapply (rtc_congruence id); [apply rs_step | by eapply run_events_reach].
Qed.
