(* ===== verification/WalStorage.v ===== *)
(** The durable WAL store (src/safekeeper/src/storage.rs): fixed-size segment
    files, a metadata file and an in-memory ring.

    The disk is part of the state: [segs] is what a process reads from the
    segment files, [synced] is what each file held at its last [fsync].  Every
    system call consults the oracle [fault], indexed by the number of calls made
    so far, so that failures (and partial writes) can happen anywhere.  [crash]
    keeps, for each byte of a synced file, either its synced or its cached
    value, and says nothing about files never synced; file creation and rename
    are taken to be durable when they return.

    The store is shown to implement an abstract log ([alog]): appending,
    reading, flushing, recycling and recovering after a crash. *)

From S2P Require Import Prelude Bytes BTree Common.

Inductive StorageError :=
| NonContiguous (expected got : Lsn)
| OutOfRange (start end_ lo hi : Lsn)
| CorruptMeta
| Io.

(** [data_dir] is the [Disk] below. *)
Record WalConfig := mkWalConfig {
  segment_size : Z;
  ring_capacity : Z
}.

Definition WalConfig_new : WalConfig :=
  mkWalConfig (16 * 1024 * 1024) (8 * 1024 * 1024).

Definition META_MAGIC : Z := 0x534B4D31.

Record Disk := mkDisk {
  segs : gmap Z bytes;
  synced : gmap Z bytes;
  meta : option bytes;
  ticks : nat
}.

(** The handle of the open segment.  A handle outlives the removal of its file:
    it then refers to a file no path names. *)
Inductive Handle := Linked | Detached (content : bytes).

Record WalStorage := mkWalStorage {
  cfg : WalConfig;
  start_lsn : Lsn;
  write_lsn : Lsn;
  flush_lsn : Lsn;
  ring : list byte;
  ring_start : Lsn;
  open_seg : option (Z * Handle);
  dirty_segments : list (Z * unit);
  disk : Disk
}.

(** ** Field updates *)

Definition with_segs (m : gmap Z bytes) (d : Disk) : Disk :=
  mkDisk m (synced d) (meta d) (ticks d).
Definition with_synced (m : gmap Z bytes) (d : Disk) : Disk :=
  mkDisk (segs d) m (meta d) (ticks d).
Definition with_meta (m : option bytes) (d : Disk) : Disk :=
  mkDisk (segs d) (synced d) m (ticks d).
Definition tick (d : Disk) : Disk := mkDisk (segs d) (synced d) (meta d) (S (ticks d)).

Definition with_disk (d : Disk) (s : WalStorage) : WalStorage :=
  mkWalStorage (cfg s) (start_lsn s) (write_lsn s) (flush_lsn s) (ring s) (ring_start s)
    (open_seg s) (dirty_segments s) d.
Definition with_open (o : option (Z * Handle)) (s : WalStorage) : WalStorage :=
  mkWalStorage (cfg s) (start_lsn s) (write_lsn s) (flush_lsn s) (ring s) (ring_start s)
    o (dirty_segments s) (disk s).
Definition with_dirty (l : list (Z * unit)) (s : WalStorage) : WalStorage :=
  mkWalStorage (cfg s) (start_lsn s) (write_lsn s) (flush_lsn s) (ring s) (ring_start s)
    (open_seg s) l (disk s).
Definition with_write (w : Lsn) (s : WalStorage) : WalStorage :=
  mkWalStorage (cfg s) (start_lsn s) w (flush_lsn s) (ring s) (ring_start s)
    (open_seg s) (dirty_segments s) (disk s).
Definition with_flush_lsn (f : Lsn) (s : WalStorage) : WalStorage :=
  mkWalStorage (cfg s) (start_lsn s) (write_lsn s) f (ring s) (ring_start s)
    (open_seg s) (dirty_segments s) (disk s).
Definition with_start (l : Lsn) (s : WalStorage) : WalStorage :=
  mkWalStorage (cfg s) l (write_lsn s) (flush_lsn s) (ring s) (ring_start s)
    (open_seg s) (dirty_segments s) (disk s).
Definition with_ring (r : list byte) (rs : Lsn) (s : WalStorage) : WalStorage :=
  mkWalStorage (cfg s) (start_lsn s) (write_lsn s) (flush_lsn s) r rs
    (open_seg s) (dirty_segments s) (disk s).

(** Every position moves to the origin of the first append. *)
Definition seed (lsn : Lsn) (s : WalStorage) : WalStorage :=
  mkWalStorage (cfg s) lsn lsn lsn (ring s) lsn (open_seg s) (dirty_segments s) (disk s).

(** ** Files *)

(** [data] written at [off]; a gap before it reads as zeros. *)
Definition file_write (c : bytes) (off : Z) (data : bytes) : bytes :=
  let c' := c ++ replicate (Z.to_nat (off - len c)) x00 in
  take (Z.to_nat off) c' ++ data ++ drop (Z.to_nat (off + len data)) c'.

Definition encode_meta (start flush : Lsn) : bytes :=
  be_bytes 4 META_MAGIC ++ be_bytes 8 start ++ be_bytes 8 flush.

Section Store.
(** The [k]-th system call fails when [fault k] is [Some n]; a failing write
    has put its first [n] bytes in the file. *)
Context (fault : nat -> option Z).

Definition disk_io : stateM Disk StorageError unit :=
  fun d => (tick d, match fault (ticks d) with None => Ok tt | Some _ => Err Io end).

Definition io : stateM WalStorage StorageError unit :=
  fun s => let '(d, r) := disk_io (disk s) in (with_disk d s, r).

Definition mod_disk (f : Disk -> Disk) : stateM WalStorage StorageError unit :=
  smod (fun s => with_disk (f (disk s)) s).

(** ** Opening *)

Definition read_meta : stateM Disk StorageError (option (Lsn * Lsn)) :=
  fun d =>
  match meta d with
  | None => (d, Ok None)
  | Some buf =>
      (let! _ := disk_io in
       let! _ := disk_io in
       slift (ensure len buf =? 20 else CorruptMeta in
              let? magic := get_be 4 buf 0 in
              ensure magic =? META_MAGIC else CorruptMeta in
              let? start := get_be 8 buf 4 in
              let? flush := get_be 8 buf 12 in
              Ok (Some (start, flush)))) d
  end.

(** [WalStorage::open] on the directory [d]. *)
Definition WalStorage_open (c : WalConfig) (d : Disk) : Disk * outcome StorageError WalStorage :=
  (let! _ := disk_io in
   let! m := read_meta in
   let! d := sget in
   let '(start, flush) := default (INVALID, INVALID) m in
   sret (mkWalStorage c start flush flush [] flush None [] d)) d.

(** ** Appending *)

Definition append_segment (idx : Z) : stateM WalStorage StorageError unit :=
  let! s := sget in
  let matches := match open_seg s with Some (i, _) => i =? idx | None => false end in
  if matches then sret tt
  else
    let existed := bool_decide (is_Some (segs (disk s) !! idx)) in
    let! _ := io in
    let! _ := (if existed then sret tt
               else
                 let! _ := mod_disk (fun d => with_segs (<[idx := []]> (segs d)) d) in
                 let! _ := io in
                 mod_disk (fun d => with_segs
                   (<[idx := replicate (Z.to_nat (segment_size (cfg s))) x00]> (segs d)) d)) in
    smod (with_open (Some (idx, Linked))).

(** [f.write_all(data)] through the open handle, positioned at [off]. *)
Definition write_handle (off : Z) (data : bytes) (s : WalStorage) : WalStorage :=
  match open_seg s with
  | Some (i, Linked) =>
      with_disk (with_segs (<[i := file_write (default [] (segs (disk s) !! i)) off data]>
                              (segs (disk s))) (disk s)) s
  | Some (i, Detached c) => with_open (Some (i, Detached (file_write c off data))) s
  | None => s
  end.

Definition write_all (off : Z) (data : bytes) : stateM WalStorage StorageError unit :=
  fun s =>
  let s' := with_disk (tick (disk s)) s in
  match fault (ticks (disk s)) with
  | None => (write_handle off data s', Ok tt)
  | Some n => (write_handle off (take (Z.to_nat n) data) s', Err Io)
  end.

(** One round of the loop of [append]: [chunk] goes to segment [idx] at [offset]. *)
Definition append_chunk (idx offset : Z) (chunk : bytes) : stateM WalStorage StorageError unit :=
  let! _ := append_segment idx in
  let! _ := io in
  let! _ := write_all offset chunk in
  let! _ := smod (fun s => with_dirty (bt_insert idx tt (dirty_segments s)) s) in
  let! s := sget in
  let! w := slift (add_u64 (write_lsn s) (len chunk)) in
  smod (with_write w).

Fixpoint append_loop (fuel : nat) (data : bytes) (written : Z)
  : stateM WalStorage StorageError unit :=
  if written <? len data then
    match fuel with
    | O => spanic
    | S fuel' =>
        let! s := sget in
        let seg_size := segment_size (cfg s) in
        let pos := write_lsn s in
        if seg_size =? 0 then spanic
        else
          let idx := pos / seg_size in
          let offset := pos mod seg_size in
          let space := seg_size - offset in
          let n := Z.min space (len data - written) in
          let! _ := append_chunk idx offset (sub data written n) in
          append_loop fuel' data (written + n)
    end
  else sret tt.

(** The eviction loop: drop from the front while over capacity. *)
Fixpoint evict (cap : Z) (r : list byte) (rs : Lsn) : list byte * Lsn :=
  match r with
  | _ :: r' => if cap <? len r then evict cap r' (rs + 1) else (r, rs)
  | [] => (r, rs)
  end.

Definition append (start : Lsn) (data : bytes) : stateM WalStorage StorageError unit :=
  let! s := sget in
  let! _ := (if negb (Lsn_is_valid (write_lsn s)) && negb (Lsn_is_valid (start_lsn s))
             then smod (seed start) else sret tt) in
  let! s := sget in
  if negb (start =? write_lsn s) then serr (NonContiguous (write_lsn s) start)
  else if len data =? 0 then sret tt
  else
    let! _ := append_loop (S (length data)) data 0 in
    smod (fun s =>
      let '(r, rs) := evict (ring_capacity (cfg s)) (ring s ++ data) (ring_start s) in
      with_ring r rs s).

(** ** Flushing *)

Definition sync_handle (idx : Z) (h : Handle) (d : Disk) : Disk :=
  match h with
  | Linked => match segs d !! idx with
              | Some c => with_synced (<[idx := c]> (synced d)) d
              | None => d
              end
  | Detached _ => d
  end.

Definition sync_segment (idx : Z) : stateM WalStorage StorageError unit :=
  let! s := sget in
  match open_seg s with
  | Some (i, h) =>
      if i =? idx then let! _ := io in mod_disk (sync_handle idx h)
      else
        let! _ := io in
        if bool_decide (is_Some (segs (disk s) !! idx))
        then let! _ := io in mod_disk (sync_handle idx Linked)
        else serr Io
  | None =>
      let! _ := io in
      if bool_decide (is_Some (segs (disk s) !! idx))
      then let! _ := io in mod_disk (sync_handle idx Linked)
      else serr Io
  end.

Fixpoint sync_segments (l : list (Z * unit)) : stateM WalStorage StorageError unit :=
  match l with
  | [] => sret tt
  | (idx, _) :: l' => let! _ := sync_segment idx in sync_segments l'
  end.

(** Create, write and sync the temporary file, then rename it into place. *)
Definition write_meta (start flush : Lsn) : stateM WalStorage StorageError unit :=
  let! _ := io in
  let! _ := io in
  let! _ := io in
  let! _ := io in
  mod_disk (with_meta (Some (encode_meta start flush))).

Definition flush : stateM WalStorage StorageError Lsn :=
  let! s := sget in
  let! _ := sync_segments (dirty_segments s) in
  let! _ := smod (with_dirty []) in
  let! _ := smod (fun s => with_flush_lsn (write_lsn s) s) in
  let! s := sget in
  let! _ := write_meta (start_lsn s) (flush_lsn s) in
  sret (flush_lsn s).

(** ** Reading *)

Fixpoint ring_read (n : nat) (r : list byte) (off : Z) : outcome StorageError bytes :=
  match n with
  | O => Ok []
  | S n' =>
      let? b := index r off in
      let? rest := ring_read n' r (off + 1) in
      Ok (b :: rest)
  end.

(** Open segment [idx], seek, and read exactly [n] bytes. *)
Definition read_segment (idx offset n : Z) : stateM WalStorage StorageError bytes :=
  let! _ := io in
  let! s := sget in
  match segs (disk s) !! idx with
  | None => serr Io
  | Some c =>
      let! _ := io in
      let! _ := io in
      if offset + n <=? len c then sret (sub c offset n) else serr Io
  end.

Fixpoint read_loop (fuel : nat) (lsn n done_ : Z) : stateM WalStorage StorageError bytes :=
  if done_ <? n then
    match fuel with
    | O => spanic
    | S fuel' =>
        let! s := sget in
        let seg_size := segment_size (cfg s) in
        if seg_size =? 0 then spanic
        else
          let pos := lsn + done_ in
          let idx := pos / seg_size in
          let offset := pos mod seg_size in
          let space := seg_size - offset in
          let k := Z.min space (n - done_) in
          let! chunk := read_segment idx offset k in
          let! rest := read_loop fuel' lsn n (done_ + k) in
          sret (chunk ++ rest)
    end
  else sret [].

(** [read_at(lsn, buf)] with [n = buf.len()]; the bytes are what [buf] holds on
    success. *)
Definition read_at (lsn n : Z) : stateM WalStorage StorageError bytes :=
  let! s := sget in
  let! end_ := slift (add_u64 lsn n) in
  if (lsn <? start_lsn s) || (write_lsn s <? end_)
  then serr (OutOfRange lsn end_ (start_lsn s) (write_lsn s))
  else if (ring_start s <=? lsn) && (end_ <=? write_lsn s) && negb (len (ring s) =? 0)
  then slift (ring_read (Z.to_nat n) (ring s) (lsn - ring_start s))
  else read_loop (Z.to_nat n) lsn n 0.

(** ** Recycling *)

(** Unlink a segment; an open handle on it keeps the file. *)
Definition unlink (idx : Z) (s : WalStorage) : WalStorage :=
  let s' := with_disk (with_synced (delete idx (synced (disk s)))
                        (with_segs (delete idx (segs (disk s))) (disk s))) s in
  match open_seg s with
  | Some (i, Linked) =>
      if i =? idx then with_open (Some (i, Detached (default [] (segs (disk s) !! i)))) s' else s'
  | _ => s'
  end.

(** The loop of [remove_segments_before]: [n] segments left, the next at [idx]. *)
Fixpoint remove_loop (n : nat) (idx removed : Z) : stateM WalStorage StorageError Z :=
  match n with
  | O => sret removed
  | S n' =>
      let! s := sget in
      if bool_decide (is_Some (segs (disk s) !! idx)) then
        let! _ := io in
        let! _ := smod (unlink idx) in
        remove_loop n' (idx + 1) (removed + 1)
      else remove_loop n' (idx + 1) removed
  end.

Definition remove_segments_before (horizon : Lsn) : stateM WalStorage StorageError Z :=
  let! s := sget in
  let seg_size := segment_size (cfg s) in
  if seg_size =? 0 then spanic
  else
    let horizon_seg := horizon / seg_size in
    let first := start_lsn s / seg_size in
    let! removed := remove_loop (Z.to_nat (horizon_seg - first)) first 0 in
    let floor := if first <? horizon_seg then horizon_seg * seg_size else start_lsn s in
    let! _ := (if start_lsn s <? floor then smod (with_start floor) else sret tt) in
    sret removed.
End Store.

(** ** Crashes *)

(** What a crash leaves on disk: see the header. *)
Definition crash (d d' : Disk) : Prop :=
  meta d' = meta d /\ synced d' = segs d' /\
  forall i c, synced d !! i = Some c ->
    exists c', segs d' !! i = Some c' /\
      forall o, 0 <= o < len c -> get c' o = get c o \/ get c' o = (f ← segs d !! i; get f o).

(** ** The abstract log *)

(** The retained bytes from [lo] on; positions below [durable] survive a crash. *)
Record alog := mkALog {
  lo : Lsn;
  data : bytes;
  durable : Lsn
}.

Definition alog_end (a : alog) : Lsn := lo a + len (data a).

(** A log at position zero takes its origin from the first append. *)
Definition alog_seed (a : alog) (lsn : Lsn) : alog :=
  if (alog_end a =? 0) && (lo a =? 0) then mkALog lsn [] lsn else a.

Definition alog_append (a : alog) (lsn : Lsn) (d : bytes) : outcome StorageError alog :=
  let a := alog_seed a lsn in
  if lsn =? alog_end a then Ok (mkALog (lo a) (data a ++ d) (durable a))
  else Err (NonContiguous (alog_end a) lsn).

Definition alog_flush (a : alog) : alog := mkALog (lo a) (data a) (alog_end a).

Definition alog_crash (a : alog) : alog :=
  mkALog (lo a) (sub (data a) 0 (durable a - lo a)) (durable a).

Definition alog_recycle (a : alog) (floor : Lsn) : alog :=
  mkALog floor (sub (data a) (floor - lo a) (alog_end a - floor)) (durable a).

(** ** Representation *)

Definition disk_byte (seg : Z) (m : gmap Z bytes) (p : Lsn) : option byte :=
  c ← m !! (p / seg); get c (p mod seg).

Record disk_rep (s : WalStorage) (lo : Lsn) (data : bytes) : Prop := {
  dr_seg : 0 < segment_size (cfg s);
  dr_lo : 0 <= lo;
  dr_write : write_lsn s = lo + len data;
  dr_bytes : forall i b, get data i = Some b ->
    disk_byte (segment_size (cfg s)) (segs (disk s)) (lo + i) = Some b;
  dr_open : match open_seg s with
            | Some (i, Linked) => is_Some (segs (disk s) !! i)
            | Some (i, Detached _) =>
                (i + 1) * segment_size (cfg s) <= write_lsn s /\ segs (disk s) !! i = None
            | None => True
            end;
  dr_flush : flush_lsn s <= write_lsn s;
  dr_dirty : forall i, bt_get i (dirty_segments s) <> None ->
    is_Some (segs (disk s) !! i) /\
    flush_lsn s / segment_size (cfg s) <= i /\ i * segment_size (cfg s) < write_lsn s;
  dr_sync : forall i, bt_get i (dirty_segments s) = None ->
    synced (disk s) !! i = segs (disk s) !! i
}.

Record wal_rep (s : WalStorage) (a : alog) : Prop := {
  wr_disk : disk_rep s (lo a) (data a);
  wr_start : start_lsn s = lo a;
  wr_flush : flush_lsn s = durable a;
  wr_durable : lo a <= durable a <= alog_end a;
  wr_max : alog_end a <= u64_max;
  wr_cap : 0 <= ring_capacity (cfg s);
  wr_ring_pos : 0 <= ring_start s /\ ring_start s + len (ring s) = alog_end a;
  wr_ring : forall p, lo a <= p -> ring_start s <= p ->
    get (ring s) (p - ring_start s) = get (data a) (p - lo a)
}.

(** The part of the log below [durable] is on stable storage, and the metadata
    file says so. *)
Definition wal_durable (s : WalStorage) (a : alog) : Prop :=
  meta (disk s) = Some (encode_meta (lo a) (durable a)) /\
  forall p, lo a <= p < durable a ->
    disk_byte (segment_size (cfg s)) (synced (disk s)) p = get (data a) (p - lo a).

(** Two states that differ only in the number of system calls made. *)
Definition same_store (s s' : WalStorage) : Prop :=
  exists k, s' = with_disk (mkDisk (segs (disk s)) (synced (disk s)) (meta (disk s)) k) s.

(** What appending leaves alone. *)
Definition same_frame (s s' : WalStorage) : Prop :=
  cfg s' = cfg s /\ start_lsn s' = start_lsn s /\ flush_lsn s' = flush_lsn s /\
  ring s' = ring s /\ ring_start s' = ring_start s /\
  meta (disk s') = meta (disk s) /\ synced (disk s') = synced (disk s).

Lemma same_store_refl s : same_store s s.
Proof. exists (ticks (disk s)). destruct s as [? ? ? ? ? ? ? ? []]; done. Qed.

Lemma same_store_trans s1 s2 s3 : same_store s1 s2 -> same_store s2 s3 -> same_store s1 s3.
Proof. intros [k ->] [j ->]. by exists j. Qed.

Lemma same_frame_trans s1 s2 s3 : same_frame s1 s2 -> same_frame s2 s3 -> same_frame s1 s3.
Proof. unfold same_frame. intuition congruence. Qed.

Lemma wal_rep_same s s' a : same_store s s' -> wal_rep s a -> wal_rep s' a.
Proof. intros [k ->] [[? ? ? ? ? ? ? ?] ? ? ? ? ? ? ?]. by split. Qed.

Lemma disk_rep_same s s' l d : same_store s s' -> disk_rep s l d -> disk_rep s' l d.
Proof. intros [k ->] [? ? ? ? ? ? ? ?]. by split. Qed.

(** ** File contents *)

Lemma len_file_pad c off : 0 <= off -> off <= len (c ++ replicate (Z.to_nat (off - len c)) x00).
Proof. intros. autorewrite with len. lia. Qed.

Lemma get_take (l : bytes) (n o : Z) : o < n -> get (take (Z.to_nat n) l) o = get l o.
Proof.
  intros H. unfold get. case_test; [| done]. bool_to_prop. apply lookup_take_lt. lia.
Qed.

Lemma file_write_old c off d o b :
  0 <= off -> o < off -> get c o = Some b -> get (file_write c off d) o = Some b.
Proof.
  intros Hoff Ho Hb. unfold file_write. pose proof (len_file_pad c off Hoff).
  rewrite get_app_l by (autorewrite with len in *; lia). rewrite get_take by lia.
  rewrite get_app_l; [done |].
  apply get_Some_iff in Hb as [? Hb]. apply lookup_lt_Some in Hb. unfold len. lia.
Qed.

Lemma file_write_new c off d i :
  0 <= off -> 0 <= i < len d -> get (file_write c off d) (off + i) = get d i.
Proof.
  intros Hoff Hi. unfold file_write. pose proof (len_file_pad c off Hoff) as Hp.
  set (c' := c ++ _) in *.
  assert (Hl : len (take (Z.to_nat off) c') = off) by (rewrite len_take; lia).
  rewrite get_app_r by lia. rewrite Hl, get_app_l by lia. f_equal. lia.
Qed.

(** Two positions of one segment: order of positions is order of offsets. *)
Lemma same_segment_lt seg p q :
  0 < seg -> p / seg = q / seg -> p < q -> p mod seg < q mod seg.
Proof.
  intros Hs Hd Hlt. pose proof (Z.div_mod p seg ltac:(lia)). pose proof (Z.div_mod q seg ltac:(lia)).
  rewrite Hd in *. nia.
Qed.

Lemma segment_offset seg p i :
  0 < seg -> 0 <= i -> p mod seg + i < seg ->
  (p + i) / seg = p / seg /\ (p + i) mod seg = p mod seg + i.
Proof.
  intros Hs Hi Hlt. pose proof (Z.mod_pos_bound p seg Hs).
  pose proof (Z.div_mod p seg ltac:(lia)) as Hdm.
  assert (E : p + i = seg * (p / seg) + (p mod seg + i)) by lia. split.
  - symmetry. apply (Z.div_unique_pos _ _ _ (p mod seg + i)); lia.
  - symmetry. apply (Z.mod_unique_pos _ _ (p / seg)); lia.
Qed.

(** ** Appending *)

Section Proofs.
Context (fault : nat -> option Z).

(** An [Io] error is reported only when some system call failed. *)
Definition io_failed {S} (e : StorageError) (_ : S) : Prop :=
  e = Io /\ exists k, fault k <> None.

Lemma runs_io {A} (k : unit -> stateM WalStorage StorageError A) s Q :
  (forall s', same_store s s' -> runs (k tt) s' Q io_failed) ->
  runs (sbind (io fault) k) s Q io_failed.
Proof.
  intros H. unfold sbind, io, disk_io, runs. cbn.
  destruct (fault (ticks (disk s))) eqn:E.
  - split; [done |]. exists (ticks (disk s)). by rewrite E.
  - apply H. by exists (S (ticks (disk s))).
Qed.

Lemma runs_write_all {A} off ch (k : unit -> stateM WalStorage StorageError A) s Q :
  (forall s', same_store s s' -> runs (k tt) (write_handle off ch s') Q io_failed) ->
  runs (sbind (write_all fault off ch) k) s Q io_failed.
Proof.
  intros H. unfold sbind, write_all, runs. destruct (fault (ticks (disk s))) eqn:E.
  - split; [done |]. exists (ticks (disk s)). by rewrite E.
  - apply H. by exists (S (ticks (disk s))).
Qed.

Definition fresh_segment (s : WalStorage) (idx : Z) (s' : WalStorage) : Prop :=
  segs (disk s') = segs (disk s) \/
  segs (disk s) !! idx = None /\ exists c, segs (disk s') = <[idx := c]> (segs (disk s)).

(** The append handle is open on an existing file. *)
Lemma append_segment_ok s lo data idx :
  disk_rep s lo data -> idx = write_lsn s / segment_size (cfg s) ->
  runs (append_segment fault idx) s
    (fun _ s' => open_seg s' = Some (idx, Linked) /\ is_Some (segs (disk s') !! idx) /\
       fresh_segment s idx s' /\ same_frame s s' /\ write_lsn s' = write_lsn s /\
       dirty_segments s' = dirty_segments s)
    io_failed.
Proof.
  intros [Hseg _ _ _ Hopen _ _ _] ->. unfold append_segment. apply runs_get.
  set (idx := write_lsn s / segment_size (cfg s)) in *.
  destruct (match open_seg s with Some (i, _) => i =? idx | None => false end) eqn:E.
  - destruct (open_seg s) as [[i h]|] eqn:Eo; [| done]. apply Z.eqb_eq in E as ->.
    destruct h; [cbn; repeat split; auto; by left |]. exfalso.
    pose proof (Z.mul_succ_div_gt (write_lsn s) _ Hseg) as Hgt. fold idx in Hgt. nia.
  - apply runs_io. intros s1 [k1 ->]. case_bool_decide as Hex.
    + apply runs_ret. cbn. repeat split; auto. by left.
    + eapply runs_bind with (Q' := fun _ s' =>
        exists c, same_frame s s' /\ write_lsn s' = write_lsn s /\
          dirty_segments s' = dirty_segments s /\ segs (disk s') = <[idx := c]> (segs (disk s))).
      * unfold mod_disk. apply runs_mod. apply runs_io. intros s2 [k2 ->]. unfold runs; cbn.
        eexists. repeat split. by rewrite insert_insert_eq.
      * intros _ s' (c & Hf & Hw & Hd & Hs). unfold runs; cbn. rewrite Hs, lookup_insert_eq.
        repeat split; eauto; try apply Hf. right. split; [| by eauto].
        by apply eq_None_not_Some.
Qed.

Lemma bt_insert_some {V} (m : list (Z * V)) (k i : Z) v :
  bt_get i (bt_insert k v m) <> None <-> i = k \/ bt_get i m <> None.
Proof.
  rewrite bt_get_insert. case_decide as D; [subst; split; auto; done |].
  split; [by auto | intros [-> | ?]; done].
Qed.

(** Writing a chunk that fits the current segment extends the log by it. *)
Lemma append_chunk_ok s lo data idx off ch :
  disk_rep s lo data -> idx = write_lsn s / segment_size (cfg s) ->
  off = write_lsn s mod segment_size (cfg s) -> 0 < len ch -> off + len ch <= segment_size (cfg s) ->
  write_lsn s + len ch <= u64_max ->
  runs (append_chunk fault idx off ch) s
    (fun _ s' => disk_rep s' lo (data ++ ch) /\ same_frame s s') io_failed.
Proof.
  intros HD Hi Ho Hpos Hfit Hmax. unfold append_chunk.
  eapply runs_bind; [by eapply append_segment_ok |].
  intros _ s1 (Hopen & [c Hc] & Hfresh & Hf & Hw & Hdirty).
  apply runs_io. intros s2 [k2 ->]. apply runs_write_all. intros s3 [k3 ->].
  apply runs_mod, runs_get. unfold write_handle. cbn. rewrite Hopen, Hc. cbn.
  eapply runs_lift; [unfold add_u64; rewrite Hw, (proj2 (Z.leb_le _ _)) by lia; done |].
  unfold runs, smod; cbn. destruct HD as [Hseg Hlo Hwr Hb Hop Hfl Hdi Hsy].
  assert (Hcfg : cfg s1 = cfg s) by apply Hf.
  pose proof (Z.mod_pos_bound (write_lsn s) _ Hseg) as Hoff.
  assert (Hfl1 : flush_lsn s1 = flush_lsn s) by apply Hf.
  split; [| destruct Hf as (? & ? & ? & ? & ? & ? & ?); by repeat split].
  split; cbn; rewrite ?Hcfg, ?Hopen, ?Hfl1; auto.
  - rewrite len_app. lia.
  - intros i b Hg. unfold disk_byte. destruct (Z.lt_ge_cases i (len data)) as [Hlt | Hge].
    + rewrite get_app_l in Hg by done. pose proof (proj1 (proj1 (get_Some_iff _ _ _) Hg)) as Hi0.
      pose proof (Hb _ _ Hg) as Hd. unfold disk_byte in Hd.
      apply bind_Some in Hd as (c0 & Hc0 & Hg0).
      assert (Hs1 : segs (disk s1) !! ((lo + i) / segment_size (cfg s)) = Some c0).
      { destruct Hfresh as [-> | (Hn & c1 & ->)]; [done |]. rewrite lookup_insert_ne; [done |].
        intros E. rewrite E in Hn. congruence. }
      destruct (decide (idx = (lo + i) / segment_size (cfg s))) as [E | E].
      * rewrite <- E, lookup_insert_eq. cbn. rewrite <- E, Hc in Hs1. injection Hs1 as ->.
        apply file_write_old; [lia | | done]. subst off.
        apply same_segment_lt; [done | congruence | lia].
      * rewrite lookup_insert_ne by done. by rewrite Hs1.
    + rewrite get_app_r in Hg by done. pose proof (proj1 (get_Some_iff _ _ _) Hg) as [Hi0 Hl].
      assert (Hi1 : i - len data < len ch) by (apply lookup_lt_Some in Hl; unfold len at 2; lia).
      destruct (segment_offset (segment_size (cfg s)) (write_lsn s) (i - len data)) as [E1 E2];
        [lia .. |].
      replace (lo + i) with (write_lsn s + (i - len data)) by lia.
      rewrite E1, E2, <- Hi, lookup_insert_eq. cbn. rewrite <- Ho.
      rewrite file_write_new by lia. done.
  - by rewrite lookup_insert_eq.
  - lia.
  - intros i. rewrite bt_insert_some, Hdirty, lookup_insert. intros [-> | Hdi'].
    { rewrite decide_True by done. split; [done |]. rewrite Hi. split.
      - apply Z.div_le_mono; lia.
      - pose proof (Z.mul_div_le (write_lsn s) _ Hseg). lia. }
    apply Hdi in Hdi' as ([c' Hc'] & Hd1 & Hd2). split; [| lia]. case_decide; [done |].
    destruct Hfresh as [-> | (Hn & c1 & ->)]; [by exists c' |].
    rewrite lookup_insert_ne by congruence. by exists c'.
  - intros i Hnd. destruct Hf as (_ & _ & _ & _ & _ & _ & Hsyn). rewrite Hsyn.
    rewrite Hdirty, bt_get_insert in Hnd. case_decide; [done |].
    rewrite lookup_insert_ne by congruence. rewrite (Hsy i Hnd).
    destruct Hfresh as [-> | (Hn & c1 & ->)]; [done |]. by rewrite lookup_insert_ne.
Qed.

Lemma sub_app_more (l : bytes) w n :
  0 <= w -> 0 <= n -> w + n <= len l ->
  sub l w (len l - w) = sub l w n ++ sub l (w + n) (len l - (w + n)).
Proof.
  intros. replace (len l - w) with (n + (len l - (w + n))) by lia. apply sub_app_split; lia.
Qed.

Lemma append_loop_ok fuel s l d ch w :
  disk_rep s l d -> 0 <= w <= len ch -> len ch - w < Z.of_nat fuel ->
  write_lsn s + (len ch - w) <= u64_max ->
  runs (append_loop fault fuel ch w) s
    (fun _ s' => disk_rep s' l (d ++ sub ch w (len ch - w)) /\ same_frame s s') io_failed.
Proof.
  revert s d w; induction fuel as [|fuel IH]; intros s d w HD Hw Hfuel Hmax; cbn [append_loop].
  { lia. }
  destruct (Z.ltb_spec w (len ch)) as [Hlt | Hge].
  - apply runs_get. pose proof (dr_seg _ _ _ HD) as Hseg. pose proof (dr_write _ _ _ HD) as Hwr.
    rewrite (proj2 (Z.eqb_neq _ _)) by lia.
    set (n := Z.min _ _).
    pose proof (Z.mod_pos_bound (write_lsn s) _ Hseg).
    assert (Hn : 0 < n <= len ch - w) by (unfold n; lia).
    assert (Hl : len (sub ch w n) = n) by (apply sub_len; lia).
    eapply runs_bind.
    + eapply append_chunk_ok; [exact HD | done | done | lia | rewrite Hl; unfold n; lia | rewrite Hl; lia].
    + intros _ s1 [HD1 Hf1]. eapply runs_conseq; [apply (IH s1 (d ++ sub ch w n) (w + n)) | | done].
      * exact HD1.
      * lia.
      * lia.
      * rewrite (dr_write _ _ _ HD1), len_app, Hl. lia.
      * intros _ s2 [HD2 Hf2]. split; [| by eapply same_frame_trans].
        rewrite <- app_assoc, <- sub_app_more in HD2 by lia. done.
  - unfold runs; cbn. replace (len ch - w) with 0 by lia. rewrite sub_zero, app_nil_r.
    by split.
Qed.

Lemma evict_spec cap r rs :
  0 <= cap ->
  exists k : nat, evict cap r rs = (drop k r, rs + Z.of_nat k) /\ (k <= length r)%nat.
Proof.
  intros Hc. revert rs; induction r as [|b r IH]; intros rs; cbn [evict].
  - exists 0%nat. by rewrite Z.add_0_r.
  - case_test.
    + destruct (IH (rs + 1)) as (k & -> & Hk). exists (S k). cbn. split; [| lia]. f_equal. lia.
    + exists 0%nat. rewrite Z.add_0_r. cbn. split; [done | lia].
Qed.

Lemma get_drop (l : bytes) (k : nat) i : 0 <= i -> get (drop k l) i = get l (i + Z.of_nat k).
Proof.
  intros Hi. unfold get. rewrite !(proj2 (Z.leb_le _ _)) by lia.
  rewrite lookup_drop. f_equal. lia.
Qed.

(** Seeding a log at position zero. *)
Lemma seed_rep s a lsn :
  wal_rep s a -> 0 <= lsn <= u64_max ->
  wal_rep (if negb (Lsn_is_valid (write_lsn s)) && negb (Lsn_is_valid (start_lsn s))
           then seed lsn s else s) (alog_seed a lsn).
Proof.
  intros HR Hl. pose proof HR as [[Hseg Hlo Hw Hb Ho Hfw Hd Hsy] Hst Hfl Hdu Hmx Hcap [Hr0 Hr1] Hr].
  unfold Lsn_is_valid, alog_seed. rewrite !negb_involutive, Hst, Hw.
  fold (alog_end a). destruct ((alog_end a =? 0) && (lo a =? 0)) eqn:E; [| done].
  bool_to_prop. unfold alog_end in *.
  assert (Hdata : data a = []) by (apply len_zero_nil; lia).
  assert (Hring : ring s = []) by (apply len_zero_nil; pose proof (len_nonneg (ring s)); lia).
  split; cbn; unfold alog_end; cbn; rewrite ?len_nil; try lia; try done.
  - split; cbn; rewrite ?len_nil; auto; try lia.
    + intros i b. by unfold get; case_test.
    + destruct (open_seg s) as [[i []]|]; try done. destruct Ho. split; [lia | done].
    + intros i (_ & Hi1 & Hi2)%Hd. exfalso. pose proof (Z.div_pos (flush_lsn s) _ ltac:(lia) Hseg). nia.
  - rewrite Hring. unfold len; cbn. lia.
  - intros p _ _. rewrite Hring. by unfold get; repeat case_test.
Qed.

Definition ring_extend (d : bytes) (s : WalStorage) : WalStorage :=
  let '(r, rs) := evict (ring_capacity (cfg s)) (ring s ++ d) (ring_start s) in with_ring r rs s.

(** The ring follows the log. *)
Lemma ring_extend_rep s s2 a d :
  wal_rep s a -> same_frame s s2 -> disk_rep s2 (lo a) (data a ++ d) ->
  alog_end a + len d <= u64_max ->
  wal_rep (ring_extend d s2) (mkALog (lo a) (data a ++ d) (durable a)).
Proof.
  intros [_ Hst Hfl Hdu Hmx Hcap [Hr0 Hr1] Hr] (Hcf & Hf1 & Hf2 & Hf3 & Hf4 & _) HD Hmax.
  unfold ring_extend.
  destruct (evict_spec (ring_capacity (cfg s2)) (ring s2 ++ d) (ring_start s2)) as (k & -> & Hk).
  { by rewrite Hcf. }
  pose proof HD as [? ? ? ? ? ? ? ?]. unfold alog_end in *. rewrite Hf3, length_app in Hk.
  pose proof (len_nonneg d).
  split; cbn; unfold alog_end; cbn; rewrite ?len_app, ?Hf1, ?Hf2, ?Hf3, ?Hf4, ?Hcf; try lia; try done.
  - unfold len in *. rewrite length_drop, length_app. lia.
  - intros p Hp1 Hp2. rewrite get_drop by lia.
    replace (p - (ring_start s + Z.of_nat k) + Z.of_nat k) with (p - ring_start s) by lia.
    destruct (Z.lt_ge_cases p (lo a + len (data a))).
    + rewrite !get_app_l by lia. apply Hr; lia.
    + rewrite !get_app_r by lia. f_equal. lia.
Qed.

Definition same_medium (s s' : WalStorage) : Prop :=
  meta (disk s') = meta (disk s) /\ synced (disk s') = synced (disk s) /\ cfg s' = cfg s.

(** Appending once the origin is settled. *)
Lemma append_at_end s a d :
  wal_rep s a -> alog_end a + len d <= u64_max -> len d <> 0 ->
  runs (let! _ := append_loop fault (S (length d)) d 0 in smod (ring_extend d)) s
    (fun _ s' => wal_rep s' (mkALog (lo a) (data a ++ d) (durable a)) /\ same_medium s s') io_failed.
Proof.
  intros HR Hmax Hd. pose proof (len_nonneg d). pose proof (wr_disk _ _ HR) as HD.
  eapply runs_bind.
  { eapply append_loop_ok; [exact HD | lia | unfold len; lia |].
    rewrite (dr_write _ _ _ HD). unfold alog_end in Hmax. lia. }
  intros _ s2 [HD2 Hf]. rewrite Z.sub_0_r, sub_full in HD2 by done. unfold runs, smod.
  split; [by eapply ring_extend_rep |]. destruct Hf as (? & ? & ? & ? & ? & ? & ?).
  unfold ring_extend, same_medium. destruct (evict _ _ _). done.
Qed.

Lemma append_rep s a lsn d :
  wal_rep s a -> 0 <= lsn -> lsn + len d <= u64_max ->
  runs (append fault lsn d) s
    (fun _ s' => exists a', alog_append a lsn d = Ok a' /\ wal_rep s' a' /\ same_medium s s')
    (fun e s' => io_failed e s' \/ alog_append a lsn d = Err e /\ s' = s).
Proof.
  intros HR Hl Hmax. pose proof (len_nonneg d) as Hd0. unfold append. apply runs_get.
  pose proof (seed_rep s a lsn HR ltac:(lia)) as HS.
  set (s0 := if _ && _ then seed lsn s else s) in HS.
  assert (Hs0 : s0 = s \/ alog_end (alog_seed a lsn) = lsn).
  { unfold s0. destruct (_ && _) eqn:E; [right | by left].
    unfold alog_seed, Lsn_is_valid in *. rewrite (wr_start _ _ HR) in E.
    rewrite (dr_write _ _ _ (wr_disk _ _ HR)) in E. fold (alog_end a) in E.
    rewrite !negb_involutive in E. rewrite E. unfold alog_end, len; cbn. lia. }
  assert (Hkeep : same_medium s s0) by (unfold s0; by case_test).
  eapply runs_bind with (Q' := fun _ s1 => s1 = s0); [unfold s0, runs; by case_test |].
  intros _ s1 ->. apply runs_get. unfold alog_append.
  pose proof (dr_write _ _ _ (wr_disk _ _ HS)) as Hw. fold (alog_end (alog_seed a lsn)) in Hw.
  rewrite Hw. set (a0 := alog_seed a lsn) in *. clearbody a0 s0.
  destruct (Z.eqb_spec lsn (alog_end a0)) as [Heq | Hne]; cbn [negb].
  2: { unfold runs; cbn. right. destruct Hs0 as [-> | E]; [done | by destruct Hne]. }
  destruct (Z.eqb_spec (len d) 0) as [Hd | Hd].
  { apply len_zero_nil in Hd as ->. unfold runs; cbn. eexists. split; [done |].
    rewrite app_nil_r. by destruct a0. }
  eapply runs_conseq; [apply (append_at_end s0 a0 d HS); [lia | done] | | by left].
  intros _ s' [HR' Hf]. eexists. split; [done |]. split; [done |].
  unfold same_medium in *. intuition congruence.
Qed.

(** ** Flushing *)

(** The state during a flush: some dirty segments already synced. *)
Definition sync_progress (s s' : WalStorage) : Prop :=
  cfg s' = cfg s /\ start_lsn s' = start_lsn s /\ write_lsn s' = write_lsn s /\
  flush_lsn s' = flush_lsn s /\ ring s' = ring s /\ ring_start s' = ring_start s /\
  open_seg s' = open_seg s /\ dirty_segments s' = dirty_segments s /\
  segs (disk s') = segs (disk s) /\ meta (disk s') = meta (disk s).

Lemma sync_progress_trans s1 s2 s3 :
  sync_progress s1 s2 -> sync_progress s2 s3 -> sync_progress s1 s3.
Proof. unfold sync_progress. intuition congruence. Qed.

(** Syncing one segment makes its synced image its current content. *)
Definition synced_at (idx : Z) (s s' : WalStorage) : Prop :=
  synced (disk s') !! idx = segs (disk s) !! idx /\
  forall i, i <> idx -> synced (disk s') !! i = synced (disk s) !! i.

Lemma sync_handle_linked idx c (s : WalStorage) :
  segs (disk s) !! idx = Some c ->
  let s' := with_disk (sync_handle idx Linked (disk s)) s in
  sync_progress s s' /\ synced_at idx s s'.
Proof.
  intros Hc. unfold sync_handle, synced_at. rewrite Hc. cbn. rewrite lookup_insert_eq.
  split; [by repeat split | split; [done |]]. intros i Hi. by rewrite lookup_insert_ne.
Qed.

Lemma sync_segment_ok s idx c :
  segs (disk s) !! idx = Some c ->
  match open_seg s with Some (i, Detached _) => segs (disk s) !! i = None | _ => True end ->
  runs (sync_segment fault idx) s
    (fun _ s' => sync_progress s s' /\ synced_at idx s s') io_failed.
Proof.
  intros Hc Ho. unfold sync_segment. apply runs_get.
  assert (Hlink : forall k, runs (mod_disk (sync_handle idx Linked))
      (with_disk (mkDisk (segs (disk s)) (synced (disk s)) (meta (disk s)) k) s)
      (fun _ s' => sync_progress s s' /\ synced_at idx s s') io_failed).
  { intros k. pose proof (sync_handle_linked idx c
      (with_disk (mkDisk (segs (disk s)) (synced (disk s)) (meta (disk s)) k) s) Hc) as [H1 H2].
    split; [exact H1 | exact H2]. }
  assert (Hopen : runs (let! _ := io fault in
        if bool_decide (is_Some (segs (disk s) !! idx))
        then let! _ := io fault in mod_disk (sync_handle idx Linked) else serr Io) s
      (fun _ s' => sync_progress s s' /\ synced_at idx s s') io_failed).
  { rewrite bool_decide_true by (by rewrite Hc). apply runs_io. intros s1 [k1 ->].
    apply runs_io. intros s2 [k2 ->]. apply Hlink. }
  destruct (open_seg s) as [[i h]|]; [| exact Hopen].
  destruct (Z.eqb_spec i idx) as [-> |]; [| exact Hopen].
  destruct h; [| congruence]. apply runs_io. intros s1 [k1 ->]. apply Hlink.
Qed.

Lemma sync_segments_ok l s :
  (forall i, bt_get i l <> None -> is_Some (segs (disk s) !! i)) ->
  match open_seg s with Some (i, Detached _) => segs (disk s) !! i = None | _ => True end ->
  runs (sync_segments fault l) s
    (fun _ s' => sync_progress s s' /\
       forall i, synced (disk s') !! i = segs (disk s) !! i \/
                 bt_get i l = None /\ synced (disk s') !! i = synced (disk s) !! i) io_failed.
Proof.
  revert s; induction l as [|[idx []] l IH]; intros s Hex Ho; cbn [sync_segments].
  { unfold runs; cbn. split; [by repeat split | by right]. }
  destruct (Hex idx) as [c Hc]; [cbn [bt_get]; by rewrite kcmp_refl |].
  eapply runs_bind; [by eapply sync_segment_ok |]. intros _ s1 [Hp1 [Hs1 Hs2]].
  pose proof Hp1 as (_ & _ & _ & _ & _ & _ & Hop & _ & Hseg & _).
  eapply runs_conseq; [apply IH | | done].
  - intros i Hi. rewrite Hseg. apply Hex. cbn [bt_get]. by destruct (kcmp i idx).
  - by rewrite Hop, Hseg.
  - intros _ s2 [Hp2 Hs3]. split; [by eapply sync_progress_trans |]. intros i.
    rewrite <- Hseg. destruct (Hs3 i) as [E | [E1 E2]]; [by left |].
    destruct (decide (i = idx)) as [-> | Hne].
    + left. by rewrite E2, Hs1, Hseg.
    + right. cbn [bt_get]. rewrite E2, Hs2 by done. split; [| done].
      destruct (kcmp i idx) eqn:K; [| done ..]. by apply kcmp_eq in K.
Qed.

Lemma write_meta_ok s start fl :
  runs (write_meta fault start fl) s
    (fun _ s' => exists k, s' = with_disk (mkDisk (segs (disk s)) (synced (disk s))
                                  (Some (encode_meta start fl)) k) s) io_failed.
Proof.
  unfold write_meta. do 4 (apply runs_io; intros ? [? ->]). unfold runs, mod_disk, smod; cbn.
  by eexists.
Qed.

Lemma flush_rep s a :
  wal_rep s a ->
  runs (flush fault) s
    (fun l s' => l = alog_end a /\ wal_rep s' (alog_flush a) /\ wal_durable s' (alog_flush a) /\
       cfg s' = cfg s)
    io_failed.
Proof.
  intros [[Hseg Hlo Hw Hb Ho Hfw Hdi Hsy] Hst Hfl Hdu Hmx Hcap Hrp Hr]. unfold flush. apply runs_get.
  eapply runs_bind.
  { apply sync_segments_ok; [by intros i [? _]%Hdi |]. destruct (open_seg s) as [[i []]|]; [done | apply Ho | done]. }
  intros _ s1 [(E1 & E2 & E3 & E4 & E5 & E6 & E7 & E8 & E9 & E10) Hs].
  apply runs_mod, runs_mod, runs_get.
  eapply runs_bind; [apply write_meta_ok |]. intros _ s2 [k ->]. unfold runs; cbn.
  assert (Hall : forall i, synced (disk s1) !! i = segs (disk s) !! i).
  { intros i. destruct (Hs i) as [? | [Hn ->]]; [done | by apply Hsy]. }
  rewrite E3, Hw. fold (alog_end a). split; [done |]. split; [| split; [| done]].
  - split; cbn; rewrite ?E1, ?E2, ?E3, ?E4, ?E5, ?E6, ?Hw; auto;
      [| unfold alog_flush, alog_end in *; cbn; lia].
    split; cbn; rewrite ?E1, ?E2, ?E3, ?E7, ?E9; auto; unfold alog_end; first [lia | done].
  - unfold wal_durable; cbn. rewrite E1, E2, Hst. split; [done |]. intros p Hp.
    unfold alog_end in *. destruct (get_lt (data a) (p - lo a)) as [b Hg]; [lia |].
    rewrite Hg. specialize (Hb _ _ Hg). unfold disk_byte in *. rewrite Hall.
    by replace (lo a + (p - lo a)) with p in Hb by lia.
Qed.

(** ** Reading *)

Lemma ring_read_ok n (r : list byte) off :
  0 <= off -> off + Z.of_nat n <= len r -> ring_read n r off = Ok (sub r off (Z.of_nat n)).
Proof.
  revert off; induction n as [|n IH]; intros off H0 Hn; cbn [ring_read].
  { by rewrite sub_zero. }
  destruct (get_lt r off) as [b Hb]; [lia |]. unfold index. rewrite Hb. cbn [unwrap bind].
  rewrite IH by lia. cbn [bind]. f_equal.
  replace (Z.of_nat (S n)) with (1 + Z.of_nat n) by lia. rewrite sub_app_split by lia.
  apply get_Some_iff in Hb as [_ Hb]. unfold sub at 2. cbn [Z.to_nat Pos.to_nat Pos.iter_op].
  change (Pos.to_nat 1) with 1%nat. rewrite (drop_S _ _ _ Hb). done.
Qed.

(** A slice agrees with another byte by byte. *)
Lemma sub_ext (l k : bytes) o o' n :
  0 <= o -> 0 <= o' -> 0 <= n -> o + n <= len l -> o' + n <= len k ->
  (forall i, 0 <= i < n -> get l (o + i) = get k (o' + i)) -> sub l o n = sub k o' n.
Proof.
  intros H1 H2 H3 H4 H5 He. apply list_eq. intros j. destruct (Z.lt_ge_cases (Z.of_nat j) n).
  - rewrite !sub_lookup by lia. specialize (He (Z.of_nat j) ltac:(lia)). unfold get in He.
    rewrite !(proj2 (Z.leb_le _ _)) in He by lia.
    replace (Z.to_nat (o + Z.of_nat j)) with (Z.to_nat o + j)%nat in He by lia.
    by replace (Z.to_nat (o' + Z.of_nat j)) with (Z.to_nat o' + j)%nat in He by lia.
  - rewrite !(proj2 (lookup_ge_None _ _)); [done | |];
      unfold sub; rewrite length_take; lia.
Qed.

(** A run of positions within one segment is stored there. *)
Lemma segment_run s l d p k :
  disk_rep s l d -> l <= p -> 0 < k -> p + k <= write_lsn s ->
  p mod segment_size (cfg s) + k <= segment_size (cfg s) ->
  exists c, segs (disk s) !! (p / segment_size (cfg s)) = Some c /\
    p mod segment_size (cfg s) + k <= len c /\
    sub c (p mod segment_size (cfg s)) k = sub d (p - l) k.
Proof.
  intros [Hseg Hlo Hw Hb _ _ _ _] Hp Hk Hend Hfit. set (seg := segment_size (cfg s)) in *.
  pose proof (Z.mod_pos_bound p seg Hseg) as Hoff.
  assert (Hbyte : forall i, 0 <= i < k -> exists b c, get d (p - l + i) = Some b /\
    segs (disk s) !! (p / seg) = Some c /\ get c (p mod seg + i) = Some b).
  { intros i Hi. destruct (get_lt d (p - l + i)) as [b Hg]; [lia |]. exists b.
    pose proof (Hb _ _ Hg) as Hd. replace (l + (p - l + i)) with (p + i) in Hd by lia.
    destruct (segment_offset seg p i) as [E1 E2]; [lia .. |]. unfold disk_byte in Hd.
    rewrite E1, E2 in Hd. apply bind_Some in Hd as (c & Hc & Hd). eauto. }
  destruct (Hbyte (k - 1)) as (b & c & _ & Hc & Hlast); [lia |]. exists c. split; [done |].
  apply get_Some_iff in Hlast as [_ Hlast]. apply lookup_lt_Some in Hlast.
  assert (Hl : p mod seg + k <= len c) by (unfold len; lia). split; [done |].
  apply sub_ext; try lia. intros i Hi. destruct (Hbyte i Hi) as (b' & c' & H1 & H2 & H3).
  assert (c' = c) as -> by congruence. by rewrite H1, H3.
Qed.

Lemma read_loop_ok fuel s l d lsn n w :
  disk_rep s l d -> l <= lsn -> lsn + n <= write_lsn s -> 0 <= w <= n -> n - w <= Z.of_nat fuel ->
  runs (read_loop fault fuel lsn n w) s
    (fun bs s' => bs = sub d (lsn - l + w) (n - w) /\ same_store s s') io_failed.
Proof.
  revert s w; induction fuel as [|fuel IH]; intros s w HD Hl Hn Hw Hf; cbn [read_loop];
    (destruct (Z.ltb_spec w n);
     [| unfold runs; cbn; replace (n - w) with 0 by lia; split; [done | apply same_store_refl]]).
  { lia. }
  apply runs_get. pose proof (dr_seg _ _ _ HD) as Hseg. rewrite (proj2 (Z.eqb_neq _ _)) by lia.
  set (k := Z.min _ _). pose proof (Z.mod_pos_bound (lsn + w) _ Hseg) as Hoff.
  destruct (segment_run s l d (lsn + w) k) as (c & Hc & Hlen & Hsub); [done | lia .. |].
  eapply runs_bind with (Q' := fun bs s' => bs = sub d (lsn - l + w) k /\ same_store s s').
  - unfold read_segment. apply runs_io. intros s1 [k1 ->]. apply runs_get. cbn [disk segs with_disk].
    rewrite Hc. apply runs_io. intros s2 [k2 ->]. apply runs_io. intros s3 [k3 ->].
    rewrite (proj2 (Z.leb_le _ _)) by lia. unfold runs, sret. split; [| by eexists].
    rewrite Hsub. f_equal. lia.
  - intros bs s1 [-> Hs1]. eapply runs_bind.
    + apply (IH s1 (w + k)); [by eapply disk_rep_same | done | | lia | lia].
      by destruct Hs1 as [? ->].
    + intros bs s2 [-> Hs2]. unfold runs, sret. split; [| by eapply same_store_trans].
      replace (n - w) with (k + (n - (w + k))) by lia. rewrite sub_app_split by lia.
      do 2 f_equal. lia.
Qed.

Lemma read_at_rep s a lsn n :
  wal_rep s a -> 0 <= n -> lsn + n <= u64_max ->
  runs (read_at fault lsn n) s
    (fun bs s' => bs = sub (data a) (lsn - lo a) n /\ lo a <= lsn /\ lsn + n <= alog_end a /\
       same_store s s')
    (fun e s' => io_failed e s' \/
       s' = s /\ e = OutOfRange lsn (lsn + n) (lo a) (alog_end a) /\
       (lsn < lo a \/ alog_end a < lsn + n)).
Proof.
  intros HR Hn Hmax. pose proof HR as [HD Hst _ _ _ _ [Hr0 Hr1] Hr].
  pose proof (dr_write _ _ _ HD) as Hw. unfold read_at. apply runs_get.
  eapply runs_lift; [unfold add_u64; rewrite (proj2 (Z.leb_le _ _)) by lia; done |].
  rewrite Hst, Hw. fold (alog_end a).
  destruct ((lsn <? lo a) || (alog_end a <? lsn + n)) eqn:E.
  { unfold runs; cbn. right. apply orb_true_iff in E. split; [done |]. split; [done |].
    destruct E; bool_to_prop; lia. }
  apply orb_false_iff in E as [E1%Z.ltb_ge E2%Z.ltb_ge].
  case_test; bool_to_prop.
  - unfold runs, slift. rewrite ring_read_ok; rewrite ?Z2Nat.id by done; [| lia ..].
    split; [| split; [done | split; [done | apply same_store_refl]]].
    apply sub_ext; try lia. { unfold alog_end in *. lia. }
    intros i Hi. replace (lsn - ring_start s + i) with ((lsn + i) - ring_start s) by lia.
    rewrite Hr by lia. f_equal. lia.
  - eapply runs_conseq; [apply (read_loop_ok (Z.to_nat n) s (lo a) (data a) lsn n 0) | | by left].
    1-5: (done || lia || (rewrite Hw; fold (alog_end a); lia)).
    intros bs s' [-> Hs]. rewrite Z.add_0_r, Z.sub_0_r. done.
Qed.

(** ** Recovering *)

Lemma runs_disk_io {A} (k : unit -> stateM Disk StorageError A) d Q :
  (forall n, runs (k tt) (mkDisk (segs d) (synced d) (meta d) n) Q io_failed) ->
  runs (sbind (disk_io fault) k) d Q io_failed.
Proof.
  intros H. unfold sbind, disk_io, runs. destruct (fault (ticks d)) eqn:E.
  - split; [done |]. exists (ticks d). by rewrite E.
  - apply H.
Qed.

(** The metadata file is read back as it was written. *)
Lemma read_meta_encode d start fl :
  meta d = Some (encode_meta start fl) -> in_u64 start -> in_u64 fl ->
  runs (read_meta fault) d
    (fun m d' => m = Some (start, fl) /\ segs d' = segs d /\ synced d' = synced d /\
       meta d' = meta d) io_failed.
Proof.
  intros Hm Hs Hf.
  eapply (runs_eq _ (let! _ := disk_io fault in let! _ := disk_io fault in
                     slift (Ok (Some (start, fl))))).
  { unfold read_meta. rewrite Hm. unfold encode_meta, META_MAGIC.
    assert (in_u32 0x534B4D31) by by_compute.
    set (r := if len _ =? 20 then _ else _). assert (Hr : r = Ok (Some (start, fl))).
    { unfold r. run_decoder. reflexivity. }
    by rewrite Hr. }
  apply runs_disk_io. intros k1. apply runs_disk_io. intros k2. by repeat split.
Qed.

Lemma crash_byte s a d' p :
  disk_rep s (lo a) (data a) -> wal_durable s a -> crash (disk s) d' ->
  lo a <= p < durable a -> durable a <= alog_end a ->
  disk_byte (segment_size (cfg s)) (segs d') p = get (data a) (p - lo a).
Proof.
  intros [Hseg Hlo Hw Hb _ _ _ _] [_ Hsyn] (_ & _ & Hcr) Hp Hend. unfold alog_end in Hend.
  specialize (Hsyn p Hp). destruct (get_lt (data a) (p - lo a)) as [b Hg]; [lia |].
  specialize (Hb _ _ Hg). replace (lo a + (p - lo a)) with p in Hb by lia.
  rewrite Hg in *. unfold disk_byte in *.
  apply bind_Some in Hsyn as (c & Hc & Hsb). destruct (Hcr _ _ Hc) as (c' & Hc' & Hor).
  rewrite Hc'. cbn. apply get_Some_iff in Hsb as Hs2. destruct Hs2 as [Hs2 Hs3].
  apply lookup_lt_Some in Hs3. destruct (Hor (p mod segment_size (cfg s))) as [-> | ->].
  - unfold len. lia.
  - done.
  - done.
Qed.

Lemma open_rep s a d' :
  wal_rep s a -> wal_durable s a -> crash (disk s) d' ->
  runs (WalStorage_open fault (cfg s)) d'
    (fun s' _ => wal_rep s' (alog_crash a) /\ wal_durable s' (alog_crash a) /\ cfg s' = cfg s)
    io_failed.
Proof.
  intros HR HD Hcr. pose proof HR as [HDR Hst Hfl Hdu Hmx Hcap _ _].
  pose proof HDR as [Hseg Hlo Hw _ _ _ _ _]. pose proof HD as [Hmeta _].
  pose proof Hcr as (Hm' & Hsy' & _). unfold alog_end in *.
  assert (Hbyte := fun p Hp => crash_byte s a d' p HDR HD Hcr Hp (proj2 Hdu)).
  unfold WalStorage_open. apply runs_disk_io. intros k.
  eapply runs_bind; [eapply read_meta_encode; [cbn; rewrite Hm'; exact Hmeta | |] |].
  { unfold in_u64, u64_max in *. lia. }
  { unfold in_u64, u64_max in *. lia. }
  intros m d1 (-> & E1 & E2 & E3). cbn in E1, E2, E3. apply runs_get. unfold runs; cbn.
  set (n := durable a - lo a).
  assert (Hl : len (sub (data a) 0 n) = n) by (apply sub_len; lia).
  assert (Hg : forall i, i < n -> get (sub (data a) 0 n) i = get (data a) i).
  { intros i Hi. apply get_take. lia. }
  split; [| split; [| done]].
  - split; cbn; unfold alog_end; cbn; fold n; rewrite ?Hl, ?len_nil; try lia; try done.
    + split; cbn; fold n; rewrite ?Hl, ?E1, ?E2; try done; try lia; [| by rewrite Hsy'].
      intros i b Hi. apply get_Some_iff in Hi as Hi'. destruct Hi' as [Hi0 Hi1].
      apply lookup_lt_Some in Hi1. assert (i < n) by (unfold len in Hl; lia).
      rewrite Hg in Hi by done. rewrite Hbyte by lia. rewrite <- Hi. f_equal. lia.
    + change (len (@nil byte)) with 0. lia.
    + intros p H1 H2. unfold get at 1. case_test; [| bool_to_prop; lia]. cbn. symmetry.
      apply get_ge_None. lia.
  - unfold wal_durable; cbn. fold n. rewrite E2, E3, Hm', Hsy'. split; [done |].
    intros p Hp. rewrite Hg by lia. by apply Hbyte.
Qed.

(** ** Recycling *)

(** Segments of [idx, idx + n) removed, everything else kept. *)
Record removed (idx n : Z) (s s' : WalStorage) : Prop := {
  rm_cfg : cfg s' = cfg s;
  rm_start : start_lsn s' = start_lsn s;
  rm_write : write_lsn s' = write_lsn s;
  rm_flush : flush_lsn s' = flush_lsn s;
  rm_ring : ring s' = ring s;
  rm_ring_start : ring_start s' = ring_start s;
  rm_dirty : dirty_segments s' = dirty_segments s;
  rm_segs : forall i, segs (disk s') !! i =
    if decide (idx <= i < idx + n) then None else segs (disk s) !! i;
  rm_synced : forall i, synced (disk s') !! i =
    if decide (idx <= i < idx + n /\ is_Some (segs (disk s) !! i)) then None
    else synced (disk s) !! i;
  rm_open : open_seg s' = open_seg s /\
      (forall i, open_seg s = Some (i, Linked) -> idx <= i < idx + n -> segs (disk s) !! i = None) \/
    exists i c, open_seg s = Some (i, Linked) /\ open_seg s' = Some (i, Detached c) /\
      idx <= i < idx + n
}.

Lemma removed_none idx s : removed idx 0 s s.
Proof.
  split; auto.
  - intros i. by rewrite decide_False by lia.
  - intros i. by rewrite decide_False by lia.
  - left. split; [done | lia].
Qed.

Lemma unlink_removed s s1 idx :
  same_store s s1 -> is_Some (segs (disk s) !! idx) -> removed idx 1 s (unlink idx s1).
Proof.
  intros [k ->] Hex. unfold unlink. cbn [open_seg with_disk].
  set (d := with_synced _ _).
  assert (Hsegs : forall i, segs d !! i = if decide (idx <= i < idx + 1) then None else segs (disk s) !! i).
  { intros i. cbn. rewrite lookup_delete.
    destruct (decide (idx = i)); [by rewrite decide_True by lia | by rewrite decide_False by lia]. }
  assert (Hsyn : forall i, synced d !! i =
    if decide (idx <= i < idx + 1 /\ is_Some (segs (disk s) !! i)) then None else synced (disk s) !! i).
  { intros i. cbn. rewrite lookup_delete. destruct (decide (idx = i)) as [<- | Hne].
    - rewrite decide_True; [done | split; [lia | done]].
    - rewrite decide_False; [done | lia]. }
  assert (Hkeep : open_seg s <> Some (idx, Linked) -> removed idx 1 s (with_disk d s)).
  { intros Hno. split; auto. left. split; [done |]. intros i Hi Hr.
    by replace i with idx in Hi by lia. }
  destruct (open_seg s) as [[i []]|] eqn:Eo; [| by apply Hkeep ..].
  destruct (Z.eqb_spec i idx) as [-> | Hne]; [| apply Hkeep; congruence].
  split; cbn; auto. right. eexists _, _. split; [done |]. split; [done | lia].
Qed.

Lemma removed_trans idx n s1 s2 s3 :
  0 <= n -> removed idx 1 s1 s2 -> removed (idx + 1) n s2 s3 -> removed idx (1 + n) s1 s3.
Proof.
  intros Hn [A1 A2 A3 A4 A5 A6 A7 A8 A9 A10] [B1 B2 B3 B4 B5 B6 B7 B8 B9 B10].
  split; try congruence.
  - intros i. rewrite B8, A8. repeat case_decide; (done || lia).
  - intros i. rewrite B9, A9. destruct (decide (i = idx)) as [-> | Hne].
    + rewrite (decide_False (P := _ /\ is_Some (segs (disk s2) !! _))) by lia.
      apply decide_ext. split; (intros [_ ?]; split; [lia | done]).
    + rewrite (decide_False (P := idx <= i < idx + 1 /\ _)) by lia. apply decide_ext.
      rewrite A8. rewrite (decide_False (P := idx <= i < idx + 1)) by lia.
      split; (intros [? ?]; split; [lia | done]).
  - destruct B10 as [[-> HB] | (i & c & E1 & E2 & E3)].
    + destruct A10 as [[Eop HA] | (i & c & E1 & E2 & E3)]; [left | right].
      * split; [done |]. intros i Hi Hr. destruct (decide (i = idx)); [apply HA; [done | lia] |].
        rewrite <- Eop in Hi. specialize (HB i Hi ltac:(lia)).
        by rewrite A8, decide_False in HB by lia.
      * exists i, c. split; [done |]. split; [done | lia].
    + right. destruct A10 as [[E _] | (j & c' & F1 & F2 & F3)]; [| congruence].
      rewrite E in E1. exists i, c. split; [done |]. split; [done | lia].
Qed.

Lemma remove_loop_ok n s idx cnt :
  runs (remove_loop fault n idx cnt) s (fun _ s' => removed idx (Z.of_nat n) s s') io_failed.
Proof.
  revert s idx cnt; induction n as [|n IH]; intros s idx cnt; cbn [remove_loop].
  { apply removed_none. }
  replace (Z.of_nat (S n)) with (1 + Z.of_nat n) by lia.
  apply runs_get. case_bool_decide as Hex.
  - apply runs_io. intros s1 Hs1. apply runs_mod.
    eapply runs_conseq; [apply IH | | done]. intros ? s2 Hr.
    eapply removed_trans; [lia | by apply unlink_removed | done].
  - eapply runs_conseq; [apply IH | | done]. intros ? s2 Hr.
    eapply removed_trans; [lia | | exact Hr]. apply eq_None_not_Some in Hex.
    split; auto.
    + intros i. case_decide; [| done]. by replace i with idx by lia.
    + intros i. rewrite decide_False; [done |]. intros [Hi [c Hc]].
      replace i with idx in Hc by lia. congruence.
    + left. split; [done |]. intros i _ Hi. by replace i with idx by lia.
Qed.

Lemma get_sub (l : bytes) o n i : 0 <= o -> 0 <= i < n -> get (sub l o n) i = get l (o + i).
Proof.
  intros Ho Hi. unfold get. rewrite !(proj2 (Z.leb_le _ _)) by lia.
  rewrite sub_lookup by lia. f_equal. lia.
Qed.

(** Removing segments below [F] leaves the log from [F] on. *)
Lemma removed_rep s s1 a first n F :
  wal_rep s a -> removed first n s s1 -> 0 <= n ->
  (first + n) * segment_size (cfg s) <= F -> lo a <= F <= durable a ->
  wal_rep (with_start F s1) (alog_recycle a F).
Proof.
  intros [[Hseg Hlo Hw Hb Ho Hfw Hdi Hsy] Hst Hfl Hdu Hmx Hcap [Hr0 Hr1] Hr]
    [A1 A2 A3 A4 A5 A6 A7 A8 A9 A10] Hn HF HF2.
  set (seg := segment_size (cfg s)) in *. unfold alog_end in *.
  assert (Hfar : forall p, F <= p -> first + n <= p / seg).
  { intros p Hp. apply Z.div_le_lower_bound; lia. }
  assert (Hl : len (sub (data a) (F - lo a) (lo a + len (data a) - F)) = lo a + len (data a) - F)
    by (apply sub_len; lia).
  unfold alog_recycle, alog_end. split; unfold alog_end; cbn; rewrite ?Hl, ?A1, ?A3, ?A4, ?A5, ?A6; try lia; try done.
  - split; cbn; rewrite ?Hl, ?A1, ?A3, ?A4, ?A7; fold seg; try lia; try done.
    + intros i b Hg. apply get_Some_iff in Hg as Hg'. destruct Hg' as [Hi0 Hi1].
      apply lookup_lt_Some in Hi1. assert (i < lo a + len (data a) - F) by (unfold len in *; lia).
      rewrite get_sub in Hg by lia. specialize (Hb _ _ Hg). unfold disk_byte in *. rewrite A8.
      replace (lo a + (F - lo a + i)) with (F + i) in Hb by lia.
      pose proof (Hfar (F + i) ltac:(lia)). by rewrite decide_False by lia.
    + destruct A10 as [[-> HA] | (i & c & E1 & -> & E3)].
      * destruct (open_seg s) as [[i []]|]; [| | done].
        -- rewrite A8. case_decide; [| done]. by rewrite (HA i) in Ho.
        -- rewrite A8. destruct Ho as [Ho1 Ho2]. split; [lia |]. by case_decide.
      * rewrite A8, decide_True by done. split; [nia | done].
    + intros i (Hex & H1 & H2)%Hdi. split; [| lia]. rewrite A8.
      pose proof (Hfar (flush_lsn s) ltac:(lia)). by rewrite decide_False by lia.
    + intros i Hi. rewrite A8, A9, (Hsy i Hi).
      destruct (segs (disk s) !! i) eqn:E; [| by repeat case_decide].
      apply decide_ext. split; [by intros [? _] | done].
  - intros p Hp1 Hp2. rewrite Hr by lia. destruct (Z.lt_ge_cases p (lo a + len (data a))).
    + rewrite get_sub by lia. f_equal. lia.
    + rewrite !get_ge_None by lia. done.
Qed.

Lemma recycle_rep s a horizon :
  wal_rep s a -> 0 <= horizon <= durable a ->
  runs (remove_segments_before fault horizon) s
    (fun _ s' => wal_rep s'
       (alog_recycle a (Z.max (lo a) (horizon / segment_size (cfg s) * segment_size (cfg s)))))
    io_failed.
Proof.
  intros HR Hh. pose proof HR as [[Hseg Hlo _ _ _ _ _ _] Hst _ Hdu _ _ _ _].
  unfold remove_segments_before. apply runs_get. rewrite (proj2 (Z.eqb_neq _ _)) by lia.
  rewrite Hst. set (seg := segment_size (cfg s)) in *.
  pose proof (Z.mul_div_le (lo a) seg Hseg). pose proof (Z.mul_succ_div_gt (lo a) seg Hseg).
  pose proof (Z.mul_div_le horizon seg Hseg).
  eapply runs_bind; [apply remove_loop_ok |]. intros cnt s1 Hr1.
  destruct (Z.ltb_spec (lo a / seg) (horizon / seg)) as [Hlt | Hge].
  - rewrite (proj2 (Z.ltb_lt _ _)) by nia. apply runs_mod. unfold runs, sret.
    rewrite Z.max_r by nia. eapply removed_rep; [done | exact Hr1 | lia | fold seg; nia | nia].
  - rewrite Z.ltb_irrefl. apply runs_ret. unfold runs, sret. rewrite Z.max_l by nia.
    replace s1 with (with_start (lo a) s1).
    + eapply removed_rep; [done | exact Hr1 | lia | fold seg; nia | lia].
    + rewrite <- Hst, <- (rm_start _ _ _ _ Hr1). by destruct s1.
Qed.
End Proofs.

(** ** A new store *)

Definition empty_disk : Disk := mkDisk ∅ ∅ None 0.

(** An empty store whose next byte goes to position [l]; [l] is 0 for a new one. *)
Definition store_at (l : Lsn) (c : WalConfig) (d : Disk) : WalStorage :=
  mkWalStorage c l l l [] l None [] d.

Lemma store_at_rep l c d :
  0 < segment_size c -> 0 <= ring_capacity c -> 0 <= l <= u64_max -> synced d = segs d ->
  wal_rep (store_at l c d) (mkALog l [] l).
Proof.
  intros Hs Hc Hl Hsy. split; cbn; unfold alog_end; cbn;
    change (len (@nil byte)) with 0; try done; try lia.
  - split; cbn; change (len (@nil byte)) with 0; try done; try lia.
    + intros i b. by unfold get; case_test.
    + by rewrite Hsy.
Qed.

(** Opening a directory without metadata, or whose log is at position zero. *)
Lemma open_empty fault c d s' d1 :
  (meta d = None \/ meta d = Some (encode_meta 0 0)) ->
  WalStorage_open fault c d = (d1, Ok s') ->
  exists k, s' = store_at 0 c (mkDisk (segs d) (synced d) (meta d) k).
Proof.
  intros Hm Ho. assert (H : runs (WalStorage_open fault c) d
    (fun s' _ => exists k, s' = store_at 0 c (mkDisk (segs d) (synced d) (meta d) k)) (io_failed fault)).
  { unfold WalStorage_open. apply runs_disk_io. intros k1. destruct Hm as [Hm | Hm].
    - eapply runs_bind with (Q' := fun m d' => m = None /\ segs d' = segs d /\ synced d' = synced d /\
        meta d' = meta d).
      { unfold runs, read_meta. cbn. by rewrite Hm. }
      intros m [g y me t] (-> & E1 & E2 & E3). cbn in *. unfold runs; cbn. subst. by eexists.
    - eapply runs_bind; [eapply read_meta_encode; [exact Hm | by_compute | by_compute] |].
      intros m [g y me t] (-> & E1 & E2 & E3). cbn in *. unfold runs; cbn. subst. by eexists. }
  unfold runs in H. by rewrite Ho in H.
Qed.

(** Appending to a store with durable metadata keeps it recoverable. *)
Lemma append_wal_durable fault s a lsn d s' :
  wal_rep s a -> wal_durable s a -> alog_end a <> 0 -> 0 <= lsn -> lsn + len d <= u64_max ->
  append fault lsn d s = (s', Ok tt) ->
  exists a', alog_append a lsn d = Ok a' /\ wal_rep s' a' /\ wal_durable s' a' /\
    lo a' = lo a /\ durable a' = durable a /\ data a' = data a ++ d /\ cfg s' = cfg s.
Proof.
  intros HR [Hm Hb] Hne Hl Hmax Happ. pose proof (append_rep fault s a lsn d HR Hl Hmax) as Hrun.
  unfold runs in Hrun. rewrite Happ in Hrun. destruct Hrun as (a' & Ha & HR' & Hm1 & Hm2 & Hm3).
  exists a'. split; [done |]. split; [done |]. unfold alog_append, alog_seed in Ha.
  pose proof (wr_durable _ _ HR) as Hd. unfold alog_end in Hd.
  rewrite (proj2 (andb_false_iff _ _)) in Ha by (left; by apply Z.eqb_neq).
  case_test; [| done]. injection Ha as <-. cbn. split; [| done].
  unfold wal_durable. rewrite Hm1, Hm2, Hm3. split; [done |].
  intros p Hp. rewrite Hb by done. cbn in *. by rewrite get_app_l by lia.
Qed.

(** Several appends, stopping at the first error. *)
Fixpoint run_appends (fault : nat -> option Z) (l : list (Lsn * bytes))
  : stateM WalStorage StorageError unit :=
  match l with
  | [] => sret tt
  | (lsn, d) :: l' => let! _ := append fault lsn d in run_appends fault l'
  end.

Definition appends_fit (l : list (Lsn * bytes)) : Prop :=
  Forall (fun e => 0 <= e.1 /\ e.1 + len e.2 <= u64_max) l.

(** What appends after a flush keep: the durable part, on disk and in the log. *)
Definition extends_durable (a : alog) (s : WalStorage) : Prop :=
  exists extra, let a' := mkALog (lo a) (data a ++ extra) (alog_end a) in
    wal_rep s a' /\ wal_durable s a'.

Lemma append_keeps_durable fault a s lsn d :
  extends_durable a s -> alog_end a <> 0 -> 0 <= lsn -> lsn + len d <= u64_max ->
  runs (append fault lsn d) s
    (fun _ s' => extends_durable a s' /\ cfg s' = cfg s)
    (fun e _ => e = Io \/ exists x y, e = NonContiguous x y).
Proof.
  intros (extra & HR & HD) Hne Hl Hmax. pose proof (append_rep fault _ _ lsn d HR Hl Hmax) as Hrun.
  pose proof (wr_durable _ _ HR) as Hdu. cbn in Hdu.
  pose proof (dr_lo _ _ _ (wr_disk _ _ HR)) as Hlo. cbn in Hlo.
  unfold runs in *. destruct (append fault lsn d s) as [s' [[] | e |]] eqn:E; [| | done].
  - destruct (append_wal_durable fault _ _ lsn d s' HR HD) as ([l' d' du] & _ & HR' & HD' & H1 & H2 & H3 & H4);
      [lia | done | done | done |]. cbn in H1, H2, H3. subst. split; [| done].
    exists (extra ++ d). by rewrite app_assoc.
  - destruct Hrun as [[-> _] | [He _]]; [by left | right]. unfold alog_append in He.
    case_test; [done |]. injection He as <-. eauto.
Qed.

Lemma run_appends_keep fault a l s :
  extends_durable a s -> alog_end a <> 0 -> appends_fit l ->
  runs (run_appends fault l) s (fun _ s' => extends_durable a s' /\ cfg s' = cfg s)
    (fun e _ => e = Io \/ exists x y, e = NonContiguous x y).
Proof.
  intros HE Hne Hfit. revert s HE; induction Hfit as [|[lsn d] l [H1 H2] _ IH]; intros s HE.
  { done. }
  cbn [run_appends]. eapply runs_bind; [by apply append_keeps_durable |].
  intros _ s1 [HE1 Hc1]. eapply runs_conseq; [by apply IH | | done].
  intros _ s2 [HE2 Hc2]. split; [done | congruence].
Qed.

Lemma extends_crash a s d' fault :
  extends_durable a s -> crash (disk s) d' ->
  runs (WalStorage_open fault (cfg s)) d' (fun s' _ => wal_rep s' (alog_flush a)) (io_failed fault).
Proof.
  intros (extra & HR & HD) Hc. eapply runs_conseq; [by eapply open_rep | | done].
  intros s' _ (HR' & _). unfold alog_crash in HR'. cbn in HR'. unfold alog_end in HR' at 1.
  rewrite sub_app_exact in HR' by lia. exact HR'.
Qed.

(** C26: the store implements a contiguous log.  In a state that represents the
    log [a], whatever system calls fail: an append that succeeds extends the log,
    one that is not contiguous is refused and changes nothing; a read returns
    exactly the requested bytes of the log, from the ring or from disk, and is
    refused exactly when it leaves the retained range; a flush makes the whole
    log durable and reports its end; recycling below a durable horizon drops
    whole segments.  No operation panics, and an I/O error is only reported when
    a system call failed. *)
Theorem wal_store_implements_log (fault : nat -> option Z) (s : WalStorage) (a : alog) :
  wal_rep s a ->
  (forall lsn d, 0 <= lsn -> lsn + len d <= u64_max ->
     runs (append fault lsn d) s
       (fun _ s' => exists a', alog_append a lsn d = Ok a' /\ wal_rep s' a')
       (fun e s' => io_failed fault e s' \/ alog_append a lsn d = Err e /\ s' = s)) /\
  (forall lsn n, 0 <= n -> lsn + n <= u64_max ->
     runs (read_at fault lsn n) s
       (fun bs s' => bs = sub (data a) (lsn - lo a) n /\ lo a <= lsn /\ lsn + n <= alog_end a /\
          wal_rep s' a)
       (fun e s' => io_failed fault e s' \/
          e = OutOfRange lsn (lsn + n) (lo a) (alog_end a) /\
          (lsn < lo a \/ alog_end a < lsn + n))) /\
  runs (flush fault) s
    (fun l s' => l = alog_end a /\ wal_rep s' (alog_flush a) /\ wal_durable s' (alog_flush a))
    (io_failed fault) /\
  (forall horizon, 0 <= horizon <= durable a ->
     runs (remove_segments_before fault horizon) s
       (fun _ s' => wal_rep s' (alog_recycle a
          (Z.max (lo a) (horizon / segment_size (cfg s) * segment_size (cfg s)))))
       (io_failed fault)).
Proof.
  intros HR. split; [| split; [| split]].
  - intros lsn d H1 H2. eapply runs_conseq; [by apply append_rep | | done].
    intros _ s' (a' & ? & ? & _). eauto.
  - intros lsn n H1 H2. eapply runs_conseq; [by apply read_at_rep | |].
    + intros bs s' (? & ? & ? & Hs). repeat (split; [done |]). by eapply wal_rep_same.
    + intros e s' [? | (_ & ? & ?)]; auto.
  - eapply runs_conseq; [by apply flush_rep | | done]. intros l s' (? & ? & ? & _). done.
  - intros horizon Hh. by apply recycle_rep.
Qed.

Definition small_config : WalConfig := mkWalConfig 4 6.

Lemma wal_store_implements_log_witness :
  runs (append (fun _ => None) 6 [x0a; x0b; x0c]) (store_at 0 small_config empty_disk)
    (fun _ s' => exists a', alog_append (mkALog 0 [] 0) 6 [x0a; x0b; x0c] = Ok a' /\ wal_rep s' a')
    (fun e s' => io_failed (fun _ => None) e s' \/
       alog_append (mkALog 0 [] 0) 6 [x0a; x0b; x0c] = Err e /\ s' = store_at 0 small_config empty_disk).
Proof.
  apply (wal_store_implements_log (fun _ => None) (store_at 0 small_config empty_disk) (mkALog 0 [] 0)).
  - apply store_at_rep; by_compute.
  - discriminate.
  - by_compute.
Defined.



(** *** Behaviours after a failure *)

(** The call with number [n] fails, all others succeed. *)
Definition fail_at (n : nat) (k : nat) : option Z := if (k =? n)%nat then Some 0 else None.

(** An append that fails after its first segment leaves the ring behind the
    write position; once the client resumes there, reads of earlier positions
    return the wrong bytes and reads of the new bytes panic. *)
Theorem failed_append_misaligns_ring :
  let s0 := store_at 4 small_config empty_disk in
  let '(s1, r1) := append (fail_at 4) 4 [x01; x02; x03; x04; x05; x06] s0 in
  let '(s2, r2) := append (fail_at 4) 8 [x0a; x0b] s1 in
  r1 = Err Io /\ write_lsn s1 = 8 /\ r2 = Ok tt /\
  snd (read_at (fail_at 4) 4 2 s2) = Ok [x0a; x0b] /\
  snd (read_at (fail_at 4) 8 2 s2) = Panic.
Proof. vm_compute. repeat split. Qed.

(** Recycling is not recorded: after a flush, recycling and a restart the
    store claims to retain segments that are gone, and reading at its own
    [start_lsn] fails. *)
Theorem recycling_not_recorded :
  let no_fault := fun _ : nat => None in
  let s0 := store_at 4 small_config empty_disk in
  let '(s1, _) := append no_fault 4 [x01; x02; x03; x04; x05; x06; x07; x08] s0 in
  let '(s2, _) := flush no_fault s1 in
  let '(s3, removed) := remove_segments_before no_fault 8 s2 in
  let '(_, reopened) := WalStorage_open no_fault small_config (disk s3) in
  removed = Ok 1 /\ start_lsn s3 = 8 /\
  match reopened with
  | Ok s4 => start_lsn s4 = 4 /\ snd (read_at no_fault 4 2 s4) = Err Io
  | _ => False
  end.
Proof. vm_compute. repeat split. Qed.

(** A flush whose metadata write fails has already advanced [flush_lsn]: the
    store reports a durable position that a restart does not recover. *)
Theorem flush_lsn_ahead_of_metadata :
  let s0 := store_at 4 small_config empty_disk in
  let '(s1, _) := append (fail_at 5) 4 [x01; x02] s0 in
  let '(s2, r) := flush (fail_at 5) s1 in
  r = Err Io /\ flush_lsn s2 = 6 /\ meta (disk s2) = None.
Proof. vm_compute. repeat split. Qed.
