(* ===== verification/Safekeeper.v ===== *)
(** The safekeeper node (src/safekeeper/src/{server,replicator}.rs): the request
    handlers over the store and the quorum state, the framing loop of a
    connection, the peer replicators and the election driver.

    Handlers are state-passing functions of the node; the peers they talk to are
    arguments ([Replicator], [net_*]).  Logging and socket options are
    left out.  The second half puts nodes together: with peers that acknowledge
    what they flushed, a committed position is durable on a quorum, across
    crashes and restarts. *)

From S2P Require Import Prelude Bytes Text Metrics Common WalService Consensus WalStorage.

(** ** State *)

Record Safekeeper := mkSafekeeper {
  storage : WalStorage;
  consensus : Consensus;
  sk_metrics : list metric_call
}.

Definition with_storage (s : WalStorage) (k : Safekeeper) : Safekeeper :=
  mkSafekeeper s (consensus k) (sk_metrics k).
Definition with_consensus (c : Consensus) (k : Safekeeper) : Safekeeper :=
  mkSafekeeper (storage k) c (sk_metrics k).
Definition metered (call : metric_call) (k : Safekeeper) : Safekeeper :=
  mkSafekeeper (storage k) (consensus k) (call :: sk_metrics k).

(** One peer's acknowledgement (replicator.rs). *)
Record PeerAck := mkPeerAck { pa_node : NodeId; pa_lsn : Lsn }.

(** The [Replicator] trait: what came back from the peers for one WAL run. *)
Class Replicator := { replicate : Z -> Lsn -> bytes -> list PeerAck }.

(** What ends a connection: an error of the store, a malformed message, the end
    of the stream inside a message, an unknown message type; a peer's refusal. *)
Inductive ServeError :=
| SStorage (e : StorageError)
| SParse (e : Error)
| SEof
| SUnknownType (t : Z)
| SRejected (status : Z).

Section Node.
Context (fault : nat -> option Z).

(** Run an operation of the store under the storage lock. *)
Definition on_storage {A} (m : stateM WalStorage StorageError A) : stateM Safekeeper StorageError A :=
  fun k => let '(s, r) := m (storage k) in (with_storage s k, r).

Definition Safekeeper_commit_lsn (k : Safekeeper) : Lsn := commit_lsn (consensus k).

(** ** Handlers *)

(** The reply to a proposer whose term is behind ours. *)
Definition stale_response (k : Safekeeper) : AppendResponse :=
  mkAppendResponse STATUS_STALE_TERM (term (consensus k)) (flush_lsn (storage k))
    (commit_lsn (consensus k)).

(** Durably append and flush a run. *)
Definition store_run (req : AppendRequest) : stateM Safekeeper StorageError Lsn :=
  on_storage (let! _ := append fault (ar_start_lsn req) (ar_payload req) in flush fault).

Definition record_acks (acks : list PeerAck) (c : Consensus) : Consensus :=
  fold_left (fun c a => record_flush c (pa_node a) (pa_lsn a)) acks c.

Definition handle_append `{Replicator} (req : AppendRequest)
  : stateM Safekeeper StorageError AppendResponse :=
  let! k := sget in
  if ar_term req <? term (consensus k) then sret (stale_response k)
  else
    let node := node_id (consensus k) in
    let! _ := smod (metered (Inc APPENDS [])) in
    let! _ := smod (metered (IncBy WAL_BYTES [] (len (ar_payload req)))) in
    let! fl := store_run req in
    let! end_lsn := slift (AppendRequest_end_lsn req) in
    let! _ := smod (fun k => with_consensus (record_flush (consensus k) node fl) k) in
    let acks := replicate (ar_term req) end_lsn (ar_payload req) in
    let! _ := smod (fun k => with_consensus (record_acks acks (consensus k)) k) in
    let! k := sget in
    let commit := commit_lsn (consensus k) in
    let! _ := smod (metered (SetTo COMMIT_LSN [] (as_signed64 commit))) in
    sret (mkAppendResponse STATUS_OK (term (consensus k)) fl commit).

Definition handle_replicate (req : AppendRequest) : stateM Safekeeper StorageError AppendResponse :=
  let! k := sget in
  if ar_term req <? term (consensus k) then sret (stale_response k)
  else
    let node := node_id (consensus k) in
    let t := term (consensus k) in
    let! fl := store_run req in
    let! _ := smod (fun k => with_consensus (record_flush (consensus k) node fl) k) in
    let! k := sget in
    let commit := commit_lsn (consensus k) in
    let! _ := smod (metered (Inc REPLICATED [])) in
    sret (mkAppendResponse STATUS_OK t fl commit).

Definition handle_read (req : ReadRequest) : stateM Safekeeper StorageError ReadResponse :=
  let! k := sget in
  let commit := commit_lsn (consensus k) in
  let from := Z.max (rr_start_lsn req) (start_lsn (storage k)) in
  let available := Z.min (saturating_sub commit from) (rr_max_bytes req) in
  let! payload := (if 0 <? available then on_storage (read_at fault from available)
                   else sret []) in
  sret (mkReadResponse STATUS_OK commit from payload).

Definition handle_vote (req : VoteRequest) (k : Safekeeper) : Safekeeper * VoteResponse :=
  let '(c, granted) := handle_vote_request (consensus k) (vr_term req) (vr_candidate req) in
  let k := with_consensus c k in
  (if granted then metered (Inc VOTES_GRANTED []) k else k, mkVoteResponse granted (term c) (flush_lsn (storage k))).

(** ** Connections *)

(** [read_exact] of [n] bytes from the rest of the stream. *)
Definition read_exact {S} (n : Z) (input : bytes) : stateM S ServeError (bytes * bytes) :=
  if n <=? len input then sret (sub input 0 n, sub input n (len input - n)) else serr SEof.

Definition lift_storage {A} (m : stateM Safekeeper StorageError A) : stateM Safekeeper ServeError A :=
  fun k => let '(k', r) := m k in (k', map_err SStorage r).

Definition lift_parse {A} (m : outcome Error A) : stateM Safekeeper ServeError A :=
  slift (map_err SParse m).

(** Each server reads the rest of its message and returns the reply with what
    is left of the stream. *)
Definition serve_append `{Replicator} (prefix input : bytes)
  : stateM Safekeeper ServeError (bytes * bytes) :=
  let! (rest, input) := read_exact (REQUEST_HEADER_LEN - PREFIX_LEN) input in
  let full := prefix ++ rest in
  let! plen := lift_parse (AppendRequest_payload_len full) in
  let! (payload, input) := read_exact plen input in
  let! req := lift_parse (AppendRequest_decode (full ++ payload)) in
  let! resp := lift_storage (handle_append req) in
  sret (AppendResponse_encode resp, input).

Definition serve_replicate (prefix input : bytes) : stateM Safekeeper ServeError (bytes * bytes) :=
  let! (rest, input) := read_exact (REQUEST_HEADER_LEN - PREFIX_LEN) input in
  let full := prefix ++ rest in
  let! plen := lift_parse (AppendRequest_payload_len full) in
  let! (payload, input) := read_exact plen input in
  let! req := lift_parse (AppendRequest_decode (full ++ payload)) in
  let! resp := lift_storage (handle_replicate req) in
  sret (AppendResponse_encode resp, input).

Definition serve_read (prefix input : bytes) : stateM Safekeeper ServeError (bytes * bytes) :=
  let! (rest, input) := read_exact (READ_REQUEST_LEN - PREFIX_LEN) input in
  let! req := lift_parse (ReadRequest_decode (prefix ++ rest)) in
  let! resp := lift_storage (handle_read req) in
  sret (ReadResponse_encode resp, input).

Definition serve_vote (prefix input : bytes) : stateM Safekeeper ServeError (bytes * bytes) :=
  let! (rest, input) := read_exact (VOTE_REQUEST_LEN - PREFIX_LEN) input in
  let! req := lift_parse (VoteRequest_decode (prefix ++ rest)) in
  let! resp := (fun k => let '(k', r) := handle_vote req k in (k', Ok r)) in
  sret (VoteResponse_encode resp, input).

(** One message: dispatch on the type in the common prefix. *)
Definition serve_message `{Replicator} (prefix input : bytes)
  : stateM Safekeeper ServeError (bytes * bytes) :=
  let! t := lift_parse (message_type prefix) in
  if t =? TYPE_APPEND then serve_append prefix input
  else if t =? TYPE_REPLICATE then serve_replicate prefix input
  else if t =? TYPE_READ then serve_read prefix input
  else if t =? TYPE_VOTE then serve_vote prefix input
  else serr (SUnknownType t).

(** The connection loop on a stream that delivers [input] and then ends; the
    result is what was written back.  Every message takes at least its prefix,
    so [length input] rounds suffice. *)
Fixpoint serve_connection `{Replicator} (fuel : nat) (input : bytes)
  : stateM Safekeeper ServeError bytes :=
  if PREFIX_LEN <=? len input then
    match fuel with
    | O => spanic
    | S fuel' =>
        let! (prefix, input) := read_exact PREFIX_LEN input in
        let! (resp, input) := serve_message prefix input in
        let! more := serve_connection fuel' input in
        sret (resp ++ more)
    end
  else sret [].

(** ** Elections *)

(** [request_vote]: send the request and read one response; [None] is a
    connection error. *)
Definition request_vote (net : NodeId -> bytes -> option bytes) (peer : NodeId) (req : bytes)
  : outcome ServeError VoteResponse :=
  let? resp := ok_or (net peer req) SEof in
  let? resp := (if VOTE_RESPONSE_LEN <=? len resp then Ok (sub resp 0 VOTE_RESPONSE_LEN)
                else Err SEof) in
  map_err SParse (VoteResponse_decode resp).

Definition run_election (net : NodeId -> bytes -> option bytes) (peers : list NodeId)
  : stateM Safekeeper ServeError bool :=
  let! k := sget in
  let! (c, t) := slift (start_election (consensus k)) in
  let! _ := smod (with_consensus c) in
  let req := VoteRequest_encode (mkVoteRequest Id_ZERO Id_ZERO t (node_id c)) in
  let! _ := smod (fun k =>
    with_consensus
      (fold_left (fun c peer =>
         match request_vote net peer req with
         | Ok resp => if vs_granted resp then handle_vote_granted c peer t else c
         | _ => c
         end) peers (consensus k)) k) in
  let! k := sget in
  sret (is_leader (consensus k)).
End Node.

(** ** Replicators *)

(** [LocalSimReplicator]: peers that are always done. *)
Definition LocalSimReplicator (peers : list NodeId) : Replicator :=
  {| replicate _ end_lsn _ := (fun p => mkPeerAck p end_lsn) <$> peers |}.

(** [NetworkReplicator]: [net_connect] opens a connection to a peer,
    [net_exchange] sends a request on an open connection and reads the reply;
    both can fail.  [conns] are the connections kept open. *)
Record NetworkReplicator := mkNetworkReplicator {
  nr_peers : list NodeId;
  nr_conns : gset NodeId;
  nr_tenant : TenantId;
  nr_timeline : TimelineId
}.

Definition NetworkReplicator_new (peers : list NodeId) : NetworkReplicator :=
  mkNetworkReplicator peers ∅ Id_ZERO Id_ZERO.

Section Network.
Context (net_connect : NodeId -> bool) (net_exchange : NodeId -> bytes -> option bytes).

Definition send_to_peer (conns : gset NodeId) (node : NodeId) (req : bytes)
  : gset NodeId * outcome ServeError Lsn :=
  if bool_decide (node ∈ conns) || net_connect node then
    ({[node]} ∪ conns,
     let? resp := ok_or (net_exchange node req) SEof in
     let? resp := map_err SParse (AppendResponse_decode resp) in
     if as_status resp =? STATUS_OK then Ok (as_flush_lsn resp)
     else Err (SRejected (as_status resp)))
  else (conns, Err SEof).

Fixpoint send_to_peers (peers : list NodeId) (conns : gset NodeId) (req : bytes)
  : gset NodeId * list PeerAck :=
  match peers with
  | [] => (conns, [])
  | node :: peers' =>
      let '(conns, r) := send_to_peer conns node req in
      match r with
      | Ok fl =>
          let '(conns, acks) := send_to_peers peers' conns req in
          (conns, mkPeerAck node fl :: acks)
      | _ => send_to_peers peers' (conns ∖ {[node]}) req
      end
  end.

Definition NetworkReplicator_replicate (r : NetworkReplicator) (t : Z) (end_lsn : Lsn) (data : bytes)
  : NetworkReplicator * list PeerAck :=
  let start := saturating_sub end_lsn (len data) in
  let req := mkAppendRequest (nr_tenant r) (nr_timeline r) t start data in
  let '(conns, acks) := send_to_peers (nr_peers r) (nr_conns r) (AppendRequest_encode_replicate req) in
  (mkNetworkReplicator (nr_peers r) conns (nr_tenant r) (nr_timeline r), acks).
End Network.

(** ** Start-up (main.rs) *)

Inductive StartError :=
| NotAMember
| StartStorage (e : StorageError).

(** Open the store and build the quorum state of a configured node; an empty
    member list means a group of one. *)
Definition start_node (fault : nat -> option Z) (c : WalConfig) (id : NodeId) (ms : list NodeId)
  : stateM Disk StartError Safekeeper := fun d =>
  let ms := match ms with [] => [id] | _ => ms end in
  if existsb (Z.eqb id) ms then
    match WalStorage_open fault c d with
    | (d', Ok s) => (d', let? q := Consensus_new id ms in Ok (mkSafekeeper s q []))
    | (d', Err e) => (d', Err (StartStorage e))
    | (d', Panic) => (d', Panic)
    end
  else (d, Err NotAMember).

(** The peers a node replicates to. *)
Definition peers_of (id : NodeId) (ms : list NodeId) : list NodeId :=
  List.filter (fun m => negb (m =? id)) ms.

(** ** Handlers *)

Lemma runs_on_storage {A} (m : stateM WalStorage StorageError A) k Q R :
  runs m (storage k) Q R ->
  runs (on_storage m) k (fun a k' => exists s, k' = with_storage s k /\ Q a s)
    (fun e k' => exists s, k' = with_storage s k /\ R e s).
Proof. unfold runs, on_storage. destruct (m (storage k)) as [s []]; eauto. Qed.

Section Handlers.
Context (fault : nat -> option Z).

(** Storing a run: the log is extended and made durable, or nothing changed
    unless a system call failed. *)
Lemma store_run_ok k a req :
  wal_rep (storage k) a -> 0 <= ar_start_lsn req ->
  ar_start_lsn req + len (ar_payload req) <= u64_max ->
  runs (store_run fault req) k
    (fun l k' => exists s' a', k' = with_storage s' k /\
       alog_append a (ar_start_lsn req) (ar_payload req) = Ok a' /\ l = alog_end a' /\
       wal_rep s' (alog_flush a') /\ wal_durable s' (alog_flush a') /\ cfg s' = cfg (storage k))
    (fun e k' => io_failed fault e k' \/
       alog_append a (ar_start_lsn req) (ar_payload req) = Err e /\ k' = k).
Proof.
  intros HR H0 Hmax. unfold store_run. eapply runs_conseq; [apply runs_on_storage | |].
  - eapply runs_bind with (Q' := fun _ s' => exists a', alog_append a (ar_start_lsn req)
        (ar_payload req) = Ok a' /\ wal_rep s' a' /\ cfg s' = cfg (storage k))
      (R := fun e s' => io_failed fault e s' \/
        alog_append a (ar_start_lsn req) (ar_payload req) = Err e /\ s' = storage k).
    + eapply runs_conseq; [by apply append_rep | | done].
      intros _ s' (a' & Ha & HR' & _ & _ & Hc). eauto.
    + intros _ s' (a' & Ha & HR' & Hc).
      eapply runs_conseq with (Q := fun l s'' => exists a', alog_append a (ar_start_lsn req)
        (ar_payload req) = Ok a' /\ l = alog_end a' /\ wal_rep s'' (alog_flush a') /\
        wal_durable s'' (alog_flush a') /\ cfg s'' = cfg (storage k));
        [by apply flush_rep | | by left].
      intros l s'' (-> & HR'' & HD'' & Hc''). exists a'. do 4 (split; [done |]). congruence.
  - intros l k' (s & -> & a' & Ha & -> & HR' & HD & Hc). eauto 10.
  - intros e k' (s & -> & [[-> Hf] | [He ->]]); [left; by split | right].
    split; [done | by destruct k].
Qed.

(** A read returns the log between the requested position (or the retained
    floor) and the commit position, capped at the requested size; it fails only
    when the commit position is beyond the local log. *)
Lemma handle_read_ok k a req :
  wal_rep (storage k) a -> 0 <= rr_start_lsn req -> 0 <= rr_max_bytes req ->
  commit_lsn (consensus k) <= u64_max ->
  let from := Z.max (rr_start_lsn req) (lo a) in
  let n := Z.min (saturating_sub (commit_lsn (consensus k)) from) (rr_max_bytes req) in
  runs (handle_read fault req) k
    (fun resp k' => resp = mkReadResponse STATUS_OK (commit_lsn (consensus k)) from
                            (sub (data a) (from - lo a) n) /\
       from + n <= Z.max from (alog_end a) /\ wal_rep (storage k') a)
    (fun e _ => io_failed fault e k \/
       e = OutOfRange from (from + n) (lo a) (alog_end a) /\ 0 < n /\ alog_end a < from + n).
Proof.
  intros HR H0 H1 Hmax from n. unfold handle_read. apply runs_get.
  rewrite (wr_start _ _ HR). fold from. fold n.
  destruct (Z.ltb_spec 0 n) as [Hn | Hn].
  - assert (Hsum : from + n <= commit_lsn (consensus k)) by (unfold n, saturating_sub in *; lia).
    eapply runs_bind; [eapply runs_conseq; [apply runs_on_storage, (read_at_rep fault _ a) | |] |].
    + done.
    + lia.
    + lia.
    + intros bs k' H. exact H.
    + intros e k' (s & -> & [[-> Hf] | (_ & -> & Hor)]); [left; by split | right].
      split; [done |]. split; [done |]. unfold from in *. lia.
    + intros bs k' (s & -> & -> & Hl & He & Hs). unfold runs, sret. split; [done |].
      split; [lia |]. by eapply wal_rep_same.
  - apply runs_ret. unfold runs, sret. replace (sub _ _ n) with (@nil byte); [split; [done |] |].
    + split; [| done]. unfold alog_end. lia.
    + symmetry. unfold sub. by replace (Z.to_nat n) with 0%nat by lia.
Qed.
End Handlers.

(** ** Framing *)

(** The eight-byte prefix of a message of type [t]. *)
Definition wal_prefix (t : Z) : bytes :=
  put_u32 WalService.MAGIC ++ [z2b WalService.VERSION; z2b t; x00; x00].

Lemma len_wal_prefix t : len (wal_prefix t) = 8.
Proof. reflexivity. Qed.

Lemma wal_prefix_type t : in_u8 t -> message_type (wal_prefix t) = Ok t.
Proof.
  intros Ht. transitivity (Ok (E := Error) (b2z (z2b t))); [reflexivity |].
  by rewrite b2z_z2b_small.
Qed.

(** What follows the prefix in an append: the rest of the header, the payload. *)
Definition append_rest (r : AppendRequest) : bytes :=
  ar_tenant r ++ ar_timeline r ++ put_u64 (ar_term r) ++ put_u64 (ar_start_lsn r) ++
  put_u32 (len (ar_payload r)).

Lemma append_encode_split r t :
  AppendRequest_encode_as r t = wal_prefix t ++ append_rest r ++ ar_payload r.
Proof. unfold AppendRequest_encode_as, wal_prefix, append_rest. by rewrite <- !app_assoc. Qed.

Lemma len_append_rest r : AppendRequest_wf r -> len (append_rest r) = 52.
Proof.
  intros (H1 & H2 & _). unfold append_rest, put_u64, put_u32, Id_wf in *. autorewrite with len. lia.
Qed.

Lemma append_header_payload_len r t :
  AppendRequest_wf r -> t = TYPE_APPEND \/ t = TYPE_REPLICATE ->
  AppendRequest_payload_len (wal_prefix t ++ append_rest r) = Ok (len (ar_payload r)).
Proof.
  intros (H1 & H2 & H3 & H4 & H5) Ht. pose proof magic_u32. pose proof (len_nonneg (ar_payload r)).
  unfold AppendRequest_payload_len, wal_prefix, append_rest. unfold_wal.
  rewrite <- ?app_assoc; rewrite <- ?app_comm_cons; rewrite <- ?app_assoc. cbn [app].
  match goal with |- ?l = _ => rewrite <- (bind_ret l) end.
  destruct Ht as [-> | ->]; run_decoder; reflexivity.
Qed.

Inductive message :=
| MAppend (r : AppendRequest)
| MReplicate (r : AppendRequest)
| MRead (r : ReadRequest)
| MVote (r : VoteRequest).

Definition message_encode (m : message) : bytes :=
  match m with
  | MAppend r => AppendRequest_encode r
  | MReplicate r => AppendRequest_encode_replicate r
  | MRead r => ReadRequest_encode r
  | MVote r => VoteRequest_encode r
  end.

Definition message_wf (m : message) : Prop :=
  match m with
  | MAppend r | MReplicate r => AppendRequest_wf r
  | MRead r => ReadRequest_wf r
  | MVote r => VoteRequest_wf r
  end.

Section Framing.
Context (fault : nat -> option Z) `{Replicator}.

(** The handler of a message and the bytes of its reply. *)
Definition handle_message (m : message) : stateM Safekeeper ServeError bytes :=
  match m with
  | MAppend r =>
      let! resp := lift_storage (handle_append fault r) in sret (AppendResponse_encode resp)
  | MReplicate r =>
      let! resp := lift_storage (handle_replicate fault r) in sret (AppendResponse_encode resp)
  | MRead r =>
      let! resp := lift_storage (handle_read fault r) in sret (ReadResponse_encode resp)
  | MVote r =>
      fun k => let '(k', resp) := handle_vote r k in (k', Ok (VoteResponse_encode resp))
  end.

Fixpoint handle_messages (ms : list message) : stateM Safekeeper ServeError bytes :=
  match ms with
  | [] => sret []
  | m :: ms' =>
      let! resp := handle_message m in
      let! more := handle_messages ms' in
      sret (resp ++ more)
  end.

Lemma read_exact_app {S} (a b : bytes) n (s : S) :
  n = len a -> read_exact n (a ++ b) s = (s, Ok (a, b)).
Proof.
  intros ->. pose proof (len_nonneg b). unfold read_exact. rewrite len_app.
  rewrite (proj2 (Z.leb_le _ _)) by lia. rewrite sub_app_exact by done. unfold sret.
  rewrite sub_app_ge by lia. rewrite Z.sub_diag, sub_full by lia. done.
Qed.

Lemma lift_parse_ok {A} (m : outcome Error A) a (k : Safekeeper) :
  m = Ok a -> lift_parse m k = (k, Ok a).
Proof. by intros ->. Qed.

(** The dispatch on the type byte. *)
Lemma serve_dispatch input k :
  serve_message fault (wal_prefix TYPE_APPEND) input k
    = serve_append fault (wal_prefix TYPE_APPEND) input k /\
  serve_message fault (wal_prefix TYPE_REPLICATE) input k
    = serve_replicate fault (wal_prefix TYPE_REPLICATE) input k /\
  serve_message fault (wal_prefix TYPE_READ) input k
    = serve_read fault (wal_prefix TYPE_READ) input k /\
  serve_message fault (wal_prefix TYPE_VOTE) input k
    = serve_vote (wal_prefix TYPE_VOTE) input k.
Proof.
  unfold serve_message. repeat split;
    (erewrite sbind_Ok; [| apply lift_parse_ok, wal_prefix_type; by_compute]; reflexivity).
Qed.

(** The frame of an append or replicate message is read whole. *)
Lemma read_append_frame r t rest k (h : AppendRequest * bytes -> stateM Safekeeper ServeError (bytes * bytes)) :
  AppendRequest_wf r -> t = TYPE_APPEND \/ t = TYPE_REPLICATE ->
  (let! (hdr, input) := read_exact (REQUEST_HEADER_LEN - PREFIX_LEN)
                          (append_rest r ++ ar_payload r ++ rest) in
   let full := wal_prefix t ++ hdr in
   let! plen := lift_parse (AppendRequest_payload_len full) in
   let! (payload, input) := read_exact plen input in
   let! req := lift_parse (AppendRequest_decode (full ++ payload)) in
   h (req, input)) k = h (r, rest) k.
Proof.
  intros Hr Ht. erewrite sbind_Ok; [| apply read_exact_app; by rewrite len_append_rest].
  cbv zeta beta iota. erewrite sbind_Ok; [| by apply lift_parse_ok, append_header_payload_len].
  erewrite sbind_Ok; [| by apply read_exact_app]. cbv beta iota.
  erewrite sbind_Ok; [done |]. apply lift_parse_ok.
  rewrite <- app_assoc, <- append_encode_split, <- (app_nil_r (AppendRequest_encode_as _ _)).
  by apply AppendRequest_decode_encode_as.
Qed.

Definition read_rest (r : ReadRequest) : bytes :=
  rr_tenant r ++ rr_timeline r ++ put_u64 (rr_start_lsn r) ++ put_u32 (rr_max_bytes r).

Definition vote_rest (r : VoteRequest) : bytes :=
  vr_tenant r ++ vr_timeline r ++ put_u64 (vr_term r) ++ put_u64 (vr_candidate r).

Lemma read_encode_split r : ReadRequest_encode r = wal_prefix TYPE_READ ++ read_rest r.
Proof. unfold ReadRequest_encode, wal_prefix, read_rest. by rewrite <- app_assoc. Qed.

Lemma vote_encode_split r : VoteRequest_encode r = wal_prefix TYPE_VOTE ++ vote_rest r.
Proof. unfold VoteRequest_encode, wal_prefix, vote_rest. by rewrite <- app_assoc. Qed.

Lemma len_read_rest r : ReadRequest_wf r -> READ_REQUEST_LEN - PREFIX_LEN = len (read_rest r).
Proof.
  intros (H1 & H2 & _). unfold read_rest. unfold_wal. autorewrite with len. lia.
Qed.

Lemma len_vote_rest r : VoteRequest_wf r -> VOTE_REQUEST_LEN - PREFIX_LEN = len (vote_rest r).
Proof.
  intros (H1 & H2 & _). unfold vote_rest. unfold_wal. autorewrite with len. lia.
Qed.

(** One well-formed message at the head of the stream is read whole, handed to
    its handler, and the rest of the stream is left. *)
Lemma serve_message_ok m k rest :
  message_wf m ->
  exists prefix body, message_encode m = prefix ++ body /\ len prefix = PREFIX_LEN /\
    serve_message fault prefix (body ++ rest) k =
    (let! resp := handle_message m in sret (resp, rest)) k.
Proof.
  intros Hm. destruct m as [r | r | r | r]; cbn [message_wf message_encode handle_message] in *.
  - exists (wal_prefix TYPE_APPEND), (append_rest r ++ ar_payload r).
    split; [apply append_encode_split | split; [done |]].
    rewrite (proj1 (serve_dispatch _ _)), <- app_assoc. unfold serve_append.
    rewrite (read_append_frame r _ rest k (fun '(req, input) => _)) by auto.
    by rewrite sbind_assoc.
  - exists (wal_prefix TYPE_REPLICATE), (append_rest r ++ ar_payload r).
    split; [apply append_encode_split | split; [done |]].
    rewrite (proj1 (proj2 (serve_dispatch _ _))), <- app_assoc. unfold serve_replicate.
    rewrite (read_append_frame r _ rest k (fun '(req, input) => _)) by auto.
    by rewrite sbind_assoc.
  - exists (wal_prefix TYPE_READ), (read_rest r).
    split; [apply read_encode_split | split; [done |]].
    rewrite (proj1 (proj2 (proj2 (serve_dispatch _ _)))). unfold serve_read.
    erewrite sbind_Ok; [| apply read_exact_app; by apply len_read_rest]. cbv beta iota.
    rewrite <- read_encode_split, <- (app_nil_r (ReadRequest_encode r)).
    erewrite sbind_Ok; [| by apply lift_parse_ok, ReadRequest_decode_encode].
    by rewrite sbind_assoc.
  - exists (wal_prefix TYPE_VOTE), (vote_rest r).
    split; [apply vote_encode_split | split; [done |]].
    rewrite (proj2 (proj2 (proj2 (serve_dispatch _ _)))). unfold serve_vote.
    erewrite sbind_Ok; [| apply read_exact_app; by apply len_vote_rest]. cbv beta iota.
    rewrite <- vote_encode_split, <- (app_nil_r (VoteRequest_encode r)).
    erewrite sbind_Ok; [| by apply lift_parse_ok, VoteRequest_decode_encode].
    unfold sbind, sret. by destruct (handle_vote r k).
Qed.

(** A stream of whole messages, possibly followed by a truncated prefix. *)
Lemma serve_connection_messages ms fuel tail k :
  Forall message_wf ms -> (length ms <= fuel)%nat -> len tail < PREFIX_LEN ->
  serve_connection fault fuel (concat (message_encode <$> ms) ++ tail) k = handle_messages ms k.
Proof.
  intros Hwf. revert fuel k; induction Hwf as [|m ms Hm Hwf IH]; intros fuel k Hf Ht.
  - cbn [concat fmap list_fmap app]. unfold serve_connection.
    destruct fuel; by rewrite (proj2 (Z.leb_gt _ _)) by done.
  - destruct fuel as [|fuel]; [cbn in Hf; lia |]. cbn [fmap list_fmap concat].
    set (rest := concat (message_encode <$> ms) ++ tail).
    destruct (serve_message_ok m k rest Hm) as (prefix & body & He & Hl & Hs).
    rewrite He, <- !app_assoc. fold rest. cbn [serve_connection].
    pose proof (len_nonneg (body ++ rest)).
    rewrite (proj2 (Z.leb_le _ _)) by (rewrite len_app; lia).
    erewrite sbind_Ok; [| by apply read_exact_app]. cbv beta iota. cbn [handle_messages].
    unfold sbind at 1. rewrite Hs. unfold sbind at 1 3.
    destruct (handle_message m k) as [k' [resp | e |]]; [| done ..].
    unfold sret at 1. unfold sbind, rest. rewrite (IH fuel k'); [done | cbn in Hf; lia | done].
Qed.
End Framing.

(** ** What an append acknowledges *)

Lemma record_acks_mono acks c :
  config_wf c ->
  config_wf (record_acks acks c) /\ commit_lsn c <= commit_lsn (record_acks acks c).
Proof.
  revert c; induction acks as [|a acks IH]; intros c Hc; [done |].
  change (record_acks (a :: acks) c) with (record_acks acks (record_flush c (pa_node a) (pa_lsn a))).
  destruct (IH (record_flush c (pa_node a) (pa_lsn a))) as [H1 H2]; [done |].
  pose proof (commit_lsn_record_flush c (pa_node a) (pa_lsn a) Hc). split; [done | lia].
Qed.

(** The outcome of storing [req] on node [k] with log [a]: the log that results
    is durable, and [resp] reports its end. *)
Definition stored (k : Safekeeper) (a : alog) (req : AppendRequest) (k' : Safekeeper)
  (resp : AppendResponse) : Prop :=
  exists a', alog_append a (ar_start_lsn req) (ar_payload req) = Ok a' /\
    wal_rep (storage k') (alog_flush a') /\ wal_durable (storage k') (alog_flush a') /\
    as_status resp = STATUS_OK /\ as_flush_lsn resp = alog_end a' /\
    as_commit_lsn resp = commit_lsn (consensus k') /\
    commit_lsn (consensus k) <= as_commit_lsn resp.

(** C29: an append or a replicated append from a stale term changes nothing and is
    answered [STATUS_STALE_TERM]; any other one that is answered [STATUS_OK] has
    been added to the log and made durable, reports the end of that durable log,
    and reports the quorum position, which has not moved backwards; one that does
    not continue the log is refused and changes neither the store nor the quorum
    state. *)
Theorem append_acknowledges_durable_run (fault : nat -> option Z) `{Replicator}
  (k : Safekeeper) (a : alog) (req : AppendRequest) :
  wal_rep (storage k) a -> config_wf (consensus k) -> 0 <= ar_start_lsn req ->
  ar_start_lsn req + len (ar_payload req) <= u64_max ->
  let outcome_of (m : stateM Safekeeper StorageError AppendResponse) :=
    runs m k
      (fun resp k' =>
         if ar_term req <? term (consensus k) then k' = k /\ resp = stale_response k
         else stored k a req k' resp)
      (fun e k' => io_failed fault e k' \/
         alog_append a (ar_start_lsn req) (ar_payload req) = Err e /\ storage k' = storage k /\ consensus k' = consensus k) in
  outcome_of (handle_append fault req) /\ outcome_of (handle_replicate fault req).
Proof.
  intros HR Hc H0 Hmax outcome_of. unfold outcome_of, handle_append, handle_replicate.
  split; apply runs_get; (case_test; [by split |]); [do 2 apply runs_mod |];
    (eapply runs_bind; [eapply runs_conseq; [by apply (store_run_ok fault _ a) | intros l k1 H1; exact H1 |];
                        intros e k1 [Hio | [He ->]]; [by left | by right] |]);
    intros l k1 (s' & a' & -> & Ha & -> & HR' & HD' & Hcfg).
  - assert (Hend : AppendRequest_end_lsn (E := StorageError) req
      = Ok (ar_start_lsn req + len (ar_payload req))).
    { unfold AppendRequest_end_lsn, add_u64. by rewrite (proj2 (Z.leb_le _ _)). }
    eapply runs_lift; [exact Hend |]. apply runs_mod, runs_mod, runs_get, runs_mod. unfold runs, sret. cbn.
    destruct (record_acks_mono
      (replicate (ar_term req) (ar_start_lsn req + len (ar_payload req)) (ar_payload req))
      (record_flush (consensus k) (node_id (consensus k)) (alog_end a'))) as [_ Hm]; [done |].
    pose proof (commit_lsn_record_flush (consensus k) (node_id (consensus k)) (alog_end a') Hc).
    exists a'. repeat (split; [done |]). cbn. lia.
  - apply runs_mod, runs_get, runs_mod. unfold runs, sret. cbn. exists a'. repeat (split; [done |]).
    by apply commit_lsn_record_flush.
Qed.

(** Node 1 of three with an empty store, in term 2. *)
Definition example_node : Safekeeper :=
  mkSafekeeper (store_at 8 small_config empty_disk)
    {| node_id := 1; members := [1; 2; 3]; quorum := 2; term := 2; role := Follower;
       voted_for := None; votes := ∅; Consensus.flush := ∅ |} [].

Lemma append_acknowledges_durable_run_witness :
  let req := mkAppendRequest Id_ZERO Id_ZERO 2 8 [x01; x02] in
  let _ := LocalSimReplicator [2; 3] in
  runs (handle_append (fun _ => None) req) example_node
    (fun resp k' =>
       if ar_term req <? term (consensus example_node)
       then k' = example_node /\ resp = stale_response example_node
       else stored example_node (mkALog 8 [] 8) req k' resp)
    (fun e k' => io_failed (fun _ => None) e k' \/
       alog_append (mkALog 8 [] 8) 8 [x01; x02] = Err e /\ storage k' = storage example_node /\
       consensus k' = consensus example_node).
Proof.
  intros req R. apply (append_acknowledges_durable_run (fun _ => None) example_node (mkALog 8 [] 8) req).
  - apply store_at_rep; by_compute.
  - split; [discriminate | reflexivity].
  - discriminate.
  - by_compute.
Defined.

(** A read is answered with exactly the log between the requested position
    (or the retained floor) and the commit position, at most [max_bytes] of it:
    never a byte at or above the commit position.  It fails only when the commit
    position known to the node is beyond its own log, or on an I/O error. *)
Theorem read_returns_committed_bytes (fault : nat -> option Z) (k : Safekeeper) (a : alog)
  (req : ReadRequest) :
  wal_rep (storage k) a -> 0 <= rr_start_lsn req -> 0 <= rr_max_bytes req ->
  commit_lsn (consensus k) <= u64_max ->
  let from := Z.max (rr_start_lsn req) (lo a) in
  let n := Z.min (saturating_sub (commit_lsn (consensus k)) from) (rr_max_bytes req) in
  runs (handle_read fault req) k
    (fun resp k' => resp = mkReadResponse STATUS_OK (commit_lsn (consensus k)) from
                            (sub (data a) (from - lo a) n) /\
       len (rs_payload resp) = n /\ wal_rep (storage k') a)
    (fun e _ => io_failed fault e k \/
       e = OutOfRange from (from + n) (lo a) (alog_end a) /\
       alog_end a < commit_lsn (consensus k)).
Proof.
  intros HR H0 H1 Hmax from n. eapply runs_conseq; [by apply handle_read_ok | |].
  - fold from. fold n. intros resp k' (-> & Hle & HR'). split; [done |]. split; [| done].
    cbn. unfold alog_end in Hle. destruct (Z.lt_ge_cases 0 n).
    + apply sub_len; unfold from in *; lia.
    + replace n with 0 by (unfold n, saturating_sub in *; lia). done.
  - fold from. fold n. intros e _ [? | (-> & Hn & Hlt)]; [by left | right]. split; [done |].
    unfold from, n, saturating_sub, alog_end in *. lia.
Qed.

Lemma read_returns_committed_bytes_witness :
  runs (handle_read (fun _ => None) (mkReadRequest Id_ZERO Id_ZERO 0 100)) example_node
    (fun resp k' => resp = mkReadResponse STATUS_OK 0 8 [] /\
       len (rs_payload resp) = 0 /\ wal_rep (storage k') (mkALog 8 [] 8))
    (fun e _ => io_failed (fun _ => None) e example_node \/
       e = OutOfRange 8 8 8 8 /\ 8 < 0).
Proof.
  apply (read_returns_committed_bytes (fun _ => None) example_node (mkALog 8 [] 8)
           (mkReadRequest Id_ZERO Id_ZERO 0 100)).
  - apply store_at_rep; by_compute.
  - discriminate.
  - discriminate.
  - by_compute.
Defined.

(** A connection is a sequence of requests: on a stream of well-formed
    messages, possibly cut inside the next prefix, the server handles exactly
    those messages in order, each by its own handler, writes their replies in
    order and stops at the first error; the loop needs one round per message. *)
Theorem connection_serves_messages (fault : nat -> option Z) `{Replicator}
  (ms : list message) (tail : bytes) (k : Safekeeper) :
  Forall message_wf ms -> len tail < PREFIX_LEN ->
  serve_connection fault (length ms) (concat (message_encode <$> ms) ++ tail) k
  = handle_messages fault ms k.
Proof. intros Hwf Ht. by apply serve_connection_messages. Qed.

Lemma connection_serves_messages_witness :
  let _ := LocalSimReplicator [2; 3] in
  let ms := [MAppend (mkAppendRequest Id_ZERO Id_ZERO 2 8 [x01; x02]);
             MRead (mkReadRequest Id_ZERO Id_ZERO 8 100)] in
  serve_connection (fun _ => None) 2 (concat (message_encode <$> ms) ++ [x00]) example_node
  = handle_messages (fun _ => None) ms example_node.
Proof.
  intros R ms. apply (connection_serves_messages (fun _ => None) ms [x00] example_node).
  - repeat constructor; by_compute.
  - reflexivity.
Defined.

(** ** What the node exports *)

Lemma store_run_keeps_log fault req k : sk_metrics (store_run fault req k).1 = sk_metrics k.
Proof. unfold store_run, on_storage. by match goal with |- context [let '(_, _) := ?x in _] => destruct x end. Qed.

(** The calls of a sequence of handlers fit the node's statics. *)
Definition sk_call (c : metric_call) : Prop := (target c).1 ∈ safekeeper_statics /\ fits c = true.

(** What an append counts: a request and its bytes before they are stored, whatever
    becomes of them, and then the commit position it reports. *)
Lemma append_meters fault `{Replicator} req k :
  match handle_append fault req k with
  | (k', Ok resp) =>
      sk_metrics k' =
        if ar_term req <? term (consensus k) then sk_metrics k
        else SetTo COMMIT_LSN [] (as_signed64 (as_commit_lsn resp)) ::
             IncBy WAL_BYTES [] (len (ar_payload req)) :: Inc APPENDS [] :: sk_metrics k
  | (k', _) => sk_metrics k' = IncBy WAL_BYTES [] (len (ar_payload req)) :: Inc APPENDS [] :: sk_metrics k
  end.
Proof.
  unfold handle_append, sbind, sget, smod, sret, slift. destruct (ar_term req <? _); [done |].
  match goal with |- context [store_run fault req ?s] => pose proof (store_run_keeps_log fault req s) as E end.
  destruct (store_run _ _ _) as [k1 [fl | e |]]; cbn [fst sk_metrics metered] in E; [| done | done].
  destruct (AppendRequest_end_lsn req) as [l | e |]; cbn; [by rewrite E | done | done].
Qed.

Lemma replicate_meters fault req k :
  match handle_replicate fault req k with
  | (k', Ok _) => sk_metrics k' = if ar_term req <? term (consensus k) then sk_metrics k else Inc REPLICATED [] :: sk_metrics k
  | (k', _) => sk_metrics k' = sk_metrics k
  end.
Proof.
  unfold handle_replicate, sbind, sget, smod, sret. destruct (ar_term req <? _); [done |].
  pose proof (store_run_keeps_log fault req k) as E. destruct (store_run _ _ _) as [k1 [fl | e |]]; cbn in *; by rewrite ?E.
Qed.

Lemma vote_meters req k :
  sk_metrics (handle_vote req k).1 = if vs_granted (handle_vote req k).2 then Inc VOTES_GRANTED [] :: sk_metrics k else sk_metrics k.
Proof. unfold handle_vote. destruct (handle_vote_request _ _ _) as [c []]; done. Qed.

(** An append whose bytes are refused counts them as durably appended. *)
Lemma refused_append_is_counted :
  let _ := LocalSimReplicator [2; 3] in
  let '(k', r) := handle_append (fun _ => None) (mkAppendRequest Id_ZERO Id_ZERO 2 100 [x01; x02]) example_node in
  r = Err (NonContiguous 8 100) /\ storage k' = storage example_node /\
  tally WAL_BYTES [] (sk_metrics k') = 2 /\ tally APPENDS [] (sk_metrics k') = 1.
Proof. vm_compute. done. Qed.

(** A request of an earlier term is received and not counted. *)
Lemma stale_append_is_not_counted fault `{Replicator} req k :
  ar_term req < term (consensus k) -> handle_append fault req k = (k, Ok (stale_response k)).
Proof. intros Ht. unfold handle_append, sbind, sget, sret. by rewrite (proj2 (Z.ltb_lt _ _) Ht). Qed.

Lemma read_keeps_log fault req k : sk_metrics (handle_read fault req k).1 = sk_metrics k.
Proof.
  unfold handle_read, sbind, sget, sret, on_storage. case_test; [| done].
  destruct (read_at _ _ _ _) as [s [b | e |]]; done.
Qed.

Lemma message_meters fault `{Replicator} m k :
  Forall sk_call (sk_metrics k) -> Forall sk_call (sk_metrics (handle_message fault m k).1).
Proof.
  intros Hk. pose proof (len_nonneg : forall b : bytes, 0 <= len b) as Hlen.
  assert (Hc : forall n v, 0 <= n -> Forall sk_call [IncBy WAL_BYTES [] n; Inc APPENDS []; SetTo COMMIT_LSN [] v; Inc REPLICATED []; Inc VOTES_GRANTED []]).
  { intros n v Hn. repeat (apply Forall_cons; split); try (split; [apply (bool_decide_eq_true_1 _) |]; vm_compute; reflexivity); [| done].
    split; [apply (bool_decide_eq_true_1 _); vm_compute; reflexivity |]. unfold fits. cbn. by apply Z.leb_le. }
  destruct m as [r | r | r | r]; unfold handle_message, sbind, lift_storage, sret.
  - pose proof (append_meters fault r k) as E. destruct (Forall_cons_1 _ _ _ (Hc (len (ar_payload r)) 0 (Hlen _))) as [H1 H2].
    destruct (handle_append fault r k) as [k' [resp | e |]]; cbn [fst map_err]; rewrite E; [case_match; [done |] | |];
      repeat (apply Forall_cons; split); try done; try apply (Forall_cons_1 _ _ _ H2).
    destruct (Forall_cons_1 _ _ _ (Hc 0 (as_signed64 (as_commit_lsn resp)) ltac:(lia))) as [_ [_ [H3 _]%Forall_cons_1]%Forall_cons_1]. done.
  - pose proof (replicate_meters fault r k) as E. destruct (handle_replicate fault r k) as [k' [resp | e |]]; cbn [fst map_err]; rewrite E; [case_match; [done |] | done | done].
    apply Forall_cons. split; [| done]. specialize (Hc 0 0 ltac:(lia)). rewrite Forall_forall in Hc. apply Hc. do 3 right. left.
  - pose proof (read_keeps_log fault r k) as E. destruct (handle_read fault r k) as [k' [resp | e |]]; cbn in *; by rewrite E.
  - pose proof (vote_meters r k) as E. destruct (handle_vote r k) as [k' resp]. cbn [fst snd] in *. rewrite E. case_match; [| done].
    apply Forall_cons. split; [| done]. specialize (Hc 0 0 ltac:(lia)). rewrite Forall_forall in Hc. apply Hc. do 4 right. left.
Qed.

(** The node's metrics are what it did.  Whatever messages a node that has just
    started handles, as long as no value outgrows its type no use of a metric
    panics, and every exported value is what the handlers' calls add up to. *)
Theorem node_exports_its_calls (fault : nat -> option Z) `{Replicator} {R} `{PrometheusLaws R} (ms : list message) (k : Safekeeper) :
  sk_metrics k = [] -> bounded (sk_metrics (handle_messages fault ms k).1) ->
  exists x : process R, replay (sk_metrics (handle_messages fault ms k).1) = Ok x /\
    forall m l, m ∈ safekeeper_statics -> prom_value (registry x) (m_name m) l = tally m l (sk_metrics (handle_messages fault ms k).1).
Proof.
  intros Ek Hb. apply (replay_ok safekeeper_statics); [apply safekeeper_statics_ok | apply safekeeper_statics_ok | | done].
  assert (Hk : Forall sk_call (sk_metrics k)) by (by rewrite Ek). clear Ek Hb. revert k Hk.
  induction ms as [| m ms IH]; intros k Hk; [done |]. cbn [handle_messages]. unfold sbind at 1.
  pose proof (message_meters fault m k Hk) as Hm. destruct (handle_message fault m k) as [k1 [resp | e |]]; cbn [fst] in *; [| done | done].
  specialize (IH k1 Hm). unfold sbind. destruct (handle_messages fault ms k1) as [k2 [more | e |]]; done.
Qed.

Lemma node_exports_its_calls_witness :
  let _ := LocalSimReplicator [2; 3] in
  let k := (handle_messages (fun _ => None) [MAppend (mkAppendRequest Id_ZERO Id_ZERO 2 8 [x01; x02]); MVote (mkVoteRequest Id_ZERO Id_ZERO 3 2)] example_node).1 in
  exists x : process small_registry, replay (sk_metrics k) = Ok x /\
    prom_value (registry x) (m_name WAL_BYTES) [] = 2 /\ prom_value (registry x) (m_name COMMIT_LSN) [] = 10 /\
    prom_value (registry x) (m_name VOTES_GRANTED) [] = 1.
Proof.
  intros R k.
  destruct (node_exports_its_calls (fun _ => None) (R := small_registry)
    [MAppend (mkAppendRequest Id_ZERO Id_ZERO 2 8 [x01; x02]); MVote (mkVoteRequest Id_ZERO Id_ZERO 3 2)] example_node) as (x & Ex & Hv).
  - reflexivity.
  - vm_compute. repeat split; congruence.
  - exists x. split; [exact Ex |].
    split; [| split]; (etransitivity; [apply Hv; apply (bool_decide_eq_true_1 _); vm_compute; reflexivity | vm_compute; reflexivity]).
Defined.
