(* ===== verification/Cluster.v ===== *)
(** A group of safekeepers (src/safekeeper/src/server.rs and main.rs, composed).

    Each step is one critical section of one node: storing a run (the storage
    part of [handle_append] and [handle_replicate]), recording an
    acknowledgement, an election event, or a crash followed by a restart.
    Acknowledgements travel in [acks]: they may be delayed, reordered,
    duplicated or lost.  [P] restricts the bytes proposers send: [True] for
    arbitrary proposers, or the bytes of one WAL stream.  System calls succeed;
    a crash can hit a run that has been appended but not yet flushed. *)

From S2P Require Import Prelude Bytes Common WalService Consensus WalStorage Safekeeper.

Definition calm : nat -> option Z := fun _ => None.

Record cluster := mkCluster {
  sks : gmap NodeId Safekeeper;
  (** (addressee, node, position): [node] has durably flushed up to [position] *)
  acks : gset (NodeId * NodeId * Lsn)
}.

Definition set_sk (n : NodeId) (k : Safekeeper) (cl : cluster) : cluster :=
  mkCluster (<[n := k]> (sks cl)) (acks cl).

Definition send_acks (to : gset NodeId) (n : NodeId) (l : Lsn) (cl : cluster) : cluster :=
  mkCluster (sks cl) (set_map (fun t => (t, n, l)) to ∪ acks cl).

(** The election events of one node; they leave the flush positions alone. *)
Inductive election_move (c : Consensus) : Consensus -> Prop :=
| em_elect c' t : start_election (E := unit) c = Ok (c', t) -> election_move c c'
| em_vote t x : election_move c (fst (handle_vote_request c t x))
| em_granted v t : election_move c (handle_vote_granted c v t).

Section Steps.
Context (P : Lsn -> byte -> Prop) (ms : list NodeId) (conf : WalConfig).

(** The positions a run covers fit 64 bits, and its bytes are allowed. *)
Definition run_ok (req : AppendRequest) : Prop :=
  0 <= ar_start_lsn req /\ ar_start_lsn req + len (ar_payload req) <= u64_max /\
  forall i b, get (ar_payload req) i = Some b -> P (ar_start_lsn req + i) b.

Inductive cluster_step (cl : cluster) : cluster -> Prop :=
| cs_store n k req k' l to :
    sks cl !! n = Some k -> run_ok req -> store_run calm req k = (k', Ok l) ->
    cluster_step cl (send_acks to n l (set_sk n k' cl))
| cs_record n k m l :
    sks cl !! n = Some k -> (n, m, l) ∈ acks cl ->
    cluster_step cl (set_sk n (with_consensus (record_flush (consensus k) m l) k) cl)
| cs_election n k c' :
    sks cl !! n = Some k -> election_move (consensus k) c' ->
    cluster_step cl (set_sk n (with_consensus c' k) cl)
| cs_crash n k req s1 d d1 s' c' :
    sks cl !! n = Some k -> run_ok req ->
    (s1 = storage k \/ append calm (ar_start_lsn req) (ar_payload req) (storage k) = (s1, Ok tt)) ->
    crash (disk s1) d -> WalStorage_open calm conf d = (d1, Ok s') ->
    Consensus_new (E := unit) n ms = Ok c' ->
    cluster_step cl (set_sk n (mkSafekeeper s' c' []) cl).

Definition fresh_sk (n : NodeId) : option Safekeeper :=
  match Consensus_new (E := unit) n ms with
  | Ok c => Some (mkSafekeeper (store_at 0 conf empty_disk) c [])
  | _ => None
  end.

Definition cluster_init : cluster :=
  mkCluster (map_imap (fun n _ => fresh_sk n) (gset_to_gmap tt (list_to_set ms))) ∅.

(** ** Invariant *)

Definition log_ok (a : alog) : Prop := forall i b, get (data a) i = Some b -> P (lo a + i) b.

(** A store that a crash brings back to its durable log. *)
Definition stable (s : WalStorage) (a : alog) : Prop :=
  wal_durable s a \/ a = mkALog 0 [] 0 /\ meta (disk s) = None.

Definition store_ok (s : WalStorage) (a : alog) : Prop :=
  wal_rep s a /\ cfg s = conf /\ stable s a /\ log_ok a.

Definition below (cl : cluster) (m : NodeId) (l : Lsn) : Prop :=
  exists km, sks cl !! m = Some km /\ l <= flush_lsn (storage km).

Record cluster_inv (cl : cluster) : Prop := {
  ci_store : forall n k, sks cl !! n = Some k -> exists a, store_ok (storage k) a;
  ci_config : forall n k, sks cl !! n = Some k ->
    config_wf (consensus k) /\ members (consensus k) = ms;
  ci_acks : forall n m l, (n, m, l) ∈ acks cl -> below cl m l;
  ci_recorded : forall n k m, sks cl !! n = Some k ->
    flush_of (consensus k) m <= 0 \/ below cl m (flush_of (consensus k) m)
}.

(** Replacing a node by one whose durable position is no lower. *)
Lemma below_set_sk cl n k k' m l :
  sks cl !! n = Some k -> flush_lsn (storage k) <= flush_lsn (storage k') ->
  below cl m l -> below (set_sk n k' cl) m l.
Proof.
  intros Hn Hle (km & Hm & Hl). unfold below, set_sk. cbn [sks].
  destruct (decide (m = n)) as [-> | Hne].
  - rewrite lookup_insert_eq. exists k'. split; [done |]. assert (km = k) by congruence. subst. lia.
  - rewrite lookup_insert_ne by done. by exists km.
Qed.

Lemma set_sk_inv cl n k k' :
  cluster_inv cl -> sks cl !! n = Some k ->
  (exists a, store_ok (storage k') a) ->
  config_wf (consensus k') /\ members (consensus k') = ms ->
  flush_lsn (storage k) <= flush_lsn (storage k') ->
  (forall m, flush_of (consensus k') m <= 0 \/ below (set_sk n k' cl) m (flush_of (consensus k') m)) ->
  cluster_inv (set_sk n k' cl).
Proof.
  intros [H1 H2 H3 H4] Hn Hs Hc Hf Hr. split.
  - intros m km. unfold set_sk; cbn [sks]. rewrite lookup_insert. case_decide; [| apply H1].
    by intros [= <-].
  - intros m km. unfold set_sk; cbn [sks]. rewrite lookup_insert. case_decide; [| apply H2].
    by intros [= <-].
  - intros m q l Hin. eapply below_set_sk; [done | done |]. by eapply H3.
  - intros m km q. unfold set_sk at 1; cbn [sks]. rewrite lookup_insert.
    case_decide; [intros [= <-]; apply Hr |].
    intros Hm. destruct (H4 _ _ q Hm) as [? | Hb]; [by left | right]. by eapply below_set_sk.
Qed.

Lemma recorded_set_sk cl n k k' :
  cluster_inv cl -> sks cl !! n = Some k -> consensus k' = consensus k ->
  flush_lsn (storage k) <= flush_lsn (storage k') ->
  forall m, flush_of (consensus k') m <= 0 \/ below (set_sk n k' cl) m (flush_of (consensus k') m).
Proof.
  intros HI Hn Hc Hf m. rewrite Hc. destruct (ci_recorded _ HI _ _ m Hn) as [? | Hb]; [by left | right].
  by eapply below_set_sk.
Qed.

(** ** Logs *)

Lemma log_ok_append a lsn d a' :
  log_ok a -> (forall i b, get d i = Some b -> P (lsn + i) b) ->
  alog_append a lsn d = Ok a' -> log_ok a'.
Proof.
  intros Ha Hd. unfold alog_append. set (a0 := alog_seed a lsn).
  assert (H0 : log_ok a0).
  { unfold a0, alog_seed. case_test; [| done]. intros i b. cbn. by rewrite get_nil. }
  clearbody a0. destruct (Z.eqb_spec lsn (alog_end a0)) as [-> |]; [| done].
  intros [= <-] i b Hg. cbn in *. destruct (Z.lt_ge_cases i (len (data a0))).
  - rewrite get_app_l in Hg by done. by apply H0.
  - rewrite get_app_r in Hg by done. apply Hd in Hg. unfold alog_end in Hg.
    by replace (lo a0 + len (data a0) + (i - len (data a0))) with (lo a0 + i) in Hg by lia.
Qed.

Lemma log_ok_crash a : log_ok a -> log_ok (alog_crash a).
Proof.
  intros Ha i b Hg. cbn in *. apply Ha. unfold get, sub in *. case_test; [| done].
  rewrite drop_0 in Hg. by apply lookup_take_Some in Hg as [Hg _].
Qed.

Lemma alog_append_end a lsn d a' :
  0 <= lsn -> 0 <= lo a -> lo a <= durable a <= alog_end a ->
  alog_append a lsn d = Ok a' -> durable a <= alog_end a'.
Proof.
  intros Hl Hlo Hd. unfold alog_append, alog_seed. pose proof (len_nonneg d).
  destruct ((alog_end a =? 0) && (lo a =? 0)) eqn:E; bool_to_prop; (case_test; [| done]);
    intros [= <-]; unfold alog_end in *; cbn [lo data durable] in *; rewrite ?len_app in *;
    change (len (@nil byte)) with 0; lia.
Qed.

(** Storing a run keeps the store stable and its durable position only grows. *)
Lemma store_run_store_ok k a req k' l :
  store_ok (storage k) a -> run_ok req -> store_run calm req k = (k', Ok l) ->
  consensus k' = consensus k /\ flush_lsn (storage k) <= l /\ l = flush_lsn (storage k') /\
  exists a', store_ok (storage k') a'.
Proof.
  intros (HR & Hc & Hst & Hlog) (H0 & Hmax & HP) Hrun.
  pose proof (store_run_ok calm k a req HR H0 Hmax) as H. unfold runs in H. rewrite Hrun in H.
  destruct H as (s' & a' & -> & Ha & -> & HR' & HD' & Hcf). split; [done |].
  pose proof (wr_durable _ _ HR) as Hdu. pose proof (dr_lo _ _ _ (wr_disk _ _ HR)) as Hlo.
  split; [rewrite (wr_flush _ _ HR); eapply alog_append_end; [exact H0 | done | done | exact Ha] |].
  split; [cbn; by rewrite (wr_flush _ _ HR') |].
  exists (alog_flush a'). split; [done |]. split; [cbn; congruence |]. split; [by left |].
  by eapply (log_ok_append a) in Ha.
Qed.

(** A crash and restart bring back a stable store at the same durable position. *)
Lemma crash_store_ok s a req s1 d d1 s' :
  store_ok s a -> run_ok req ->
  (s1 = s \/ append calm (ar_start_lsn req) (ar_payload req) s = (s1, Ok tt)) ->
  crash (disk s1) d -> WalStorage_open calm conf d = (d1, Ok s') ->
  flush_lsn s' = flush_lsn s /\ exists a', store_ok s' a'.
Proof.
  intros (HR & Hc & Hst & Hlog) (H0 & Hmax & HP) Hs1 Hcr Hop.
  pose proof (wr_durable _ _ HR) as Hdu. pose proof (wr_disk _ _ HR) as [Hseg Hlo _ _ _ _ _ _].
  destruct (Z.eq_dec (alog_end a) 0) as [He | Hne].
  - assert (Ha : a = mkALog 0 [] 0).
    { unfold alog_end in *. pose proof (len_nonneg (data a)). destruct a as [l dt du]; cbn in *.
      assert (dt = []) as -> by (apply len_zero_nil; lia). f_equal; lia. }
    assert (Hm : meta (disk s1) = meta (disk s)).
    { destruct Hs1 as [-> | Happ]; [done |].
      pose proof (append_rep calm s a _ _ HR H0 Hmax) as H. unfold runs in H. rewrite Happ in H.
      by destruct H as (? & _ & _ & ? & _). }
    pose proof Hcr as (Hm' & Hsy & _). subst a.
    assert (Hmd : meta d = None \/ meta d = Some (encode_meta 0 0)).
    { rewrite Hm', Hm. destruct Hst as [[Hw _] | [_ Hn]]; auto. }
    destruct (open_empty _ _ _ _ _ Hmd Hop) as [k ->]. split; [cbn; by rewrite (wr_flush _ _ HR) |].
    exists (mkALog 0 [] 0). split; [apply store_at_rep; rewrite <- ?Hc; try done; apply HR |].
    split; [done |]. split; [| done]. unfold stable, wal_durable. cbn.
    destruct Hmd as [-> | ->]; [by right | left]. split; [done | lia].
  - destruct Hst as [HD | [-> _]]; [| done].
    assert (exists a1, wal_rep s1 a1 /\ wal_durable s1 a1 /\ lo a1 = lo a /\ durable a1 = durable a /\
      cfg s1 = cfg s /\ log_ok a1) as (a1 & HR1 & HD1 & E1 & E2 & E3 & Hl1).
    { destruct Hs1 as [-> | Happ]; [by exists a |].
      destruct (append_wal_durable _ _ _ _ _ _ HR HD Hne H0 Hmax Happ)
        as (a1 & Ha1 & ? & ? & ? & ? & _ & ?). exists a1. repeat (split; [done |]).
      by eapply log_ok_append. }
    pose proof (open_rep calm s1 a1 d HR1 HD1 Hcr) as H. unfold runs in H.
    rewrite E3, Hc, Hop in H. destruct H as (HR' & HD' & Hcf).
    split; [rewrite (wr_flush _ _ HR'), (wr_flush _ _ HR); cbn; done |].
    exists (alog_crash a1). split; [done |]. split; [done |].
    split; [by left | by apply log_ok_crash].
Qed.

(** ** Every reachable cluster satisfies the invariant *)

Hypothesis conf_ok : 0 < segment_size conf /\ 0 <= ring_capacity conf.

Lemma cluster_init_inv : cluster_inv cluster_init.
Proof.
  assert (H : forall n k, sks cluster_init !! n = Some k ->
    storage k = store_at 0 conf empty_disk /\ Consensus_new (E := unit) n ms = Ok (consensus k)).
  { intros n k Hn. unfold cluster_init in Hn; cbn [sks] in Hn. rewrite map_lookup_imap in Hn.
    apply bind_Some in Hn as ([] & _ & Hn). unfold fresh_sk in Hn.
    destruct (Consensus_new n ms) eqn:E; [| done ..]. by injection Hn as <-. }
  split.
  - intros n k [-> _]%H. exists (mkALog 0 [] 0).
    split; [apply store_at_rep; [apply conf_ok | apply conf_ok | by_compute | done] |].
    split; [done |]. split; [by right |]. intros i b. cbn. by rewrite get_nil.
  - intros n k [_ (Hc & _ & Hm & _)%Consensus_new_Ok]%H. done.
  - intros n m l Hin. cbn in Hin. set_solver.
  - intros n k m [_ (_ & _ & _ & _ & Hf)%Consensus_new_Ok]%H. left. by rewrite Hf.
Qed.

Lemma election_move_flush c c' :
  election_move c c' -> config_wf c ->
  config_wf c' /\ members c' = members c /\ forall m, flush_of c' m = flush_of c m.
Proof.
  intros [d t He | t x | v t] Hc.
  - unfold start_election, add_u64 in He. case_test; [| done]. cbn [bind] in He.
    injection He as <- _. unfold maybe_become_leader. case_test; done.
  - unfold handle_vote_request, observe_term. repeat case_test; done.
  - unfold handle_vote_granted, maybe_become_leader. repeat case_test; done.
Qed.

Lemma send_acks_inv to n l cl :
  cluster_inv cl -> below cl n l -> cluster_inv (send_acks to n l cl).
Proof.
  intros [H1 H2 H3 H4] Hb. split; try done.
  intros t m x Hin. unfold send_acks in Hin; cbn [acks] in Hin.
  apply elem_of_union in Hin as [Hin | Hin]; [| by eapply H3].
  apply elem_of_map in Hin as (t' & [= -> -> ->] & _). done.
Qed.

Lemma cluster_step_inv cl cl' : cluster_inv cl -> cluster_step cl cl' -> cluster_inv cl'.
Proof.
  intros HI [n k req k' l to Hn Hok Hrun | n k m l Hn Hin | n k c' Hn Hem
            | n k req s1 d d1 s' c' Hn Hok Hs1 Hcr Hop Hnew].
  - destruct (ci_store _ HI _ _ Hn) as [a Ha].
    destruct (store_run_store_ok k a req k' l Ha Hok Hrun) as (Hc & Hle & Hl & Ha').
    apply send_acks_inv.
    + eapply set_sk_inv; [done | done | done | | lia |].
      * rewrite Hc. by eapply ci_config.
      * eapply recorded_set_sk; [done | done | done | lia].
    + exists k'. unfold set_sk; cbn [sks]. rewrite lookup_insert_eq. split; [done | lia].
  - eapply set_sk_inv; [done | done | exact (ci_store _ HI _ _ Hn) | exact (ci_config _ HI _ _ Hn) | done |].
    intros q. cbn [consensus with_consensus]. rewrite record_flush_of. case_decide as E.
    + subst q. destruct (ci_recorded _ HI _ _ m Hn) as [Hle | Hb].
      * destruct (Z.lt_ge_cases 0 l); [right | left; lia]. rewrite Z.max_r by lia.
        eapply below_set_sk; [done | done |]. by eapply ci_acks.
      * right. eapply below_set_sk; [done | done |].
        destruct (ci_acks _ HI _ _ _ Hin) as (km & Hm & Hl). destruct Hb as (km' & Hm' & Hl').
        exists km. split; [done |]. assert (km' = km) by congruence. subst. lia.
    + destruct (ci_recorded _ HI _ _ q Hn) as [? | Hb]; [by left | right].
      by eapply below_set_sk.
  - destruct (ci_config _ HI _ _ Hn) as [Hw Hm].
    destruct (election_move_flush _ _ Hem Hw) as (Hw' & Hm' & Hf).
    eapply set_sk_inv; [done | done | exact (ci_store _ HI _ _ Hn) | split; [done | cbn; congruence] | done |].
    intros q. cbn [consensus with_consensus]. rewrite Hf.
    destruct (ci_recorded _ HI _ _ q Hn) as [? | Hb]; [by left | right]. by eapply below_set_sk.
  - destruct (ci_store _ HI _ _ Hn) as [a Ha].
    destruct (crash_store_ok _ _ _ _ _ _ _ Ha Hok Hs1 Hcr Hop) as [Hfl Ha'].
    apply Consensus_new_Ok in Hnew as (Hw & _ & Hm & _ & Hf).
    eapply set_sk_inv; [done | done | done | done | cbn; lia |].
    intros q. left. cbn. by rewrite Hf.
Qed.

Lemma cluster_reach_inv cl : rtc cluster_step cluster_init cl -> cluster_inv cl.
Proof.
  intros H. pose proof cluster_init_inv as HI. induction H as [|c1 c2 c3 Hs _ IH]; [done |].
  apply IH. by eapply cluster_step_inv.
Qed.

(** Node [m] durably holds everything below [x]. *)
Definition holds_durably (cl : cluster) (x : Lsn) (m : NodeId) : bool :=
  match sks cl !! m with Some k => x <=? flush_lsn (storage k) | None => false end.

Lemma recorded_holds cl n k x m :
  cluster_inv cl -> sks cl !! n = Some k -> 0 < x ->
  x <= flush_of (consensus k) m -> holds_durably cl x m = true.
Proof.
  intros HI Hn Hx Hle. unfold holds_durably.
  destruct (ci_recorded _ HI _ _ m Hn) as [? | (km & -> & Hl)]; [lia |]. apply Z.leb_le. lia.
Qed.

Lemma filter_len_mono {A} (f g : A -> bool) l :
  (forall x, f x = true -> g x = true) -> len (List.filter f l) <= len (List.filter g l).
Proof.
  intros Hfg. induction l as [|x l IH]; [done |]. cbn [List.filter]. specialize (Hfg x).
  destruct (f x), (g x); rewrite ?len_cons; lia.
Qed.
End Steps.


(** ** Executable traces *)

Inductive cluster_event :=
| Store (n : NodeId) (start : Lsn) (payload : bytes) (to : list NodeId)
| Record_ (n m : NodeId) (l : Lsn).

Definition run_of (start : Lsn) (payload : bytes) : AppendRequest :=
  mkAppendRequest Id_ZERO Id_ZERO 0 start payload.

Definition run_cluster_event (cl : cluster) (e : cluster_event) : option cluster :=
  match e with
  | Store n start payload to =>
      k ← sks cl !! n;
      if (0 <=? start) && (start + len payload <=? u64_max) then
        match store_run calm (run_of start payload) k with
        | (k', Ok l) => Some (send_acks (list_to_set to) n l (set_sk n k' cl))
        | _ => None
        end
      else None
  | Record_ n m l =>
      k ← sks cl !! n;
      if bool_decide ((n, m, l) ∈ acks cl)
      then Some (set_sk n (with_consensus (record_flush (consensus k) m l) k) cl)
      else None
  end.

Fixpoint run_cluster (cl : cluster) (es : list cluster_event) : option cluster :=
  match es with
  | [] => Some cl
  | e :: es' => cl' ← run_cluster_event cl e; run_cluster cl' es'
  end.

(** The bytes an event proposes are allowed. *)
Definition event_ok (P : Lsn -> byte -> Prop) (e : cluster_event) : Prop :=
  match e with
  | Store _ start payload _ => forall i b, get payload i = Some b -> P (start + i) b
  | Record_ _ _ _ => True
  end.

Lemma run_cluster_reach P ms conf es cl cl' :
  Forall (event_ok P) es -> run_cluster cl es = Some cl' -> rtc (cluster_step P ms conf) cl cl'.
Proof.
  intros Hok. revert cl; induction Hok as [|e es He _ IH]; intros cl; cbn [run_cluster].
  { intros [= <-]. apply rtc_refl. }
  intros (c1 & H1 & H2)%bind_Some. eapply rtc_l; [| by apply IH].
  destruct e as [n start payload to | n m l]; cbn [run_cluster_event] in H1;
    apply bind_Some in H1 as (k & Hk & H1).
  - case_test; [| done]. bool_to_prop.
    destruct (store_run calm (run_of start payload) k) as [k' []] eqn:E; [| done ..].
    injection H1 as <-. eapply cs_store; [exact Hk | | exact E]. by split; [| split].
  - case_bool_decide as Hin; [| done]. injection H1 as <-. by eapply cs_record.
Qed.

(** Two of three nodes store the run at position 8; node 1 collects both
    acknowledgements. *)
Definition commit_trace : list cluster_event :=
  [Store 1 8 [x01; x02] [1]; Store 2 8 [x01; x02] [1]; Record_ 1 1 10; Record_ 1 2 10].

Lemma commit_trace_run :
  (cl ← run_cluster (cluster_init [1; 2; 3] small_config) commit_trace;
   k ← sks cl !! 1; Some (commit_lsn (consensus k))) = Some 10.
Proof. vm_compute. reflexivity. Qed.


(** ** One stream *)

Lemma commit_in_range P ms conf cl n k :
  cluster_inv P ms conf cl -> sks cl !! n = Some k -> commit_lsn (consensus k) <= u64_max.
Proof.
  intros HI Hn. destruct (Z.le_gt_cases (commit_lsn (consensus k)) u64_max) as [? | Hgt]; [done |].
  exfalso. destruct (ci_config _ _ _ _ HI _ _ Hn) as [Hw _].
  pose proof (proj1 (commit_lsn_iff (consensus k) _ Hw) (Z.le_refl _)) as Hq.
  pose proof (quorum_range _ Hw) as Hq1. unfold flushed_by in Hq.
  destruct (List.filter _ _) as [|m l] eqn:E; [change (len (@nil NodeId)) with 0 in Hq; lia |].
  assert (Hm : In m (m :: l)) by by left. rewrite <- E in Hm.
  apply filter_In in Hm as [_ Hm%Z.leb_le].
  destruct (ci_recorded _ _ _ _ HI _ _ m Hn) as [Hle | (km & Hkm & Hle)]; [unfold u64_max in *; lia |].
  destruct (ci_store _ _ _ _ HI _ _ Hkm) as (a & HR & _).
  pose proof (wr_flush _ _ HR). pose proof (wr_durable _ _ HR). pose proof (wr_max _ _ HR). lia.
Qed.


Definition example_stream (p : Lsn) : byte := z2b p.

Lemma example_read_run :
  (cl ← run_cluster (cluster_init [1; 2; 3] small_config)
          [Store 1 8 [z2b 8; z2b 9] [1]; Store 2 8 [z2b 8; z2b 9] [1]; Record_ 1 1 10; Record_ 1 2 10];
   k ← sks cl !! 1;
   Some (snd (handle_read calm (mkReadRequest Id_ZERO Id_ZERO 8 1) k)))
  = Some (Ok (mkReadResponse 0 10 8 [z2b 8])).
Proof. vm_compute. reflexivity. Qed.


(** ** Two writers *)

(** Three freshly started nodes of one group. *)
Definition boot (n : NodeId) : option Safekeeper := fresh_sk [1; 2; 3] small_config n.

Definition acks_of (rs : list (NodeId * outcome StorageError AppendResponse)) : Replicator :=
  {| replicate _ _ _ :=
       omap (fun '(n, r) => match r with
                            | Ok resp => if as_status resp =? STATUS_OK
                                         then Some (mkPeerAck n (as_flush_lsn resp)) else None
                            | _ => None
                            end) rs |}.

(** What two nodes answer to a read of [8, 10) after: writer A appends [aa aa] at
    8 to node 1, whose peers are unreachable; writer B appends [bb bb] at 8 to
    node 2, which replicates to node 3; writer A appends [cc cc] at 10 to node 1,
    which replicates to both. *)
Definition two_writers : option (outcome StorageError ReadResponse * outcome StorageError ReadResponse) :=
  k1 ← boot 1; k2 ← boot 2; k3 ← boot 3;
  let req l p := mkAppendRequest Id_ZERO Id_ZERO 1 l p in
  let '(k1, _) := handle_append (H := acks_of []) calm (req 8 [xaa; xaa]) k1 in
  let '(k3, r3) := handle_replicate calm (req 8 [xbb; xbb]) k3 in
  let '(k2, _) := handle_append (H := acks_of [(3, r3)]) calm (req 8 [xbb; xbb]) k2 in
  let '(k2, r2) := handle_replicate calm (req 10 [xcc; xcc]) k2 in
  let '(k3, r3) := handle_replicate calm (req 10 [xcc; xcc]) k3 in
  let '(k1, _) := handle_append (H := acks_of [(2, r2); (3, r3)]) calm (req 10 [xcc; xcc]) k1 in
  let read := mkReadRequest Id_ZERO Id_ZERO 8 2 in
  Some (snd (handle_read calm read k1), snd (handle_read calm read k2)).

(** With two writers the committed log is not one log: no handler checks that
    the sender is the elected leader or that earlier bytes agree, so two nodes
    serve different bytes for the same committed positions. *)
Theorem two_writers_diverge :
  two_writers = Some (Ok (mkReadResponse STATUS_OK 12 8 [xaa; xaa]),
                      Ok (mkReadResponse STATUS_OK 10 8 [xbb; xbb])).
Proof. vm_compute. reflexivity. Qed.

(** A successful append or replicate reply can carry a term below the
    request's: handlers compare the request's term but never adopt it. *)
Theorem reply_term_below_request :
  (k ← boot 1;
   Some (snd (handle_replicate calm (mkAppendRequest Id_ZERO Id_ZERO 7 8 [x01]) k)))
  = Some (Ok (mkAppendResponse STATUS_OK 0 9 0)).
Proof. vm_compute. reflexivity. Qed.
