(* ===== verification/PageVersion.v ===== *)
(** Page versions and the ingest record (src/pageserver/src/page.rs): what a
    version does to a page, and the wire form of versions and modifications. *)

From S2P Require Import Prelude Bytes Text Common.

Record ByteEdit := mkByteEdit {
  be_offset : Z;
  be_data : bytes
}.

Record WalRecord := mkWalRecord {
  wr_will_init : bool;
  wr_rec : bytes
}.

Inductive PageVersion :=
| Image (img : bytes)
| Delta (edits : list ByteEdit)
| WalRec (w : WalRecord).

Inductive PageError :=
| Truncated (what : string)
| BadImageSize (n : Z)
| EditOutOfBounds (offset len : Z)
| BadVersionTag (tag : Z)
| NeedsRedo
| Redo (msg : bytes).

(** [PageError]'s [Display] *)
Definition PageError_display (e : PageError) : bytes :=
  match e with
  | Truncated what => text "buffer truncated while decoding " ++ text what
  | BadImageSize n => text "image is " ++ fmt_dec n ++ text " bytes, expected " ++ fmt_dec PAGE_SIZE
  | EditOutOfBounds offset n =>
      text "edit at offset " ++ fmt_dec offset ++ text " length " ++ fmt_dec n ++ text " runs past the end of the page"
  | BadVersionTag tag => text "unknown version tag " ++ fmt_dec tag
  | NeedsRedo => text "this page version is a raw WAL record and requires WAL redo to apply"
  | Redo msg => text "reconstruction via WAL redo failed: " ++ msg
  end.

(** ** Applying a version *)

(** [page[start..end].copy_from_slice(data)] *)
Definition overwrite {E} (page : bytes) (start : Z) (data : bytes) : outcome E bytes :=
  if start + len data <=? len page
  then Ok (sub page 0 start ++ data ++ sub page (start + len data) (len page - (start + len data)))
  else Panic.

Fixpoint apply_edits (edits : list ByteEdit) (page : bytes) : outcome PageError bytes :=
  match edits with
  | [] => Ok page
  | e :: edits' =>
      let start := be_offset e in
      let end_ := start + len (be_data e) in
      ensure negb (PAGE_SIZE <? end_) else EditOutOfBounds start (len (be_data e)) in
      let? page := overwrite page start (be_data e) in
      apply_edits edits' page
  end.

(** [page] is what the buffer holds on success. *)
Definition apply_to (v : PageVersion) (page : bytes) : outcome PageError bytes :=
  match v with
  | Image img =>
      ensure len img =? PAGE_SIZE else BadImageSize (len img) in
      if len page =? len img then Ok img else Panic
  | Delta edits => apply_edits edits page
  | WalRec _ => Err NeedsRedo
  end.

Definition is_image (v : PageVersion) : bool :=
  match v with Image _ => true | _ => false end.

Definition is_base (v : PageVersion) : bool :=
  match v with
  | Image _ => true
  | WalRec w => wr_will_init w
  | Delta _ => false
  end.

(** ** Wire form *)

Record Modification := mkModification {
  m_rel : RelTag;
  m_block : Z;
  m_lsn : Lsn;
  m_version : PageVersion
}.

Definition TAG_IMAGE : Z := 0.
Definition TAG_DELTA : Z := 1.
Definition TAG_WALRECORD : Z := 2.

Definition write_edit (e : ByteEdit) : bytes :=
  be_bytes 2 (be_offset e) ++ be_bytes 2 (len (be_data e)) ++ be_data e.

Definition write_version (v : PageVersion) : bytes :=
  match v with
  | Image img => z2b TAG_IMAGE :: img
  | Delta edits => z2b TAG_DELTA :: be_bytes 2 (len edits) ++ flat_map write_edit edits
  | WalRec w =>
      z2b TAG_WALRECORD :: z2b (if wr_will_init w then 1 else 0) ::
      be_bytes 4 (len (wr_rec w)) ++ wr_rec w
  end.

Definition read_u16 (buf : bytes) (pos : Z) : outcome PageError (Z * Z) :=
  ensure negb (len buf <? pos + 2) else Truncated "u16" in
  let? v := get_be 2 buf pos in Ok (v, pos + 2).

Definition read_u32 (buf : bytes) (pos : Z) : outcome PageError (Z * Z) :=
  ensure negb (len buf <? pos + 4) else Truncated "u32" in
  let? v := get_be 4 buf pos in Ok (v, pos + 4).

Definition read_u64 (buf : bytes) (pos : Z) : outcome PageError (Z * Z) :=
  ensure negb (len buf <? pos + 8) else Truncated "u64" in
  let? v := get_be 8 buf pos in Ok (v, pos + 8).

(** The loop over [count] edits. *)
Fixpoint read_edits (count : nat) (buf : bytes) (pos : Z) : outcome PageError (list ByteEdit * Z) :=
  match count with
  | O => Ok ([], pos)
  | S n =>
      let? (offset, pos) := read_u16 buf pos in
      let? (n_data, pos) := read_u16 buf pos in
      ensure negb (len buf <? pos + n_data) else Truncated "edit data" in
      let? data := slice buf pos (pos + n_data) in
      let? (edits, pos) := read_edits n buf (pos + n_data) in
      Ok (mkByteEdit offset data :: edits, pos)
  end.

Definition read_version (buf : bytes) (pos : Z) : outcome PageError (PageVersion * Z) :=
  let? tag := ok_or (get buf pos) (Truncated "version tag") in
  let pos := pos + 1 in
  if b2z tag =? TAG_IMAGE then
    ensure negb (len buf <? pos + PAGE_SIZE) else Truncated "image" in
    let? img := slice buf pos (pos + PAGE_SIZE) in
    Ok (Image img, pos + PAGE_SIZE)
  else if b2z tag =? TAG_DELTA then
    let? (count, pos) := read_u16 buf pos in
    let? (edits, pos) := read_edits (Z.to_nat count) buf pos in
    Ok (Delta edits, pos)
  else if b2z tag =? TAG_WALRECORD then
    let? b := ok_or (get buf pos) (Truncated "will_init") in
    let pos := pos + 1 in
    let? (n, pos) := read_u32 buf pos in
    ensure negb (len buf <? pos + n) else Truncated "wal record" in
    let? rec := slice buf pos (pos + n) in
    Ok (WalRec (mkWalRecord (negb (b2z b =? 0)) rec), pos + n)
  else Err (BadVersionTag (b2z tag)).

(** The key of an entry: relation, fork, block and LSN (shared by ingest
    records and layer files). *)
Definition write_key (rel : RelTag) (block : Z) (lsn : Lsn) : bytes :=
  be_bytes 4 (spc_node rel) ++ be_bytes 4 (db_node rel) ++ be_bytes 4 (rel_node rel) ++
  [z2b (ForkNumber_as_u8 (fork rel))] ++ be_bytes 4 block ++ be_bytes 8 lsn.

Definition read_key (buf : bytes) (pos : Z) : outcome PageError (RelTag * Z * Lsn * Z) :=
  let? (spc_node, pos) := read_u32 buf pos in
  let? (db_node, pos) := read_u32 buf pos in
  let? (rel_node, pos) := read_u32 buf pos in
  let? fork_raw := ok_or (get buf pos) (Truncated "fork") in
  let pos := pos + 1 in
  let? fork := ok_or (ForkNumber_from_raw (b2z fork_raw)) (Truncated "fork") in
  let? (block, pos) := read_u32 buf pos in
  let? (lsn, pos) := read_u64 buf pos in
  Ok (mkRelTag spc_node db_node rel_node fork, block, lsn, pos).

Definition Modification_encode (m : Modification) : bytes :=
  write_key (m_rel m) (m_block m) (m_lsn m) ++ write_version (m_version m).

Definition Modification_decode (buf : bytes) : outcome PageError Modification :=
  let? (rel, block, lsn, pos) := read_key buf 0 in
  let? (version, _) := read_version buf pos in
  Ok (mkModification rel block lsn version).

(** ** Well-formed values *)

Definition ByteEdit_wf (e : ByteEdit) : Prop :=
  in_u16 (be_offset e) /\ in_u16 (len (be_data e)).

Definition PageVersion_wf (v : PageVersion) : Prop :=
  match v with
  | Image img => len img = PAGE_SIZE
  | Delta edits => in_u16 (len edits) /\ Forall ByteEdit_wf edits
  | WalRec w => in_u32 (len (wr_rec w))
  end.

Definition Modification_wf (m : Modification) : Prop :=
  RelTag_wf (m_rel m) /\ in_u32 (m_block m) /\ in_u64 (m_lsn m) /\ PageVersion_wf (m_version m).

(** ** Round trips *)

Lemma read_u16_at buf pos v l :
  at_pos buf pos (be_bytes 2 v ++ l) -> in_u16 v ->
  read_u16 buf pos = Ok (v, pos + 2) /\ at_pos buf (pos + 2) l.
Proof.
  intros Ha Hv. split; [| by eapply at_pos_app]. unfold read_u16.
  pose proof (at_pos_room _ _ _ _ Ha) as Hr. rewrite len_be_bytes in Hr.
  rewrite (proj2 (Z.ltb_ge _ _)) by lia. cbn [negb].
  erewrite at_pos_get_be by (exact Ha || by rewrite len_be_bytes). cbn [bind]. by rewrite be_val_u16.
Qed.

Lemma read_u32_at buf pos v l :
  at_pos buf pos (be_bytes 4 v ++ l) -> in_u32 v ->
  read_u32 buf pos = Ok (v, pos + 4) /\ at_pos buf (pos + 4) l.
Proof.
  intros Ha Hv. split; [| by eapply at_pos_app]. unfold read_u32.
  pose proof (at_pos_room _ _ _ _ Ha) as Hr. rewrite len_be_bytes in Hr.
  rewrite (proj2 (Z.ltb_ge _ _)) by lia. cbn [negb].
  erewrite at_pos_get_be by (exact Ha || by rewrite len_be_bytes). cbn [bind]. by rewrite be_val_u32.
Qed.

Lemma read_u64_at buf pos v l :
  at_pos buf pos (be_bytes 8 v ++ l) -> in_u64 v ->
  read_u64 buf pos = Ok (v, pos + 8) /\ at_pos buf (pos + 8) l.
Proof.
  intros Ha Hv. split; [| by eapply at_pos_app]. unfold read_u64.
  pose proof (at_pos_room _ _ _ _ Ha) as Hr. rewrite len_be_bytes in Hr.
  rewrite (proj2 (Z.ltb_ge _ _)) by lia. cbn [negb].
  erewrite at_pos_get_be by (exact Ha || by rewrite len_be_bytes). cbn [bind]. by rewrite be_val_u64.
Qed.

Lemma read_edits_at edits buf pos l :
  Forall ByteEdit_wf edits -> at_pos buf pos (flat_map write_edit edits ++ l) ->
  exists pos', read_edits (length edits) buf pos = Ok (edits, pos') /\ at_pos buf pos' l.
Proof.
  intros Hw. revert pos; induction Hw as [|[o d] edits [Ho Hd] _ IH]; intros pos Ha.
  { by exists pos. }
  cbn [flat_map length read_edits]. cbn [flat_map] in Ha. unfold write_edit at 1 in Ha.
  cbn [be_offset be_data] in *. rewrite <- !app_assoc in Ha.
  destruct (read_u16_at _ _ _ _ Ha Ho) as [-> Ha1]. cbn [bind].
  destruct (read_u16_at _ _ _ _ Ha1 Hd) as [-> Ha2]. cbn [bind].
  pose proof (at_pos_room _ _ _ _ Ha2). rewrite (proj2 (Z.ltb_ge _ _)) by lia. cbn [negb].
  erewrite at_pos_slice by (exact Ha2 || done). cbn [bind].
  destruct (IH (pos + 2 + 2 + len d)) as (pos' & -> & Hp); [by eapply at_pos_app |].
  by exists pos'.
Qed.

Lemma read_version_at v buf pos l :
  PageVersion_wf v -> at_pos buf pos (write_version v ++ l) ->
  exists pos', read_version buf pos = Ok (v, pos') /\ at_pos buf pos' l.
Proof.
  intros Hw Ha. unfold read_version.
  destruct v as [img | edits | [wi rec]]; cbn [write_version PageVersion_wf wr_will_init wr_rec] in *;
    rewrite <- app_comm_cons in Ha; rewrite (at_pos_get _ _ _ _ Ha); cbn [ok_or bind];
    apply at_pos_cons in Ha.
  - change (b2z (z2b TAG_IMAGE) =? TAG_IMAGE) with true. cbn iota.
    pose proof (at_pos_room _ _ _ _ Ha). rewrite (proj2 (Z.ltb_ge _ _)) by lia. cbn [negb].
    erewrite at_pos_slice by (exact Ha || done). cbn [bind]. eexists. split; [done |].
    by eapply at_pos_app.
  - change (b2z (z2b TAG_DELTA) =? TAG_IMAGE) with false.
    change (b2z (z2b TAG_DELTA) =? TAG_DELTA) with true. cbn iota. destruct Hw as [Hl Hw].
    rewrite <- app_assoc in Ha. destruct (read_u16_at _ _ _ _ Ha Hl) as [-> Ha1]. cbn [bind].
    replace (Z.to_nat (len edits)) with (length edits) by (unfold len; lia).
    destruct (read_edits_at _ _ _ _ Hw Ha1) as (pos' & -> & Hp). cbn. by exists pos'.
  - change (b2z (z2b TAG_WALRECORD) =? TAG_IMAGE) with false.
    change (b2z (z2b TAG_WALRECORD) =? TAG_DELTA) with false.
    change (b2z (z2b TAG_WALRECORD) =? TAG_WALRECORD) with true. cbn iota.
    rewrite <- app_comm_cons in Ha. rewrite (at_pos_get _ _ _ _ Ha). cbn [ok_or bind].
    apply at_pos_cons in Ha. rewrite <- app_assoc in Ha.
    destruct (read_u32_at _ _ _ _ Ha Hw) as [-> Ha1]. cbn [bind].
    pose proof (at_pos_room _ _ _ _ Ha1). rewrite (proj2 (Z.ltb_ge _ _)) by lia. cbn [negb].
    erewrite at_pos_slice by (exact Ha1 || done). cbn [bind]. eexists.
    split; [by destruct wi | by eapply at_pos_app].
Qed.

Lemma fork_byte_at f : ForkNumber_from_raw (b2z (z2b (ForkNumber_as_u8 f))) = Some f.
Proof. by destruct f. Qed.

Lemma read_key_at r b lsn buf pos l :
  RelTag_wf r -> in_u32 b -> in_u64 lsn -> at_pos buf pos (write_key r b lsn ++ l) ->
  exists pos', read_key buf pos = Ok (r, b, lsn, pos') /\ at_pos buf pos' l.
Proof.
  intros (H1 & H2 & H3) Hb Hl Ha. unfold read_key, write_key in *. rewrite <- !app_assoc in Ha.
  destruct (read_u32_at _ _ _ _ Ha H1) as [-> Ha1]. cbn [bind].
  destruct (read_u32_at _ _ _ _ Ha1 H2) as [-> Ha2]. cbn [bind].
  destruct (read_u32_at _ _ _ _ Ha2 H3) as [-> Ha3]. cbn [bind].
  change ([?x] ++ ?k) with (x :: k) in Ha3. rewrite (at_pos_get _ _ _ _ Ha3).
  apply at_pos_cons in Ha3. cbn [ok_or bind]. rewrite fork_byte_at. cbn [ok_or bind].
  destruct (read_u32_at _ _ _ _ Ha3 Hb) as [-> Ha4]. cbn [bind].
  destruct (read_u64_at _ _ _ _ Ha4 Hl) as [-> Ha5]. cbn [bind].
  eexists. split; [by destruct r | done].
Qed.

Lemma Modification_decode_encode m ext :
  Modification_wf m -> Modification_decode (Modification_encode m ++ ext) = Ok m.
Proof.
  intros (H1 & H2 & H3 & H4). unfold Modification_decode, Modification_encode.
  rewrite <- app_assoc.
  destruct (read_key_at (m_rel m) (m_block m) (m_lsn m) _ 0 (write_version (m_version m) ++ ext) H1 H2 H3
              (at_pos_start _)) as (pos & -> & Ha). cbn [bind].
  destruct (read_version_at _ _ _ _ H4 Ha) as (pos' & -> & _). cbn [bind]. by destruct m.
Qed.

(** ** Totality *)

(** A cursor read either fails or moves forward inside the buffer. *)
Definition moves {A} (buf : bytes) (pos : Z) (r : outcome PageError (A * Z)) : Prop :=
  match r with
  | Ok (_, pos') => pos <= pos' <= len buf
  | Err _ => True
  | Panic => False
  end.

Lemma moves_bind {A B} buf pos (r : outcome PageError (A * Z)) (k : A * Z -> outcome PageError (B * Z)) :
  moves buf pos r -> (forall a pos', pos <= pos' <= len buf -> moves buf pos' (k (a, pos'))) ->
  moves buf pos (bind r k).
Proof.
  intros Hr Hk. destruct r as [[a pos'] | |]; cbn in *; [| done ..].
  specialize (Hk a pos' Hr). unfold moves in *. destruct (k (a, pos')) as [[b p] | |]; [lia | done ..].
Qed.

Lemma read_u16_moves buf pos : 0 <= pos -> moves buf pos (read_u16 buf pos).
Proof.
  intros H. unfold read_u16. destruct (Z.ltb_spec (len buf) (pos + 2)); [done |].
  cbn [negb]. rewrite get_be_ok by lia. cbn. lia.
Qed.

Lemma read_u32_moves buf pos : 0 <= pos -> moves buf pos (read_u32 buf pos).
Proof.
  intros H. unfold read_u32. destruct (Z.ltb_spec (len buf) (pos + 4)); [done |].
  cbn [negb]. rewrite get_be_ok by lia. cbn. lia.
Qed.

Lemma read_u64_moves buf pos : 0 <= pos -> moves buf pos (read_u64 buf pos).
Proof.
  intros H. unfold read_u64. destruct (Z.ltb_spec (len buf) (pos + 8)); [done |].
  cbn [negb]. rewrite get_be_ok by lia. cbn. lia.
Qed.

(** The length read by a cursor is not negative. *)
Lemma read_u16_nonneg buf pos v pos' : read_u16 buf pos = Ok (v, pos') -> 0 <= v.
Proof.
  unfold read_u16. case_test; [| done]. unfold get_be, slice. case_test; [| done].
  cbn [bind]. intros [= <- _]. apply be_val_range.
Qed.

Lemma read_u32_nonneg buf pos v pos' : read_u32 buf pos = Ok (v, pos') -> 0 <= v.
Proof.
  unfold read_u32. case_test; [| done]. unfold get_be, slice. case_test; [| done].
  cbn [bind]. intros [= <- _]. apply be_val_range.
Qed.

Lemma read_edits_moves n buf pos : 0 <= pos <= len buf -> moves buf pos (read_edits n buf pos).
Proof.
  revert pos; induction n as [|n IH]; intros pos Hp; cbn [read_edits]; [cbn; lia |].
  eapply moves_bind; [apply read_u16_moves; lia |]. intros o p1 H1.
  pose proof (read_u16_moves buf p1 ltac:(lia)) as Hm.
  destruct (read_u16 buf p1) as [[k p2] | |] eqn:E; [| done ..]. cbn [bind].
  apply read_u16_nonneg in E. cbn in Hm.
  destruct (Z.ltb_spec (len buf) (p2 + k)); [done |]. cbn [negb].
  rewrite slice_ok by lia. cbn [bind]. specialize (IH (p2 + k) ltac:(lia)).
  unfold moves in *. destruct (read_edits n buf (p2 + k)) as [[es p3] | |]; cbn; [lia | done ..].
Qed.

Lemma read_version_moves buf pos : 0 <= pos -> moves buf pos (read_version buf pos).
Proof.
  intros Hp. unfold read_version. destruct (get buf pos) as [tag|] eqn:Hg; [| done]. cbn [ok_or bind].
  apply get_Some_iff in Hg as [_ Hg]. apply lookup_lt_Some in Hg.
  assert (Hl : pos + 1 <= len buf) by (unfold len; lia). case_test; [| case_test; [| case_test; [| done]]].
  - unfold PAGE_SIZE. destruct (Z.ltb_spec (len buf) (pos + 1 + 8192)); [done |]. cbn [negb].
    rewrite slice_ok by lia. cbn. lia.
  - pose proof (read_u16_moves buf (pos + 1) ltac:(lia)) as H1.
    destruct (read_u16 buf (pos + 1)) as [[n p] | |]; [| done ..]. cbn in H1 |- *.
    pose proof (read_edits_moves (Z.to_nat n) buf p ltac:(lia)) as H2. unfold moves in *.
    destruct (read_edits (Z.to_nat n) buf p) as [[es p3] | |]; cbn; [lia | done ..].
  - destruct (get buf (pos + 1)) as [b|] eqn:Hb; [| done]. cbn [ok_or bind].
    pose proof (read_u32_moves buf (pos + 1 + 1) ltac:(lia)) as H1.
    destruct (read_u32 buf (pos + 1 + 1)) as [[n p] | |] eqn:E; [| done ..]. cbn in H1 |- *.
    apply read_u32_nonneg in E. destruct (Z.ltb_spec (len buf) (p + n)); [done |]. cbn [negb].
    rewrite slice_ok by lia. cbn. lia.
Qed.

Lemma read_key_moves buf pos : 0 <= pos -> moves buf pos (read_key buf pos).
Proof.
  intros Hp. unfold read_key.
  eapply moves_bind; [apply read_u32_moves; lia |]. intros a p1 H1.
  eapply moves_bind; [apply read_u32_moves; lia |]. intros b p2 H2.
  eapply moves_bind; [apply read_u32_moves; lia |]. intros c p3 H3.
  destruct (get buf p3) as [f|] eqn:Hg; [| done]. cbn [ok_or bind].
  destruct (ForkNumber_from_raw (b2z f)); [| done]. cbn [ok_or bind].
  apply get_Some_iff in Hg as [_ Hg]. apply lookup_lt_Some in Hg.
  pose proof (read_u32_moves buf (p3 + 1) ltac:(lia)) as H4.
  destruct (read_u32 buf (p3 + 1)) as [[bl p4] | |]; [| done ..]. cbn in H4 |- *.
  pose proof (read_u64_moves buf p4 ltac:(lia)) as H5.
  destruct (read_u64 buf p4) as [[ls p5] | |]; [| done ..]. cbn in H5 |- *. lia.
Qed.

Lemma Modification_decode_no_panic buf : Modification_decode buf <> Panic.
Proof.
  unfold Modification_decode. pose proof (read_key_moves buf 0 ltac:(lia)) as H1.
  destruct (read_key buf 0) as [[[[r b] l] p] | |]; [| done ..]. cbn in H1 |- *.
  pose proof (read_version_moves buf p ltac:(lia)) as H2.
  by destruct (read_version buf p) as [[v p'] | |].
Qed.

(** ** Applying *)

Lemma overwrite_ok {E} page start data :
  0 <= start -> start + len data <= len page ->
  exists page', overwrite (E := E) page start data = Ok page' /\ len page' = len page.
Proof.
  intros H0 Hl. unfold overwrite. rewrite (proj2 (Z.leb_le _ _)) by done. eexists.
  split; [done |]. pose proof (len_nonneg data). rewrite !len_app, !sub_len by lia. lia.
Qed.

Lemma apply_edits_size edits page :
  Forall (fun e => 0 <= be_offset e) edits -> len page = PAGE_SIZE ->
  match apply_edits edits page with Ok p => len p = PAGE_SIZE | Err _ => True | Panic => False end.
Proof.
  intros Hw. revert page; induction Hw as [|e edits He _ IH]; intros page Hp; [done |].
  cbn [apply_edits]. destruct (Z.ltb_spec PAGE_SIZE (be_offset e + len (be_data e))); [done |].
  cbn [negb]. destruct (overwrite_ok (E := PageError) page (be_offset e) (be_data e)) as (p & -> & Hl);
    [done | lia |]. cbn [bind]. apply IH. lia.
Qed.

(** The offsets of edits are unsigned. *)
Definition version_ok (v : PageVersion) : Prop :=
  match v with Delta edits => Forall (fun e => 0 <= be_offset e) edits | _ => True end.

Lemma apply_to_size v page :
  version_ok v -> len page = PAGE_SIZE ->
  match apply_to v page with Ok p => len p = PAGE_SIZE | Err _ => True | Panic => False end.
Proof.
  intros Hv Hp. destruct v as [img | edits | w]; cbn [apply_to]; [| by apply apply_edits_size | done].
  destruct (Z.eqb_spec (len img) PAGE_SIZE) as [E|]; [| done]. by rewrite Hp, E, Z.eqb_refl.
Qed.

(** Ingest records survive the wire.  A modification whose fields fit
    their widths decodes to itself from the bytes it is encoded as, whatever
    follows them in the buffer, and the decoder returns a value or an error on
    every byte string. *)
Theorem modification_round_trip m ext :
  Modification_wf m ->
  Modification_decode (Modification_encode m ++ ext) = Ok m /\
  forall buf, Modification_decode buf <> Panic.
Proof. eauto using Modification_decode_encode, Modification_decode_no_panic. Qed.

Lemma modification_round_trip_witness :
  let m := mkModification (mkRelTag 1663 5 16384 VisibilityMap) 7 0x1000028
             (Delta [mkByteEdit 24 [x01; x02]; mkByteEdit 8190 [xff]]) in
  Modification_decode (Modification_encode m ++ [x00]) = Ok m.
Proof.
  intros m. apply (modification_round_trip m [x00]).
  split; [by_compute |]. split; [by_compute |]. split; [by_compute |]. split; [by_compute |].
  do 2 (constructor; [by_compute |]). constructor.
Defined.
