(* ===== verification/Layer.v ===== *)
(** Frozen layers (src/pageserver/src/layer.rs): an id and the versions it
    holds in key order, range scans over one page, and the offload format. *)

From S2P Require Import Prelude Bytes BTree Common PageVersion.

Abbreviation LayerId := Z.

Definition LAYER_MAGIC : Z := 0x53504C31.
Definition LAYER_VERSION : Z := 1.

(** A [BTreeMap<(PageKey, Lsn), PageVersion>]. *)
Abbreviation VersionMap := (list (PageKey * Lsn * PageVersion)).

Record Layer := mkLayer {
  layer_id : LayerId;
  entries : VersionMap
}.

Definition Layer_new (id : LayerId) (es : VersionMap) : Layer := mkLayer id es.

Definition Layer_len (l : Layer) : Z := len (entries l).

Definition Layer_is_empty (l : Layer) : bool := Layer_len l =? 0.

(** The versions of [key] in [m] with LSN in [0, lsn], ascending. *)
Definition range_versions (key : PageKey) (lsn : Lsn) (m : VersionMap) : list (Lsn * PageVersion) :=
  (fun '(_, l, v) => (l, v)) <$> bt_range (key, INVALID) (key, lsn) m.

Definition Layer_range (l : Layer) (key : PageKey) (lsn : Lsn) : list (Lsn * PageVersion) :=
  range_versions key lsn (entries l).

(** ** The offload format *)

Definition write_entry (e : PageKey * Lsn * PageVersion) : bytes :=
  let '(key, lsn, v) := e in write_key (rel key) (block key) lsn ++ write_version v.

Definition Layer_serialize (l : Layer) : bytes :=
  be_bytes 4 LAYER_MAGIC ++ [z2b LAYER_VERSION] ++ be_bytes 8 (layer_id l) ++
  be_bytes 4 (len (entries l)) ++ flat_map write_entry (entries l).

Fixpoint read_entries (count : nat) (buf : bytes) (pos : Z) (acc : VersionMap)
  : outcome PageError (VersionMap * Z) :=
  match count with
  | O => Ok (acc, pos)
  | S n =>
      let? (r, b, lsn, pos) := read_key buf pos in
      let? (version, pos) := read_version buf pos in
      read_entries n buf pos (bt_insert (mkPageKey r b, lsn) version acc)
  end.

Definition Layer_deserialize (buf : bytes) : outcome PageError Layer :=
  let? (magic, pos) := read_u32 buf 0 in
  ensure magic =? LAYER_MAGIC else Truncated "layer magic" in
  let? ver := ok_or (get buf pos) (Truncated "layer version") in
  let pos := pos + 1 in
  ensure b2z ver =? LAYER_VERSION else BadVersionTag (b2z ver) in
  let? (id, pos) := read_u64 buf pos in
  let? (count, pos) := read_u32 buf pos in
  let? (es, _) := read_entries (Z.to_nat count) buf pos [] in
  Ok (mkLayer id es).

(** ** Well-formed layers *)

Definition entry_wf (e : PageKey * Lsn * PageVersion) : Prop :=
  PageKey_wf e.1.1 /\ in_u64 e.1.2 /\ PageVersion_wf e.2.

Definition Layer_wf (l : Layer) : Prop :=
  in_u64 (layer_id l) /\ in_u32 (len (entries l)) /\ bt_sorted (entries l) /\
  Forall entry_wf (entries l).

(** Inserting a key above all others appends it. *)
Lemma bt_insert_last {K V} `{TotalOrder K} (m : list (K * V)) k v :
  (forall e, In e m -> klt e.1 k) -> bt_insert k v m = m ++ [(k, v)].
Proof.
  induction m as [|[k' v'] m IH]; intros Hlt; [done |]. cbn [bt_insert].
  rewrite (proj2 (kcmp_Gt k k')) by (apply (Hlt (k', v')); by left). cbn. f_equal.
  apply IH. intros e He. apply Hlt. by right.
Qed.

Lemma bt_sorted_app {K V} `{TotalOrder K} (m1 m2 : list (K * V)) :
  bt_sorted (m1 ++ m2) <->
  bt_sorted m1 /\ bt_sorted m2 /\ forall e f, In e m1 -> In f m2 -> klt e.1 f.1.
Proof.
  induction m1 as [|[k v] m1 IH]; cbn [app bt_sorted].
  - split; [intros ?; repeat split; done | by intros (_ & ? & _)].
  - rewrite IH. split.
    + intros (H1 & H2 & H3 & H4). repeat split; auto.
      * intros e He. apply H1, in_or_app. by left.
      * intros e f [<- | He] Hf; [apply H1, in_or_app; by right | by apply H4].
    + intros ((H1 & H2) & H3 & H4). repeat split; auto.
      * intros e [He | He]%in_app_or; [by apply H1 | apply (H4 (k, v) e); [by left | done]].
      * intros e f He Hf. apply H4; [by right | done].
Qed.

Lemma read_entries_at es buf pos l acc :
  Forall entry_wf es -> bt_sorted (acc ++ es) -> at_pos buf pos (flat_map write_entry es ++ l) ->
  exists pos', read_entries (length es) buf pos acc = Ok (acc ++ es, pos') /\ at_pos buf pos' l.
Proof.
  intros Hw. revert acc pos; induction Hw as [|[[[r b] lsn] v] es (Hk & Hl & Hv) _ IH]; intros acc pos Hs Ha.
  { exists pos. by rewrite app_nil_r. }
  cbn [flat_map length read_entries write_entry rel block] in *. rewrite <- !app_assoc in Ha.
  destruct Hk as [Hr Hb]. cbn in Hr, Hb, Hl, Hv.
  destruct (read_key_at _ _ _ _ _ _ Hr Hb Hl Ha) as (p1 & -> & Ha1). cbn [bind].
  destruct (read_version_at _ _ _ _ Hv Ha1) as (p2 & -> & Ha2). cbn [bind].
  rewrite bt_insert_last.
  - destruct (IH (acc ++ [(mkPageKey r b, lsn, v)]) p2) as (p3 & -> & Ha3); [| done |].
    + by rewrite <- app_assoc.
    + exists p3. by rewrite <- app_assoc.
  - intros e He. apply bt_sorted_app in Hs as (_ & _ & Hlt).
    apply (Hlt e (mkPageKey r b, lsn, v) He). by left.
Qed.

Lemma Layer_deserialize_serialize l ext :
  Layer_wf l -> Layer_deserialize (Layer_serialize l ++ ext) = Ok l.
Proof.
  intros (Hid & Hn & Hs & Hw). unfold Layer_deserialize, Layer_serialize. rewrite <- !app_assoc.
  set (buf := be_bytes 4 LAYER_MAGIC ++ _). pose proof (at_pos_start buf) as Ha. unfold buf at 2 in Ha.
  destruct (read_u32_at _ _ _ _ Ha ltac:(by_compute)) as [-> Ha1]. cbn [bind].
  rewrite Z.eqb_refl. change ([?x] ++ ?k) with (x :: k) in Ha1.
  rewrite (at_pos_get _ _ _ _ Ha1). apply at_pos_cons in Ha1. cbn [ok_or bind].
  change (b2z (z2b LAYER_VERSION) =? LAYER_VERSION) with true. cbn iota.
  destruct (read_u64_at _ _ _ _ Ha1 Hid) as [-> Ha2]. cbn [bind].
  destruct (read_u32_at _ _ _ _ Ha2 Hn) as [-> Ha3]. cbn [bind].
  replace (Z.to_nat (len (entries l))) with (length (entries l)) by (unfold len; lia).
  destruct (read_entries_at _ _ _ _ [] Hw Hs Ha3) as (p & -> & _). cbn. by destruct l.
Qed.

Lemma read_entries_moves n buf pos acc :
  0 <= pos <= len buf -> moves buf pos (read_entries n buf pos acc).
Proof.
  revert pos acc; induction n as [|n IH]; intros pos acc Hp; cbn [read_entries]; [cbn; lia |].
  eapply moves_bind; [apply read_key_moves; lia |]. intros [[r b] l] p1 H1.
  eapply moves_bind; [apply read_version_moves; lia |]. intros v p2 H2. apply IH. lia.
Qed.

Lemma Layer_deserialize_no_panic buf : Layer_deserialize buf <> Panic.
Proof.
  unfold Layer_deserialize. pose proof (read_u32_moves buf 0 ltac:(lia)) as H1.
  destruct (read_u32 buf 0) as [[m p] | |]; [| done ..]. cbn in H1 |- *. case_test; [| done].
  destruct (get buf p) as [v|] eqn:Hg; [| done]. cbn [ok_or bind]. case_test; [| done].
  apply get_Some_iff in Hg as [_ Hg]. apply lookup_lt_Some in Hg.
  pose proof (read_u64_moves buf (p + 1) ltac:(lia)) as H2.
  destruct (read_u64 buf (p + 1)) as [[i p1] | |]; [| done ..]. cbn in H2 |- *.
  pose proof (read_u32_moves buf p1 ltac:(lia)) as H3.
  destruct (read_u32 buf p1) as [[n p2] | |]; [| done ..]. cbn in H3 |- *.
  pose proof (read_entries_moves (Z.to_nat n) buf p2 [] ltac:(unfold len in *; lia)) as H4.
  by destruct (read_entries (Z.to_nat n) buf p2 []) as [[es p3] | |].
Qed.

(** A decoded layer is sorted, whatever the order of the bytes. *)
Lemma read_entries_sorted n buf pos acc es p :
  bt_sorted acc -> read_entries n buf pos acc = Ok (es, p) -> bt_sorted es.
Proof.
  revert pos acc; induction n as [|n IH]; intros pos acc Hs; cbn [read_entries].
  { by intros [= <- _]. }
  intros H. inv_ok. destruct x as [[[r b] l] p1]. inv_ok. destruct x as [v p2].
  eapply IH; [| exact H]. by apply bt_insert_sorted.
Qed.

Lemma Layer_deserialize_sorted buf l : Layer_deserialize buf = Ok l -> bt_sorted (entries l).
Proof.
  unfold Layer_deserialize. intros H. inv_ok. destruct x as [magic p]. case_test; [| done].
  inv_ok. case_test; [| done]. inv_ok. destruct x0 as [i p1]. inv_ok. destruct x0 as [n p2]. inv_ok.
  destruct x0 as [es p3]. inv_ok. subst l. by eapply (read_entries_sorted _ _ _ []).
Qed.

(** Offloaded layers survive object storage.  A well-formed layer is
    rebuilt exactly from its serialised bytes; the reader returns a layer or an
    error on every byte string, and a layer it returns is in key order even
    when the bytes are not. *)
Theorem layer_file_round_trip l ext :
  Layer_wf l ->
  Layer_deserialize (Layer_serialize l ++ ext) = Ok l /\
  forall buf, Layer_deserialize buf <> Panic /\
    forall l', Layer_deserialize buf = Ok l' -> bt_sorted (entries l').
Proof.
  eauto using Layer_deserialize_serialize, Layer_deserialize_no_panic, Layer_deserialize_sorted.
Qed.

Lemma layer_file_round_trip_witness :
  let k := mkPageKey (mkRelTag 1663 5 16384 Main) 0 in
  let l := mkLayer 3 [(k, 10, Image (replicate (Z.to_nat PAGE_SIZE) x00)); (k, 20, Delta [mkByteEdit 0 [x07]])] in
  Layer_deserialize (Layer_serialize l ++ []) = Ok l.
Proof.
  intros k l. apply (layer_file_round_trip l []). split; [by_compute |]. split; [by_compute |]. split.
  - cbn. repeat split; try done. intros e [<- | []]. by_compute.
  - repeat constructor; by_compute.
Defined.
