(* ===== verification/WalRedoProto.v ===== *)
(** The wal-redo pipe protocol (src/pageserver/src/walredo_proto.rs): the
    request that carries a base page and records, and the reply. *)

From S2P Require Import Prelude Bytes Text Common.

Definition REQ_MAGIC : Z := 0x57524431.
Definition RESP_MAGIC : Z := 0x57525231.
Definition VERSION : Z := 1.
Definition FLAG_HAS_BASE : Z := 1.
Definition RESP_HEADER_LEN : Z := 8.
Definition STATUS_OK : Z := 0.
Definition STATUS_ERR : Z := 1.

Inductive ProtoError :=
| Truncated (what : string)
| BadMagic (got want : Z)
| BadVersion (v : Z)
| BadBaseSize (n : Z)
| BadStatus (s : Z).

Record RedoRequest := mkRedoRequest {
  rq_rel : RelTag;
  rq_blkno : Z;
  rq_base_image : option bytes;
  rq_records : list (Lsn * bytes)
}.

Inductive RedoResponse :=
| RPage (page : bytes)
| RError (msg : bytes).

Definition get_u32 (b : bytes) (o : Z) (what : string) : outcome ProtoError Z :=
  let? s := ok_or (get_range b o (o + 4)) (Truncated what) in Ok (be_val s).

Definition get_u64 (b : bytes) (o : Z) (what : string) : outcome ProtoError Z :=
  let? s := ok_or (get_range b o (o + 8)) (Truncated what) in Ok (be_val s).

Definition get_byte (b : bytes) (o : Z) (what : string) : outcome ProtoError Z :=
  let? x := ok_or (get b o) (Truncated what) in Ok (b2z x).

Definition write_record (r : Lsn * bytes) : bytes :=
  be_bytes 8 r.1 ++ be_bytes 4 (len r.2) ++ r.2.

Definition RedoRequest_encode (r : RedoRequest) : bytes :=
  be_bytes 4 REQ_MAGIC ++ [z2b VERSION] ++
  [z2b (match rq_base_image r with Some _ => FLAG_HAS_BASE | None => 0 end)] ++ [x00; x00] ++
  be_bytes 4 (spc_node (rq_rel r)) ++ be_bytes 4 (db_node (rq_rel r)) ++
  be_bytes 4 (rel_node (rq_rel r)) ++ [z2b (ForkNumber_as_u8 (fork (rq_rel r)))] ++
  [x00; x00; x00] ++ be_bytes 4 (rq_blkno r) ++
  (match rq_base_image r with Some img => img | None => [] end) ++
  be_bytes 4 (len (rq_records r)) ++ flat_map write_record (rq_records r).

Fixpoint read_records (n : nat) (buf : bytes) (pos : Z) : outcome ProtoError (list (Lsn * bytes)) :=
  match n with
  | O => Ok []
  | S n' =>
      let? lsn := get_u64 buf pos "record lsn" in
      let pos := pos + 8 in
      let? k := get_u32 buf pos "record len" in
      let pos := pos + 4 in
      let? rec := ok_or (get_range buf pos (pos + k)) (Truncated "record bytes") in
      let? rest := read_records n' buf (pos + k) in
      Ok ((lsn, rec) :: rest)
  end.

Definition RedoRequest_decode (buf : bytes) : outcome ProtoError RedoRequest :=
  let? magic := get_u32 buf 0 "magic" in
  ensure magic =? REQ_MAGIC else BadMagic magic REQ_MAGIC in
  let? version := get_byte buf 4 "version" in
  ensure version =? VERSION else BadVersion version in
  let? flags := get_byte buf 5 "flags" in
  let? spc := get_u32 buf 8 "spc" in
  let? db := get_u32 buf 12 "db" in
  let? relnode := get_u32 buf 16 "relnode" in
  let? fork_raw := get_byte buf 20 "fork" in
  let? fork := ok_or (ForkNumber_from_raw fork_raw) (Truncated "fork") in
  let? blkno := get_u32 buf 24 "blkno" in
  let? (base_image, pos) :=
    (if negb (Z.land flags FLAG_HAS_BASE =? 0) then
       let? img := ok_or (get_range buf 28 (28 + PAGE_SIZE)) (Truncated "base image") in
       Ok (Some img, 28 + PAGE_SIZE)
     else Ok (None, 28)) in
  let? n := get_u32 buf pos "n_records" in
  let? records := read_records (Z.to_nat n) buf (pos + 4) in
  Ok (mkRedoRequest (mkRelTag spc db relnode fork) blkno base_image records).

Definition RedoResponse_encode (r : RedoResponse) : bytes :=
  be_bytes 4 RESP_MAGIC ++ [z2b VERSION] ++
  match r with
  | RPage page => [z2b STATUS_OK] ++ [x00; x00] ++ page
  | RError msg => [z2b STATUS_ERR] ++ [x00; x00] ++ be_bytes 4 (len msg) ++ msg
  end.

Definition RedoResponse_decode (buf : bytes) : outcome ProtoError RedoResponse :=
  let? magic := get_u32 buf 0 "magic" in
  ensure magic =? RESP_MAGIC else BadMagic magic RESP_MAGIC in
  let? version := get_byte buf 4 "version" in
  ensure version =? VERSION else BadVersion version in
  let? status := get_byte buf 5 "status" in
  if status =? STATUS_OK then
    let? page := ok_or (get_range buf RESP_HEADER_LEN (RESP_HEADER_LEN + PAGE_SIZE)) (Truncated "page") in
    Ok (RPage page)
  else if status =? STATUS_ERR then
    let? n := get_u32 buf RESP_HEADER_LEN "error len" in
    let? msg := ok_or (get_range buf (RESP_HEADER_LEN + 4) (RESP_HEADER_LEN + 4 + n))
                  (Truncated "error msg") in
    Ok (RError (from_utf8_lossy msg))
  else Err (BadStatus status).

(** ** Round trips *)

Definition RedoRequest_wf (r : RedoRequest) : Prop :=
  RelTag_wf (rq_rel r) /\ in_u32 (rq_blkno r) /\
  match rq_base_image r with Some img => len img = PAGE_SIZE | None => True end /\
  in_u32 (len (rq_records r)) /\
  Forall (fun e => in_u64 e.1 /\ in_u32 (len e.2)) (rq_records r).

Definition RedoResponse_wf (r : RedoResponse) : Prop :=
  match r with
  | RPage page => len page = PAGE_SIZE
  | RError msg => in_u32 (len msg) /\ utf8_valid msg = true
  end.

Lemma at_pos_get_range buf pos a l n :
  at_pos buf pos (a ++ l) -> n = len a -> get_range buf pos (pos + n) = Some a.
Proof.
  intros Ha Hn. pose proof (at_pos_slice (E := unit) _ _ _ _ _ Ha Hn) as Hs.
  unfold slice, get_range in *. case_test; [| done]. by injection Hs as ->.
Qed.

Lemma get_u32_at buf pos v l what :
  at_pos buf pos (be_bytes 4 v ++ l) -> in_u32 v ->
  get_u32 buf pos what = Ok v /\ at_pos buf (pos + 4) l.
Proof.
  intros Ha Hv. split; [| by eapply at_pos_app]. unfold get_u32.
  erewrite at_pos_get_range by (exact Ha || by rewrite len_be_bytes). cbn [ok_or bind].
  by rewrite be_val_u32.
Qed.

Lemma get_u64_at buf pos v l what :
  at_pos buf pos (be_bytes 8 v ++ l) -> in_u64 v ->
  get_u64 buf pos what = Ok v /\ at_pos buf (pos + 8) l.
Proof.
  intros Ha Hv. split; [| by eapply at_pos_app]. unfold get_u64.
  erewrite at_pos_get_range by (exact Ha || by rewrite len_be_bytes). cbn [ok_or bind].
  by rewrite be_val_u64.
Qed.

Lemma get_byte_at buf pos v l what :
  at_pos buf pos ([z2b v] ++ l) -> in_u8 v -> get_byte buf pos what = Ok v /\ at_pos buf (pos + 1) l.
Proof.
  intros Ha Hv. split; [| by eapply at_pos_app]. unfold get_byte.
  rewrite (at_pos_get _ _ _ _ Ha). cbn [ok_or bind]. by rewrite b2z_z2b_small.
Qed.

Lemma read_records_at rs buf pos l :
  Forall (fun e => in_u64 e.1 /\ in_u32 (len e.2)) rs ->
  at_pos buf pos (flat_map write_record rs ++ l) -> read_records (length rs) buf pos = Ok rs.
Proof.
  intros Hw. revert pos; induction Hw as [|[lsn rec] rs [Hl Hr] _ IH]; intros pos Ha; [done |].
  cbn [length read_records flat_map fst snd] in *. unfold write_record at 1 in Ha. cbn [fst snd] in Ha.
  rewrite <- !app_assoc in Ha. destruct (get_u64_at _ _ _ _ "record lsn" Ha Hl) as [-> Ha1]. cbn [bind].
  destruct (get_u32_at _ _ _ _ "record len" Ha1 Hr) as [-> Ha2]. cbn [bind].
  erewrite at_pos_get_range by (exact Ha2 || done). cbn [ok_or bind].
  rewrite IH by (by eapply at_pos_app). done.
Qed.

Ltac next_u32 Ha H what :=
  let E := fresh "E" in let Ha' := fresh "Ha" in
  destruct (get_u32_at _ _ _ _ what Ha H) as [E Ha']; rewrite E; clear E Ha; rename Ha' into Ha;
  cursor_norm Ha; cbn [bind ok_or].

Ltac next_byte Ha H what :=
  let E := fresh "E" in let Ha' := fresh "Ha" in
  destruct (get_byte_at _ _ _ _ what Ha H) as [E Ha']; rewrite E; clear E Ha; rename Ha' into Ha;
  cursor_norm Ha; cbn [bind ok_or].

(** The part of a request after the fixed header. *)
Lemma redo_records_at buf pos recs ext :
  in_u32 (len recs) -> Forall (fun e => in_u64 e.1 /\ in_u32 (len e.2)) recs ->
  at_pos buf pos (be_bytes 4 (len recs) ++ flat_map write_record recs ++ ext) ->
  get_u32 buf pos "n_records" = Ok (len recs) /\
  read_records (Z.to_nat (len recs)) buf (pos + 4) = Ok recs.
Proof.
  intros Hn Hw Ha. destruct (get_u32_at _ _ _ _ "n_records" Ha Hn) as [-> Ha1]. split; [done |].
  replace (Z.to_nat (len recs)) with (length recs) by (unfold len; lia).
  by eapply read_records_at.
Qed.

Lemma RedoRequest_decode_encode r ext :
  RedoRequest_wf r -> RedoRequest_decode (RedoRequest_encode r ++ ext) = Ok r.
Proof.
  destruct r as [[sp db rn fk] bl base recs].
  intros ((H1 & H2 & H3) & H4 & H5 & H6 & H7). cbn [rq_rel rq_blkno rq_base_image rq_records
    spc_node db_node rel_node] in *.
  unfold RedoRequest_decode, RedoRequest_encode. cbn [rq_rel rq_blkno rq_base_image rq_records
    spc_node db_node rel_node fork]. rewrite <- !app_assoc. set (buf := be_bytes 4 REQ_MAGIC ++ _).
  assert (Hmagic : in_u32 REQ_MAGIC) by by_compute. assert (Hver : in_u8 VERSION) by by_compute.
  assert (Hflag : in_u8 (match base with Some _ => FLAG_HAS_BASE | None => 0 end))
    by (destruct base; by_compute).
  assert (Hfork : in_u8 (ForkNumber_as_u8 fk)) by (destruct fk; by_compute).
  pose proof (at_pos_start buf) as Ha. unfold buf at 2 in Ha. clearbody buf.
  next_u32 Ha Hmagic "magic"%string. rewrite Z.eqb_refl.
  next_byte Ha Hver "version"%string. rewrite Z.eqb_refl.
  next_byte Ha Hflag "flags"%string. skip_bytes Ha 2.
  next_u32 Ha H1 "spc"%string. next_u32 Ha H2 "db"%string. next_u32 Ha H3 "relnode"%string.
  next_byte Ha Hfork "fork"%string. rewrite ForkNumber_from_raw_as_u8. cbn [ok_or bind].
  skip_bytes Ha 3. next_u32 Ha H4 "blkno"%string.
  destruct base as [img|].
  - change (negb (Z.land FLAG_HAS_BASE FLAG_HAS_BASE =? 0)) with true. cbn iota.
    erewrite at_pos_get_range by (exact Ha || done). cbn [ok_or bind].
    apply at_pos_app with (n := PAGE_SIZE) in Ha; [| done].
    destruct (redo_records_at _ _ _ _ H6 H7 Ha) as [-> E]. cbn [bind]. by rewrite E.
  - change (negb (Z.land 0 FLAG_HAS_BASE =? 0)) with false. cbn [bind]. cbn [app] in Ha.
    destruct (redo_records_at _ _ _ _ H6 H7 Ha) as [-> E]. cbn [bind].
    by rewrite E.
Qed.

Lemma RedoResponse_decode_encode r ext :
  RedoResponse_wf r -> RedoResponse_decode (RedoResponse_encode r ++ ext) = Ok r.
Proof.
  intros Hw. unfold RedoResponse_decode, RedoResponse_encode. rewrite <- !app_assoc.
  set (buf := be_bytes 4 RESP_MAGIC ++ _).
  assert (Hmagic : in_u32 RESP_MAGIC) by by_compute. assert (Hver : in_u8 VERSION) by by_compute.
  pose proof (at_pos_start buf) as Ha. unfold buf at 2 in Ha. clearbody buf.
  next_u32 Ha Hmagic "magic"%string. rewrite Z.eqb_refl.
  next_byte Ha Hver "version"%string. rewrite Z.eqb_refl.
  destruct r as [page | msg]; cbn [RedoResponse_wf] in Hw; rewrite <- !app_assoc in Ha.
  - assert (Hs : in_u8 STATUS_OK) by by_compute. next_byte Ha Hs "status"%string. cbn [Z.eqb].
    skip_bytes Ha 2. unfold RESP_HEADER_LEN.
    by erewrite at_pos_get_range by (exact Ha || done).
  - assert (Hs : in_u8 STATUS_ERR) by by_compute. next_byte Ha Hs "status"%string.
    change (STATUS_ERR =? STATUS_OK) with false. rewrite Z.eqb_refl. destruct Hw as [Hl Hu].
    skip_bytes Ha 2. unfold RESP_HEADER_LEN. next_u32 Ha Hl "error len"%string.
    change (8 + 4) with 12. erewrite at_pos_get_range by (exact Ha || done). cbn [ok_or bind].
    by rewrite from_utf8_lossy_valid.
Qed.

Lemma read_records_no_panic n buf pos : read_records n buf pos <> Panic.
Proof.
  revert pos; induction n as [|n IH]; intros pos; cbn [read_records]; [done |].
  unfold get_u64, get_u32. repeat (apply bind_no_panic; [apply bind_no_panic; [apply ok_or_no_panic | done] | intros ? _]).
  apply bind_no_panic; [apply ok_or_no_panic | intros ? _].
  apply bind_no_panic; [apply IH | done].
Qed.

Lemma RedoRequest_decode_no_panic buf : RedoRequest_decode buf <> Panic.
Proof.
  unfold RedoRequest_decode, get_u32, get_byte.
  repeat first [ discriminate | apply read_records_no_panic | apply ok_or_no_panic
               | apply bind_no_panic; [| intros ? _] | case_test
               | match goal with |- (let '(_, _) := ?x in _) <> _ => destruct x end ].
Qed.

Lemma RedoResponse_decode_no_panic buf : RedoResponse_decode buf <> Panic.
Proof.
  unfold RedoResponse_decode, get_u32, get_byte.
  repeat first [ discriminate | apply ok_or_no_panic | apply bind_no_panic; [| intros ? _] | case_test ].
Qed.

(** The wal-redo pipe protocol.  Requests and replies whose fields fit
    their widths decode to themselves, whatever follows in the buffer, and
    neither decoder panics on any bytes. *)
Theorem redo_messages_round_trip rq rs ext :
  RedoRequest_wf rq -> RedoResponse_wf rs ->
  RedoRequest_decode (RedoRequest_encode rq ++ ext) = Ok rq /\
  RedoResponse_decode (RedoResponse_encode rs ++ ext) = Ok rs /\
  forall buf, RedoRequest_decode buf <> Panic /\ RedoResponse_decode buf <> Panic.
Proof.
  eauto 6 using RedoRequest_decode_encode, RedoResponse_decode_encode, RedoRequest_decode_no_panic,
    RedoResponse_decode_no_panic.
Qed.

Lemma redo_messages_round_trip_witness :
  let rq := mkRedoRequest (mkRelTag 1663 5 16384 Main) 3 (Some (replicate (Z.to_nat PAGE_SIZE) x00)) [(40, [x01; x02])] in
  let rs := RError [x6e; x6f] in
  RedoRequest_decode (RedoRequest_encode rq ++ []) = Ok rq /\
  RedoResponse_decode (RedoResponse_encode rs ++ []) = Ok rs.
Proof.
  intros rq rs. destruct (redo_messages_round_trip rq rs []) as (H1 & H2 & _); [| | by split].
  - split; [by_compute |]. split; [by_compute |]. split; [by_compute |]. split; [by_compute |].
    repeat constructor; by_compute.
  - by_compute.
Defined.
