(* ===== verification/WalRedo.v ===== *)
(** Page reconstruction (src/pageserver/src/walredo.rs): the [WalRedoManager]
    trait as a type class with the laws its clients rely on, and the native
    backend [RustApplyRedoManager]. *)

From S2P Require Import Prelude Bytes Text Common PageVersion.

Inductive RedoError :=
| Apply (e : PageError)
| NeedsPostgres (lsn : Lsn)
| Process (msg : string)
| RedoFailed (msg : bytes).

(** [e.to_string()]; the text of a system error is left out. *)
Definition RedoError_to_string (e : RedoError) : bytes :=
  match e with
  | Apply e => text "applying page version: " ++ PageError_display e
  | NeedsPostgres lsn =>
      text "WAL record at " ++ Lsn_display lsn ++ text " requires a Postgres wal-redo backend"
  | Process msg => text "wal-redo process error: " ++ text msg
  | RedoFailed msg => text "wal-redo failed: " ++ msg
  end.

(** The versions of one page, oldest first. *)
Abbreviation History := (list (Lsn * PageVersion)).

(** ** The trait *)

Class WalRedoManager (R : Type) := {
  reconstruct : PageKey -> Lsn -> History -> stateM R RedoError (option bytes)
}.

Definition has_base (vs : History) : bool := existsb (fun e => is_base e.2) vs.

(** The offsets of byte edits are unsigned. *)
Definition history_ok (vs : History) : Prop := Forall (fun e => version_ok e.2) vs.

(** What every backend promises: a page without a base does not exist, what
    precedes a base is irrelevant, the page has the page size, and nothing
    panics. *)
Class WalRedoLaws (R : Type) `{WalRedoManager R} := {
  reconstruct_no_base key lsn vs r :
    has_base vs = false -> reconstruct key lsn vs r = (r, Ok None);
  reconstruct_from_base key lsn pre b post r :
    is_base b.2 = true ->
    reconstruct key lsn (pre ++ b :: post) r = reconstruct key lsn (b :: post) r;
  reconstruct_size key lsn vs r r' page :
    history_ok vs -> reconstruct key lsn vs r = (r', Ok (Some page)) -> len page = PAGE_SIZE;
  reconstruct_found key lsn vs r r' :
    reconstruct key lsn vs r = (r', Ok None) -> has_base vs = false;
  reconstruct_no_panic key lsn vs r : history_ok vs -> (reconstruct key lsn vs r).2 <> Panic
}.

(** [iter().rposition(f)] *)
Fixpoint rposition {A} (f : A -> bool) (l : list A) : option nat :=
  match l with
  | [] => None
  | x :: l' =>
      match rposition f l' with
      | Some i => Some (S i)
      | None => if f x then Some O else None
      end
  end.

Definition zero_page : bytes := replicate (Z.to_nat PAGE_SIZE) x00.

(** ** The native backend *)

Fixpoint replay (vs : History) (page : bytes) : outcome RedoError bytes :=
  match vs with
  | [] => Ok page
  | (lsn, v) :: vs' =>
      let? page := match v with
                   | WalRec _ => Err (NeedsPostgres lsn)
                   | _ => map_err Apply (apply_to v page)
                   end in
      replay vs' page
  end.

Definition RustApply_reconstruct (versions : History) : outcome RedoError (option bytes) :=
  match rposition (fun e => is_base e.2) versions with
  | None => Ok None
  | Some base =>
      let? b := unwrap (versions !! base) in
      let? page := match b.2 with
                   | Image _ => map_err Apply (apply_to b.2 zero_page)
                   | WalRec _ => Err (NeedsPostgres b.1)
                   | Delta _ => Panic
                   end in
      let? page := replay (drop (S base) versions) page in
      Ok (Some page)
  end.

(** [RustApplyRedoManager] has no state. *)
#[export] Instance RustApplyRedoManager : WalRedoManager unit := {|
  reconstruct _ _ vs := slift (RustApply_reconstruct vs)
|}.

(** ** The reference: replay the whole history from the beginning

    [apply_record key base lsn rec] is what applying one WAL record does.  A
    base starts the page afresh; anything else changes the page there is. *)
Section Reference.
Variable apply_record : PageKey -> option bytes -> Lsn -> bytes -> outcome RedoError bytes.

Definition history_step (key : PageKey) (st : outcome RedoError (option bytes))
    (e : Lsn * PageVersion) : outcome RedoError (option bytes) :=
  let change f := let? o := st in
    match o with Some page => let? p := f page in Ok (Some p) | None => Ok None end in
  match e.2 with
  | Image img => if len img =? PAGE_SIZE then Ok (Some img) else Err (Apply (BadImageSize (len img)))
  | Delta edits => change (fun page => map_err Apply (apply_edits edits page))
  | WalRec w =>
      if wr_will_init w then let? p := apply_record key None e.1 (wr_rec w) in Ok (Some p)
      else change (fun page => apply_record key (Some page) e.1 (wr_rec w))
  end.

Definition page_at (key : PageKey) (vs : History) : outcome RedoError (option bytes) :=
  fold_left (history_step key) vs (Ok None).

Lemma history_step_base key st e :
  is_base e.2 = true -> history_step key st e = history_step key (Ok None) e.
Proof. destruct e as [l [|?|[[] ?]]]; done. Qed.

Lemma page_at_from_base key pre b post :
  is_base b.2 = true -> page_at key (pre ++ b :: post) = page_at key (b :: post).
Proof.
  intros Hb. unfold page_at. rewrite fold_left_app. cbn [fold_left]. by rewrite (history_step_base _ _ _ Hb).
Qed.

Lemma fold_history_no_base key vs : has_base vs = false -> fold_left (history_step key) vs (Ok None) = Ok None.
Proof.
  induction vs as [|[l v] vs IH]; cbn; [done |]. intros [Hv Hvs]%orb_false_iff.
  destruct v as [|?|[[] ?]]; cbn in *; try done; by apply IH.
Qed.

Lemma fold_history_Err key vs e : has_base vs = false -> fold_left (history_step key) vs (Err e) = Err e.
Proof.
  induction vs as [|[l v] vs IH]; cbn; [done |]. intros [Hv Hvs]%orb_false_iff.
  destruct v as [|?|[[] ?]]; cbn in *; try done; by apply IH.
Qed.

Lemma fold_history_Panic key vs : has_base vs = false -> fold_left (history_step key) vs Panic = Panic.
Proof.
  induction vs as [|[l v] vs IH]; cbn; [done |]. intros [Hv Hvs]%orb_false_iff.
  destruct v as [|?|[[] ?]]; cbn in *; try done; by apply IH.
Qed.
End Reference.

Lemma page_at_ext f g key vs :
  (forall base lsn rec, f key base lsn rec = g key base lsn rec) -> page_at f key vs = page_at g key vs.
Proof.
  intros E. unfold page_at. generalize (Ok (E := RedoError) (A := option bytes) None).
  induction vs as [| [l v] vs IH]; intros st; [done |]. cbn [fold_left]. rewrite IH. f_equal. unfold history_step. cbn [snd fst].
  destruct v as [| | w]; [done | done |]. case_test; [by rewrite E |]. destruct st as [[p |] | |]; cbn [bind]; [by rewrite E | done ..].
Qed.

(** A history either has no base or splits at its last one. *)
Lemma last_base_cases (vs : History) :
  (has_base vs = false /\ rposition (fun e => is_base e.2) vs = None) \/
  exists pre b post, vs = pre ++ b :: post /\ is_base b.2 = true /\ has_base post = false /\
    rposition (fun e => is_base e.2) vs = Some (length pre).
Proof.
  induction vs as [|e vs IH]; [by left |]. cbn [rposition has_base existsb].
  destruct IH as [[Hn ->] | (pre & b & post & -> & Hb & Hp & ->)].
  - unfold has_base in Hn. rewrite Hn, orb_false_r. destruct (is_base e.2) eqn:He; [right | by left].
    exists [], e, vs. done.
  - right. by exists (e :: pre), b, post.
Qed.

Lemma last_base_split (pre : History) b post :
  is_base b.2 = true -> has_base post = false ->
  rposition (fun e => is_base e.2) (pre ++ b :: post) = Some (length pre).
Proof.
  intros Hb Hp. induction pre as [|e pre IH]; cbn [app rposition length].
  - destruct (last_base_cases post) as [[_ ->] | (p & b' & q & -> & Hb' & _)]; [by rewrite Hb |].
    unfold has_base in Hp. rewrite existsb_app in Hp. cbn in Hp. rewrite Hb', orb_true_r in Hp. done.
  - by rewrite IH.
Qed.

Lemma RustApply_reconstruct_split pre b post :
  is_base b.2 = true -> has_base post = false ->
  RustApply_reconstruct (pre ++ b :: post) =
  (let? page := match b.2 with
                | Image _ => map_err Apply (apply_to b.2 zero_page)
                | WalRec _ => Err (NeedsPostgres b.1)
                | Delta _ => Panic
                end in
   let? page := replay post page in Ok (Some page)).
Proof.
  intros Hb Hp. unfold RustApply_reconstruct. rewrite last_base_split by done.
  rewrite lookup_app_r by lia. rewrite Nat.sub_diag. cbn [lookup list_lookup unwrap bind].
  by rewrite (cons_middle b), app_assoc, drop_app_length' by (rewrite length_app; cbn; lia).
Qed.

(** ** The native backend keeps the promise *)

Lemma replay_size vs page :
  history_ok vs -> len page = PAGE_SIZE ->
  match replay vs page with Ok p => len p = PAGE_SIZE | Err _ => True | Panic => False end.
Proof.
  intros Hvs. revert page; induction Hvs as [|[l v] vs Hv _ IH]; intros page Hp; [done |].
  cbn [replay]. cbn in Hv. pose proof (apply_to_size v page Hv Hp) as Ha.
  destruct v as [img | edits | w]; [| | done]; destruct (apply_to _ page); cbn [map_err bind] in *; try done;
    by apply IH.
Qed.

Lemma len_zero_page : len zero_page = PAGE_SIZE.
Proof. unfold zero_page. by rewrite len_replicate. Qed.

Lemma RustApply_size vs :
  history_ok vs ->
  match RustApply_reconstruct vs with
  | Ok (Some p) => len p = PAGE_SIZE
  | Ok None => has_base vs = false
  | Err _ => True
  | Panic => False
  end.
Proof.
  intros Hvs. destruct (last_base_cases vs) as [[Hn Hr] | (pre & b & post & -> & Hb & Hp & _)].
  { unfold RustApply_reconstruct. by rewrite Hr. }
  rewrite RustApply_reconstruct_split by done. apply Forall_app in Hvs as [_ Hvs].
  inversion Hvs as [|? ? Hbv Hpost]; subst. pose proof (apply_to_size _ _ Hbv len_zero_page) as Ha.
  destruct b as [l [img | edits | w]]; cbn [snd fst] in *; [| done | done].
  destruct (apply_to _ zero_page) as [page | |]; cbn [map_err bind] in *; [| done | done].
  pose proof (replay_size post page Hpost Ha) as Hs. by destruct (replay post page).
Qed.

Lemma RustApply_no_base vs : has_base vs = false -> RustApply_reconstruct vs = Ok None.
Proof.
  intros Hn. unfold RustApply_reconstruct.
  destruct (last_base_cases vs) as [[_ ->] | (pre & b & post & -> & Hb & _)]; [done |].
  unfold has_base in Hn. rewrite existsb_app in Hn. cbn in Hn. by rewrite Hb, orb_true_r in Hn.
Qed.

Lemma has_base_app vs1 vs2 : has_base (vs1 ++ vs2) = has_base vs1 || has_base vs2.
Proof. apply existsb_app. Qed.

Lemma RustApply_from_base pre b post :
  is_base b.2 = true -> RustApply_reconstruct (pre ++ b :: post) = RustApply_reconstruct (b :: post).
Proof.
  intros Hb. destruct (last_base_cases (b :: post)) as [[Hn _] | (pre' & b' & post' & E & Hb' & Hp & _)].
  { cbn in Hn. by rewrite Hb in Hn. }
  rewrite E, app_assoc. by rewrite !RustApply_reconstruct_split.
Qed.

Lemma RustApply_found vs : RustApply_reconstruct vs = Ok None -> has_base vs = false.
Proof.
  destruct (last_base_cases vs) as [[Hn _] | (pre & b & post & -> & Hb & Hp & _)]; [done |].
  rewrite RustApply_reconstruct_split by done. intros H. by inv_ok.
Qed.

#[export] Instance RustApplyLaws : WalRedoLaws unit.
Proof.
  split; cbn; unfold slift.
  - intros key lsn vs r Hn. by rewrite RustApply_no_base.
  - intros key lsn pre b post r Hb. by rewrite RustApply_from_base.
  - intros key lsn vs r r' page Hvs [= _ E]. apply RustApply_size in Hvs. by rewrite E in Hvs.
  - intros key lsn vs r r' [= _ E]. by apply RustApply_found.
  - intros key lsn vs r Hvs E. apply RustApply_size in Hvs. by rewrite E in Hvs.
Qed.

(** What the native backend does with a WAL record. *)
Definition no_postgres (_ : PageKey) (_ : option bytes) (lsn : Lsn) (_ : bytes) : outcome RedoError bytes :=
  Err (NeedsPostgres lsn).

Lemma replay_is_fold key vs page :
  has_base vs = false ->
  fold_left (history_step no_postgres key) vs (Ok (Some page)) =
  (let? p := replay vs page in Ok (Some p)).
Proof.
  revert page; induction vs as [|[l v] vs IH]; intros page; [done |].
  intros [Hv Hvs]%orb_false_iff. cbn [fold_left replay].
  destruct v as [img | edits | [[] rec]]; cbn [is_base snd wr_will_init] in Hv; [done | | done |];
    unfold history_step at 2; cbn [snd fst bind wr_will_init no_postgres apply_to].
  - destruct (apply_edits edits page) as [p | e |]; cbn [map_err bind].
    + by apply IH.
    + by apply fold_history_Err.
    + by apply fold_history_Panic.
  - by apply fold_history_Err.
Qed.

Lemma native_full_replay key vs : RustApply_reconstruct vs = page_at no_postgres key vs.
Proof.
  destruct (last_base_cases vs) as [[Hn Hr] | (pre & b & post & -> & Hb & Hp & _)].
  { rewrite RustApply_no_base by done. unfold page_at. by rewrite fold_history_no_base. }
  rewrite RustApply_reconstruct_split, page_at_from_base by done. unfold page_at. cbn [fold_left].
  destruct b as [l [img | edits | [[] rec]]]; cbn [is_base snd fst wr_will_init] in *; [| done | | done].
  - unfold history_step at 2. cbn [snd apply_to]. destruct (Z.eqb_spec (len img) PAGE_SIZE) as [E|].
    + rewrite len_zero_page, <- E, Z.eqb_refl. cbn [map_err bind]. by rewrite replay_is_fold.
    + cbn [map_err bind]. by rewrite fold_history_Err.
  - unfold history_step at 2. cbn [snd fst wr_will_init no_postgres bind]. by rewrite fold_history_Err.
Qed.

(** ** Backends that replay the whole history

    [fr_apply] is what the backend does with one WAL record; in a state that is
    [fr_ready], on a page and versions it can handle, at most [fr_limit] of them,
    reconstruction is the replay of every version from the first one. *)
Class FullReplay (R : Type) `{WalRedoManager R} := {
  fr_apply : PageKey -> option bytes -> Lsn -> bytes -> outcome RedoError bytes;
  fr_ready : R -> Prop;
  fr_key : PageKey -> Prop;
  fr_version : PageKey -> Lsn * PageVersion -> Prop;
  fr_limit : Z;
  fr_version_ok key e : fr_version key e -> version_ok e.2;
  fr_image key lsn img : fr_version key (lsn, Image img);
  fr_limit_pos : 1 <= fr_limit;
  fr_replay key lsn vs r :
    fr_ready r -> fr_key key -> Forall (fr_version key) vs -> len vs <= fr_limit ->
    exists r', reconstruct key lsn vs r = (r', page_at fr_apply key vs) /\ fr_ready r'
}.

#[export] Program Instance NativeFullReplay : FullReplay unit := {|
  fr_apply := no_postgres;
  fr_ready _ := True;
  fr_key _ := True;
  fr_version _ e := version_ok e.2;
  fr_limit := 2 ^ 32 - 1
|}.
Next Obligation. done. Qed.
Next Obligation. done. Qed.
Next Obligation. done. Qed.
Next Obligation. intros key lsn vs [] _ _ _ _. exists tt. split; [| done]. cbn. by rewrite <- native_full_replay. Qed.

(** Native reconstruction is a full replay.  Starting from the most recent
    base and applying what follows gives, on every history, exactly what
    replaying every version from the first one gives: the page, its absence, or
    the error. *)
Theorem native_redo_is_full_replay key lsn vs :
  (reconstruct key lsn vs tt).2 = page_at no_postgres key vs.
Proof. apply native_full_replay. Qed.
