(* ===== verification/WalRedoProcess.v ===== *)
(** The Postgres backend (src/pageserver/src/walredo_process.rs): a child
    process behind the pipe protocol, respawned once when a pipe or protocol
    error shows it to be stale, with runs of WAL records sent as one batch.

    The child program is an argument ([RedoProgram]): what the [n]-th spawn
    gives, and what a running child writes to its standard output when bytes
    arrive on its standard input.  A child that stops answering without closing
    its pipe blocks the caller for ever and is not modelled. *)

From S2P Require Import Prelude Bytes Text Common WalRedoProto PageVersion WalRedo.

Class RedoProgram (C : Type) := {
  start : nat -> option C;                    (* [Command::spawn], the n-th time *)
  feed : C -> bytes -> option (C * bytes)     (* [None]: the pipe is closed *)
}.

Section Process.
Context {C : Type} `{RedoProgram C}.

(** A running child and the unread bytes of its standard output. *)
Record RedoProc := mkRedoProc {
  child : C;
  stdout : bytes
}.

Record PostgresRedo := mkPostgresRedo {
  proc : option RedoProc;
  spawned : nat
}.

Definition PostgresRedo_new : PostgresRedo := mkPostgresRedo None 0.

Definition set_proc (p : option RedoProc) (st : PostgresRedo) : PostgresRedo :=
  mkPostgresRedo p (spawned st).

(** [stdin.write_all(bytes)] and the flush of the unbuffered pipe. *)
Definition write_request (bs : bytes) : stateM RedoProc RedoError unit := fun p =>
  match feed (child p) bs with
  | Some (c, out) => (mkRedoProc c (stdout p ++ out), Ok tt)
  | None => (p, Err (Process "write request"))
  end.

(** [stdout.read_exact] into a buffer of [n] bytes. *)
Definition read_exact (n : Z) (what : string) : stateM RedoProc RedoError bytes := fun p =>
  if n <=? len (stdout p)
  then (mkRedoProc (child p) (sub (stdout p) n (len (stdout p) - n)), Ok (sub (stdout p) 0 n))
  else (mkRedoProc (child p) [], Err (Process what)).

Definition exchange (req : RedoRequest) : stateM RedoProc RedoError bytes :=
  let! _ := write_request (RedoRequest_encode req) in
  let! header := read_exact RESP_HEADER_LEN "read response header" in
  let! magic := slift (get_be 4 header 0) in
  if negb (magic =? RESP_MAGIC) then serr (Process "bad response magic") else
  let! version := slift (get_u8 header 4) in
  if negb (version =? WalRedoProto.VERSION) then serr (Process "bad response version") else
  let! status := slift (get_u8 header 5) in
  if status =? STATUS_OK then read_exact PAGE_SIZE "read page"
  else if status =? STATUS_ERR then
    let! n := read_exact 4 "read error len" in
    let! msg := read_exact (be_val n) "read error msg" in
    serr (RedoFailed (from_utf8_lossy msg))
  else serr (Process "unknown response status").

Definition spawn : stateM PostgresRedo RedoError RedoProc := fun st =>
  let st' := mkPostgresRedo (proc st) (S (spawned st)) in
  match start (spawned st) with
  | Some c => (st', Ok (mkRedoProc c []))
  | None => (st', Err (Process "spawn"))
  end.

(** The loop [for attempt in 0..2], with [n] attempts to go. *)
Fixpoint redo_attempts (n : nat) (req : RedoRequest) : stateM PostgresRedo RedoError bytes :=
  match n with
  | O => spanic
  | S n' =>
      let! st := sget in
      let! p := match proc st with
                | Some p => sret p
                | None => let! p := spawn in let! _ := smod (set_proc (Some p)) in sret p
                end in
      match exchange req p with
      | (p, Ok page) => let! _ := smod (set_proc (Some p)) in sret page
      | (p, Err (RedoFailed m)) => let! _ := smod (set_proc (Some p)) in serr (RedoFailed m)
      | (_, Err e) =>
          let! _ := smod (set_proc None) in
          match n' with O => serr e | S _ => redo_attempts n' req end
      | (p, Panic) => let! _ := smod (set_proc (Some p)) in spanic
      end
  end.

Definition redo_page (rel : RelTag) (blkno : Z) (base : option bytes) (records : list (Lsn * bytes))
  : stateM PostgresRedo RedoError bytes :=
  redo_attempts 2 (mkRedoRequest rel blkno base records).

(** The locals of [reconstruct] and [flush]. *)
Record Run := mkRun {
  page : bytes;
  base_present : bool;
  pending : list (Lsn * bytes)
}.

Definition flush (key : PageKey) (r : Run) : stateM PostgresRedo RedoError Run :=
  match pending r with
  | [] => sret r
  | _ =>
      let base := if base_present r then Some (page r) else None in
      let! result := redo_page (rel key) (block key) base (pending r) in
      if len (page r) =? len result then sret (mkRun result true []) else spanic
  end.

Fixpoint replay_run (key : PageKey) (vs : History) (r : Run) : stateM PostgresRedo RedoError Run :=
  match vs with
  | [] => sret r
  | (lsn, v) :: vs' =>
      match v with
      | WalRec w => replay_run key vs' (mkRun (page r) (base_present r) (pending r ++ [(lsn, wr_rec w)]))
      | _ =>
          let! r := flush key r in
          let! p := slift (map_err Apply (apply_to v (page r))) in
          replay_run key vs' (mkRun p true (pending r))
      end
  end.

Definition Postgres_reconstruct (key : PageKey) (versions : History)
  : stateM PostgresRedo RedoError (option bytes) :=
  match rposition (fun e => is_base e.2) versions with
  | None => sret None
  | Some base =>
      let! b := slift (unwrap (versions !! base)) in
      let! r := match b.2 with
                | Image _ =>
                    let! p := slift (map_err Apply (apply_to b.2 zero_page)) in sret (mkRun p true [])
                | WalRec w => sret (mkRun zero_page false [(b.1, wr_rec w)])
                | Delta _ => spanic
                end in
      let! r := replay_run key (drop (S base) versions) r in
      let! r := flush key r in
      sret (Some (page r))
  end.

#[export] Instance PostgresRedoManager : WalRedoManager PostgresRedo := {|
  reconstruct key _ vs := Postgres_reconstruct key vs
|}.

(** ** The laws, whatever the child does *)

Lemma read_exact_shape n what p :
  0 <= n -> runs (read_exact n what) p (fun b _ => len b = n) (fun _ _ => True).
Proof.
  intros Hn. unfold runs, read_exact. case_test; [| done]. bool_to_prop. apply sub_len; lia.
Qed.

Lemma exchange_shape req p :
  runs (exchange req) p (fun pg _ => len pg = PAGE_SIZE) (fun _ _ => True).
Proof.
  unfold exchange. eapply runs_bind with (Q' := fun _ _ => True).
  { unfold runs, write_request. by destruct (feed _ _) as [[]|]. }
  intros ? p1 _. eapply runs_bind; [by apply read_exact_shape |]. cbn beta. intros h p2 Hh.
  unfold RESP_HEADER_LEN in Hh. eapply runs_lift; [apply get_be_ok; lia |].
  case_test; [done |]. destruct (get_u8_in_range (E := RedoError) h 4 ltac:(lia)) as (v & _ & Hv).
  eapply runs_lift; [exact Hv |].
  case_test; [done |]. destruct (get_u8_in_range (E := RedoError) h 5 ltac:(lia)) as (w & _ & Hw).
  eapply runs_lift; [exact Hw |].
  case_test; [by apply read_exact_shape |]. case_test; [| done].
  eapply runs_bind; [by apply read_exact_shape |]. cbn beta. intros n p3 Hn.
  eapply runs_bind; [apply read_exact_shape; apply be_val_range |]. done.
Qed.

Lemma redo_attempts_shape n req st :
  runs (redo_attempts (S n) req) st (fun pg _ => len pg = PAGE_SIZE) (fun _ _ => True).
Proof.
  revert st; induction n as [|n IH]; intros st; cbn [redo_attempts]; apply runs_get;
    (eapply runs_bind with (Q' := fun _ _ => True);
     [ destruct (proc st); [done |]; unfold runs, spawn, sbind, smod, sret; by destruct (start _) |]);
    intros p st1 _; pose proof (exchange_shape req p) as Hx; unfold runs in Hx;
    destruct (exchange req p) as [p' [pg | [| | |] |]]; try done; apply runs_mod, IH.
Qed.

Lemma flush_shape key r st :
  len (page r) = PAGE_SIZE ->
  runs (flush key r) st (fun r' _ => len (page r') = PAGE_SIZE) (fun _ _ => True).
Proof.
  intros Hp. unfold flush. destruct (pending r); [done |].
  eapply runs_bind; [apply redo_attempts_shape |]. cbn beta. intros pg st' Hpg.
  by rewrite Hp, Hpg, Z.eqb_refl.
Qed.

Lemma replay_run_shape key vs r st :
  history_ok vs -> len (page r) = PAGE_SIZE ->
  runs (replay_run key vs r) st (fun r' _ => len (page r') = PAGE_SIZE) (fun _ _ => True).
Proof.
  intros Hvs. revert r st; induction Hvs as [|[l v] vs Hv _ IH]; intros r st Hp; [done |].
  cbn [replay_run]. cbn in Hv.
  assert (Hstep : runs (let! r := flush key r in
      let! p := slift (map_err Apply (apply_to v (page r))) in
      replay_run key vs (mkRun p true (pending r))) st
    (fun r' _ => len (page r') = PAGE_SIZE) (fun _ _ => True)); [| by destruct v; [| | apply IH]].
  eapply runs_bind; [by apply flush_shape |]. cbn beta. intros r1 st1 Hp1.
  pose proof (apply_to_size v (page r1) Hv Hp1) as Ha.
  destruct (apply_to v (page r1)) as [p | |]; [| done | done]. by apply IH.
Qed.

Lemma Postgres_split key pre b post :
  is_base b.2 = true -> has_base post = false ->
  Postgres_reconstruct key (pre ++ b :: post) =
  (let! r := match b.2 with
             | Image _ =>
                 let! p := slift (map_err Apply (apply_to b.2 zero_page)) in sret (mkRun p true [])
             | WalRec w => sret (mkRun zero_page false [(b.1, wr_rec w)])
             | Delta _ => spanic
             end in
   let! r := replay_run key post r in
   let! r := flush key r in
   sret (Some (page r))).
Proof.
  intros Hb Hp. unfold Postgres_reconstruct. rewrite last_base_split by done.
  rewrite lookup_app_r by lia. rewrite Nat.sub_diag. cbn [lookup list_lookup unwrap].
  by rewrite (cons_middle b), app_assoc, drop_app_length' by (rewrite length_app; cbn; lia).
Qed.

Lemma Postgres_shape key vs st :
  history_ok vs ->
  runs (Postgres_reconstruct key vs) st
    (fun o _ => match o with Some pg => len pg = PAGE_SIZE | None => has_base vs = false end)
    (fun _ _ => True).
Proof.
  intros Hvs. destruct (last_base_cases vs) as [[Hn Hr] | (pre & b & post & -> & Hb & Hp & _)].
  { unfold Postgres_reconstruct. by rewrite Hr. }
  rewrite Postgres_split by done. apply Forall_app in Hvs as [_ Hvs].
  inversion Hvs as [|? ? Hbv Hpost]; subst.
  eapply runs_bind with (Q' := fun r _ => len (page r) = PAGE_SIZE).
  { pose proof (apply_to_size _ _ Hbv len_zero_page) as Ha.
    destruct b as [l [img | edits | w]]; cbn [snd fst] in *; [| done | exact len_zero_page].
    by destruct (apply_to _ zero_page). }
  intros r st1 H1. eapply runs_bind; [by apply replay_run_shape |]. cbn beta. intros r2 st2 H2.
  eapply runs_bind; [by apply flush_shape |]. done.
Qed.

Lemma Postgres_found key vs st st' : Postgres_reconstruct key vs st = (st', Ok None) -> has_base vs = false.
Proof.
  destruct (last_base_cases vs) as [[Hn _] | (pre & b & post & -> & Hb & Hp & _)]; [done |].
  rewrite Postgres_split by done. unfold sbind.
  repeat match goal with |- context [match ?m with (_, _) => _ end] => destruct m as [? []] end; done.
Qed.

#[export] Instance PostgresRedoLaws : WalRedoLaws PostgresRedo.
Proof.
  split; cbn.
  - intros key _ vs r Hn. unfold Postgres_reconstruct.
    destruct (last_base_cases vs) as [[_ ->] | (pre & b & post & -> & Hb & _)]; [done |].
    rewrite has_base_app in Hn. cbn in Hn. by rewrite Hb, orb_true_r in Hn.
  - intros key _ pre b post r Hb.
    destruct (last_base_cases (b :: post)) as [[Hn _] | (pre' & b' & post' & E & Hb' & Hp & _)].
    { cbn in Hn. by rewrite Hb in Hn. }
    rewrite E, app_assoc. by rewrite !Postgres_split.
  - intros key _ vs r r' pg Hvs E. pose proof (Postgres_shape key vs r Hvs) as Hs. unfold runs in Hs.
    by rewrite E in Hs.
  - intros key _ vs r r'. apply Postgres_found.
  - intros key _ vs r Hvs. pose proof (Postgres_shape key vs r Hvs) as Hs. unfold runs in Hs.
    by destruct (Postgres_reconstruct key vs r) as [? []].
Qed.

(** ** A child that speaks the protocol

    [redo] is the page function the child implements, for the relations it
    [covers] and the records it can serve ([servable]), at most [max_batch] of them
    at a time.  A healthy child answers
    each such request with the encoding of [redo]'s reply and is healthy again, or
    ends, closing its pipe; every spawn gives a healthy child, and a batch of
    records has the effect of its parts applied one after the other. *)
Definition ended (c : C) : Prop := forall bs, feed c bs = None.

Class RedoService (redo : RedoRequest -> RedoResponse) := {
  healthy : C -> Prop;
  covers : RelTag -> Prop;
  servable : RelTag -> Lsn * bytes -> Prop;
  max_batch : Z;
  max_batch_range : 1 <= max_batch < 2 ^ 32;
  start_healthy n : exists c, start n = Some c /\ healthy c;
  feed_healthy c req :
    healthy c -> RedoRequest_wf req ->
    covers (rq_rel req) -> Forall (servable (rq_rel req)) (rq_records req) -> len (rq_records req) <= max_batch ->
    exists c', feed c (RedoRequest_encode req) = Some (c', RedoResponse_encode (redo req)) /\ (healthy c' \/ ended c');
  redo_reply_wf req : RedoRequest_wf req -> RedoResponse_wf (redo req);
  redo_batch rel blk base rs1 rs2 :
    rs1 <> [] -> rs2 <> [] ->
    redo (mkRedoRequest rel blk base (rs1 ++ rs2)) =
    match redo (mkRedoRequest rel blk base rs1) with
    | RPage p => redo (mkRedoRequest rel blk (Some p) rs2)
    | RError m => RError m
    end
}.

Section Service.
Context (redo : RedoRequest -> RedoResponse) `{!RedoService redo}.

Definition reply (r : RedoResponse) : outcome RedoError bytes :=
  match r with RPage p => Ok p | RError m => Err (RedoFailed m) end.

Definition in_sync (p : RedoProc) : Prop := healthy (child p) /\ stdout p = [].

Definition request_ok (req : RedoRequest) : Prop :=
  RedoRequest_wf req /\ covers (rq_rel req) /\ Forall (servable (rq_rel req)) (rq_records req) /\ len (rq_records req) <= max_batch.

(** The child is in sync, or so broken that every exchange shows it. *)
Definition usable (st : PostgresRedo) : Prop :=
  match proc st with
  | None => True
  | Some p => in_sync p \/ forall req, exists p' e, exchange req p = (p', Err (Process e))
  end.

Lemma read_exact_ok n what c a l :
  n = len a -> read_exact n what (mkRedoProc c (a ++ l)) = (mkRedoProc c l, Ok a).
Proof.
  intros ->. unfold read_exact. cbn [stdout child]. rewrite len_app. pose proof (len_nonneg l).
  rewrite (proj2 (Z.leb_le _ _)) by lia. rewrite sub_app_exact by done. rewrite sub_app_ge by lia.
  rewrite Z.sub_diag. by rewrite sub_full by lia.
Qed.

Lemma fed_usable c k : healthy c \/ ended c -> usable (mkPostgresRedo (Some (mkRedoProc c [])) k).
Proof.
  intros [Hh | He]; [by left |]. right. intros req. unfold exchange, write_request, sbind at 1. cbn [child].
  rewrite He. by eexists _, _.
Qed.

Lemma exchange_in_sync req p :
  in_sync p -> request_ok req ->
  exists p', exchange req p = (p', reply (redo req)) /\ forall k, usable (mkPostgresRedo (Some p') k).
Proof.
  intros [Hh Ho] (Hw & Hc & Hs & Hm). destruct p as [c out]. cbn in Hh, Ho. subst out.
  destruct (feed_healthy c req Hh Hw Hc Hs Hm) as (c' & Hf & Hh'). pose proof (redo_reply_wf req Hw) as Hr.
  exists (mkRedoProc c' []). split; [| intros k; by apply fed_usable]. unfold exchange, write_request.
  unfold sbind at 1. cbn [child stdout]. rewrite Hf. cbn [app].
  destruct (redo req) as [pg | msg]; cbn [RedoResponse_wf reply] in *.
  - change (RedoResponse_encode (RPage pg)) with
      ((be_bytes 4 RESP_MAGIC ++ [z2b VERSION; z2b STATUS_OK; x00; x00]) ++ pg).
    rewrite <- (app_nil_r pg) at 1.
    erewrite sbind_Ok by (by apply read_exact_ok). by apply read_exact_ok.
  - destruct Hr as [Hl Hu]. change (RedoResponse_encode (RError msg)) with
      ((be_bytes 4 RESP_MAGIC ++ [z2b VERSION; z2b STATUS_ERR; x00; x00]) ++ be_bytes 4 (len msg) ++ msg).
    erewrite sbind_Ok by (by apply read_exact_ok).
    match goal with |- ?k ?p = _ => change (k p) with
      ((let! n := read_exact 4 "read error len" in
        let! b := read_exact (be_val n) "read error msg" in
        serr (A := bytes) (RedoFailed (from_utf8_lossy b))) p) end.
    erewrite sbind_Ok by (apply read_exact_ok; by rewrite len_be_bytes). rewrite be_val_u32 by done.
    rewrite <- (app_nil_r msg) at 2.
    erewrite sbind_Ok by (by apply read_exact_ok). by rewrite from_utf8_lossy_valid.
Qed.

(** One retry is enough: whatever became of the previous child, the request is
    answered, and the manager is left able to answer the next one. *)
Lemma redo_page_usable rel blk base recs st :
  usable st -> request_ok (mkRedoRequest rel blk base recs) ->
  exists st', redo_page rel blk base recs st = (st', reply (redo (mkRedoRequest rel blk base recs))) /\
    usable st'.
Proof.
  intros Hu Hw. unfold redo_page. set (req := mkRedoRequest rel blk base recs) in *.
  assert (Hfresh : forall n k, exists st', redo_attempts (S n) req (mkPostgresRedo None k) =
                     (st', reply (redo req)) /\ usable st').
  { intros n k. destruct (start_healthy k) as (c & Hc & Hh). cbn [redo_attempts].
    unfold sbind at 1, sget. cbn [proc]. unfold spawn, sbind at 1 2 3, smod. cbn [spawned proc].
    rewrite Hc. cbn [sret]. destruct (exchange_in_sync req (mkRedoProc c []) (conj Hh eq_refl) Hw)
      as (p' & -> & Hp'). destruct (redo req) as [pg | msg]; cbn; eexists; (split; [done | apply Hp']). }
  destruct st as [[p |] k]; [| apply Hfresh]. cbn [redo_attempts]. unfold sbind at 1 2, sget. cbn [proc sret].
  destruct Hu as [Hs | Hs]; cbn [proc] in *.
  - destruct (exchange_in_sync req p Hs Hw) as (p' & -> & Hp').
    destruct (redo req) as [pg | msg]; cbn; eexists; (split; [done | apply Hp']).
  - destruct (Hs req) as (p' & e & ->). exact (Hfresh 0%nat k).
Qed.

(** ** Batching is invisible *)

(** What one record does, as a request of its own. *)
Definition record_redo (key : PageKey) (base : option bytes) (lsn : Lsn) (rec : bytes)
  : outcome RedoError bytes :=
  reply (redo (mkRedoRequest (rel key) (block key) base [(lsn, rec)])).

Definition run_base (r : Run) : option bytes := if base_present r then Some (page r) else None.

(** The page a run stands for once its pending records are applied. *)
Definition run_page (key : PageKey) (r : Run) : outcome RedoError (option bytes) :=
  match pending r with
  | [] => Ok (Some (page r))
  | recs => let? p := reply (redo (mkRedoRequest (rel key) (block key) (run_base r) recs)) in Ok (Some p)
  end.

(** Pages the child serves. *)
Definition key_ok (key : PageKey) : Prop := PageKey_wf key /\ covers (rel key).

Definition record_wf (key : PageKey) (e : Lsn * bytes) : Prop := (in_u64 e.1 /\ in_u32 (len e.2)) /\ servable (rel key) e.

Definition version_wf (key : PageKey) (e : Lsn * PageVersion) : Prop :=
  version_ok e.2 /\ match e.2 with WalRec w => record_wf key (e.1, wr_rec w) | _ => True end.

Definition run_wf (key : PageKey) (r : Run) : Prop :=
  len (page r) = PAGE_SIZE /\ (pending r = [] -> base_present r = true) /\ Forall (record_wf key) (pending r).

Lemma run_page_push key r lsn rec :
  run_wf key r ->
  run_page key (mkRun (page r) (base_present r) (pending r ++ [(lsn, rec)])) =
  history_step record_redo key (run_page key r) (lsn, WalRec (mkWalRecord false rec)).
Proof.
  intros (_ & Hb & _). unfold run_page, history_step, run_base. cbn [pending page base_present snd fst wr_rec wr_will_init].
  destruct (pending r) as [|e es] eqn:Ep.
  - rewrite (Hb eq_refl). cbn [app bind]. done.
  - change ((e :: es) ++ [(lsn, rec)]) with (e :: (es ++ [(lsn, rec)])).
    cbv iota. rewrite app_comm_cons, redo_batch by done.
    by destruct (redo (mkRedoRequest (rel key) (block key) _ (e :: es))) as [pg | msg].
Qed.

Lemma flush_usable key r st :
  usable st -> key_ok key -> run_wf key r -> len (pending r) <= max_batch ->
  exists st', usable st' /\
    match run_page key r with
    | Ok (Some p) => flush key r st = (st', Ok (mkRun p true [])) /\ len p = PAGE_SIZE
    | Err e => flush key r st = (st', Err e)
    | _ => False
    end.
Proof.
  intros Hu [[Hk1 Hk2] Hc] (Hp & Hb & Hr) Hn. unfold flush, run_page.
  destruct (pending r) as [|e es] eqn:Ep.
  { exists st. split; [done |]. split; [| done]. destruct r as [pg b pe]. cbn in *. by rewrite Ep, (Hb eq_refl). }
  apply Forall_and in Hr as [Hr Hs]. pose proof max_batch_range. pose proof (len_nonneg (e :: es)).
  assert (Hw : RedoRequest_wf (mkRedoRequest (rel key) (block key) (run_base r) (e :: es))).
  { split; [done |]. split; [done |]. split; [| split; [cbn [rq_records]; unfold in_u32; lia | done]].
    cbn. unfold run_base. by destruct (base_present r). }
  destruct (redo_page_usable _ _ _ _ st Hu (conj Hw (conj Hc (conj Hs Hn)))) as (st' & E & Hu'). exists st'. split; [done |].
  fold (run_base r). unfold sbind. rewrite E. pose proof (redo_reply_wf _ Hw) as Hrw.
  destruct (redo _) as [pg | msg]; cbn [reply bind RedoResponse_wf] in *; [| done].
  by rewrite Hp, Hrw, Z.eqb_refl.
Qed.

Lemma replay_run_usable key vs r st :
  usable st -> key_ok key -> run_wf key r -> Forall (version_wf key) vs -> has_base vs = false ->
  len (pending r) + len vs <= max_batch ->
  exists st', usable st' /\
    sbind (replay_run key vs r) (fun r => let! r := flush key r in sret (Some (page r))) st =
    (st', fold_left (history_step record_redo key) vs (run_page key r)).
Proof.
  intros Hu Hk Hr Hvs. revert r st Hu Hr. induction Hvs as [|[l v] vs [Hv Hrec] _ IH]; intros r st Hu Hr Hb Hn.
  { destruct (flush_usable key r st Hu Hk Hr) as (st' & Hu' & E);
      [by rewrite Z.add_0_r in Hn |].
    exists st'. split; [done |]. cbn [replay_run fold_left]. unfold sbind, sret.
    destruct (run_page key r) as [[p|] | e |]; [by destruct E as [-> _] | done | by rewrite E | done]. }
  apply orb_false_iff in Hb as [Hbv Hb]. cbn [replay_run fold_left snd fst] in *. rewrite len_cons in Hn.
  pose proof (len_nonneg vs). pose proof (len_nonneg (pending r)).
  destruct v as [img | edits | [[] rec]]; [done | | done |].
  - destruct (flush_usable key r st Hu Hk Hr) as (st1 & Hu1 & E); [lia |].
    rewrite !sbind_assoc. unfold sbind at 1. unfold history_step at 2. cbn [snd fst].
    destruct (run_page key r) as [[p |] | e |]; cbn [bind]; [| done | | done].
    + destruct E as [-> Hp]. rewrite sbind_assoc. cbn [page pending].
      pose proof (apply_to_size (Delta edits) p Hv Hp) as Ha. cbn [apply_to] in *.
      unfold sbind at 1, slift.
      destruct (apply_edits edits p) as [p' | e |]; cbn [map_err bind]; [| | done].
      * apply (IH (mkRun p' true []) st1 Hu1); [| done | change (0 + len vs <= max_batch); lia].
        split; [done |]. by split.
      * exists st1. split; [done |]. by rewrite fold_history_Err.
    + rewrite E. exists st1. split; [done |]. by rewrite fold_history_Err.
  - rewrite <- run_page_push by done. destruct Hr as (Hr1 & Hr2 & Hr3).
    apply IH; [done | | done | cbn [pending]; rewrite len_app, len_cons, len_nil; lia].
    split; [done |]. split; cbn [pending].
    + intros E%app_eq_nil. by destruct E.
    + apply Forall_app. split; [done |]. by constructor.
Qed.

Lemma process_full_replay key lsn vs st :
  usable st -> key_ok key -> Forall (version_wf key) vs -> len vs <= max_batch ->
  exists st', reconstruct key lsn vs st = (st', page_at record_redo key vs) /\ usable st'.
Proof.
  intros Hu Hk Hvs Hn. cbn. destruct (last_base_cases vs) as [[Hb Hr] | (pre & b & post & -> & Hb & Hp & _)].
  { exists st. unfold Postgres_reconstruct. rewrite Hr. unfold page_at. by rewrite fold_history_no_base. }
  rewrite Postgres_split, page_at_from_base by done. unfold page_at. cbn [fold_left].
  apply Forall_app in Hvs as [_ Hvs]. inversion Hvs as [|? ? [Hbv Hrec] Hpost]; subst.
  rewrite len_app, len_cons in Hn. pose proof (len_nonneg pre). pose proof (len_nonneg post).
  assert (Hgo : forall r, run_wf key r -> len (pending r) <= 1 -> exists st',
    sbind (replay_run key post r) (fun r => let! r := flush key r in sret (Some (page r))) st =
    (st', fold_left (history_step record_redo key) post (run_page key r)) /\ usable st').
  { intros r Hr Hl. destruct (replay_run_usable key post r st) as (st' & Hu' & E);
      [done .. | lia | by exists st']. }
  destruct b as [l [img | edits | [[] rec]]]; cbn [is_base snd fst wr_will_init] in *; [| done | | done].
  - unfold history_step at 2. cbn [snd apply_to]. destruct (Z.eqb_spec (len img) PAGE_SIZE) as [E|].
    + rewrite len_zero_page, E, Z.eqb_refl. by apply (Hgo (mkRun img true [])).
    + exists st. split; [| done]. cbn. by rewrite fold_history_Err.
  - apply (Hgo (mkRun zero_page false [(l, rec)])); [| done].
    split; [exact len_zero_page |]. split; [done |]. by constructor.
Qed.
(** The process backend replays records one by one.  With a child program
    that implements a page function [redo], from any state in which the current
    child is absent, in sync, or broken, reconstruction returns what replaying
    the whole history does when each WAL record is applied on its own, the
    batching and the restart of the child being invisible; the backend ends in
    such a state again. *)
Theorem process_redo_is_full_replay key lsn vs st :
  usable st -> key_ok key -> Forall (version_wf key) vs -> len vs <= max_batch ->
  exists st', reconstruct key lsn vs st = (st', page_at record_redo key vs) /\ usable st'.
Proof. apply process_full_replay. Qed.

#[export] Program Instance ProcessFullReplay : FullReplay PostgresRedo := {|
  fr_apply := record_redo;
  fr_ready := usable;
  fr_key := key_ok;
  fr_version := version_wf;
  fr_limit := max_batch
|}.
Next Obligation. by intros key e [? _]. Qed.
Next Obligation. done. Qed.
Next Obligation. apply max_batch_range. Qed.
Next Obligation. intros key lsn vs r Hr Hk Hvs Hn. by apply process_full_replay. Qed.
End Service.
End Process.
