(* ===== verification/WalRedoMock.v ===== *)
(** The reference wal-redo process (src/pageserver/src/bin/aethel-walredo-mock.rs):
    the child side of the pipe protocol with byte edits as its records, and the
    proof that it is a child the process backend can rely on. *)

From S2P Require Import Prelude Bytes Text Common WalRedoProto PageVersion WalRedo WalRedoProcess.

(** A running mock: its flags, the requests served, and unread input. *)
Record Mock := mkMock {
  fail : bool;
  exit_after : option Z;
  served : Z;
  alive : bool;
  stdin : bytes
}.

(** [while i + 4 <= rec.len()], at most once per byte of [rec]. *)
Fixpoint apply_toy_edits (fuel : nat) (rec : bytes) (i : Z) (page : bytes) : outcome ProtoError bytes :=
  match fuel with
  | O => Ok page
  | S fuel' =>
      if i + 4 <=? len rec then
        let? off := get_be 2 rec i in
        let? n := get_be 2 rec (i + 2) in
        let i := i + 4 in
        if len rec <? i + n then Ok page
        else
          let? page := (if off + n <=? len page
                        then let? data := slice rec i (i + n) in overwrite page off data
                        else Ok page) in
          apply_toy_edits fuel' rec (i + n) page
      else Ok page
  end.

Fixpoint apply_records (records : list (Lsn * bytes)) (page : bytes) : outcome ProtoError bytes :=
  match records with
  | [] => Ok page
  | (_, rec) :: rs => let? page := apply_toy_edits (S (length rec)) rec 0 page in apply_records rs page
  end.

Definition mock_reply (fail : bool) (req : RedoRequest) : outcome ProtoError RedoResponse :=
  if fail then Ok (RError (text "forced failure (mock --fail)"))
  else
    let page := match rq_base_image req with Some img => img | None => zero_page end in
    let? page := apply_records (rq_records req) page in
    Ok (RPage page).

(** ** Reading a request

    [None]: the input so far does not hold a whole request, and the process
    waits for more (or ends, at the end of its input). *)

Definition take_exact (n : Z) (inp : bytes) : option (bytes * bytes) :=
  if n <=? len inp then Some (sub inp 0 n, sub inp n (len inp - n)) else None.

Fixpoint take_records (n : nat) (inp : bytes) : option (bytes * bytes) :=
  match n with
  | O => Some ([], inp)
  | S n' =>
      '(hdr, inp) ← take_exact 12 inp;
      '(rec, inp) ← take_exact (be_val (sub hdr 8 4)) inp;
      '(rest, inp) ← take_records n' inp;
      Some (hdr ++ rec ++ rest, inp)
  end.

Definition read_request (inp : bytes) : option (outcome ProtoError RedoRequest * bytes) :=
  '(buf, inp) ← take_exact 28 inp;
  flags ← get buf 5;
  '(base, inp) ← (if negb (Z.land (b2z flags) FLAG_HAS_BASE =? 0)
                  then take_exact PAGE_SIZE inp else Some ([], inp));
  '(nbuf, inp) ← take_exact 4 inp;
  '(recs, inp) ← take_records (Z.to_nat (be_val nbuf)) inp;
  Some (RedoRequest_decode (buf ++ base ++ nbuf ++ recs), inp).

(** ** The main loop, up to the point where it waits for input or exits *)

Definition die (m : Mock) : Mock := mkMock (fail m) (exit_after m) (served m) false (stdin m).

Fixpoint mock_loop (fuel : nat) (m : Mock) (out : bytes) : Mock * bytes :=
  match fuel with
  | O => (m, out)
  | S fuel' =>
      match read_request (stdin m) with
      | None => (m, out)
      | Some (Ok req, rest) =>
          match mock_reply (fail m) req with
          | Ok resp =>
              let out := out ++ RedoResponse_encode resp in
              let m := mkMock (fail m) (exit_after m) (served m + 1) true rest in
              if bool_decide (exit_after m = Some (served m)) then (die m, out)
              else mock_loop fuel' m out
          | _ => (die m, out)
          end
      | Some (_, _) => (die m, out)
      end
  end.

(** A request is at least one byte, so the input bounds the iterations. *)
Definition mock_feed (m : Mock) (bs : bytes) : option (Mock * bytes) :=
  if alive m then
    let inp := stdin m ++ bs in
    Some (mock_loop (S (length inp)) (mkMock (fail m) (exit_after m) (served m) true inp) [])
  else None.

Definition mock_start (f : bool) (e : option Z) : Mock := mkMock f e 0 true [].

(** ** The mock serves every well-formed request *)

Lemma overwrite_size {E} page start data :
  0 <= start -> start + len data <= len page ->
  exists p, overwrite (E := E) page start data = Ok p /\ len p = len page.
Proof.
  intros Hs Hd. pose proof (len_nonneg data). unfold overwrite. rewrite (proj2 (Z.leb_le _ _)) by lia.
  eexists. split; [done |]. rewrite !len_app, !sub_len by lia. lia.
Qed.

Lemma apply_toy_edits_size fuel rec i page :
  0 <= i -> exists p, apply_toy_edits fuel rec i page = Ok p /\ len p = len page.
Proof.
  revert i page; induction fuel as [|fuel IH]; intros i page Hi; cbn [apply_toy_edits]; [by exists page |].
  destruct (Z.leb_spec (i + 4) (len rec)); [| by exists page].
  rewrite get_be_ok by lia. cbn [bind]. rewrite get_be_ok by lia. cbn [bind].
  set (off := be_val (sub rec i 2)). set (n := be_val (sub rec (i + 2) 2)).
  pose proof (be_val_range (sub rec i 2)) as [Ho _]. pose proof (be_val_range (sub rec (i + 2) 2)) as [Hn _].
  fold off in Ho. fold n in Hn. destruct (Z.ltb_spec (len rec) (i + 4 + n)); [by exists page |].
  destruct (Z.leb_spec (off + n) (len page)).
  - unfold slice. rewrite !(proj2 (Z.leb_le _ _)) by lia. cbn [andb bind].
    assert (Hd : len (sub rec (i + 4) (i + 4 + n - (i + 4))) = n) by (rewrite sub_len; lia).
    edestruct (overwrite_size (E := ProtoError) page off) as (p & -> & Hp); [done | rewrite Hd; lia |].
    cbn [bind]. destruct (IH (i + 4 + n) p) as (q & -> & Hq); [lia |]. exists q. split; [done | lia].
  - cbn [bind]. apply IH. lia.
Qed.

Lemma apply_records_size rs page :
  exists p, apply_records rs page = Ok p /\ len p = len page.
Proof.
  revert page; induction rs as [|[l rec] rs IH]; intros page; cbn [apply_records]; [by exists page |].
  destruct (apply_toy_edits_size (S (length rec)) rec 0 page ltac:(lia)) as (p & -> & Hp).
  cbn [bind]. destruct (IH p) as (q & -> & Hq). exists q. split; [done | lia].
Qed.

Lemma apply_records_app rs1 rs2 page :
  apply_records (rs1 ++ rs2) page = (let? p := apply_records rs1 page in apply_records rs2 p).
Proof.
  revert page; induction rs1 as [|[l rec] rs1 IH]; intros page; [done |]. cbn [apply_records app].
  destruct (apply_toy_edits _ _ _ _); cbn [bind]; [apply IH | done | done].
Qed.

(** The page function of the mock without [--fail]. *)
Definition toy_redo (req : RedoRequest) : RedoResponse :=
  match mock_reply false req with Ok r => r | _ => RError [] end.

Lemma mock_reply_toy req :
  mock_reply false req = Ok (toy_redo req) /\
  exists p, toy_redo req = RPage p /\
    len p = len (match rq_base_image req with Some img => img | None => zero_page end).
Proof.
  unfold toy_redo, mock_reply.
  destruct (apply_records_size (rq_records req)
    (match rq_base_image req with Some img => img | None => zero_page end)) as (p & -> & Hp).
  split; [done |]. by exists p.
Qed.

Lemma take_exact_app n a l : n = len a -> take_exact n (a ++ l) = Some (a, l).
Proof.
  intros ->. unfold take_exact. rewrite len_app. pose proof (len_nonneg l).
  rewrite (proj2 (Z.leb_le _ _)) by lia. rewrite sub_app_exact by done. rewrite sub_app_ge by lia.
  rewrite Z.sub_diag. by rewrite sub_full by lia.
Qed.

Lemma take_records_app rs l :
  Forall (fun e => in_u64 e.1 /\ in_u32 (len e.2)) rs ->
  take_records (length rs) (flat_map write_record rs ++ l) = Some (flat_map write_record rs, l).
Proof.
  induction 1 as [|[lsn rec] rs [Hl Hr] _ IH]; [done |]. cbn [length take_records flat_map].
  unfold write_record at 1 3. cbn [fst snd] in *. rewrite !app_assoc, <- !(app_assoc (_ ++ _)).
  rewrite take_exact_app by (rewrite len_app, !len_be_bytes; done). cbn [mbind option_bind].
  rewrite sub_app_ge, len_be_bytes by (rewrite len_be_bytes; lia).
  rewrite sub_full by (rewrite len_be_bytes; lia). rewrite be_val_u32 by done.
  rewrite take_exact_app by done. cbn [mbind option_bind]. rewrite IH. cbn [mbind option_bind].
  done.
Qed.

Definition request_header (req : RedoRequest) : bytes :=
  be_bytes 4 REQ_MAGIC ++
  [z2b VERSION; z2b (match rq_base_image req with Some _ => FLAG_HAS_BASE | None => 0 end); x00; x00] ++
  be_bytes 4 (spc_node (rq_rel req)) ++ be_bytes 4 (db_node (rq_rel req)) ++
  be_bytes 4 (rel_node (rq_rel req)) ++ [z2b (ForkNumber_as_u8 (fork (rq_rel req))); x00; x00; x00] ++
  be_bytes 4 (rq_blkno req).

Lemma RedoRequest_encode_parts req :
  RedoRequest_encode req =
  request_header req ++ (match rq_base_image req with Some img => img | None => [] end) ++
  be_bytes 4 (len (rq_records req)) ++ flat_map write_record (rq_records req).
Proof. unfold RedoRequest_encode, request_header. by rewrite <- !app_assoc. Qed.

Lemma len_request_header req : len (request_header req) = 28.
Proof. unfold request_header. rewrite !len_app, !len_be_bytes. done. Qed.

(** A whole request in the input is read, and what follows it is left. *)
Lemma read_request_app req l :
  RedoRequest_wf req -> read_request (RedoRequest_encode req ++ l) = Some (Ok req, l).
Proof.
  intros Hw. pose proof (RedoRequest_decode_encode req [] Hw) as Hd. rewrite app_nil_r in Hd.
  destruct Hw as (_ & _ & Hb & Hn & Hr). rewrite RedoRequest_encode_parts in Hd |- *.
  unfold read_request. rewrite <- !app_assoc, take_exact_app by (by rewrite len_request_header).
  cbn [mbind option_bind].
  change (get (request_header req) 5) with
    (Some (z2b (match rq_base_image req with Some _ => FLAG_HAS_BASE | None => 0 end))).
  assert (Hbase : (if negb (Z.land (b2z (z2b (match rq_base_image req with Some _ => FLAG_HAS_BASE | None => 0 end)))
                              FLAG_HAS_BASE =? 0)
           then take_exact PAGE_SIZE
             ((match rq_base_image req with Some img => img | None => [] end) ++
              be_bytes 4 (len (rq_records req)) ++ flat_map write_record (rq_records req) ++ l)
           else Some ([], (match rq_base_image req with Some img => img | None => [] end) ++
              be_bytes 4 (len (rq_records req)) ++ flat_map write_record (rq_records req) ++ l)) =
         Some (match rq_base_image req with Some img => img | None => [] end,
               be_bytes 4 (len (rq_records req)) ++ flat_map write_record (rq_records req) ++ l)).
  { destruct (rq_base_image req); [by apply take_exact_app | done]. }
  cbn [mbind option_bind]. rewrite Hbase. cbn [mbind option_bind].
  rewrite take_exact_app by (by rewrite len_be_bytes). cbn [mbind option_bind]. rewrite be_val_u32 by done.
  replace (Z.to_nat (len (rq_records req))) with (length (rq_records req)) by (unfold len; lia).
  rewrite take_records_app by done. cbn [mbind option_bind]. by rewrite Hd.
Qed.

Lemma take_exact_rest n inp a l : 0 <= n -> take_exact n inp = Some (a, l) -> len inp = n + len l.
Proof.
  unfold take_exact. intros Hn. case_test; [| done]. bool_to_prop. intros [= _ <-]. rewrite sub_len; lia.
Qed.

Lemma take_records_rest n inp a l : take_records n inp = Some (a, l) -> len l <= len inp.
Proof.
  revert inp a; induction n as [|n IH]; intros inp a; cbn [take_records]; [by intros [= _ <-] |].
  intros ([h i1] & H1 & H2)%bind_Some. apply bind_Some in H2 as ([r i2] & H2 & H3).
  apply bind_Some in H3 as ([rs i3] & H3 & [= _ <-]). apply IH in H3.
  apply take_exact_rest in H1; [| lia]. apply take_exact_rest in H2; [| apply be_val_range].
  pose proof (be_val_range (sub h 8 4)). lia.
Qed.

Lemma read_request_rest inp r l : read_request inp = Some (r, l) -> len l < len inp.
Proof.
  unfold read_request. intros ([h i1] & H1 & H2)%bind_Some. apply bind_Some in H2 as (f & _ & H2).
  apply bind_Some in H2 as ([b i2] & H2 & H3). apply bind_Some in H3 as ([nb i3] & H3 & H4).
  apply bind_Some in H4 as ([rs i4] & H4 & [= _ <-]). apply take_records_rest in H4.
  apply take_exact_rest in H1; [| lia]. apply take_exact_rest in H3; [| lia].
  assert (len i2 <= len i1); [| lia]. revert H2. case_test; [| by intros [= _ <-]].
  intros H2%take_exact_rest; unfold PAGE_SIZE in *; lia.
Qed.

(** The loop stops only where the process exits or waits: the fuel of
    [mock_feed] is enough. *)
Lemma mock_loop_waits fuel m out :
  len (stdin m) < Z.of_nat fuel ->
  alive (mock_loop fuel m out).1 = false \/ read_request (stdin (mock_loop fuel m out).1) = None.
Proof.
  revert m out; induction fuel as [|fuel IH]; intros m out Hf; [pose proof (len_nonneg (stdin m)); lia |].
  cbn [mock_loop]. destruct (read_request (stdin m)) as [[r rest] |] eqn:E; [| by right].
  apply read_request_rest in E. destruct r as [req | |]; [| by left | by left].
  destruct (mock_reply (fail m) req) as [resp | |]; [| by left | by left].
  case_bool_decide; [by left |]. apply IH. cbn [stdin]. lia.
Qed.

(** A mock not told to fail, between requests. *)
Definition mock_idle (m : Mock) : Prop := fail m = false /\ alive m = true /\ stdin m = [].

Lemma mock_feed_idle m req :
  mock_idle m -> RedoRequest_wf req ->
  exists m', mock_feed m (RedoRequest_encode req) = Some (m', RedoResponse_encode (toy_redo req)) /\ (mock_idle m' \/ alive m' = false).
Proof.
  intros (Hf & Ha & Hi) Hw. unfold mock_feed. rewrite Hf, Ha, Hi. cbn [app].
  pose proof (read_request_app req [] Hw) as E. rewrite app_nil_r in E.
  cbn [mock_loop stdin fail exit_after served]. rewrite E.
  rewrite (proj1 (mock_reply_toy req)). cbn [exit_after served app].
  case_bool_decide; [eexists; split; [reflexivity | by right] |].
  destruct (length (RedoRequest_encode req)); eexists; (split; [reflexivity | by left]).
Qed.

(** Children started without [--fail], whatever their [--exit-after]. *)
Section Program.
Context (exit_after : option Z).

#[export] Instance mock_program : RedoProgram Mock := {|
  start _ := Some (mock_start false exit_after);
  feed := mock_feed
|}.

#[export] Program Instance mock_service : RedoService toy_redo := {|
  healthy := mock_idle;
  covers _ := True;
  servable _ _ := True;
  max_batch := 2 ^ 32 - 1
|}.
Next Obligation. done. Qed.
Next Obligation. intros n. eexists. by split. Qed.
Next Obligation.
  intros c req Hc Hw _ _ _. destruct (mock_feed_idle c req Hc Hw) as (c' & E & Hi). exists c'. split; [exact E |].
  destruct Hi as [Hi | Hi]; [by left | right]. intros bs. cbn. unfold mock_feed. by rewrite Hi.
Qed.
Next Obligation.
  intros req (_ & _ & Hb & _). destruct (mock_reply_toy req) as (_ & p & -> & Hp). cbn. rewrite Hp.
  destruct (rq_base_image req); [done | apply len_zero_page].
Qed.
Next Obligation.
  intros rel blk base rs1 rs2 _ _. unfold toy_redo, mock_reply. cbn [rq_base_image rq_records].
  rewrite apply_records_app.
  destruct (apply_records_size rs1 (match base with Some img => img | None => zero_page end)) as (p & -> & _).
  cbn [bind]. by destruct (apply_records_size rs2 p) as (q & -> & _).
Qed.

End Program.

(** The backend with children that each end after one reply, on a history that batches two records, breaks
    the run with an edit, and batches again; the first child has died. *)
Lemma process_redo_is_full_replay_witness :
  let key := mkPageKey (mkRelTag 1663 5 16384 Main) 0 in
  let edit o b := [x00; o; x00; x01; b] in
  let vs := [(10, WalRec (mkWalRecord true (edit x00 x61))); (20, WalRec (mkWalRecord false (edit x01 x62)));
             (30, Delta [mkByteEdit 2 [x63]]); (40, WalRec (mkWalRecord false (edit x03 x64)))] in
  let st := mkPostgresRedo (Some (mkRedoProc (mkMock false None 7 false []) [])) 1 in
  let H := mock_program (Some 1) in
  exists st', reconstruct key 50 vs st = (st', page_at (record_redo toy_redo) key vs) /\
    usable toy_redo st'.
Proof.
  intros key edit vs st H. apply (process_redo_is_full_replay toy_redo key 50 vs st).
  - right. intros req. by eexists _, _.
  - by_compute.
  - do 4 (constructor; [split; [by repeat constructor | by_compute] |]). constructor.
  - by_compute.
Defined.
