(* ===== verification/Repository.v ===== *)
(** The log-structured repository (src/pageserver/src/repository.rs): the
    memtable, frozen layers, relation sizes, page reads through a redo backend,
    and compaction.  Ingest of raw WAL is in WalIngest. *)

From Stdlib Require Import Sorting.Sorted.
From S2P Require Import Prelude Bytes BTree Common PageVersion Layer WalRedo.

Record CompactionStats := mkCompactionStats {
  layers_before : Z;
  layers_after : Z;
  versions_removed : Z;
  removed_layer_ids : list LayerId
}.

Definition CompactionStats_default : CompactionStats := mkCompactionStats 0 0 0 [].

Inductive PageLookup :=
| Page (page : bytes)
| NotFound.

(** A [BTreeMap<(RelTag, Lsn), u32>]. *)
Abbreviation SizeMap := (list (RelTag * Lsn * Z)).

Record Inner := mkInner {
  memtable : VersionMap;
  rel_sizes : SizeMap;
  layers : list Layer;
  uploaded : gset LayerId;
  next_layer_id : LayerId;
  freeze_threshold : Z
}.

Definition Repository_new (freeze_threshold : Z) : Inner := mkInner [] [] [] ∅ 0 freeze_threshold.

(** ** Ingest *)

Definition freeze_locked (i : Inner) : Inner :=
  match memtable i with
  | [] => i
  | es =>
      let id := next_layer_id i in
      mkInner [] (rel_sizes i) (layers i ++ [Layer_new id es]) (uploaded i) (id + 1) (freeze_threshold i)
  end.

(** The newest entry of [rel_sizes] at or below [lsn]: [range(..).next_back()]. *)
Definition size_at (sizes : SizeMap) (r : RelTag) (lsn : Lsn) : option Z :=
  snd <$> last (bt_range (r, INVALID) (r, lsn) sizes).

Definition record_size (sizes : SizeMap) (r : RelTag) (block_plus_1 : Z) (lsn : Lsn) : SizeMap :=
  let prior := default 0 (size_at sizes r lsn) in
  let size := Z.max prior block_plus_1 in
  let slot := default 0 (bt_get (r, lsn) sizes) in
  bt_insert (r, lsn) (Z.max slot size) sizes.

(** One iteration of the loop; [m.block + 1] is a [u32]. *)
Definition ingest_one (i : Inner) (m : Modification) : outcome PageError Inner :=
  if u32_max <? m_block m + 1 then Panic
  else
    let key := mkPageKey (m_rel m) (m_block m) in
    let sizes := record_size (rel_sizes i) (m_rel m) (m_block m + 1) (m_lsn m) in
    let mem := bt_insert (key, m_lsn m) (m_version m) (memtable i) in
    let i := mkInner mem sizes (layers i) (uploaded i) (next_layer_id i) (freeze_threshold i) in
    Ok (if freeze_threshold i <=? len (memtable i) then freeze_locked i else i).

Fixpoint ingest (mods : list Modification) (i : Inner) : outcome PageError Inner :=
  match mods with
  | [] => Ok i
  | m :: mods' => let? i := ingest_one i m in ingest mods' i
  end.

Definition freeze (i : Inner) : Inner := freeze_locked i.

(** ** Reads *)

(** [sort_by_key(|(l, _)| *l)], a stable sort. *)
Fixpoint insert_by_lsn (x : Lsn * PageVersion) (l : History) : History :=
  match l with
  | [] => [x]
  | y :: l' => if x.1 <=? y.1 then x :: l else y :: insert_by_lsn x l'
  end.

Definition sort_by_lsn (l : History) : History := foldr insert_by_lsn [] l.

Definition gather (i : Inner) (key : PageKey) (lsn : Lsn) (base : option (Lsn * bytes)) : History :=
  match base with Some (blsn, page) => [(blsn, Image page)] | None => [] end ++
  range_versions key lsn (memtable i) ++
  flat_map (fun l => Layer_range l key lsn) (layers i).

Definition lookup_result (res : outcome RedoError (option bytes)) : outcome PageError PageLookup :=
  match res with
  | Ok (Some page) => Ok (Page page)
  | Ok None => Ok NotFound
  | Err (Apply e) => Err e
  | Err e => Err (Redo (RedoError_to_string e))
  | Panic => Panic
  end.

Definition get_page_with_base {R} `{WalRedoManager R} (i : Inner) (key : PageKey) (lsn : Lsn)
    (base : option (Lsn * bytes)) : stateM R PageError PageLookup := fun r =>
  let '(r', res) := reconstruct key lsn (sort_by_lsn (gather i key lsn base)) r in
  (r', lookup_result res).

Definition get_page {R} `{WalRedoManager R} (i : Inner) (key : PageKey) (lsn : Lsn)
  : stateM R PageError PageLookup := get_page_with_base i key lsn None.

Definition get_rel_size (i : Inner) (r : RelTag) (lsn : Lsn) : option Z := size_at (rel_sizes i) r lsn.

(** ** Offload hooks *)

Definition pending_offload (i : Inner) : list Layer :=
  List.filter (fun l => negb (bool_decide (layer_id l ∈ uploaded i))) (layers i).

Definition mark_uploaded (id : LayerId) (i : Inner) : Inner :=
  mkInner (memtable i) (rel_sizes i) (layers i) ({[id]} ∪ uploaded i) (next_layer_id i) (freeze_threshold i).

Definition layer_count (i : Inner) : Z := len (layers i).

(** ** Compaction *)

Definition merge_layers (ls : list Layer) : VersionMap :=
  fold_left (fun merged l => bt_extend (entries l) merged) ls [].

Definition base_lsns (gc_horizon : Lsn) (merged : VersionMap) : gmap PageKey Lsn :=
  fold_left (fun bases e => if (e.1.2 <=? gc_horizon) && is_base e.2
                            then <[e.1.1 := e.1.2]> bases else bases) merged ∅.

Definition drop_keys (bases : gmap PageKey Lsn) (merged : VersionMap) : list (PageKey * Lsn) :=
  fst <$> List.filter (fun e => match bases !! e.1.1 with Some b => e.1.2 <? b | None => false end) merged.

Definition prune (gc_horizon : Lsn) (merged : VersionMap) : VersionMap :=
  fold_left (fun m k => bt_remove k m) (drop_keys (base_lsns gc_horizon merged) merged) merged.

Definition compact (gc_horizon : Lsn) (i : Inner) : Inner * CompactionStats :=
  match layers i with
  | [] => (i, CompactionStats_default)
  | ls =>
      let removed := layer_id <$> ls in
      let merged := merge_layers ls in
      let kept := prune gc_horizon merged in
      let '(ls', next) := match kept with
                          | [] => ([], next_layer_id i)
                          | _ => ([Layer_new (next_layer_id i) kept], next_layer_id i + 1)
                          end in
      let up := foldr (fun oid u => u ∖ {[oid]}) (uploaded i) removed in
      (mkInner (memtable i) (rel_sizes i) ls' up next (freeze_threshold i),
       mkCompactionStats (len ls) (len ls') (len merged - len kept) removed)
  end.

(** ** Sorting by LSN *)

Lemma insert_by_lsn_perm x l : insert_by_lsn x l ≡ₚ x :: l.
Proof.
  induction l as [|y l IH]; [done |]. cbn. case_test; [done |]. rewrite IH. apply Permutation_swap.
Qed.

Lemma sort_by_lsn_perm l : sort_by_lsn l ≡ₚ l.
Proof. induction l as [|x l IH]; [done |]. cbn. by rewrite insert_by_lsn_perm, IH. Qed.

Lemma insert_by_lsn_sorted x l :
  bt_sorted l -> (forall e, In e l -> e.1 <> x.1) -> bt_sorted (insert_by_lsn x l).
Proof.
  induction l as [|[k v] l IH]; cbn [insert_by_lsn].
  { intros _ _. by destruct x. }
  intros [Hlt Hs] Hne. destruct x as [kx vx]. cbn [fst] in *. destruct (Z.leb_spec kx k) as [Hk | Hk].
  - pose proof (Hne (k, v) (or_introl eq_refl)) as Hd. cbn in Hd.
    assert (Hkx : klt kx k) by (apply Z.compare_lt_iff; lia).
    split; [| by split]. intros e [<- | He]; [done |]. eapply klt_trans; [exact Hkx | by apply Hlt].
  - split; [| apply IH; [done |]; intros e He; apply Hne; by right].
    intros e He. apply (Permutation_in _ (insert_by_lsn_perm (kx, vx) l)) in He as [<- | He];
      [by apply Z.compare_lt_iff | by apply Hlt].
Qed.

(** With distinct LSNs the result is in strictly ascending order. *)
Lemma sort_by_lsn_sorted l : NoDup (l.*1) -> bt_sorted (sort_by_lsn l).
Proof.
  induction l as [|x l IH]; [done |]. cbn. rewrite NoDup_cons. intros [Hx Hl].
  apply insert_by_lsn_sorted; [by apply IH |]. intros e He E. apply Hx. rewrite <- E.
  apply (Permutation_in _ (sort_by_lsn_perm l)) in He. apply list_elem_of_fmap. exists e.
  split; [done | by apply list_elem_of_In].
Qed.

Lemma insert_by_lsn_split x (pre : History) b post :
  bt_sorted (pre ++ b :: post) ->
  insert_by_lsn x (pre ++ b :: post) =
  if x.1 <=? b.1 then insert_by_lsn x pre ++ b :: post else pre ++ b :: insert_by_lsn x post.
Proof.
  induction pre as [|[k v] pre IH]; cbn [app insert_by_lsn]; [by case_test |].
  intros [Hlt Hs]. rewrite (IH Hs).
  assert (Hk : k < b.1).
  { apply Z.compare_lt_iff, (Hlt b). apply in_or_app. right. by left. }
  cbn [fst]. destruct (Z.leb_spec x.1 k); destruct (Z.leb_spec x.1 b.1); try lia; done.
Qed.

(** ** What a repository holds *)

Definition all_entries (i : Inner) : list (PageKey * Lsn * PageVersion) :=
  memtable i ++ flat_map entries (layers i).

(** The maps are in key order, and no page version is held twice. *)
Definition store_ok (i : Inner) : Prop :=
  bt_sorted (memtable i) /\ Forall (fun l => bt_sorted (entries l)) (layers i) /\
  NoDup ((all_entries i).*1).

Lemma bt_insert_perm {K V} `{TotalOrder K} k (v : V) m :
  k ∉ m.*1 -> bt_insert k v m ≡ₚ (k, v) :: m.
Proof.
  induction m as [|[k' v'] m IH]; [done |]. cbn. rewrite not_elem_of_cons. intros [Hk Hm].
  destruct (kcmp k k') eqn:E; [by apply kcmp_eq in E | done |]. rewrite (IH Hm). apply Permutation_swap.
Qed.

Lemma bt_extend_perm {K V} `{TotalOrder K} (es m : list (K * V)) :
  NoDup ((es ++ m).*1) -> bt_extend es m ≡ₚ es ++ m.
Proof.
  revert m; induction es as [|[k v] es IH]; intros m; [done |]. cbn [app fmap list_fmap fst].
  rewrite NoDup_cons. intros [Hk Hnd]. unfold bt_extend. cbn [fold_left fst snd]. fold (bt_extend es (bt_insert k v m)).
  rewrite fmap_app, elem_of_app in Hk.
  assert (E : bt_insert k v m ≡ₚ (k, v) :: m) by (apply bt_insert_perm; tauto).
  rewrite IH; [by rewrite E, <- Permutation_middle |]. rewrite E, <- Permutation_middle. cbn.
  rewrite NoDup_cons, fmap_app, elem_of_app. split; [tauto | by rewrite <- fmap_app].
Qed.

Lemma merge_layers_perm_acc ls acc :
  NoDup ((acc ++ flat_map entries ls).*1) ->
  fold_left (fun merged l => bt_extend (entries l) merged) ls acc ≡ₚ acc ++ flat_map entries ls.
Proof.
  revert acc; induction ls as [|l ls IH]; intros acc; cbn [flat_map fold_left]; [by rewrite app_nil_r |].
  intros Hnd. rewrite app_assoc in Hnd |- *.
  assert (E : bt_extend (entries l) acc ≡ₚ acc ++ entries l).
  { rewrite fmap_app in Hnd. apply NoDup_app in Hnd as [Hnd _]. rewrite (Permutation_app_comm acc).
    apply bt_extend_perm. by rewrite (Permutation_app_comm (entries l)). }
  rewrite IH; [by rewrite E |]. by rewrite E.
Qed.

Lemma merge_layers_perm ls :
  NoDup ((flat_map entries ls).*1) -> merge_layers ls ≡ₚ flat_map entries ls.
Proof. apply (merge_layers_perm_acc ls []). Qed.

Lemma merge_layers_sorted ls : bt_sorted (merge_layers ls).
Proof.
  unfold merge_layers. assert (H : bt_sorted (@nil (PageKey * Lsn * PageVersion))) by done.
  revert H. generalize (@nil (PageKey * Lsn * PageVersion)).
  induction ls as [|l ls IH]; intros acc Ha; [done |]. by apply IH, bt_extend_sorted.
Qed.

Lemma bt_sorted_NoDup {K V} `{TotalOrder K} (m : list (K * V)) : bt_sorted m -> NoDup (m.*1).
Proof.
  induction m as [|[k v] m IH]; cbn; [intros _; constructor |]. intros [Hlt Hs]. apply NoDup_cons.
  split; [| by apply IH]. intros Hk. apply list_elem_of_fmap in Hk as (e & -> & He).
  apply list_elem_of_In, Hlt in He. by apply klt_irrefl in He.
Qed.

(** ** Garbage collection *)

Definition gc_base (h : Lsn) (m : VersionMap) (k : PageKey) (b : Lsn) : Prop :=
  exists v, In (k, b, v) m /\ b <= h /\ is_base v = true.

(** The scan in key order leaves the latest base at or below the horizon. *)
Lemma base_lsns_spec h m k :
  bt_sorted m ->
  match base_lsns h m !! k with
  | Some b => gc_base h m k b /\ forall b', gc_base h m k b' -> b' <= b
  | None => forall b, ~ gc_base h m k b
  end.
Proof.
  induction m as [|[[k1 l1] v1] m IH] using rev_ind; intros Hs.
  { change (base_lsns h [] !! k) with ((∅ : gmap PageKey Lsn) !! k). rewrite lookup_empty.
    intros b (v & [] & _). }
  apply bt_sorted_app in Hs as (Hs & _ & Hlt). specialize (IH Hs).
  assert (Hlast : forall b, gc_base h m k1 b -> b < l1).
  { intros b (v & Hv & _). pose proof (Hlt _ _ Hv (or_introl eq_refl)) as Hk.
    by apply klt_pair_same in Hk. }
  assert (Happ : forall b, gc_base h (m ++ [(k1, l1, v1)]) k b <->
            gc_base h m k b \/ (k = k1 /\ b = l1 /\ l1 <= h /\ is_base v1 = true)).
  { intros b. split.
    - intros (v & [Hv | [[= <- <- <-] | []]]%in_app_or & Hb); [left; by exists v | by right].
    - intros [(v & Hv & Hb) | (-> & -> & Hb)];
        [exists v | exists v1]; (split; [apply in_or_app; cbn; auto | done]). }
  unfold base_lsns. rewrite fold_left_app. cbn [fold_left fst snd]. fold (base_lsns h m).
  destruct ((l1 <=? h) && is_base v1) eqn:Hc; bool_to_prop.
  - rewrite lookup_insert. case_decide as E.
    + subst k1. split; [apply Happ; by right |].
      intros b' [Hb | (_ & -> & _)]%Happ; [apply Hlast in Hb; lia | lia].
    + destruct (base_lsns h m !! k) as [b|].
      * split; [apply Happ; left; apply IH |]. intros b' [Hb | (-> & _)]%Happ; [by apply IH | done].
      * intros b [Hb | (-> & _)]%Happ; [by apply (IH b) | done].
  - destruct (base_lsns h m !! k) as [b|].
    + split; [apply Happ; left; apply IH |].
      intros b' [Hb | (_ & _ & ? & Hv)]%Happ; [by apply IH | destruct Hc as [?|Hc]; [lia | by rewrite Hv in Hc]].
    + intros b [Hb | (_ & _ & ? & Hv)]%Happ; [by apply (IH b) | destruct Hc as [?|Hc]; [lia | by rewrite Hv in Hc]].
Qed.

Lemma remove_all_In (ks : list (PageKey * Lsn)) (m : VersionMap) :
  bt_sorted m ->
  let m' := fold_left (fun m k => bt_remove k m) ks m in
  bt_sorted m' /\ forall e, In e m' <-> In e m /\ e.1 ∉ ks.
Proof.
  revert m; induction ks as [|k ks IH]; intros m Hs; cbn [fold_left].
  { split; [done |]. intros e. split; [intros He; split; [done | apply not_elem_of_nil] | tauto]. }
  destruct (IH (bt_remove k m)) as [Hs' HIn]; [by apply bt_remove_sorted |]. split; [done |].
  intros [ke ve]. rewrite HIn, not_elem_of_cons. rewrite <- !bt_get_In by (done || by apply bt_remove_sorted).
  rewrite bt_get_remove by done. cbn [fst]. case_decide as E; [subst; intuition done | intuition congruence].
Qed.

(** A version is dropped exactly when a later base of its page is at or below
    the horizon. *)
Lemma prune_spec h m :
  bt_sorted m ->
  bt_sorted (prune h m) /\
  forall k l v, In (k, l, v) (prune h m) <->
    In (k, l, v) m /\ forall b, gc_base h m k b -> b <= l.
Proof.
  intros Hs. destruct (remove_all_In (drop_keys (base_lsns h m) m) m Hs) as [Hs' HIn].
  split; [done |]. intros k l v. unfold prune. rewrite HIn. cbn [fst].
  assert (Hd : In (k, l, v) m ->
            ((k, l) ∈ drop_keys (base_lsns h m) m <-> exists b, base_lsns h m !! k = Some b /\ l < b)).
  { intros Hv. unfold drop_keys. rewrite list_elem_of_fmap. split.
    - intros ([[k' l'] v'] & [= <- <-] & [_ He]%list_elem_of_In%filter_In). cbn in He.
      destruct (base_lsns h m !! k) as [b|]; [| done]. exists b. by bool_to_prop.
    - intros (b & Hb & Hl). exists (k, l, v). split; [done |]. apply list_elem_of_In, filter_In.
      split; [done |]. cbn. rewrite Hb. by apply Z.ltb_lt. }
  pose proof (base_lsns_spec h m k Hs) as Hb. split; intros [Hv Hn]; (split; [done |]).
  - intros b Hg. rewrite (Hd Hv) in Hn. destruct (base_lsns h m !! k) as [b'|] eqn:E; [| by apply Hb in Hg].
    apply Hb in Hg. destruct (Z.lt_ge_cases l b'); [| lia]. exfalso. apply Hn. by exists b'.
  - rewrite (Hd Hv). intros (b & Eb & Hl). rewrite Eb in Hb. destruct Hb as [Hg _]. apply Hn in Hg. lia.
Qed.

(** ** Refinement

    The abstract repository is the map of every version ever ingested; a read
    takes the range of one page up to an LSN, whatever the horizon.  [rep i M h]:
    the repository [i] holds the map [M] up to what compaction at horizons up to
    [h] may drop. *)

Record rep (i : Inner) (M : VersionMap) (h : Lsn) : Prop := {
  rep_store : store_ok i;
  rep_sorted : bt_sorted M;
  rep_sound e : In e (all_entries i) -> In e M;
  rep_complete k l v :
    In (k, l, v) M ->
    In (k, l, v) (all_entries i) \/
    exists b vb, In (k, b, vb) (all_entries i) /\ is_base vb = true /\ l < b <= h
}.

Lemma In_range_versions key lsn (m : VersionMap) l v :
  In (l, v) (range_versions key lsn m) <-> In (key, l, v) m /\ 0 <= l <= lsn.
Proof.
  unfold range_versions. rewrite bt_range_pair. rewrite <- list_elem_of_In, list_elem_of_fmap. split.
  - intros ([[k l'] v'] & [= -> ->] & [Hin Hf]%list_elem_of_In%filter_In). cbn in Hf.
    apply andb_true_iff in Hf as [Hk Hf]. apply bool_decide_eq_true in Hk as ->. unfold INVALID in Hf.
    bool_to_prop. split; [done | lia].
  - intros [Hin Hl]. exists (key, l, v). split; [done |]. apply list_elem_of_In, filter_In.
    split; [done |]. cbn. rewrite bool_decide_eq_true_2 by done. unfold INVALID.
    by rewrite !(proj2 (Z.leb_le _ _)) by lia.
Qed.

Lemma range_versions_sorted key lsn (m : VersionMap) :
  bt_sorted m -> bt_sorted (range_versions key lsn m).
Proof.
  unfold range_versions. rewrite bt_range_pair. induction m as [|[[k l] v] m IH]; [done |].
  intros [Hlt Hs]. cbn [List.filter fst snd]. case_test; [| by apply IH]. cbn [fmap list_fmap].
  split; [| by apply IH]. intros [l' v'] He. apply list_elem_of_In, list_elem_of_fmap in He.
  destruct He as ([[k2 l2] v2] & [= -> ->] & [Hin Hf]%list_elem_of_In%filter_In). cbn in Hf, Heqb |- *.
  apply andb_true_iff in Hf as [Hk _], Heqb as [Hk' _].
  apply bool_decide_eq_true in Hk, Hk'. subst. apply Hlt, klt_pair_same in Hin. by apply Z.compare_lt_iff.
Qed.

Lemma In_gather i key lsn l v :
  In (l, v) (gather i key lsn None) <-> In (key, l, v) (all_entries i) /\ 0 <= l <= lsn.
Proof.
  unfold gather, all_entries. cbn [app]. rewrite !in_app_iff, !in_flat_map, In_range_versions. split.
  - intros [[H1 H2] | (ly & Hl & Hv)]; [tauto |]. unfold Layer_range in Hv.
    apply In_range_versions in Hv as [Hv Hr]. split; [| done]. right. by exists ly.
  - intros [[Hv | (ly & Hl & Hv)] Hr]; [by left |]. right. exists ly. split; [done |].
    by apply In_range_versions.
Qed.

Lemma In_fst {A B} (l : list (A * B)) a b : In (a, b) l -> a ∈ l.*1.
Proof. intros H. apply list_elem_of_fmap. exists (a, b). by rewrite list_elem_of_In. Qed.

Lemma NoDup_fst_unique {A B} (l : list (A * B)) a b b' :
  NoDup (l.*1) -> In (a, b) l -> In (a, b') l -> b = b'.
Proof.
  induction l as [|[a1 b1] l IH]; [done |]. cbn. rewrite NoDup_cons. intros [Hn Hnd].
  intros [E1 | H1] [E2 | H2]; simplify_eq; [done | by apply In_fst in H2 | by apply In_fst in H1 | by apply IH].
Qed.

(** The versions of one page have distinct LSNs. *)
Lemma range_NoDup key lsn (m : VersionMap) : NoDup (m.*1) -> NoDup ((range_versions key lsn m).*1).
Proof.
  unfold range_versions. rewrite bt_range_pair. induction m as [|[[k l] v] m IH]; [constructor |].
  cbn [fmap list_fmap fst]. rewrite NoDup_cons. intros [Hn Hnd]. cbn [List.filter fst snd].
  case_test; [| by apply IH]. cbn [fmap list_fmap fst]. apply NoDup_cons. split; [| by apply IH].
  intros Hl. apply Hn. apply list_elem_of_fmap in Hl as ([l' v'] & -> & Hl).
  apply list_elem_of_In in Hl. apply andb_true_iff in Heqb as [Hk _].
  apply bool_decide_eq_true in Hk. cbn in Hk. subst k.
  pose proof (In_range_versions key lsn m l' v') as Hr. unfold range_versions in Hr.
  rewrite bt_range_pair in Hr. apply Hr in Hl as [Hl _]. by apply In_fst in Hl.
Qed.

Lemma range_versions_app key lsn (m1 m2 : VersionMap) :
  range_versions key lsn (m1 ++ m2) = range_versions key lsn m1 ++ range_versions key lsn m2.
Proof. unfold range_versions, bt_range. by rewrite List.filter_app, fmap_app. Qed.

Lemma gather_all i key lsn : gather i key lsn None = range_versions key lsn (all_entries i).
Proof.
  unfold gather, all_entries. cbn [app]. rewrite range_versions_app. f_equal.
  induction (layers i) as [|l ls IH]; [done |]. cbn [flat_map]. by rewrite range_versions_app, IH.
Qed.

(** The sorted history of a page in the store. *)
Definition history (i : Inner) (key : PageKey) (lsn : Lsn) : History :=
  sort_by_lsn (gather i key lsn None).

Lemma history_sorted i key lsn : store_ok i -> bt_sorted (history i key lsn).
Proof.
  intros (_ & _ & Hnd). apply sort_by_lsn_sorted. rewrite gather_all. by apply range_NoDup.
Qed.

Lemma In_history i key lsn l v :
  In (l, v) (history i key lsn) <-> In (key, l, v) (all_entries i) /\ 0 <= l <= lsn.
Proof.
  rewrite <- In_gather. unfold history. split; apply Permutation_in; [| symmetry]; apply sort_by_lsn_perm.
Qed.

(** Dropping versions that lie below a base leaves the history equal from that
    base on. *)
Lemma pruned_history (h g : History) :
  bt_sorted h -> bt_sorted g -> (forall e, In e h -> In e g) ->
  (forall e, In e g -> In e h \/ exists b, In b h /\ is_base b.2 = true /\ e.1 < b.1) ->
  h = g \/ exists pre pre' b post,
    h = pre ++ b :: post /\ g = pre' ++ b :: post /\ is_base b.2 = true.
Proof.
  intros Hh Hg Hsub Hmiss. destruct (last_base_cases h) as [[Hn _] | (pre & b & post & E & Hb & Hp & _)].
  { left. apply bt_sorted_eq; [done .. |]. intros e. split; [apply Hsub |]. intros He.
    destruct (Hmiss e He) as [|(b & Hb & Hbase & _)]; [done |].
    assert (Ht : has_base h = true) by (apply existsb_exists; by exists b). congruence. }
  right. destruct (in_split b g) as (pre' & post' & Eg); [apply Hsub; rewrite E; apply in_or_app; right; by left |].
  exists pre, pre', b, post. split; [done |]. split; [| done]. rewrite Eg. do 2 f_equal.
  subst h g. apply bt_sorted_app in Hh as (_ & Hh2 & Hh3), Hg as (_ & Hg2 & Hg3).
  destruct b as [lb vb]. destruct Hh2 as [Hh2 Hh4], Hg2 as [Hg2 Hg4]. apply bt_sorted_eq; [done .. |].
  assert (Hcases : forall x a (c : Lsn * PageVersion) p, In x (a ++ c :: p) -> In x a \/ x = c \/ In x p).
  { intros x a c p [Hx | [Hx | Hx]]%in_app_or; auto. }
  intros e. split; intros He.
  - pose proof (Hg2 e He) as Hlt. rewrite klt_Z in Hlt. cbn [fst] in Hlt.
    assert (Hin : In e (pre' ++ (lb, vb) :: post')) by (apply in_or_app; right; by right).
    destruct (Hmiss e Hin) as [Hx | ([l2 v2] & Hx & Hbase & Hlt2)]; apply Hcases in Hx as [Hx | [Hx | Hx]].
    + apply (Hh3 e (lb, vb)) in Hx; [rewrite klt_Z in Hx; cbn [fst] in Hx; lia | by left].
    + subst e. cbn in Hlt. lia.
    + done.
    + apply (Hh3 _ (lb, vb)) in Hx; [rewrite klt_Z in Hx; cbn [fst] in *; lia | by left].
    + injection Hx as -> ->. cbn in Hlt2. lia.
    + exfalso. assert (Ht : has_base post = true) by (apply existsb_exists; by exists (l2, v2)). congruence.
  - pose proof (Hh2 e He) as Hlt. rewrite klt_Z in Hlt. cbn [fst] in Hlt.
    assert (Hin : In e (pre ++ (lb, vb) :: post)) by (apply in_or_app; right; by right).
    apply Hsub, Hcases in Hin as [Hx | [Hx | Hx]]; [| | done].
    + apply (Hg3 e (lb, vb)) in Hx; [rewrite klt_Z in Hx; cbn [fst] in Hx; lia | by left].
    + subst e. cbn in Hlt. lia.
Qed.

(** The read of the abstract repository. *)
Definition spec_history (M : VersionMap) (key : PageKey) (lsn : Lsn) (base : option (Lsn * bytes)) : History :=
  match base with
  | Some (blsn, page) => insert_by_lsn (blsn, Image page) (range_versions key lsn M)
  | None => range_versions key lsn M
  end.

Lemma rep_history i M h key lsn :
  rep i M h -> h <= lsn ->
  let g := range_versions key lsn M in
  history i key lsn = g \/ exists pre pre' b post,
    history i key lsn = pre ++ b :: post /\ g = pre' ++ b :: post /\ is_base b.2 = true.
Proof.
  intros [Hs HM Hsound Hcomp] Hl g. apply pruned_history.
  - by apply history_sorted.
  - by apply range_versions_sorted.
  - intros [l v] [Hin Hr]%In_history. apply In_range_versions. split; [by apply Hsound | done].
  - intros [l v] [Hin Hr]%In_range_versions. rewrite In_history.
    destruct (Hcomp _ _ _ Hin) as [|(b & vb & Hb & Hbase & Hlt)]; [by left |]. right. exists (b, vb).
    split; [apply In_history; split; [done | lia] | split; [done | cbn; lia]].
Qed.

(** A read at or above the horizon is the read of the abstract repository. *)
Lemma rep_read {R} `{WalRedoLaws R} i M h key lsn base (r : R) :
  rep i M h -> h <= lsn ->
  reconstruct key lsn (sort_by_lsn (gather i key lsn base)) r =
  reconstruct key lsn (spec_history M key lsn base) r.
Proof.
  intros Hrep Hl. pose proof (history_sorted i key lsn (rep_store _ _ _ Hrep)) as Hs1.
  pose proof (range_versions_sorted key lsn M (rep_sorted _ _ _ Hrep)) as Hs2.
  pose proof (rep_history i M h key lsn Hrep Hl) as Hcase. cbv zeta in Hcase.
  destruct base as [[blsn pg] |]; cbn [spec_history].
  - change (sort_by_lsn (gather i key lsn (Some (blsn, pg)))) with
      (insert_by_lsn (blsn, Image pg) (history i key lsn)).
    destruct Hcase as [-> | (pre & pre' & b & post & E1 & E2 & Hb)]; [done |].
    rewrite E1, E2 in *. rewrite !insert_by_lsn_split by done.
    case_test; by rewrite !reconstruct_from_base.
  - change (sort_by_lsn (gather i key lsn None)) with (history i key lsn).
    destruct Hcase as [-> | (pre & pre' & b & post & -> & -> & Hb)]; [done |].
    by rewrite !reconstruct_from_base.
Qed.

(** ** Every operation keeps the representation *)

Definition mod_key (m : Modification) : PageKey * Lsn := (mkPageKey (m_rel m) (m_block m), m_lsn m).

Lemma rep_new t h : rep (Repository_new t) [] h.
Proof. split; [| done | done | done]. repeat split; [constructor | apply NoDup_nil_2]. Qed.

(** [rep] depends on the entries up to their order. *)
Lemma rep_perm i i' M h :
  rep i M h -> all_entries i' ≡ₚ all_entries i -> bt_sorted (memtable i') ->
  Forall (fun l => bt_sorted (entries l)) (layers i') -> rep i' M h.
Proof.
  intros [(_ & _ & Hnd) HM Hsound Hcomp] E Hm Hl.
  assert (HE : forall e, In e (all_entries i') <-> In e (all_entries i)).
  { intros e. split; apply Permutation_in; [done | by symmetry]. }
  split; [split; [done |]; split; [done |]; by rewrite E | done | |].
  - intros e. rewrite HE. apply Hsound.
  - intros k l v Hin. rewrite HE. destruct (Hcomp k l v Hin) as [|(b & vb & Hb & Hr)]; [by left |].
    right. exists b, vb. by rewrite HE.
Qed.

Lemma rep_freeze i M h : rep i M h -> rep (freeze_locked i) M h.
Proof.
  intros Hrep. destruct (rep_store _ _ _ Hrep) as (Hm & Hl & _). unfold freeze_locked.
  destruct (memtable i) as [|e es] eqn:Em; [done |]. rewrite <- Em in *.
  apply (rep_perm i); [done | | done |].
  - unfold all_entries. cbn [memtable layers]. rewrite flat_map_app. cbn [flat_map Layer_new entries].
    rewrite app_nil_r. cbn [app]. apply Permutation_app_comm.
  - cbn [layers]. apply Forall_app. split; [done |]. by constructor.
Qed.

Lemma rep_insert i M h k v sizes :
  rep i M h -> k ∉ M.*1 ->
  rep (mkInner (bt_insert k v (memtable i)) sizes (layers i) (uploaded i) (next_layer_id i) (freeze_threshold i))
    (bt_insert k v M) h.
Proof.
  intros [(Hm & Hl & Hnd) HM Hsound Hcomp] Hk.
  assert (Hkm : k ∉ (all_entries i).*1).
  { intros Hin. apply Hk. apply list_elem_of_fmap in Hin as ([k' v'] & -> & Hin).
    apply list_elem_of_In, Hsound in Hin. by apply In_fst in Hin. }
  assert (Hkm' : k ∉ (memtable i).*1).
  { intros Hin. apply Hkm. unfold all_entries. rewrite fmap_app. apply elem_of_app. by left. }
  set (i' := mkInner _ _ _ _ _ _).
  assert (E : all_entries i' ≡ₚ (k, v) :: all_entries i).
  { unfold all_entries, i'. cbn [memtable layers]. by rewrite bt_insert_perm. }
  assert (HE : forall e, In e (all_entries i') <-> e = (k, v) \/ In e (all_entries i)).
  { intros e. split; intros He.
    - apply (Permutation_in _ E) in He as [<- | He]; auto.
    - apply (Permutation_in _ (Permutation_sym E)). destruct He as [-> | He]; [by left | by right]. }
  assert (HEM : forall e, In e (bt_insert k v M) <-> e = (k, v) \/ In e M).
  { intros e. pose proof (bt_insert_perm k v M Hk) as EM. split; intros He.
    - apply (Permutation_in _ EM) in He as [<- | He]; auto.
    - apply (Permutation_in _ (Permutation_sym EM)). destruct He as [-> | He]; [by left | by right]. }
  split.
  - split; [by apply bt_insert_sorted |]. split; [done |]. rewrite E. cbn. by apply NoDup_cons.
  - by apply bt_insert_sorted.
  - intros e. rewrite HE, HEM. intros [-> | He]; [by left | right; by apply Hsound].
  - intros k' l' v' [E' | Hin]%HEM; rewrite HE; [by left; left |].
    destruct (Hcomp _ _ _ Hin) as [|(b & vb & Hb & Hr)]; [by left; right |].
    right. exists b, vb. rewrite HE. by split; [right |].
Qed.

Lemma rep_ingest_one i M h m i' :
  rep i M h -> mod_key m ∉ M.*1 -> ingest_one i m = Ok i' ->
  rep i' (bt_insert (mod_key m) (m_version m) M) h.
Proof.
  intros Hrep Hk. unfold ingest_one. case_test; [done |]. intros [= <-].
  pose proof (rep_insert i M h (mod_key m) (m_version m)
    (record_size (rel_sizes i) (m_rel m) (m_block m + 1) (m_lsn m)) Hrep Hk) as Hi.
  case_test; [by apply rep_freeze | done].
Qed.

(** The abstract effect of ingesting modifications. *)
Definition spec_ingest (mods : list Modification) (M : VersionMap) : VersionMap :=
  fold_left (fun M m => bt_insert (mod_key m) (m_version m) M) mods M.

Lemma spec_ingest_app mods1 mods2 M :
  spec_ingest (mods1 ++ mods2) M = spec_ingest mods2 (spec_ingest mods1 M).
Proof. apply fold_left_app. Qed.

Lemma bt_insert_fst {K V} `{TotalOrder K} k (v : V) m k' :
  k' ∈ (bt_insert k v m).*1 -> k' = k \/ k' ∈ m.*1.
Proof.
  intros Hk. apply list_elem_of_fmap in Hk as ([k2 v2] & -> & Hin). apply list_elem_of_In in Hin.
  apply bt_insert_In in Hin as [[= -> ->] | Hin]; [by left | right; by apply In_fst in Hin].
Qed.

Lemma spec_ingest_keys mods M k :
  k ∈ (spec_ingest mods M).*1 -> k ∈ mod_key <$> mods \/ k ∈ M.*1.
Proof.
  revert M; induction mods as [|m mods IH]; intros M; cbn; [by right |].
  intros [Hk | [-> | Hk]%bt_insert_fst]%IH; [left; by right | left; by left | by right].
Qed.

Lemma rep_ingest mods i M h i' :
  rep i M h -> NoDup (mod_key <$> mods) -> (forall m, m ∈ mods -> mod_key m ∉ M.*1) ->
  ingest mods i = Ok i' -> rep i' (spec_ingest mods M) h.
Proof.
  revert i M; induction mods as [|m mods IH]; intros i M Hrep Hnd Hf; cbn [ingest].
  { by intros [= <-]. }
  cbn in Hnd. apply NoDup_cons in Hnd as [Hm Hnd]. intros H. inv_ok. unfold spec_ingest. cbn [fold_left].
  eapply IH; [eapply rep_ingest_one; [exact Hrep | apply Hf; by left | done] | done | | exact H].
  intros m' Hm' Hk. apply bt_insert_fst in Hk as [Hk | Hk]; [| by apply (Hf m'); [right |]].
  apply Hm. rewrite <- Hk. by apply list_elem_of_fmap_2.
Qed.

Lemma compact_shape gc i :
  layers i <> [] ->
  let merged := merge_layers (layers i) in
  exists ls' next up, flat_map entries ls' = prune gc merged /\ len ls' <= 1 /\
  compact gc i =
  (mkInner (memtable i) (rel_sizes i) ls' up next (freeze_threshold i),
   mkCompactionStats (len (layers i)) (len ls') (len merged - len (prune gc merged)) (layer_id <$> layers i)).
Proof.
  intros Hne. unfold compact. destruct (layers i) as [|l ls]; [done |]. cbv zeta.
  generalize (prune gc (merge_layers (l :: ls))). intros [|e es].
  - by eexists [], _, _.
  - eexists [Layer_new _ (e :: es)], _, _. split; [cbn; by rewrite app_nil_r | by split].
Qed.

(** The entries after compaction: the memtable, and what pruning kept. *)
Lemma compact_entries gc i :
  layers i <> [] -> all_entries (compact gc i).1 = memtable i ++ prune gc (merge_layers (layers i)).
Proof.
  intros Hne. destruct (compact_shape gc i Hne) as (ls' & next & up & E & _ & ->).
  unfold all_entries. cbn. by rewrite E.
Qed.

Lemma rep_compact gc i M h : rep i M h -> gc <= h -> rep (compact gc i).1 M h.
Proof.
  intros Hrep Hgc. destruct (layers i) as [|l0 ls0] eqn:El.
  { unfold compact. by rewrite El. }
  assert (Hne : layers i <> []) by (by rewrite El). clear El.
  pose proof (compact_entries gc i Hne) as EC. destruct Hrep as [(Hm & Hl & Hnd) HM Hsound Hcomp].
  unfold all_entries in Hnd. rewrite fmap_app in Hnd. apply NoDup_app in Hnd as (Hnd1 & Hnd2 & Hnd3).
  pose proof (merge_layers_perm _ Hnd3) as EM. pose proof (merge_layers_sorted (layers i)) as HsM.
  set (merged := merge_layers (layers i)) in *. destruct (prune_spec gc merged HsM) as [HsP HP].
  assert (HEM : forall e, In e merged <-> In e (flat_map entries (layers i))).
  { intros e. split; apply Permutation_in; [done | by symmetry]. }
  assert (HE : forall k l v, In (k, l, v) (all_entries (compact gc i).1) <->
      In (k, l, v) (memtable i) \/
      (In (k, l, v) (flat_map entries (layers i)) /\ forall b, gc_base gc merged k b -> b <= l)).
  { intros k l v. rewrite EC, in_app_iff, HP, HEM. done. }
  split; [split; [| split] | done | |].
  - unfold compact. destruct (layers i); [done |]. by destruct (prune gc _).
  - unfold compact. destruct (layers i) as [|l1 ls1]; [done |]. fold merged.
    destruct (prune gc merged) eqn:Ep; cbn; [constructor |]. constructor; [exact HsP | constructor].
  - rewrite EC, fmap_app. apply NoDup_app. split; [done |]. split; [| by apply bt_sorted_NoDup].
    intros k Hk Hk'. apply (Hnd2 k Hk). apply list_elem_of_fmap in Hk' as ([[k' l'] v'] & -> & Hin).
    apply list_elem_of_In, HP in Hin as [Hin _]. apply HEM in Hin. by apply In_fst in Hin.
  - intros [[k l] v] [Hin | [Hin _]]%HE; apply Hsound, in_or_app; [by left | by right].
  - intros k l v Hin. rewrite HE.
    assert (Hkeep : forall l v, In (k, l, v) (all_entries i) ->
      In (k, l, v) (all_entries (compact gc i).1) \/
      exists b vb, In (k, b, vb) (all_entries (compact gc i).1) /\ is_base vb = true /\ l < b <= h).
    { clear l v Hin. intros l v [Hin | Hin]%in_app_or; [left; apply HE; by left |].
      pose proof (base_lsns_spec gc merged k HsM) as Hb. destruct (base_lsns gc merged !! k) as [b|].
      - destruct Hb as [(vb & Hvb & Hbh & Hbase) Hmax]. destruct (Z.lt_ge_cases l b).
        + right. exists b, vb. split; [| split; [done | lia]]. apply HE. right.
          split; [by apply HEM | exact Hmax].
        + left. apply HE. right. split; [done |]. intros b' Hb'. apply Hmax in Hb'. lia.
      - left. apply HE. right. split; [done |]. intros b Hg. by apply Hb in Hg. }
    destruct (Hcomp _ _ _ Hin) as [Ha | (b & vb & Hb & Hbase & Hr)]; rewrite <- HE; [by eapply Hkeep |].
    destruct (Hkeep _ _ Hb) as [Hb' | (b' & vb' & Hb' & Hbase' & Hr')]; right;
      [exists b, vb | exists b', vb']; (split; [done | split; [done | lia]]).
Qed.

(** ** Sequences of operations *)

Inductive repo_op :=
| OpIngest (mods : list Modification)
| OpFreeze
| OpMarkUploaded (id : LayerId)
| OpCompact (gc_horizon : Lsn).

Definition run_op (i : Inner) (op : repo_op) : outcome PageError Inner :=
  match op with
  | OpIngest mods => ingest mods i
  | OpFreeze => Ok (freeze i)
  | OpMarkUploaded id => Ok (mark_uploaded id i)
  | OpCompact gc => Ok (compact gc i).1
  end.

Fixpoint run_ops (ops : list repo_op) (i : Inner) : outcome PageError Inner :=
  match ops with
  | [] => Ok i
  | op :: ops' => let? i := run_op i op in run_ops ops' i
  end.

Definition op_mods (op : repo_op) : list Modification :=
  match op with OpIngest mods => mods | _ => [] end.

Definition op_below (lsn : Lsn) (op : repo_op) : Prop :=
  match op with OpCompact gc => gc <= lsn | _ => True end.

Lemma rep_run_ops ops i M h i' :
  rep i M h -> Forall (op_below h) ops -> NoDup (mod_key <$> flat_map op_mods ops) ->
  (forall m, m ∈ flat_map op_mods ops -> mod_key m ∉ M.*1) -> run_ops ops i = Ok i' ->
  rep i' (spec_ingest (flat_map op_mods ops) M) h.
Proof.
  intros Hrep Hb. revert i M Hrep; induction Hb as [|op ops Hop _ IH]; intros i M Hrep Hnd Hf; cbn [run_ops].
  { by intros [= <-]. }
  cbn [flat_map] in *. rewrite fmap_app in Hnd. apply NoDup_app in Hnd as (Hnd1 & Hnd2 & Hnd3).
  intros H. inv_ok. rewrite spec_ingest_app. rename x into i1.
  eapply IH; [| done | | exact H].
  - destruct op as [mods | | id | gc]; cbn in *; simplify_eq.
    + eapply rep_ingest; [done | done | | done]. intros m Hm. apply Hf, elem_of_app. by left.
    + by apply rep_freeze.
    + destruct (rep_store _ _ _ Hrep) as (Hm & Hl & _). by apply (rep_perm i).
    + by apply rep_compact.
  - intros m Hm [Hk | Hk]%spec_ingest_keys.
    + apply (Hnd2 _ Hk). by apply list_elem_of_fmap_2.
    + apply (Hf m); [apply elem_of_app; by right | done].
Qed.

(** C2: the repository serves the full history.  After any sequence of
    ingests, freezes, uploads and compactions in which no page version is
    ingested twice, a read at an LSN at or above every compaction horizon, with
    or without a base from a parent timeline, returns what the redo backend
    makes of all the versions of the page ever ingested up to that LSN:
    layering, offloading and garbage collection are invisible. *)
Theorem repository_serves_full_history {R} `{WalRedoLaws R} ops t i key lsn base (r : R) :
  run_ops ops (Repository_new t) = Ok i ->
  NoDup (mod_key <$> flat_map op_mods ops) -> Forall (op_below lsn) ops ->
  get_page_with_base i key lsn base r =
  (let '(r', res) := reconstruct key lsn
     (spec_history (spec_ingest (flat_map op_mods ops) []) key lsn base) r in (r', lookup_result res)).
Proof.
  intros Hrun Hnd Hb. pose proof (rep_run_ops ops _ _ lsn i (rep_new t lsn) Hb Hnd) as Hrep.
  unfold get_page_with_base. rewrite (rep_read i (spec_ingest (flat_map op_mods ops) []) lsn);
    [done | | lia]. apply Hrep; [intros m _; apply not_elem_of_nil | done].
Qed.

Definition demo_rel : RelTag := mkRelTag 1663 5 16384 Main.
Definition demo_ops : list repo_op :=
  [OpIngest [mkModification demo_rel 0 10 (Image zero_page); mkModification demo_rel 0 20 (Delta [mkByteEdit 0 [x61]])];
   OpIngest [mkModification demo_rel 0 30 (Image zero_page)]; OpFreeze; OpMarkUploaded 0; OpCompact 35;
   OpIngest [mkModification demo_rel 0 40 (Delta [mkByteEdit 1 [x62]])]].

Lemma repository_serves_full_history_witness :
  exists i, run_ops demo_ops (Repository_new 2) = Ok i /\ layer_count i = 1 /\
  get_page_with_base i (mkPageKey demo_rel 0) 40 None tt =
  (let '(r', res) := reconstruct (mkPageKey demo_rel 0) 40
     (spec_history (spec_ingest (flat_map op_mods demo_ops) []) (mkPageKey demo_rel 0) 40 None) tt in
   (r', lookup_result res)).
Proof.
  destruct (run_ops demo_ops (Repository_new 2)) as [i | |] eqn:E; [| by vm_compute in E | by vm_compute in E].
  exists i. split; [done |]. split.
  - assert (Hl : (let? i := run_ops demo_ops (Repository_new 2) in Ok (layer_count i)) = Ok 1) by by_compute.
    rewrite E in Hl. by injection Hl.
  - apply (repository_serves_full_history demo_ops 2 i _ 40 None tt E).
    + apply (bool_decide_unpack _). by vm_compute.
    + repeat constructor. by_compute.
Defined.

(** ** Relation sizes *)

Lemma last_sorted {K V} `{TotalOrder K} (m : list (K * V)) e :
  bt_sorted m -> In e m -> (forall e', In e' m -> e' <> e -> klt e'.1 e.1) -> last m = Some e.
Proof.
  induction m as [|e0 m IH] using rev_ind; [done |]. intros Hs Hin Hmax. rewrite last_snoc. f_equal.
  apply in_app_or in Hin as [Hin | [Hin | []]]; [| done]. apply bt_sorted_app in Hs as (_ & _ & Hlt).
  pose proof (Hlt e e0 Hin (or_introl eq_refl)) as H1.
  exfalso. apply (klt_irrefl e.1). eapply klt_trans; [exact H1 |].
  apply Hmax; [apply in_or_app; right; by left |]. intros ->. by apply klt_irrefl in H1.
Qed.

Lemma In_size_range (sizes : SizeMap) r lsn l n :
  In (r, l, n) (bt_range (r, INVALID) (r, lsn) sizes) <-> In (r, l, n) sizes /\ 0 <= l <= lsn.
Proof.
  rewrite bt_range_pair, filter_In. cbn. rewrite bool_decide_eq_true_2 by done. unfold INVALID. cbn [andb].
  rewrite andb_true_iff, !Z.leb_le. done.
Qed.

Lemma size_range_fst (sizes : SizeMap) r lsn e : In e (bt_range (r, INVALID) (r, lsn) sizes) -> e.1.1 = r.
Proof.
  rewrite bt_range_pair, filter_In. intros [_ Hb]. apply andb_true_iff in Hb as [Hb _].
  by apply bool_decide_eq_true in Hb.
Qed.

(** The newest entry at or below [lsn] decides. *)
Lemma size_at_newest (sizes : SizeMap) r lsn (l n : Z) :
  bt_sorted sizes -> bt_get (r, l) sizes = Some n -> 0 <= l <= lsn ->
  (forall (l' n' : Z), bt_get (r, l') sizes = Some n' -> l' <= lsn -> l' <= l) ->
  size_at sizes r lsn = Some n.
Proof.
  intros Hs Hg Hl Hmax. unfold size_at.
  rewrite (last_sorted _ (r, l, n)); [done | by apply bt_filter_sorted | |].
  - apply In_size_range. split; [by apply bt_get_In | done].
  - intros [[r' l'] n'] He Hne. pose proof (size_range_fst _ _ _ _ He) as Er. cbn in Er. subst r'.
    apply In_size_range in He as [He Hr]. apply bt_get_In in He; [| done].
    apply klt_pair_same. pose proof (Hmax l' n' He ltac:(lia)).
    destruct (Z.eq_dec l' l) as [-> |]; [congruence | lia].
Qed.

Lemma size_at_ext (sizes sizes' : SizeMap) r lsn :
  bt_sorted sizes -> bt_sorted sizes' ->
  (forall l : Z, 0 <= l <= lsn -> bt_get (r, l) sizes' = bt_get (r, l) sizes) ->
  size_at sizes' r lsn = size_at sizes r lsn.
Proof.
  intros Hs Hs' Hext. unfold size_at. do 2 f_equal. apply bt_sorted_eq; [by apply bt_filter_sorted .. |].
  intros [[r' l] n]. split; intros He; pose proof (size_range_fst _ _ _ _ He) as Er; cbn in Er; subst r';
    apply In_size_range in He as [He Hr]; apply In_size_range; (split; [| done]);
    (apply bt_get_In; [done |]); apply bt_get_In in He; try done; by rewrite <- He, Hext.
Qed.

(** The largest block number plus one ingested for a fork up to an LSN. *)
Definition high_water (r : RelTag) (lsn : Lsn) (mods : list Modification) : option Z :=
  fold_left (fun acc m => if bool_decide (m_rel m = r) && (m_lsn m <=? lsn)
                          then Some (Z.max (default 0 acc) (m_block m + 1)) else acc) mods None.

Record sizes_ok (sizes : SizeMap) (mods : list Modification) : Prop := {
  so_sorted : bt_sorted sizes;
  so_keys (r : RelTag) (l n : Z) : bt_get (r, l) sizes = Some n -> exists m, m ∈ mods /\ m_lsn m = l;
  so_sizes r lsn : size_at sizes r lsn = high_water r lsn mods
}.

Lemma high_water_above r lsn lsn' mods :
  (forall m, m ∈ mods -> m_lsn m <= lsn) -> lsn <= lsn' -> high_water r lsn' mods = high_water r lsn mods.
Proof.
  intros Hm Hl. unfold high_water. generalize (@None Z).
  induction mods as [|m mods IH]; intros acc; [done |]. cbn [fold_left].
  pose proof (Hm m ltac:(by left)). rewrite !(proj2 (Z.leb_le (m_lsn m) _)) by lia.
  apply IH. intros m' Hm'. apply Hm. by right.
Qed.

Lemma high_water_nonneg r lsn mods : 0 <= default 0 (high_water r lsn mods).
Proof.
  unfold high_water. assert (H : 0 <= default 0 (@None Z)) by done. revert H. generalize (@None Z).
  induction mods as [|m mods IH]; intros acc Ha; [done |]. cbn [fold_left]. apply IH.
  case_test; [| done]. change (0 <= Z.max (default 0 acc) (m_block m + 1)). lia.
Qed.

Lemma record_size_ok sizes mods m :
  sizes_ok sizes mods -> 0 <= m_lsn m -> (forall m', m' ∈ mods -> m_lsn m' <= m_lsn m) ->
  sizes_ok (record_size sizes (m_rel m) (m_block m + 1) (m_lsn m)) (mods ++ [m]).
Proof.
  intros [Hs Hk Hz] H0 Hmax. set (sizes' := record_size _ _ _ _).
  assert (Hs' : bt_sorted sizes') by (by apply bt_insert_sorted). split; [done | |].
  - intros r l n Hg. unfold sizes', record_size in Hg. rewrite bt_get_insert in Hg. case_decide as E.
    + injection E as _ El. exists m. split; [apply elem_of_app; right; by left | done].
    + apply Hk in Hg as (m' & Hm' & El). exists m'. split; [apply elem_of_app; by left | done].
  - intros r lsn. unfold high_water. rewrite fold_left_app. cbn [fold_left]. fold (high_water r lsn mods).
    destruct (bool_decide_reflect (m_rel m = r)) as [<- | Hr]; cbn [andb].
    2: { rewrite <- Hz. apply size_at_ext; [done .. |]. intros l _. apply bt_get_insert_ne. congruence. }
    destruct (Z.leb_spec (m_lsn m) lsn) as [Hl | Hl].
    2: { rewrite <- Hz. apply size_at_ext; [done .. |]. intros l ?. apply bt_get_insert_ne. intros [= E]. lia. }
    assert (Hslot : default 0 (bt_get (m_rel m, m_lsn m) sizes) <= default 0 (size_at sizes (m_rel m) (m_lsn m))).
    { destruct (bt_get (m_rel m, m_lsn m) sizes) as [n|] eqn:Eg.
      - rewrite (size_at_newest _ _ _ (m_lsn m) n); [done | done | done | lia |]. intros; lia.
      - rewrite Hz. apply high_water_nonneg. }
    rewrite (size_at_newest _ _ _ (m_lsn m) _ Hs' (bt_get_insert_eq _ _ _)); [| lia |].
    + f_equal. rewrite (high_water_above _ (m_lsn m) lsn) by done. rewrite <- Hz. lia.
    + intros l' n' Hg _. unfold sizes', record_size in Hg. rewrite bt_get_insert in Hg.
      case_decide as E; [injection E as E; lia |]. apply Hk in Hg as (m' & Hm' & <-). by apply Hmax.
Qed.

Lemma freeze_rel_sizes i : rel_sizes (freeze_locked i) = rel_sizes i.
Proof. unfold freeze_locked. by destruct (memtable i). Qed.

Lemma ingest_one_rel_sizes i m i' :
  ingest_one i m = Ok i' -> rel_sizes i' = record_size (rel_sizes i) (m_rel m) (m_block m + 1) (m_lsn m).
Proof.
  unfold ingest_one. case_test; [done |]. intros [= <-]. case_test; [by rewrite freeze_rel_sizes | done].
Qed.

Lemma compact_rel_sizes gc i : rel_sizes (compact gc i).1 = rel_sizes i.
Proof. unfold compact. destruct (layers i); [done |]. by destruct (prune gc _). Qed.

(** Modifications in the order of their LSNs. *)
Definition lsn_ordered (mods : list Modification) : Prop :=
  Forall (fun m => 0 <= m_lsn m /\ 0 <= m_block m) mods /\
  StronglySorted (fun a b => m_lsn a <= m_lsn b) mods.

Lemma lsn_ordered_app mods1 mods2 :
  lsn_ordered (mods1 ++ mods2) -> lsn_ordered mods1 /\ forall a b, a ∈ mods1 -> b ∈ mods2 -> m_lsn a <= m_lsn b.
Proof.
  intros [Hf Hs]. apply Forall_app in Hf as [Hf1 Hf2].
  enough (StronglySorted (fun a b => m_lsn a <= m_lsn b) mods1 /\
          forall a b, a ∈ mods1 -> b ∈ mods2 -> m_lsn a <= m_lsn b) by (unfold lsn_ordered; tauto).
  clear Hf1 Hf2. induction mods1 as [|m mods1 IH]; cbn in Hs.
  { split; [constructor | by intros a b ?%not_elem_of_nil]. }
  apply StronglySorted_inv in Hs as [Hs Hm]. apply Forall_app in Hm as [Hm1 Hm2]. destruct (IH Hs) as [IH1 IH2].
  split; [by constructor |]. intros a b Ha Hb. apply elem_of_cons in Ha as [-> | Ha]; [| by apply IH2].
  rewrite Forall_forall in Hm2. by apply Hm2.
Qed.

Lemma ingest_sizes_ok mods i done_mods i' :
  sizes_ok (rel_sizes i) done_mods -> lsn_ordered (done_mods ++ mods) -> ingest mods i = Ok i' ->
  sizes_ok (rel_sizes i') (done_mods ++ mods).
Proof.
  revert i done_mods; induction mods as [|m mods IH]; intros i dm Hok Hord; cbn [ingest].
  { intros [= <-]. by rewrite app_nil_r. }
  intros H. inv_ok. rewrite cons_middle, app_assoc in Hord |- *. eapply IH; [| done | exact H].
  erewrite ingest_one_rel_sizes by eassumption. apply lsn_ordered_app in Hord as [[Hf Hs] _].
  apply record_size_ok; [done | |].
  - rewrite Forall_app, Forall_singleton in Hf. apply Hf.
  - intros m' Hm'. eapply lsn_ordered_app; [split; [exact Hf | exact Hs] | done | by left].
Qed.

Lemma run_ops_sizes_ok ops i dm i' :
  sizes_ok (rel_sizes i) dm -> lsn_ordered (dm ++ flat_map op_mods ops) -> run_ops ops i = Ok i' ->
  sizes_ok (rel_sizes i') (dm ++ flat_map op_mods ops).
Proof.
  revert i dm; induction ops as [|op ops IH]; intros i dm Hok Hord; cbn [run_ops flat_map].
  { intros [= <-]. by rewrite app_nil_r. }
  intros H. inv_ok. cbn [flat_map] in Hord. rewrite app_assoc in Hord |- *.
  eapply IH; [| done | exact H]. apply lsn_ordered_app in Hord as [Hord _].
  destruct op as [mods | | id | gc]; cbn [run_op op_mods] in *; rewrite ?app_nil_r in *; inv_ok; subst.
  - by eapply ingest_sizes_ok.
  - unfold freeze. by rewrite freeze_rel_sizes.
  - done.
  - by rewrite compact_rel_sizes.
Qed.

Lemma high_water_snoc r lsn mods m :
  high_water r lsn (mods ++ [m]) =
  if bool_decide (m_rel m = r) && (m_lsn m <=? lsn)
  then Some (Z.max (default 0 (high_water r lsn mods)) (m_block m + 1)) else high_water r lsn mods.
Proof. unfold high_water. by rewrite fold_left_app. Qed.

Definition touches (r : RelTag) (lsn : Lsn) (m : Modification) : Prop := m_rel m = r /\ m_lsn m <= lsn.

Lemma high_water_spec r lsn mods :
  Forall (fun m => 0 <= m_block m) mods ->
  match high_water r lsn mods with
  | Some n => (exists m, m ∈ mods /\ touches r lsn m /\ n = m_block m + 1) /\
              forall m, m ∈ mods -> touches r lsn m -> m_block m + 1 <= n
  | None => forall m, m ∈ mods -> ~ touches r lsn m
  end.
Proof.
  induction mods as [|m mods IH] using rev_ind; intros Hb; [by intros m ?%not_elem_of_nil |].
  rewrite Forall_app, Forall_singleton in Hb. destruct Hb as [Hb Hm]. specialize (IH Hb).
  rewrite high_water_snoc. destruct (bool_decide _ && _) eqn:Ht.
  - apply andb_true_iff in Ht as [Hr Hl]. apply bool_decide_eq_true in Hr. bool_to_prop.
    assert (Htm : touches r lsn m) by done. clear Hr Hl.
    destruct (high_water r lsn mods) as [n|]; cbn [from_option]; unfold id.
    + destruct IH as [(m1 & Hm1 & Ht1 & ->) Hmax]. split.
      * destruct (Z.le_ge_cases (m_block m1 + 1) (m_block m + 1));
          [exists m | exists m1]; rewrite elem_of_app, list_elem_of_singleton; (split; [auto |]); (split; [done |]); lia.
      * intros m2 [Hm2 | ->%list_elem_of_singleton]%elem_of_app Ht2; [apply Hmax in Hm2; [lia | done] | lia].
    + split; [exists m; rewrite elem_of_app, list_elem_of_singleton; (split; [auto |]); (split; [done |]); lia |].
      intros m2 [Hm2 | ->%list_elem_of_singleton]%elem_of_app Ht2; [by apply IH in Ht2 | lia].
  - assert (Htm : ~ touches r lsn m).
    { intros [Hr Hl]. rewrite bool_decide_eq_true_2 in Ht by done. cbn in Ht. bool_to_prop. lia. }
    destruct (high_water r lsn mods) as [n|].
    + destruct IH as [(m1 & Hm1 & Ht1 & ->) Hmax]. split; [exists m1; rewrite elem_of_app; auto |].
      intros m2 [Hm2 | ->%list_elem_of_singleton]%elem_of_app Ht2; [by apply Hmax | done].
    + intros m2 [Hm2 | ->%list_elem_of_singleton]%elem_of_app; [by apply IH | done].
Qed.

(** Relation sizes are exact.  When modifications arrive in LSN order, the
    size reported for a fork at an LSN is one more than the largest block
    touched up to that LSN, and there is none exactly when nothing was touched,
    whatever freezes, uploads and compactions happen in between. *)
Theorem relation_size_is_high_water ops t i r lsn :
  run_ops ops (Repository_new t) = Ok i -> lsn_ordered (flat_map op_mods ops) ->
  match get_rel_size i r lsn with
  | Some n => (exists m, m ∈ flat_map op_mods ops /\ touches r lsn m /\ n = m_block m + 1) /\
              forall m, m ∈ flat_map op_mods ops -> touches r lsn m -> m_block m + 1 <= n
  | None => forall m, m ∈ flat_map op_mods ops -> ~ touches r lsn m
  end.
Proof.
  intros Hrun Hord. assert (H0 : sizes_ok (rel_sizes (Repository_new t)) []) by done.
  pose proof (run_ops_sizes_ok ops _ [] i H0 Hord Hrun) as Hok. unfold get_rel_size.
  rewrite (so_sizes _ _ Hok). apply high_water_spec. eapply Forall_impl; [apply Hord |]. by intros m [_ ?].
Qed.

Lemma relation_size_is_high_water_witness :
  exists i, run_ops demo_ops (Repository_new 2) = Ok i /\ get_rel_size i demo_rel 40 = Some 1 /\
  exists m, m ∈ flat_map op_mods demo_ops /\ touches demo_rel 40 m /\ 1 = m_block m + 1.
Proof.
  destruct (run_ops demo_ops (Repository_new 2)) as [i | |] eqn:E; [| by vm_compute in E | by vm_compute in E].
  exists i. split; [done |].
  assert (Hn : (let? i := run_ops demo_ops (Repository_new 2) in Ok (get_rel_size i demo_rel 40)) = Ok (Some 1))
    by by_compute.
  rewrite E in Hn. injection Hn as Hn. split; [done |].
  pose proof (relation_size_is_high_water demo_ops 2 i demo_rel 40 E) as Hc. rewrite Hn in Hc. apply Hc.
  split; repeat constructor; by_compute.
Defined.

(** ** What compaction keeps, and what a read can return *)

Definition layer_entries (i : Inner) : VersionMap := flat_map entries (layers i).

Lemma gc_base_perm h (m m' : VersionMap) k b : m ≡ₚ m' -> gc_base h m k b -> gc_base h m' k b.
Proof. intros E (v & Hv & Hb). exists v. split; [by apply (Permutation_in _ E) | done]. Qed.

(** A store represents what it holds. *)
Lemma rep_self i h : store_ok i -> rep i (bt_extend (all_entries i) []) h.
Proof.
  intros Hok. assert (E : bt_extend (all_entries i) [] ≡ₚ all_entries i).
  { rewrite bt_extend_perm; rewrite app_nil_r; [done | apply Hok]. }
  split; [done | by apply bt_extend_sorted | |].
  - intros e. by apply Permutation_in.
  - intros k l v He. left. by apply (Permutation_in _ E).
Qed.

(** C35: compaction drops exactly the unreachable.  The frozen layers become at
    most one; a frozen version survives exactly when no base of its page lies
    after it at or below the horizon; the memtable is untouched, no version is
    held twice, and the statistics count what was dropped. *)
Theorem compaction_drops_exactly_superseded i gc :
  store_ok i ->
  let i' := (compact gc i).1 in let stats := (compact gc i).2 in
  (forall k l v, In (k, l, v) (layer_entries i') <->
     In (k, l, v) (layer_entries i) /\ forall b, gc_base gc (layer_entries i) k b -> b <= l) /\
  memtable i' = memtable i /\ store_ok i' /\ layer_count i' <= Z.min 1 (layer_count i) /\
  versions_removed stats = len (layer_entries i) - len (layer_entries i') /\
  removed_layer_ids stats = layer_id <$> layers i.
Proof.
  intros Hok. cbv zeta. assert (Hnd : NoDup ((layer_entries i).*1)).
  { destruct Hok as (_ & _ & Hnd). unfold all_entries in Hnd. rewrite fmap_app in Hnd.
    by apply NoDup_app in Hnd as (_ & _ & Hnd). }
  assert (Hok' : store_ok (compact gc i).1).
  { apply (rep_store _ (bt_extend (all_entries i) []) gc). apply rep_compact; [by apply rep_self | lia]. }
  unfold layer_count. destruct (layers i) as [|l0 ls0] eqn:El.
  { unfold compact in *. unfold layer_entries in *. rewrite El in *. cbn [fst snd] in *. rewrite El.
    split; [by intros; split; [intros [] | intros [[] _]] |]. split; [done |]. by split. }
  rewrite <- El. pose proof (merge_layers_perm (layers i) Hnd) as EM.
  destruct (prune_spec gc _ (merge_layers_sorted (layers i))) as [_ HP].
  destruct (compact_shape gc i ltac:(by rewrite El)) as (ls' & next & up & HL & Hc & EC).
  rewrite EC in *. cbn [fst snd versions_removed removed_layer_ids] in *. set (i' := mkInner _ _ ls' _ _ _) in *.
  change (layer_entries i' = prune gc (merge_layers (layers i))) in HL. rewrite HL.
  assert (Hlen : len (merge_layers (layers i)) = len (layer_entries i)) by (unfold len; by rewrite EM).
  split; [| split; [done | split; [done |]]].
  - intros k l v. rewrite HP.
    split; intros [Hin Hg]; (split; [revert Hin; apply Permutation_in; by first [exact EM | symmetry] |]);
      intros b Hb; apply Hg; (eapply gc_base_perm; [| exact Hb]); by first [exact EM | symmetry].
  - rewrite Hlen. split; [| done]. change (len ls' <= Z.min 1 (len (layers i))). rewrite El, len_cons. pose proof (len_nonneg ls0). lia.
Qed.

Lemma compaction_drops_exactly_superseded_witness :
  let k := mkPageKey demo_rel 0 in
  let i := mkInner [] [] [mkLayer 0 [(k, 10, Image zero_page)]; mkLayer 1 [(k, 20, Image zero_page)]] ∅ 2 8 in
  store_ok i /\ ~ In (k, 10, Image zero_page) (layer_entries (compact 25 i).1).
Proof.
  intros k i. assert (Hok : store_ok i).
  { split; [done |]. split; [repeat constructor; by intros |]. apply (bool_decide_unpack _). by vm_compute. }
  split; [done |]. destruct (compaction_drops_exactly_superseded i 25 Hok) as [Hin _].
  intros Hk. destruct (proj1 (Hin k 10 (Image zero_page)) Hk) as [_ Hg]. assert (Hb : gc_base 25 (layer_entries i) k 20).
  { exists (Image zero_page). split; [right; by left | split; [lia | done]]. }
  apply Hg in Hb. lia.
Defined.

Lemma sort_has_base l : has_base (sort_by_lsn l) = has_base l.
Proof.
  unfold has_base. apply eq_iff_eq_true. rewrite !existsb_exists.
  split; intros (e & He & Hb); exists e; (split; [| done]); revert He; apply Permutation_in;
    [| symmetry]; apply sort_by_lsn_perm.
Qed.

Lemma gather_ok i key lsn base :
  Forall (fun e => version_ok e.2) (all_entries i) -> history_ok (gather i key lsn base).
Proof.
  intros Ha. unfold history_ok. assert (Hn : Forall (fun e => version_ok e.2) (gather i key lsn None)).
  { apply Forall_forall. intros [l v] He. apply list_elem_of_In, In_gather in He as [He _].
    apply list_elem_of_In in He. by apply (proj1 (Forall_forall _ _) Ha (key, l, v)). }
  destruct base as [[blsn pg]|]; [| done]. by constructor.
Qed.

(** Page reads are total.  A read never panics: it returns a page of
    exactly the page size, reports that the page does not exist exactly when no
    base is at or below the LSN, or returns the error of the redo backend. *)
Theorem page_reads_are_total {R} `{WalRedoLaws R} i key lsn base (r : R) :
  Forall (fun e => version_ok e.2) (all_entries i) ->
  match (get_page_with_base i key lsn base r).2 with
  | Ok (Page page) => len page = PAGE_SIZE
  | Ok NotFound => has_base (gather i key lsn base) = false
  | Err _ => has_base (gather i key lsn base) = true
  | Panic => False
  end.
Proof.
  intros Ha. pose proof (gather_ok i key lsn base Ha) as Hok. set (vs := gather i key lsn base) in *.
  assert (Hs : history_ok (sort_by_lsn vs)) by (unfold history_ok in *; by rewrite sort_by_lsn_perm).
  unfold get_page_with_base. fold vs. rewrite <- (sort_has_base vs).
  pose proof (reconstruct_no_panic key lsn _ r Hs) as Hp.
  pose proof (reconstruct_no_base key lsn (sort_by_lsn vs) r) as Hn.
  destruct (reconstruct key lsn (sort_by_lsn vs) r) as [r' [[p|] | e |]] eqn:E; cbn [snd lookup_result] in *.
  - by eapply reconstruct_size in E.
  - by eapply reconstruct_found in E.
  - destruct (has_base (sort_by_lsn vs)); [by destruct e | by specialize (Hn eq_refl)].
  - done.
Qed.

Lemma page_reads_are_total_witness :
  let i := mkInner [(mkPageKey demo_rel 0, 10, Delta [mkByteEdit 0 [x61]])] [] [] ∅ 0 8 in
  (get_page_with_base i (mkPageKey demo_rel 0) 10 None tt).2 = Ok NotFound /\
  has_base (gather i (mkPageKey demo_rel 0) 10 None) = false.
Proof.
  intros i. assert (E : (get_page_with_base i (mkPageKey demo_rel 0) 10 None tt).2 = Ok NotFound) by by_compute.
  split; [done |]. pose proof (page_reads_are_total i (mkPageKey demo_rel 0) 10 None tt) as Hc.
  rewrite E in Hc. apply Hc. repeat constructor. by_compute.
Defined.

(** A version ingested again after its first copy was frozen does not replace
    it: in the memtable it would have. *)
Lemma reingest_after_freeze_is_shadowed :
  let m b := mkModification demo_rel 0 10 (Image (replicate (Z.to_nat PAGE_SIZE) b)) in
  let read ops := let? i := run_ops ops (Repository_new 100) in
                  let? p := (get_page (R := unit) i (mkPageKey demo_rel 0) 10 tt).2 in
                  match p with Page pg => Ok (take 1 pg) | NotFound => Ok [] end in
  read [OpIngest [m x61]; OpIngest [m x62]] = Ok [x62] /\
  read [OpIngest [m x61]; OpFreeze; OpIngest [m x62]] = Ok [x61].
Proof. by_compute. Qed.
