(* ===== verification/WalDecode.v ===== *)
(** The WAL record decoder (src/pageserver/src/waldecode.rs): full-page images
    and their compression, and the generic layer of one record.  Framing of the
    byte stream is in WalStream.

    LZ4 and Zstandard are library calls and arguments of the model
    ([Decompressors]); pglz is the repository's own code. *)

From S2P Require Import Prelude Bytes Common.

Definition XLOG_BLCKSZ : Z := PAGE_SIZE.
Definition SIZE_OF_XLOG_RECORD : Z := 24.

Definition XLR_MAX_BLOCK_ID : Z := 32.
Definition XLR_BLOCK_ID_DATA_SHORT : Z := 255.
Definition XLR_BLOCK_ID_DATA_LONG : Z := 254.
Definition XLR_BLOCK_ID_ORIGIN : Z := 253.
Definition XLR_BLOCK_ID_TOPLEVEL_XID : Z := 252.

Definition BKPBLOCK_FORK_MASK : Z := 0x0F.
Definition BKPBLOCK_HAS_IMAGE : Z := 0x10.
Definition BKPBLOCK_HAS_DATA : Z := 0x20.
Definition BKPBLOCK_WILL_INIT : Z := 0x40.
Definition BKPBLOCK_SAME_REL : Z := 0x80.

Definition BKPIMAGE_HAS_HOLE : Z := 0x01.
Definition BKPIMAGE_APPLY : Z := 0x02.
Definition BKPIMAGE_COMPRESS_PGLZ : Z := 0x04.
Definition BKPIMAGE_COMPRESS_LZ4 : Z := 0x08.
Definition BKPIMAGE_COMPRESS_ZSTD : Z := 0x10.
Definition BKPIMAGE_COMPRESSED : Z :=
  Z.lor (Z.lor BKPIMAGE_COMPRESS_PGLZ BKPIMAGE_COMPRESS_LZ4) BKPIMAGE_COMPRESS_ZSTD.

Inductive Compression := NoCompression | Pglz | Lz4 | Zstd.

Inductive WalDecodeError :=
| Truncated (what : string)
| BadTotalLen (declared actual : Z)
| ShortTotalLen (declared : Z)
| BadBlockId (id : Z)
| SameRelWithoutPrev
| BadFork (fork : Z)
| BadPageMagic (got want : Z)
| BadImageSize (got want : Z)
| Decompress (c : Compression)
| BadHole (offset length : Z).

Record DecodedImage := mkDecodedImage {
  im_bytes : bytes;
  hole_offset : Z;
  hole_length : Z;
  compression : Compression;
  apply : bool
}.

(** [info & bit != 0] *)
Definition has_bit (info bit : Z) : bool := negb (Z.land info bit =? 0).

(** ** pglz *)

(** [for _ in 0..len]: copy from [off] bytes back, stopping at [dst_len]. *)
Fixpoint copy_back (n : nat) (off dst_len : Z) (dst : bytes) : outcome WalDecodeError bytes :=
  match n with
  | O => Ok dst
  | S n' =>
      if dst_len <=? len dst then Ok dst
      else
        let? b := index dst (len dst - off) in
        copy_back n' off dst_len (dst ++ [b])
  end.

(** The tokens under one control byte, from bit [8 - k] on. *)
Fixpoint pglz_tokens (k : nat) (ctrl : Z) (src : bytes) (dst_len sp : Z) (dst : bytes)
  : outcome WalDecodeError (Z * bytes) :=
  match k with
  | O => Ok (sp, dst)
  | S k' =>
      if (len src <=? sp) || (dst_len <=? len dst) then Ok (sp, dst)
      else if Z.land (Z.shiftr ctrl (8 - Z.of_nat k)) 1 =? 0 then
        let? b := index src sp in
        pglz_tokens k' ctrl src dst_len (sp + 1) (dst ++ [b])
      else if len src <=? sp + 1 then Err (Decompress Pglz)
      else
        let? b0 := get_u8 src sp in
        let? b1 := get_u8 src (sp + 1) in
        let n := Z.land b0 0x0f + 3 in
        let off := Z.lor (Z.shiftl (Z.land b0 0xf0) 4) b1 in
        let sp := sp + 2 in
        let? (n, sp) :=
          (if n =? 18 then
             if len src <=? sp then Err (Decompress Pglz)
             else let? e := get_u8 src sp in Ok (n + e, sp + 1)
           else Ok (n, sp)) in
        if (off =? 0) || (len dst <? off) then Err (Decompress Pglz)
        else
          let? dst := copy_back (Z.to_nat n) off dst_len dst in
          pglz_tokens k' ctrl src dst_len sp dst
  end.

(** Every iteration consumes a control byte, so [length src] bounds them. *)
Fixpoint pglz_loop (fuel : nat) (src : bytes) (dst_len sp : Z) (dst : bytes)
  : outcome WalDecodeError bytes :=
  match fuel with
  | O => Ok dst
  | S fuel' =>
      if (sp <? len src) && (len dst <? dst_len) then
        let? ctrl := get_u8 src sp in
        let? (sp, dst) := pglz_tokens 8 ctrl src dst_len (sp + 1) dst in
        pglz_loop fuel' src dst_len sp dst
      else Ok dst
  end.

Definition pglz_decompress (src : bytes) (dst_len : Z) : outcome WalDecodeError bytes :=
  pglz_loop (length src) src dst_len 0 [].

(** ** Restoring an image *)

Class Decompressors := {
  lz4_decompress : bytes -> Z -> option bytes;
  zstd_decompress : bytes -> Z -> option bytes
}.

Section Restore.
Context `{Decompressors}.

Definition image_body (im : DecodedImage) (body_len : Z) : outcome WalDecodeError bytes :=
  match compression im with
  | NoCompression =>
      ensure len (im_bytes im) =? body_len else BadImageSize (len (im_bytes im)) body_len in
      Ok (im_bytes im)
  | Pglz => pglz_decompress (im_bytes im) body_len
  | Lz4 => ok_or (lz4_decompress (im_bytes im) body_len) (Decompress Lz4)
  | Zstd => ok_or (zstd_decompress (im_bytes im) body_len) (Decompress Zstd)
  end.

Definition restore (im : DecodedImage) : outcome WalDecodeError bytes :=
  let hl := hole_length im in
  let ho := hole_offset im in
  ensure negb (XLOG_BLCKSZ <? ho + hl) else BadHole ho hl in
  let body_len := XLOG_BLCKSZ - hl in
  let? body := image_body im body_len in
  ensure len body =? body_len else BadImageSize (len body) body_len in
  let? before := slice body 0 ho in
  let? after := slice body ho (len body) in
  Ok (before ++ replicate (Z.to_nat hl) x00 ++ after).
End Restore.

(** ** Records *)

Record DecodedBlock := mkDecodedBlock {
  db_rel : RelTag;
  db_blkno : Z;
  db_will_init : bool;
  db_image : option DecodedImage;
  db_data : bytes
}.

Record DecodedWalRecord := mkDecodedWalRecord {
  dr_lsn : Lsn;
  dr_rmid : Z;
  dr_info : Z;
  dr_xid : Z;
  dr_main_data : bytes;
  dr_blocks : list DecodedBlock
}.

Definition compression_from_info (bimg_info : Z) : Compression :=
  if has_bit bimg_info BKPIMAGE_COMPRESS_PGLZ then Pglz
  else if has_bit bimg_info BKPIMAGE_COMPRESS_LZ4 then Lz4
  else if has_bit bimg_info BKPIMAGE_COMPRESS_ZSTD then Zstd
  else NoCompression.

Record Cursor := mkCursor {
  c_buf : bytes;
  c_pos : Z
}.

Abbreviation decoder := (stateM Cursor WalDecodeError).

Definition Cursor_u8 (what : string) : decoder Z := fun c =>
  match get (c_buf c) (c_pos c) with
  | Some b => (mkCursor (c_buf c) (c_pos c + 1), Ok (b2z b))
  | None => (c, Err (Truncated what))
  end.

Definition Cursor_take (n : Z) (what : string) : decoder bytes := fun c =>
  if len (c_buf c) - c_pos c <? n then (c, Err (Truncated what))
  else match slice (E := WalDecodeError) (c_buf c) (c_pos c) (c_pos c + n) with
       | Ok s => (mkCursor (c_buf c) (c_pos c + n), Ok s)
       | _ => (c, Panic)
       end.

Definition Cursor_u16 (what : string) : decoder Z := let! s := Cursor_take 2 what in sret (le_val s).
Definition Cursor_u32 (what : string) : decoder Z := let! s := Cursor_take 4 what in sret (le_val s).
Definition Cursor_u64 (what : string) : decoder Z := let! s := Cursor_take 8 what in sret (le_val s).
Definition Cursor_skip (n : Z) (what : string) : decoder unit := let! _ := Cursor_take n what in sret tt.

Record ImageMeta := mkImageMeta {
  bimg_len : Z;
  meta_hole_offset : Z;
  meta_hole_length : Z;
  meta_compression : Compression;
  meta_apply : bool
}.

Record BlockWork := mkBlockWork {
  bw_rel : RelTag;
  bw_blkno : Z;
  bw_will_init : bool;
  bw_has_data : bool;
  bw_data_len : Z;
  image_meta : option ImageMeta
}.

Abbreviation Locator := (Z * Z * Z)%type.

Definition image_header : decoder ImageMeta :=
  let! n := Cursor_u16 "bimg_len" in
  let! ho := Cursor_u16 "hole_offset" in
  let! bimg_info := Cursor_u8 "bimg_info" in
  let has_hole := has_bit bimg_info BKPIMAGE_HAS_HOLE in
  let! hl := (if has_hole && has_bit bimg_info BKPIMAGE_COMPRESSED then Cursor_u16 "hole_length"
              else if has_hole then slift (sub_checked XLOG_BLCKSZ n)
              else sret 0) in
  sret (mkImageMeta n ho hl (compression_from_info bimg_info) (has_bit bimg_info BKPIMAGE_APPLY)).

(** One registered block; [last] is the relation a [SAME_REL] block inherits. *)
Definition block_header (last : option Locator) : decoder (BlockWork * option Locator) :=
  let! fork_flags := Cursor_u8 "fork_flags" in
  let! data_len := Cursor_u16 "block data_len" in
  let fork_raw := Z.land fork_flags BKPBLOCK_FORK_MASK in
  let! meta := (if has_bit fork_flags BKPBLOCK_HAS_IMAGE
                then let! m := image_header in sret (Some m) else sret None) in
  let! loc := (if has_bit fork_flags BKPBLOCK_SAME_REL
               then slift (ok_or last SameRelWithoutPrev)
               else let! spc := Cursor_u32 "spcOid" in
                    let! db := Cursor_u32 "dbOid" in
                    let! relnode := Cursor_u32 "relNumber" in
                    sret (spc, db, relnode)) in
  let! blkno := Cursor_u32 "blkno" in
  let! fork := slift (ok_or (ForkNumber_from_raw fork_raw) (BadFork fork_raw)) in
  let '(spc, db, relnode) := loc in
  sret (mkBlockWork (mkRelTag spc db relnode fork) blkno (has_bit fork_flags BKPBLOCK_WILL_INIT)
          (has_bit fork_flags BKPBLOCK_HAS_DATA) data_len meta, Some loc).

(** The header section up to the main-data length; every iteration reads a
    block id, so the length of the record bounds them. *)
Fixpoint header_section (fuel : nat) (last : option Locator) : decoder (list BlockWork * Z) :=
  let! block_id := Cursor_u8 "block_id" in
  match fuel with
  | O => spanic
  | S fuel' =>
      if block_id =? XLR_BLOCK_ID_DATA_SHORT then
        let! n := Cursor_u8 "main_data_len" in sret ([], n)
      else if block_id =? XLR_BLOCK_ID_DATA_LONG then
        let! n := Cursor_u32 "main_data_len" in sret ([], n)
      else if block_id =? XLR_BLOCK_ID_ORIGIN then
        let! _ := Cursor_skip 2 "replication origin" in header_section fuel' last
      else if block_id =? XLR_BLOCK_ID_TOPLEVEL_XID then
        let! _ := Cursor_skip 8 "toplevel xid" in header_section fuel' last
      else if block_id <=? XLR_MAX_BLOCK_ID then
        let! (b, last) := block_header last in
        let! (bs, n) := header_section fuel' last in
        sret (b :: bs, n)
      else serr (BadBlockId block_id)
  end.

Fixpoint data_section (blocks : list BlockWork) : decoder (list DecodedBlock) :=
  match blocks with
  | [] => sret []
  | b :: bs =>
      let! image := match image_meta b with
                    | Some m =>
                        let! s := Cursor_take (bimg_len m) "block image" in
                        sret (Some (mkDecodedImage s (meta_hole_offset m) (meta_hole_length m)
                                      (meta_compression m) (meta_apply m)))
                    | None => sret None
                    end in
      let! data := (if bw_has_data b then Cursor_take (bw_data_len b) "block data" else sret []) in
      let! rest := data_section bs in
      sret (mkDecodedBlock (bw_rel b) (bw_blkno b) (bw_will_init b) image data :: rest)
  end.

Definition decode_record (lsn : Lsn) (record : bytes) : decoder DecodedWalRecord :=
  let! xl_tot_len := Cursor_u32 "xl_tot_len" in
  let! xl_xid := Cursor_u32 "xl_xid" in
  let! _ := Cursor_u64 "xl_prev" in
  let! xl_info := Cursor_u8 "xl_info" in
  let! xl_rmid := Cursor_u8 "xl_rmid" in
  let! _ := Cursor_skip 2 "xl_padding" in
  let! _ := Cursor_u32 "xl_crc" in
  if xl_tot_len <? SIZE_OF_XLOG_RECORD then serr (ShortTotalLen xl_tot_len)
  else if negb (xl_tot_len =? len record) then serr (BadTotalLen xl_tot_len (len record))
  else
    let! (works, main_data_len) := header_section (S (length record)) None in
    let! blocks := data_section works in
    let! main_data := Cursor_take main_data_len "main data" in
    sret (mkDecodedWalRecord lsn xl_rmid xl_info xl_xid main_data blocks).

Definition decode_wal_record (lsn : Lsn) (record : bytes) : outcome WalDecodeError DecodedWalRecord :=
  (decode_record lsn record (mkCursor record 0)).2.

(** ** pglz: what the decoder accepts, and the format it inverts *)

Lemma index_in_range {E A} (l : list A) i : 0 <= i < len l -> exists x, index (E := E) l i = Ok x /\ get l i = Some x.
Proof.
  intros Hi. unfold index. assert (Hl : is_Some (get l i)).
  { unfold get. rewrite (proj2 (Z.leb_le 0 i)) by lia. apply lookup_lt_is_Some. unfold len in Hi. lia. }
  destruct Hl as [x Hx]. exists x. by rewrite Hx.
Qed.

(** The bytes a back-reference stands for. *)
Fixpoint repeat_back (n : nat) (off : Z) (dst : bytes) : bytes :=
  match n with
  | O => dst
  | S n' => repeat_back n' off (dst ++ [default x00 (get dst (len dst - off))])
  end.

Lemma len_repeat_back n off dst : len (repeat_back n off dst) = Z.of_nat n + len dst.
Proof.
  revert dst; induction n as [|n IH]; intros dst; cbn [repeat_back]; [lia |].
  rewrite IH, len_app. change (len [_]) with 1. lia.
Qed.

Lemma copy_back_ok n off dst_len dst :
  0 < off <= len dst ->
  exists d, copy_back n off dst_len dst = Ok d /\ len dst <= len d <= Z.max (len dst) dst_len.
Proof.
  revert dst; induction n as [|n IH]; intros dst Ho; cbn [copy_back]; [exists dst; split; [done | lia] |].
  destruct (Z.leb_spec dst_len (len dst)); [exists dst; split; [done | lia] |].
  destruct (index_in_range (E := WalDecodeError) dst (len dst - off) ltac:(lia)) as (b & -> & _). cbn [bind].
  assert (Hl : len (dst ++ [b]) = len dst + 1) by (rewrite len_app; done).
  destruct (IH (dst ++ [b]) ltac:(lia)) as (d & -> & Hd). exists d. split; [done | lia].
Qed.

Lemma copy_back_exact n off dst_len dst :
  0 < off <= len dst -> len dst + Z.of_nat n <= dst_len ->
  copy_back n off dst_len dst = Ok (repeat_back n off dst).
Proof.
  revert dst; induction n as [|n IH]; intros dst Ho Hn; cbn [copy_back repeat_back]; [done |].
  destruct (Z.leb_spec dst_len (len dst)); [lia |].
  destruct (index_in_range (E := WalDecodeError) dst (len dst - off) ltac:(lia)) as (b & -> & ->). cbn [bind].
  change (default x00 (Some b)) with b.
  assert (Hl : len (dst ++ [b]) = len dst + 1) by (rewrite len_app; done). apply IH; lia.
Qed.

(** Decoding goes forward in the source and never beyond [dst_len]. *)
Lemma pglz_tokens_moves k ctrl src dst_len sp dst :
  0 <= sp <= len src ->
  match pglz_tokens k ctrl src dst_len sp dst with
  | Ok (sp', d) => sp <= sp' <= len src /\ len dst <= len d <= Z.max (len dst) dst_len
  | Err e => e = Decompress Pglz
  | Panic => False
  end.
Proof.
  revert sp dst; induction k as [|k IH]; intros sp dst Hsp; [cbn; lia |]. cbn [pglz_tokens].
  destruct (_ || _) eqn:Hc; [cbn; lia |]. bool_to_prop.
  assert (Hgo : forall sp' d, sp < sp' <= len src -> len dst <= len d <= Z.max (len dst) dst_len ->
    match pglz_tokens k ctrl src dst_len sp' d with
    | Ok (sp', d) => sp <= sp' <= len src /\ len dst <= len d <= Z.max (len dst) dst_len
    | Err e => e = Decompress Pglz
    | Panic => False
    end).
  { intros sp' d H1 H2. specialize (IH sp' d ltac:(lia)).
    destruct (pglz_tokens k ctrl src dst_len sp' d) as [[? ?] | |]; [lia | done | done]. }
  case_test.
  - destruct (index_in_range (E := WalDecodeError) src sp ltac:(lia)) as (b & -> & _). cbn [bind].
    apply Hgo; [lia |]. rewrite len_app. change (len [b]) with 1. lia.
  - case_test; [done |]. bool_to_prop.
    destruct (get_u8_in_range (E := WalDecodeError) src sp ltac:(lia)) as (b0 & _ & ->). cbn [bind].
    destruct (get_u8_in_range (E := WalDecodeError) src (sp + 1) ltac:(lia)) as (b1 & _ & ->). cbn [bind].
    set (off := Z.lor _ _). set (n := Z.land (b2z b0) 15 + 3).
    assert (Hb : forall m s, sp < s <= len src ->
      match (if (off =? 0) || (len dst <? off) then Err (Decompress Pglz)
             else let? dst := copy_back (Z.to_nat m) off dst_len dst in pglz_tokens k ctrl src dst_len s dst) with
      | Ok (sp', d) => sp <= sp' <= len src /\ len dst <= len d <= Z.max (len dst) dst_len
      | Err e => e = Decompress Pglz
      | Panic => False
      end).
    { intros m s Hs. destruct (_ || _) eqn:Ho; [done |]. bool_to_prop.
      assert (0 <= off).
      { apply Z.lor_nonneg. split; [| apply b2z_range]. apply Z.shiftl_nonneg, Z.land_nonneg. left. apply b2z_range. }
      destruct (copy_back_ok (Z.to_nat m) off dst_len dst ltac:(lia)) as (d & -> & Hd). cbn [bind]. by apply Hgo. }
    destruct (n =? 18); [| apply Hb; lia]. destruct (Z.leb_spec (len src) (sp + 2)); [done |].
    destruct (get_u8_in_range (E := WalDecodeError) src (sp + 2) ltac:(lia)) as (e & _ & ->). cbn [bind].
    apply Hb. lia.
Qed.

Lemma pglz_loop_total fuel src dst_len sp dst :
  0 <= sp <= len src -> len src - sp <= Z.of_nat fuel ->
  match pglz_loop fuel src dst_len sp dst with
  | Ok d => len d <= Z.max (len dst) dst_len
  | Err e => e = Decompress Pglz
  | Panic => False
  end.
Proof.
  revert sp dst; induction fuel as [|fuel IH]; intros sp dst Hsp Hf; cbn [pglz_loop]; [lia |].
  destruct (_ && _) eqn:Hc; [| lia]. bool_to_prop.
  destruct (get_u8_in_range (E := WalDecodeError) src sp ltac:(lia)) as (c & _ & ->). cbn [bind].
  pose proof (pglz_tokens_moves 8 (b2z c) src dst_len (sp + 1) dst ltac:(lia)) as Hm.
  destruct (pglz_tokens 8 _ _ _ _ _) as [[sp' d] | |]; cbn [bind]; [| done | done].
  specialize (IH sp' d ltac:(lia) ltac:(lia)). destruct (pglz_loop fuel src dst_len sp' d); [lia | done | done].
Qed.

Lemma pglz_total src dst_len :
  0 <= dst_len ->
  match pglz_decompress src dst_len with
  | Ok d => len d <= dst_len
  | Err e => e = Decompress Pglz
  | Panic => False
  end.
Proof.
  intros Hd. pose proof (pglz_loop_total (length src) src dst_len 0 []) as Ht.
  unfold pglz_decompress. change (len (@nil byte)) with 0 in Ht. rewrite Z.max_r in Ht by lia.
  apply Ht; unfold len; lia.
Qed.

(** The format: groups of up to eight tokens under a control byte. *)
Inductive token :=
| Lit (b : byte)
| Ref (n off : Z).

Definition token_wf (t : token) : Prop :=
  match t with Lit _ => True | Ref n off => 3 <= n <= 273 /\ 1 <= off <= 4095 end.

Definition token_bytes (t : token) : bytes :=
  match t with
  | Lit b => [b]
  | Ref n off =>
      if n <? 18 then [z2b (off / 256 * 16 + (n - 3)); z2b (off mod 256)]
      else [z2b (off / 256 * 16 + 15); z2b (off mod 256); z2b (n - 18)]
  end.

Definition token_apply (dst : bytes) (t : token) : bytes :=
  match t with Lit b => dst ++ [b] | Ref n off => repeat_back (Z.to_nat n) off dst end.

Definition expand (ts : list token) (dst : bytes) : bytes := fold_left token_apply ts dst.

(** Back-references reach into what has been produced. *)
Fixpoint tokens_ok (ts : list token) (dst : bytes) : Prop :=
  match ts with
  | [] => True
  | t :: ts' =>
      token_wf t /\ match t with Ref _ off => off <= len dst | Lit _ => True end /\
      tokens_ok ts' (token_apply dst t)
  end.

Fixpoint ctrl_of (ts : list token) : Z :=
  match ts with
  | [] => 0
  | t :: ts' => (match t with Ref _ _ => 1 | Lit _ => 0 end) + 2 * ctrl_of ts'
  end.

Definition group_bytes (g : list token) : bytes := z2b (ctrl_of g) :: flat_map token_bytes g.

(** Every group but the last has eight tokens. *)
Fixpoint groups_ok (gs : list (list token)) : Prop :=
  match gs with
  | [] => True
  | g :: gs' => (0 < length g <= 8)%nat /\ (length g = 8%nat \/ gs' = []) /\ groups_ok gs'
  end.

Lemma len_token_apply dst t : token_wf t -> len dst < len (token_apply dst t).
Proof.
  destruct t as [b | n off]; cbn; [intros _; rewrite len_app; change (len [b]) with 1; lia |].
  intros [Hn _]. rewrite len_repeat_back. lia.
Qed.

Lemma len_expand ts dst : tokens_ok ts dst -> len dst <= len (expand ts dst).
Proof.
  revert dst; induction ts as [|t ts IH]; intros dst; cbn; [lia |]. intros (Hw & _ & Hts).
  pose proof (len_token_apply dst t Hw). specialize (IH _ Hts). unfold expand in IH. lia.
Qed.

Lemma ctrl_of_range g : 0 <= ctrl_of g < 2 ^ Z.of_nat (length g).
Proof.
  induction g as [|t g IH]; cbn [ctrl_of length]; [lia |]. rewrite Nat2Z.inj_succ, Z.pow_succ_r by lia.
  destruct t; lia.
Qed.

Lemma bounded_forall (P : Z -> bool) n :
  forallb (fun i => P (Z.of_nat i)) (seq 0 n) = true -> forall z, 0 <= z < Z.of_nat n -> P z = true.
Proof.
  intros H z Hz. rewrite forallb_forall in H. specialize (H (Z.to_nat z)). rewrite Z2Nat.id in H by lia.
  apply H, in_seq. lia.
Qed.

(** The fields of a back-reference byte. *)
Lemma ref_fields hi lo nib :
  0 <= hi < 16 -> 0 <= lo < 256 -> 0 <= nib < 16 ->
  Z.land (hi * 16 + nib) 0x0f = nib /\ Z.lor (Z.shiftl (Z.land (hi * 16 + nib) 0xf0) 4) lo = hi * 256 + lo.
Proof.
  intros Hh Hl Hn.
  assert (H1 : forall z, 0 <= z < 256 -> (Z.land z 0x0f =? z mod 16) && (Z.land z 0xf0 =? z / 16 * 16) = true)
    by (apply (bounded_forall _ 256); by vm_compute).
  assert (H2 : forall z, 0 <= z < 4096 -> (Z.lor (z / 256 * 256) (z mod 256) =? z) = true)
    by (apply (bounded_forall _ 4096); by vm_compute).
  specialize (H1 (hi * 16 + nib) ltac:(lia)). specialize (H2 (hi * 256 + lo) ltac:(lia)). bool_to_prop.
  assert (E1 : (hi * 16 + nib) mod 16 = nib) by (symmetry; apply (Z.mod_unique _ _ hi); lia).
  assert (E2 : (hi * 16 + nib) / 16 = hi) by (symmetry; apply (Z.div_unique _ _ _ nib); lia).
  assert (E3 : (hi * 256 + lo) mod 256 = lo) by (symmetry; apply (Z.mod_unique _ _ hi); lia).
  assert (E4 : (hi * 256 + lo) / 256 = hi) by (symmetry; apply (Z.div_unique _ _ _ lo); lia).
  split; [lia |]. rewrite H0, E2, Z.shiftl_mul_pow2 by lia. change (2 ^ 4) with 16.
  rewrite E3, E4 in H2. replace (hi * 16 * 16) with (hi * 256) by lia. done.
Qed.

Lemma token_bytes_cons t l : exists b l', token_bytes t ++ l = b :: l'.
Proof. destruct t as [b | n off]; cbn; [by exists b, l |]. case_test; by do 2 eexists. Qed.

(** One token is decoded to its effect. *)
Lemma pglz_token k ctrl src dst_len sp dst t l :
  at_pos src sp (token_bytes t ++ l) -> tokens_ok [t] dst -> len (token_apply dst t) <= dst_len ->
  Z.land (Z.shiftr ctrl (8 - Z.of_nat (S k))) 1 = (match t with Ref _ _ => 1 | Lit _ => 0 end) ->
  pglz_tokens (S k) ctrl src dst_len sp dst =
  pglz_tokens k ctrl src dst_len (sp + len (token_bytes t)) (token_apply dst t).
Proof.
  intros Ha (Hw & Ho & _) Hl Hbit. cbn [pglz_tokens]. rewrite Hbit.
  pose proof (len_token_apply dst t Hw). pose proof (at_pos_room _ _ _ _ Ha) as Hr.
  assert (Hpos : 1 <= len (token_bytes t)).
  { destruct t; cbn [token_bytes]; [done |]. by case_test. }
  rewrite (proj2 (Z.leb_gt (len src) sp)), (proj2 (Z.leb_gt dst_len (len dst))) by lia. cbn [orb].
  destruct t as [b | n off]; cbn [token_apply token_bytes] in *.
  - rewrite Z.eqb_refl. unfold index. change ([b] ++ l) with (b :: l) in Ha. by rewrite (at_pos_get _ _ _ _ Ha).
  - change (1 =? 0) with false. cbn iota. destruct Hw as [Hn Hoff]. rewrite len_repeat_back, Z2Nat.id in Hl by lia.
    assert (Hhi : 0 <= off / 256 < 16) by (split; [apply Z.div_pos | apply Z.div_lt_upper_bound]; lia).
    pose proof (Z.mod_pos_bound off 256 ltac:(lia)) as Hlo. pose proof (Z.div_mod off 256 ltac:(lia)) as Hdm.
    destruct (n <? 18) eqn:Hs; bool_to_prop; cbn [app] in Ha.
    + destruct (ref_fields (off / 256) (off mod 256) (n - 3) Hhi Hlo ltac:(lia)) as [F1 F2].
      change (len [_; _]) with 2 in *. rewrite (proj2 (Z.leb_gt (len src) (sp + 1))) by lia.
      rewrite (get_u8_ok _ _ _ (at_pos_get _ _ _ _ Ha)). apply at_pos_cons in Ha. cbn [bind].
      rewrite (get_u8_ok _ _ _ (at_pos_get _ _ _ _ Ha)). cbn [bind].
      rewrite !b2z_z2b_small by (unfold in_u8; lia). rewrite F1, F2.
      rewrite (proj2 (Z.eqb_neq (n - 3 + 3) 18)) by lia. cbn [bind].
      rewrite (proj2 (Z.eqb_neq (off / 256 * 256 + off mod 256) 0)) by lia.
      rewrite (proj2 (Z.ltb_ge (len dst) _)) by lia. cbn [orb].
      replace (n - 3 + 3) with n by lia. replace (off / 256 * 256 + off mod 256) with off by lia.
      rewrite copy_back_exact by lia. done.
    + destruct (ref_fields (off / 256) (off mod 256) 15 Hhi Hlo ltac:(lia)) as [F1 F2].
      change (len [_; _; _]) with 3 in *. rewrite (proj2 (Z.leb_gt (len src) (sp + 1))) by lia.
      rewrite (get_u8_ok _ _ _ (at_pos_get _ _ _ _ Ha)). apply at_pos_cons in Ha. cbn [bind].
      rewrite (get_u8_ok _ _ _ (at_pos_get _ _ _ _ Ha)). apply at_pos_cons in Ha. cbn [bind].
      rewrite !b2z_z2b_small by (unfold in_u8; lia). rewrite F1, F2. change (15 + 3 =? 18) with true. cbn iota.
      replace (sp + 1 + 1) with (sp + 2) in Ha by lia.
      rewrite (proj2 (Z.leb_gt (len src) (sp + 2))) by lia.
      rewrite (get_u8_ok _ _ _ (at_pos_get _ _ _ _ Ha)). cbn [bind].
      rewrite b2z_z2b_small by (unfold in_u8; lia).
      rewrite (proj2 (Z.eqb_neq (off / 256 * 256 + off mod 256) 0)) by lia.
      rewrite (proj2 (Z.ltb_ge (len dst) _)) by lia. cbn [orb].
      replace (15 + 3 + (n - 18)) with n by lia. replace (off / 256 * 256 + off mod 256) with off by lia.
      rewrite copy_back_exact by lia. cbn [bind]. by replace (sp + 2 + 1) with (sp + 3) by lia.
Qed.

Lemma pglz_group g k ctrl src dst_len sp dst l :
  at_pos src sp (flat_map token_bytes g ++ l) -> tokens_ok g dst -> len (expand g dst) <= dst_len ->
  Z.shiftr ctrl (8 - Z.of_nat k) = ctrl_of g -> (length g <= k <= 8)%nat -> (length g = k \/ l = []) ->
  pglz_tokens k ctrl src dst_len sp dst = Ok (sp + len (flat_map token_bytes g), expand g dst).
Proof.
  revert k sp dst; induction g as [|t g IH]; intros k sp dst Ha Hok Hl Hc Hk Hend.
  { cbn [flat_map expand fold_left]. change (len (@nil byte)) with 0. rewrite Z.add_0_r.
    destruct k as [|k]; [done |]. destruct Hend as [? | ->]; [done |]. cbn [pglz_tokens].
    destruct Ha as (_ & _ & Hp). change (len (flat_map token_bytes [] ++ [])) with 0 in Hp.
    rewrite (proj2 (Z.leb_le (len src) sp)) by lia. done. }
  destruct k as [|k]; [cbn in Hk; lia |]. cbn [flat_map] in *. rewrite <- app_assoc in Ha.
  destruct Hok as (Hw & Ho & Hok). cbn [expand fold_left] in *. fold (expand g (token_apply dst t)) in *.
  pose proof (len_expand _ _ Hok). rewrite (pglz_token _ _ _ _ _ _ t (flat_map token_bytes g ++ l));
    [| done | done | lia |].
  - rewrite len_app, Z.add_assoc. apply IH; [by eapply at_pos_app | done | done | | cbn in Hk; lia |].
    + replace (8 - Z.of_nat k) with (8 - Z.of_nat (S k) + 1) by lia.
      rewrite <- Z.shiftr_shiftr, Hc by lia. cbn [ctrl_of]. rewrite Z.shiftr_div_pow2 by lia. change (2 ^ 1) with 2.
      symmetry. apply (Z.div_unique _ _ _ (match t with Ref _ _ => 1 | Lit _ => 0 end)); destruct t; lia.
    + cbn in Hend. destruct Hend as [E | ->]; [left; lia | by right].
  - rewrite Hc. cbn [ctrl_of]. change 1 with (Z.ones 1) at 2. rewrite Z.land_ones by lia. change (2 ^ 1) with 2.
    symmetry. apply (Z.mod_unique _ _ (ctrl_of g)); destruct t; lia.
Qed.

Lemma expand_app ts1 ts2 dst : expand (ts1 ++ ts2) dst = expand ts2 (expand ts1 dst).
Proof. apply fold_left_app. Qed.

Lemma tokens_ok_app ts1 ts2 dst : tokens_ok (ts1 ++ ts2) dst <-> tokens_ok ts1 dst /\ tokens_ok ts2 (expand ts1 dst).
Proof.
  revert dst; induction ts1 as [|t ts1 IH]; intros dst; [cbn; tauto |]. cbn [app tokens_ok expand fold_left].
  fold (expand ts1 (token_apply dst t)). rewrite IH. tauto.
Qed.

Lemma pglz_loop_groups gs fuel src dst_len sp dst :
  groups_ok gs -> tokens_ok (concat gs) dst -> len (expand (concat gs) dst) = dst_len ->
  at_pos src sp (flat_map group_bytes gs) -> (length gs <= fuel)%nat ->
  pglz_loop fuel src dst_len sp dst = Ok (expand (concat gs) dst).
Proof.
  revert fuel sp dst; induction gs as [|g gs IH]; intros fuel sp dst Hg Hok Hl Ha Hf.
  { destruct fuel; [done |]. cbn [pglz_loop concat]. cbn in Hl. rewrite Hl, Z.ltb_irrefl, andb_false_r. done. }
  destruct fuel as [|fuel]; [cbn in Hf; lia |]. destruct Hg as (Hlen & Hlast & Hg). cbn [concat] in *.
  apply tokens_ok_app in Hok as [Hok1 Hok2]. rewrite expand_app in *. pose proof (len_expand _ _ Hok2).
  pose proof (len_expand _ _ Hok1). cbn [flat_map] in Ha. unfold group_bytes at 1 in Ha. cbn [app] in Ha.
  cbn [pglz_loop]. assert (Hlt : len dst < len (expand g dst)).
  { destruct g as [|t g]; [cbn in Hlen; lia |]. destruct Hok1 as (Hw & _ & Hok1). cbn [expand fold_left].
    pose proof (len_token_apply dst t Hw). pose proof (len_expand _ _ Hok1) as He. unfold expand in He. lia. }
  assert (Hsp : sp < len src).
  { destruct Ha as (_ & _ & Hp). rewrite len_cons in Hp.
    pose proof (len_nonneg (flat_map token_bytes g ++ flat_map group_bytes gs)). lia. }
  rewrite (proj2 (Z.ltb_lt sp _)), (proj2 (Z.ltb_lt (len dst) dst_len)) by lia. cbn [andb].
  rewrite (get_u8_ok _ _ _ (at_pos_get _ _ _ _ Ha)). apply at_pos_cons in Ha. cbn [bind].
  pose proof (ctrl_of_range g) as Hc.
  assert (2 ^ Z.of_nat (length g) <= 2 ^ 8) by (apply Z.pow_le_mono_r; lia).
  rewrite b2z_z2b_small by (unfold in_u8; lia).
  rewrite (pglz_group g 8 _ _ _ _ _ (flat_map group_bytes gs)); [| done | done | lia | | lia |].
  - cbn [bind]. apply IH; [done .. | | cbn in Hf; lia]. by eapply at_pos_app.
  - by rewrite Z.shiftr_0_r.
  - destruct Hlast as [-> | ->]; [by left | by right].
Qed.

Lemma length_group_bytes gs : (length gs <= length (flat_map group_bytes gs))%nat.
Proof. induction gs as [|g gs IH]; cbn; [lia |]. rewrite length_app. lia. Qed.

(** Pglz decompression inverts the format.  Whatever tokens a compressor
    chose, decoding their encoding to the length they expand to gives exactly
    the bytes they stand for; on any other input the decoder returns bytes no
    longer than asked for or a decompression error, and never panics. *)
Theorem pglz_inverts_encoding gs :
  groups_ok gs -> tokens_ok (concat gs) [] ->
  let out := expand (concat gs) [] in
  pglz_decompress (flat_map group_bytes gs) (len out) = Ok out /\
  forall src n, 0 <= n ->
    match pglz_decompress src n with
    | Ok d => len d <= n
    | Err e => e = Decompress Pglz
    | Panic => False
    end.
Proof.
  intros Hg Hok out. split; [| apply pglz_total].
  apply pglz_loop_groups; [done .. | apply at_pos_start | apply length_group_bytes].
Qed.

Lemma pglz_inverts_encoding_witness :
  pglz_decompress (flat_map group_bytes [[Lit x61; Lit x62; Ref 300 2]]) 302 <> Panic /\
  pglz_decompress (flat_map group_bytes [[Lit x61; Lit x62; Ref 4 2]]) 6 = Ok [x61; x62; x61; x62; x61; x62].
Proof.
  split; [by vm_compute |].
  apply (pglz_inverts_encoding [[Lit x61; Lit x62; Ref 4 2]]).
  - cbn. split; [lia |]. split; [by right | done].
  - cbn. repeat split; done || lia.
Defined.

(** ** Full-page images *)

Section Images.
Context `{Decompressors}.

(** The page with its hole cut out. *)
Definition punch (page : bytes) (ho hl : Z) : bytes :=
  sub page 0 ho ++ sub page (ho + hl) (len page - (ho + hl)).

(** [body] as a writer stores it under the image's compression. *)
Definition stores (im : DecodedImage) (body : bytes) : Prop :=
  match compression im with
  | NoCompression => im_bytes im = body
  | Pglz => exists gs, groups_ok gs /\ tokens_ok (concat gs) [] /\
              im_bytes im = flat_map group_bytes gs /\ expand (concat gs) [] = body
  | Lz4 => lz4_decompress (im_bytes im) (len body) = Some body
  | Zstd => zstd_decompress (im_bytes im) (len body) = Some body
  end.

Lemma stores_body im body : stores im body -> image_body im (len body) = Ok body.
Proof.
  unfold stores, image_body. destruct (compression im).
  - intros ->. by rewrite Z.eqb_refl.
  - intros (gs & Hg & Ht & -> & <-). apply pglz_loop_groups; [done .. | apply at_pos_start | apply length_group_bytes].
  - by intros ->.
  - by intros ->.
Qed.

Lemma sub_split {A} (l : list A) o n k : 0 <= o -> 0 <= n <= k -> sub l o k = sub l o n ++ sub l (o + n) (k - n).
Proof.
  intros Ho Hn. unfold sub.
  replace (Z.to_nat k) with (Z.to_nat n + Z.to_nat (k - n))%nat by lia.
  rewrite <- take_take_drop, drop_drop. do 3 f_equal. lia.
Qed.

Lemma restore_stored im page :
  len page = PAGE_SIZE -> 0 <= hole_offset im -> 0 <= hole_length im ->
  hole_offset im + hole_length im <= PAGE_SIZE ->
  sub page (hole_offset im) (hole_length im) = replicate (Z.to_nat (hole_length im)) x00 ->
  stores im (punch page (hole_offset im) (hole_length im)) -> restore im = Ok page.
Proof.
  intros Hp Ho Hl Hle Hz Hs. apply stores_body in Hs. unfold restore.
  set (ho := hole_offset im) in *. set (hl := hole_length im) in *.
  assert (Hpl : len (punch page ho hl) = PAGE_SIZE - hl).
  { unfold punch. rewrite len_app, !sub_len by lia. lia. }
  unfold XLOG_BLCKSZ. rewrite (proj2 (Z.ltb_ge _ _)) by lia. cbn [negb]. rewrite <- Hpl, Hs. cbn [bind].
  rewrite Z.eqb_refl. rewrite slice_ok by lia. cbn [bind]. rewrite slice_ok by lia. cbn [bind]. f_equal.
  assert (Hsub : len (sub page 0 ho) = ho) by (rewrite sub_len; lia).
  rewrite Hpl, Z.sub_0_r. unfold punch. rewrite sub_app_exact by done.
  rewrite sub_app_ge by lia. rewrite Hsub, Z.sub_diag.
  rewrite (sub_full (sub page (ho + hl) _)) by (rewrite sub_len; lia).
  rewrite <- Hz. transitivity (sub page 0 (len page)); [| by apply sub_full].
  rewrite (sub_split page 0 ho (len page)) by lia. rewrite (sub_split page (0 + ho) hl (len page - ho)) by lia.
  rewrite !Z.add_0_l. by replace (len page - ho - hl) with (len page - (ho + hl)) by lia.
Qed.

Lemma restore_total im :
  0 <= hole_offset im -> 0 <= hole_length im ->
  match restore im with Ok p => len p = PAGE_SIZE | Err _ => True | Panic => False end.
Proof.
  intros Ho Hl. unfold restore, XLOG_BLCKSZ. destruct (Z.ltb_spec PAGE_SIZE (hole_offset im + hole_length im)); [done |].
  cbn [negb]. assert (Hb : image_body im (PAGE_SIZE - hole_length im) <> Panic).
  { unfold image_body. destruct (compression im); [by case_test | | apply ok_or_no_panic ..].
    pose proof (pglz_total (im_bytes im) (PAGE_SIZE - hole_length im) ltac:(lia)). by destruct (pglz_decompress _ _). }
  destruct (image_body im _) as [body | |]; [| done | done]. cbn [bind].
  destruct (Z.eqb_spec (len body) (PAGE_SIZE - hole_length im)); [| done].
  rewrite slice_ok by lia. cbn [bind]. rewrite slice_ok by lia. cbn [bind].
  rewrite !len_app, len_replicate, !sub_len by lia. lia.
Qed.
End Images.

(** Full-page images are restored exactly.  An image stored with its zero
    hole cut out, verbatim or compressed by pglz, LZ4 or Zstandard, restores to
    the page it was taken from; restoring anything else gives a page of the page
    size or an error, never a panic. *)
Theorem image_restore_round_trip `{Decompressors} im page :
  len page = PAGE_SIZE -> 0 <= hole_offset im -> 0 <= hole_length im ->
  hole_offset im + hole_length im <= PAGE_SIZE ->
  sub page (hole_offset im) (hole_length im) = replicate (Z.to_nat (hole_length im)) x00 ->
  stores im (punch page (hole_offset im) (hole_length im)) ->
  restore im = Ok page /\
  forall im', 0 <= hole_offset im' -> 0 <= hole_length im' ->
    match restore im' with Ok p => len p = PAGE_SIZE | Err _ => True | Panic => False end.
Proof. intros. split; [by apply restore_stored | intros; by apply restore_total]. Qed.

Definition no_codecs : Decompressors := {|
  lz4_decompress b n := if len b =? n then Some b else None;
  zstd_decompress _ _ := None
|}.

Lemma image_restore_round_trip_witness :
  let page := replicate 4 x61 ++ replicate (Z.to_nat 8186) x00 ++ [x62; x63] in
  restore (H := no_codecs) (mkDecodedImage (punch page 4 8186) 4 8186 Lz4 true) = Ok page.
Proof.
  intros page.
  apply (image_restore_round_trip (H := no_codecs) (mkDecodedImage (punch page 4 8186) 4 8186 Lz4 true) page);
    by vm_compute.
Defined.
