(* ===== verification/WalRecordFormat.v ===== *)
(** The record format the decoder reads (src/pageserver/src/waldecode.rs): a
    writer for it in the layout of PostgreSQL's xlogrecord.h, the round trip of
    [decode_wal_record] over it, and the decoder on arbitrary bytes. *)

From S2P Require Import Prelude Bytes Common WalDecode.

(** ** A writer for the format *)

Definition locator (b : DecodedBlock) : Locator :=
  (spc_node (db_rel b), db_node (db_rel b), rel_node (db_rel b)).

Definition bit (b : bool) (v : Z) : Z := if b then v else 0.

Definition fork_flags (f : ForkNumber) (img data init same : bool) : Z :=
  ForkNumber_as_u8 f + bit img BKPBLOCK_HAS_IMAGE + bit data BKPBLOCK_HAS_DATA +
  bit init BKPBLOCK_WILL_INIT + bit same BKPBLOCK_SAME_REL.

Definition compression_bits (c : Compression) : Z :=
  match c with
  | NoCompression => 0
  | Pglz => BKPIMAGE_COMPRESS_PGLZ
  | Lz4 => BKPIMAGE_COMPRESS_LZ4
  | Zstd => BKPIMAGE_COMPRESS_ZSTD
  end.

Definition is_compressed (c : Compression) : bool :=
  match c with NoCompression => false | _ => true end.

Definition image_info (c : Compression) (hole apply : bool) : Z :=
  bit hole BKPIMAGE_HAS_HOLE + bit apply BKPIMAGE_APPLY + compression_bits c.

Definition has_hole (im : DecodedImage) : bool := negb (hole_length im =? 0).

Definition write_image_header (im : DecodedImage) : bytes :=
  le_bytes 2 (len (im_bytes im)) ++ le_bytes 2 (hole_offset im) ++
  [z2b (image_info (compression im) (has_hole im) (apply im))] ++
  (if has_hole im && is_compressed (compression im) then le_bytes 2 (hole_length im) else []).

Definition is_some {A} (o : option A) : bool := match o with Some _ => true | None => false end.

Definition same_rel (last : option Locator) (b : DecodedBlock) : bool := bool_decide (last = Some (locator b)).

Definition has_data (b : DecodedBlock) : bool := negb (len (db_data b) =? 0).

Definition write_block_header (id : Z) (last : option Locator) (b : DecodedBlock) : bytes :=
  [z2b id] ++
  [z2b (fork_flags (fork (db_rel b)) (is_some (db_image b)) (has_data b) (db_will_init b) (same_rel last b))] ++
  le_bytes 2 (len (db_data b)) ++
  (match db_image b with Some im => write_image_header im | None => [] end) ++
  (if same_rel last b then []
   else le_bytes 4 (spc_node (db_rel b)) ++ le_bytes 4 (db_node (db_rel b)) ++ le_bytes 4 (rel_node (db_rel b))) ++
  le_bytes 4 (db_blkno b).

Fixpoint write_headers (id : Z) (last : option Locator) (bs : list DecodedBlock) : bytes :=
  match bs with
  | [] => []
  | b :: bs' => write_block_header id last b ++ write_headers (id + 1) (Some (locator b)) bs'
  end.

Definition write_main_marker (n : Z) : bytes :=
  if n <? 256 then [z2b XLR_BLOCK_ID_DATA_SHORT; z2b n]
  else [z2b XLR_BLOCK_ID_DATA_LONG] ++ le_bytes 4 n.

Definition write_block_data (b : DecodedBlock) : bytes :=
  (match db_image b with Some im => im_bytes im | None => [] end) ++ db_data b.

Definition write_body (r : DecodedWalRecord) : bytes :=
  write_headers 0 None (dr_blocks r) ++ write_main_marker (len (dr_main_data r)) ++
  flat_map write_block_data (dr_blocks r) ++ dr_main_data r.

(** [prev] and [crc] are the fields the decoder skips. *)
Definition write_wal_record (prev crc : Z) (r : DecodedWalRecord) : bytes :=
  le_bytes 4 (SIZE_OF_XLOG_RECORD + len (write_body r)) ++ le_bytes 4 (dr_xid r) ++ le_bytes 8 prev ++
  [z2b (dr_info r)] ++ [z2b (dr_rmid r)] ++ [x00; x00] ++ le_bytes 4 crc ++ write_body r.

Definition image_wf (im : DecodedImage) : Prop :=
  in_u16 (len (im_bytes im)) /\ in_u16 (hole_offset im) /\ in_u16 (hole_length im) /\
  (compression im = NoCompression -> hole_length im = 0 \/ len (im_bytes im) + hole_length im = XLOG_BLCKSZ).

Definition block_wf (b : DecodedBlock) : Prop :=
  RelTag_wf (db_rel b) /\ in_u32 (db_blkno b) /\ in_u16 (len (db_data b)) /\
  match db_image b with Some im => image_wf im | None => True end.

Definition wal_record_wf (r : DecodedWalRecord) : Prop :=
  in_u8 (dr_rmid r) /\ in_u8 (dr_info r) /\ in_u32 (dr_xid r) /\ in_u32 (len (dr_main_data r)) /\
  Forall block_wf (dr_blocks r) /\ len (dr_blocks r) <= XLR_MAX_BLOCK_ID + 1 /\
  in_u32 (SIZE_OF_XLOG_RECORD + len (write_body r)).

(** ** Flag bits *)

Lemma fork_flags_spec f img data init same :
  let x := fork_flags f img data init same in
  in_u8 x /\ ForkNumber_from_raw (Z.land x BKPBLOCK_FORK_MASK) = Some f /\
  has_bit x BKPBLOCK_HAS_IMAGE = img /\ has_bit x BKPBLOCK_HAS_DATA = data /\
  has_bit x BKPBLOCK_WILL_INIT = init /\ has_bit x BKPBLOCK_SAME_REL = same.
Proof. destruct f, img, data, init, same; by_compute. Qed.

Lemma image_info_spec c hole ap :
  let x := image_info c hole ap in
  in_u8 x /\ has_bit x BKPIMAGE_HAS_HOLE = hole /\ has_bit x BKPIMAGE_COMPRESSED = is_compressed c /\
  has_bit x BKPIMAGE_APPLY = ap /\ compression_from_info x = c.
Proof. destruct c, hole, ap; by_compute. Qed.

(** ** Cursor steps *)

Section Steps.
Context {A : Type} (k : Z -> decoder A) (buf : bytes) (pos : Z).

Lemma u8_at what v l :
  at_pos buf pos ([z2b v] ++ l) -> in_u8 v ->
  sbind (Cursor_u8 what) k (mkCursor buf pos) = k v (mkCursor buf (pos + 1)) /\ at_pos buf (pos + 1) l.
Proof.
  intros Ha Hv. split; [| by eapply at_pos_app]. unfold sbind, Cursor_u8. cbn [c_buf c_pos].
  rewrite (at_pos_get _ _ _ _ Ha). by rewrite b2z_z2b_small.
Qed.

Lemma take_at {B} (kb : bytes -> decoder B) what n a l :
  at_pos buf pos (a ++ l) -> n = len a ->
  sbind (Cursor_take n what) kb (mkCursor buf pos) = kb a (mkCursor buf (pos + n)) /\ at_pos buf (pos + n) l.
Proof.
  intros Ha Hn. split; [| by eapply at_pos_app]. unfold sbind, Cursor_take. cbn [c_buf c_pos].
  pose proof (at_pos_room _ _ _ _ Ha). rewrite (proj2 (Z.ltb_ge _ _)) by lia.
  by rewrite (at_pos_slice _ _ _ _ _ Ha Hn).
Qed.

Lemma u16_at what v l :
  at_pos buf pos (le_bytes 2 v ++ l) -> in_u16 v ->
  sbind (Cursor_u16 what) k (mkCursor buf pos) = k v (mkCursor buf (pos + 2)) /\ at_pos buf (pos + 2) l.
Proof.
  intros Ha Hv. unfold Cursor_u16. rewrite sbind_assoc.
  destruct (take_at (fun s => sbind (sret (le_val s)) k) what 2 _ _ Ha) as [-> Ha']; [by rewrite len_le_bytes |].
  split; [| done]. unfold sbind, sret. by rewrite le_val_u16.
Qed.

Lemma u32_at what v l :
  at_pos buf pos (le_bytes 4 v ++ l) -> in_u32 v ->
  sbind (Cursor_u32 what) k (mkCursor buf pos) = k v (mkCursor buf (pos + 4)) /\ at_pos buf (pos + 4) l.
Proof.
  intros Ha Hv. unfold Cursor_u32. rewrite sbind_assoc.
  destruct (take_at (fun s => sbind (sret (le_val s)) k) what 4 _ _ Ha) as [-> Ha']; [by rewrite len_le_bytes |].
  split; [| done]. unfold sbind, sret. by rewrite le_val_u32.
Qed.
End Steps.

(** Advance one step of a decoder whose next field is at the head of [Ha]. *)
Ltac cursor_step lem Ha H :=
  let E := fresh "E" in let Ha' := fresh "Ha" in
  edestruct lem as [E Ha']; [exact Ha | H | rewrite E; clear E Ha; rename Ha' into Ha; cbv beta].

(** ** Round trip *)

Definition image_work (im : DecodedImage) : ImageMeta :=
  mkImageMeta (len (im_bytes im)) (hole_offset im) (hole_length im) (compression im) (apply im).

Definition block_work (b : DecodedBlock) : BlockWork :=
  mkBlockWork (db_rel b) (db_blkno b) (db_will_init b) (has_data b) (len (db_data b)) (image_work <$> db_image b).

Lemma image_header_at {A} (k : ImageMeta -> decoder A) buf pos im l :
  image_wf im -> at_pos buf pos (write_image_header im ++ l) ->
  exists pos', sbind image_header k (mkCursor buf pos) = k (image_work im) (mkCursor buf pos') /\
    at_pos buf pos' l.
Proof.
  intros (Hl & Ho & Hh & Hnc) Ha. unfold write_image_header in Ha. rewrite <- !app_assoc in Ha.
  unfold image_header. rewrite sbind_assoc. cursor_step @u16_at Ha ltac:(exact Hl).
  rewrite sbind_assoc. cursor_step @u16_at Ha ltac:(exact Ho).
  destruct (image_info_spec (compression im) (has_hole im) (apply im)) as (Hi & E1 & E2 & E3 & E4).
  rewrite sbind_assoc. cursor_step @u8_at Ha ltac:(exact Hi). rewrite E1, E2, E3, E4.
  unfold has_hole in *. destruct (Z.eqb_spec (hole_length im) 0) as [E0 | E0]; cbn [negb andb] in *.
  - eexists. split; [| exact Ha]. unfold sbind, sret, image_work. by rewrite E0.
  - destruct (compression im) eqn:Ec; cbn [is_compressed] in *.
    1: { eexists. split; [| exact Ha]. destruct Hnc as [|Hn]; [done | done |].
         unfold sub_checked. rewrite (proj2 (Z.leb_le _ _)) by (unfold in_u16 in *; lia).
         unfold sbind, slift, sret, image_work. rewrite Ec.
         by replace (XLOG_BLCKSZ - len (im_bytes im)) with (hole_length im) by lia. }
    all: rewrite sbind_assoc; cursor_step @u16_at Ha ltac:(exact Hh); eexists; (split; [| exact Ha]);
      unfold image_work; by rewrite Ec.
Qed.

Lemma block_header_at {A} (k : BlockWork * option Locator -> decoder A) buf pos last b id l :
  block_wf b -> at_pos buf pos (write_block_header id last b ++ l) ->
  exists pos', sbind (block_header last) k (mkCursor buf (pos + 1)) =
    k (block_work b, Some (locator b)) (mkCursor buf pos') /\ at_pos buf pos' l.
Proof.
  intros ((R1 & R2 & R3) & Hb & Hd & Him) Ha. unfold write_block_header in Ha. rewrite <- !app_assoc in Ha.
  apply (at_pos_app _ _ [_] _ 1) in Ha; [| done].
  destruct (fork_flags_spec (fork (db_rel b)) (is_some (db_image b)) (has_data b) (db_will_init b) (same_rel last b))
    as (Hf & E1 & E2 & E3 & E4 & E5).
  unfold block_header. rewrite sbind_assoc. cursor_step @u8_at Ha ltac:(exact Hf).
  rewrite sbind_assoc. cursor_step @u16_at Ha ltac:(exact Hd). rewrite E1, E2, E3, E4, E5. clear E1 E2 E3 E4 E5.
  assert (Hgo : forall pos, at_pos buf pos ((if same_rel last b then []
     else le_bytes 4 (spc_node (db_rel b)) ++ le_bytes 4 (db_node (db_rel b)) ++ le_bytes 4 (rel_node (db_rel b))) ++
     le_bytes 4 (db_blkno b) ++ l) -> exists pos',
    sbind (let! loc := (if same_rel last b then slift (ok_or last SameRelWithoutPrev)
               else let! spc := Cursor_u32 "spcOid" in let! db := Cursor_u32 "dbOid" in
                    let! relnode := Cursor_u32 "relNumber" in sret (spc, db, relnode)) in
           let! blkno := Cursor_u32 "blkno" in
           let! fork := slift (ok_or (Some (fork (db_rel b))) (BadFork (Z.land
              (fork_flags (fork (db_rel b)) (is_some (db_image b)) (has_data b) (db_will_init b) (same_rel last b))
              BKPBLOCK_FORK_MASK))) in
           let '(spc, db, relnode) := loc in
           sret (mkBlockWork (mkRelTag spc db relnode fork) blkno (db_will_init b) (has_data b)
                   (len (db_data b)) (image_work <$> db_image b), Some loc)) k (mkCursor buf pos) =
    k (block_work b, Some (locator b)) (mkCursor buf pos') /\ at_pos buf pos' l).
  { clear Ha pos. intros pos Ha. unfold same_rel in *. rewrite sbind_assoc. case_bool_decide as Es.
    - rewrite Es in *. cbn [app] in Ha. erewrite sbind_Ok by reflexivity. rewrite sbind_assoc.
      cursor_step @u32_at Ha ltac:(exact Hb). eexists. split; [| exact Ha]. unfold block_work, locator. by destruct (db_rel b).
    - rewrite <- !app_assoc in Ha. rewrite sbind_assoc. cursor_step @u32_at Ha ltac:(exact R1).
      rewrite sbind_assoc. cursor_step @u32_at Ha ltac:(exact R2).
      rewrite sbind_assoc. cursor_step @u32_at Ha ltac:(exact R3).
      erewrite sbind_Ok by reflexivity. rewrite sbind_assoc.
      cursor_step @u32_at Ha ltac:(exact Hb). eexists. split; [| exact Ha]. unfold block_work, locator. by destruct (db_rel b). }
  destruct (db_image b) as [im|]; cbn [is_some fmap option_fmap] in *.
  - rewrite !sbind_assoc.
    edestruct (image_header_at (A := A)) as (pos' & E & Ha'); [exact Him | exact Ha | rewrite E].
    apply Hgo. exact Ha'.
  - rewrite sbind_assoc. erewrite sbind_Ok by reflexivity. apply Hgo. exact Ha.
Qed.

Lemma main_marker_at {A} (k : list BlockWork * Z -> decoder A) fuel buf pos last n l :
  in_u32 n -> at_pos buf pos (write_main_marker n ++ l) ->
  exists pos', sbind (header_section (S fuel) last) k (mkCursor buf pos) = k ([], n) (mkCursor buf pos') /\
    at_pos buf pos' l.
Proof.
  intros Hn Ha. unfold write_main_marker in Ha. cbn [header_section]. rewrite sbind_assoc.
  destruct (Z.ltb_spec n 256).
  - change ([?x; ?y] ++ l) with ([x] ++ [y] ++ l) in Ha. cursor_step @u8_at Ha ltac:(by_compute).
    rewrite Z.eqb_refl, sbind_assoc. cursor_step @u8_at Ha ltac:(unfold in_u8, in_u32 in *; lia).
    eexists. split; [reflexivity | exact Ha].
  - rewrite <- app_assoc in Ha. cursor_step @u8_at Ha ltac:(by_compute).
    change (XLR_BLOCK_ID_DATA_LONG =? XLR_BLOCK_ID_DATA_SHORT) with false. rewrite Z.eqb_refl. cbn iota.
    rewrite sbind_assoc. cursor_step @u32_at Ha ltac:(exact Hn). eexists. split; [reflexivity | exact Ha].
Qed.

Lemma header_section_at {A} bs (k : list BlockWork * Z -> decoder A) fuel buf pos last id n l :
  Forall block_wf bs -> 0 <= id -> id + len bs <= XLR_MAX_BLOCK_ID + 1 -> in_u32 n ->
  (length bs < fuel)%nat -> at_pos buf pos (write_headers id last bs ++ write_main_marker n ++ l) ->
  exists pos', sbind (header_section fuel last) k (mkCursor buf pos) =
    k (block_work <$> bs, n) (mkCursor buf pos') /\ at_pos buf pos' l.
Proof.
  intros Hw. revert k fuel pos last id; induction Hw as [|b bs Hb _ IH]; intros k fuel pos last id Hid Hmax Hn Hf Ha.
  { destruct fuel; [cbn in Hf; lia |]. by apply main_marker_at. }
  destruct fuel as [|fuel]; [cbn in Hf; lia |]. rewrite len_cons in Hmax. pose proof (len_nonneg bs).
  unfold XLR_MAX_BLOCK_ID in Hmax. cbn [write_headers header_section] in *. rewrite <- app_assoc in Ha.
  rewrite sbind_assoc. assert (Hidb : in_u8 id) by (unfold in_u8; lia).
  edestruct (u8_at (A := A)) as [E _]; [| exact Hidb | rewrite E; clear E; cbv beta].
  { unfold write_block_header in Ha. rewrite <- !app_assoc in Ha. exact Ha. }
  unfold XLR_BLOCK_ID_DATA_SHORT, XLR_BLOCK_ID_DATA_LONG, XLR_BLOCK_ID_ORIGIN, XLR_BLOCK_ID_TOPLEVEL_XID, XLR_MAX_BLOCK_ID.
  rewrite !(proj2 (Z.eqb_neq id _)) by lia. rewrite (proj2 (Z.leb_le id 32)) by lia.
  rewrite sbind_assoc. edestruct (block_header_at (A := A)) as (p1 & E & Ha1); [exact Hb | exact Ha | rewrite E; clear E].
  rewrite sbind_assoc. edestruct IH as (p2 & E & Ha2); [| | exact Hn | | exact Ha1 | rewrite E; clear E].
  - lia.
  - unfold XLR_MAX_BLOCK_ID. lia.
  - cbn in Hf. lia.
  - exists p2. split; [reflexivity | exact Ha2].
Qed.

Lemma data_section_at {A} bs (k : list DecodedBlock -> decoder A) buf pos l :
  Forall block_wf bs -> at_pos buf pos (flat_map write_block_data bs ++ l) ->
  exists pos', sbind (data_section (block_work <$> bs)) k (mkCursor buf pos) = k bs (mkCursor buf pos') /\
    at_pos buf pos' l.
Proof.
  intros Hw. revert k pos; induction Hw as [|b bs Hb _ IH]; intros k pos Ha; [by exists pos |].
  cbn [fmap list_fmap data_section flat_map] in *. unfold write_block_data at 1 in Ha. rewrite <- !app_assoc in Ha.
  rewrite sbind_assoc.
  assert (Him : exists p1, (forall (k : option DecodedImage -> decoder A),
    sbind (match image_meta (block_work b) with
           | Some m => let! s := Cursor_take (bimg_len m) "block image" in
                       sret (Some (mkDecodedImage s (meta_hole_offset m) (meta_hole_length m)
                                     (meta_compression m) (meta_apply m)))
           | None => sret None
           end) k (mkCursor buf pos) = k (db_image b) (mkCursor buf p1)) /\
    at_pos buf p1 (db_data b ++ flat_map write_block_data bs ++ l)).
  { unfold block_work. cbn [image_meta]. destruct (db_image b) as [im|]; cbn [fmap option_fmap option_map].
    - exists (pos + len (im_bytes im)). split; [| by eapply at_pos_app]. intros k'. rewrite sbind_assoc.
      cbn [image_work bimg_len]. edestruct (take_at buf pos (B := A)) as [E Ha']; [exact Ha | done | rewrite E].
      unfold sbind, sret. by destruct im.
    - exists pos. by split. }
  destruct Him as (p1 & Him & Ha1). rewrite Him; clear Him Ha.
  rewrite sbind_assoc.
  assert (Hda : exists p2, (forall (k : bytes -> decoder A),
    sbind (if bw_has_data (block_work b) then Cursor_take (bw_data_len (block_work b)) "block data" else sret []) k
      (mkCursor buf p1) = k (db_data b) (mkCursor buf p2)) /\ at_pos buf p2 (flat_map write_block_data bs ++ l)).
  { unfold block_work, has_data. cbn [bw_has_data bw_data_len]. destruct (Z.eqb_spec (len (db_data b)) 0) as [E0|]; cbn [negb].
    - exists p1. apply len_zero_nil in E0. rewrite E0 in *. by split.
    - exists (p1 + len (db_data b)). split; [intros k'; by eapply take_at | by eapply at_pos_app]. }
  destruct Hda as (p2 & Hda & Ha2). rewrite Hda; clear Hda.
  rewrite sbind_assoc. edestruct IH as (p3 & E & Ha3); [exact Ha2 | rewrite E]. exists p3.
  split; [| exact Ha3]. unfold sbind, sret, block_work. by destruct b.
Qed.

Lemma decode_write_record lsn prev crc r :
  wal_record_wf r -> dr_lsn r = lsn -> decode_wal_record lsn (write_wal_record prev crc r) = Ok r.
Proof.
  intros (H1 & H2 & H3 & H4 & H5 & H6 & H7) Hlsn. unfold decode_wal_record, decode_record, write_wal_record.
  set (record := le_bytes 4 _ ++ _).
  assert (Hlen : len record = SIZE_OF_XLOG_RECORD + len (write_body r)).
  { unfold record. rewrite !len_app, !len_le_bytes. change (len [x00; x00]) with 2.
    change (len [_]) with 1. unfold SIZE_OF_XLOG_RECORD. lia. }
  pose proof (at_pos_start record) as Ha. unfold record at 2 in Ha.
  cursor_step @u32_at Ha ltac:(exact H7). cursor_step @u32_at Ha ltac:(exact H3).
  unfold Cursor_u64. rewrite sbind_assoc. cursor_step @take_at Ha ltac:(by rewrite len_le_bytes).
  erewrite sbind_Ok by reflexivity.
  cursor_step @u8_at Ha ltac:(exact H2). cursor_step @u8_at Ha ltac:(exact H1).
  unfold Cursor_skip. rewrite sbind_assoc. cursor_step @take_at Ha ltac:(reflexivity).
  erewrite sbind_Ok by reflexivity.
  unfold Cursor_u32. rewrite sbind_assoc. cursor_step @take_at Ha ltac:(by rewrite len_le_bytes).
  erewrite sbind_Ok by reflexivity. fold Cursor_u32.
  pose proof (len_nonneg (write_body r)). unfold SIZE_OF_XLOG_RECORD at 1 2.
  rewrite (proj2 (Z.ltb_ge _ _)) by lia. unfold SIZE_OF_XLOG_RECORD in Hlen at 1. rewrite Hlen, Z.eqb_refl. cbn [negb].
  unfold write_body in Ha.
  edestruct (header_section_at (A := DecodedWalRecord)) as (p1 & E & Ha1);
    [exact H5 | | | exact H4 | | exact Ha | rewrite E; clear E].
  - lia.
  - lia.
  - assert (Hb : len (dr_blocks r) <= len (write_headers 0 None (dr_blocks r))).
    { clear. generalize 0 (@None Locator). induction (dr_blocks r) as [|b bs IH]; intros id last; [done |].
      cbn [write_headers]. rewrite len_cons, len_app. specialize (IH (id + 1) (Some (locator b))).
      unfold write_block_header. rewrite !len_app. change (len [z2b id]) with 1.
      repeat match goal with |- context [len ?x] => lazymatch x with bs => fail | write_headers _ _ _ => fail
        | _ => pose proof (len_nonneg x); generalize dependent (len x); intros end end. lia. }
    assert (len (write_body r) <= len record) by lia. unfold write_body in *. rewrite len_app in *.
    pose proof (len_nonneg (write_main_marker (len (dr_main_data r)) ++
      flat_map write_block_data (dr_blocks r) ++ dr_main_data r)). unfold len in *. lia.
  - cbv beta iota. edestruct (data_section_at (A := DecodedWalRecord)) as (p2 & E & Ha2); [exact H5 | exact Ha1 | rewrite E; clear E].
    rewrite <- (app_nil_r (dr_main_data r)) in Ha2.
    edestruct (take_at record p2 (B := DecodedWalRecord)) as [E _]; [exact Ha2 | done | rewrite E]. cbn. by destruct r; subst.
Qed.

(** ** The decoder on arbitrary bytes

    A step of a decoder on [buf] moves the cursor at least [d] bytes forward
    inside the buffer, or fails; it panics only if some 16-bit field of the
    buffer holds more than a page. *)

Definition oversized (buf : bytes) : Prop :=
  exists i, 0 <= i /\ i + 2 <= len buf /\ XLOG_BLCKSZ < le_val (sub buf i 2).

Definition steps {A} (buf : bytes) (d : Z) (Q : A -> Prop) (m : decoder A) : Prop := forall pos,
  0 <= pos <= len buf ->
  match m (mkCursor buf pos) with
  | (c, Ok a) => c = mkCursor buf (c_pos c) /\ pos + d <= c_pos c <= len buf /\ Q a
  | (_, Err _) => True
  | (_, Panic) => oversized buf
  end.

Definition nonneg (z : Z) : Prop := 0 <= z.
Definition any {A} (_ : A) : Prop := True.

Section Steps.
Context {A B : Type} (buf : bytes).

Lemma steps_ret (Q : A -> Prop) (a : A) : Q a -> steps buf 0 Q (sret a).
Proof. intros Hq pos Hp. cbn. split; [done |]. split; [lia | done]. Qed.

Lemma steps_err (Q : A -> Prop) e : steps buf 0 Q (serr e).
Proof. done. Qed.

Lemma steps_bind d Q' Q (m : decoder A) (k : A -> decoder B) :
  0 <= d -> steps buf d Q' m -> (forall a, Q' a -> steps buf 0 Q (k a)) -> steps buf d Q (sbind m k).
Proof.
  intros Hd Hm Hk pos Hp. specialize (Hm pos Hp). unfold sbind.
  destruct (m (mkCursor buf pos)) as [c1 [a | |]]; [| done | done]. destruct Hm as (E & Hp1 & Hq).
  specialize (Hk a Hq (c_pos c1) ltac:(lia)). rewrite <- E in Hk. destruct (k a c1) as [c2 [b | |]]; [| done | done].
  destruct Hk as (E2 & Hp2 & Hq2). split; [done |]. split; [lia | done].
Qed.

Lemma steps_weaken d (Q' Q : A -> Prop) (m : decoder A) :
  steps buf d Q' m -> 0 <= d -> (forall a, Q' a -> Q a) -> steps buf 0 Q m.
Proof.
  intros Hm Hd Hq pos Hp. specialize (Hm pos Hp). destruct (m _) as [c1 [a | |]]; [| done | done].
  destruct Hm as (? & ? & ?). split; [done |]. split; [lia | auto].
Qed.

Lemma steps_ok_or (o : option A) e : steps buf 0 any (slift (ok_or o e)).
Proof. destruct o; [by apply steps_ret | done]. Qed.
End Steps.

Section Reads.
Context (buf : bytes).

Lemma steps_u8 what : steps buf 1 nonneg (Cursor_u8 what).
Proof.
  intros pos Hp. unfold Cursor_u8. cbn [c_buf c_pos]. destruct (get buf pos) as [b|] eqn:E; [| done].
  apply get_Some_iff in E as [_ E]. apply lookup_lt_Some in E. split; [done |].
  split; [unfold len in *; cbn; lia | apply b2z_range].
Qed.

Lemma steps_take n what : 0 <= n -> steps buf n any (Cursor_take n what).
Proof.
  intros Hn pos Hp. unfold Cursor_take. cbn [c_buf c_pos]. case_test; [done |]. bool_to_prop.
  rewrite slice_ok by lia. split; [done |]. cbn. split; [lia | done].
Qed.

Lemma steps_take_0 n what : 0 <= n -> steps buf 0 any (Cursor_take n what).
Proof. intros Hn. by apply (steps_weaken _ n any); [apply steps_take | |]. Qed.

Lemma steps_fixed {A} n what (f : bytes -> A) Q :
  0 <= n -> (forall s, Q (f s)) -> steps buf 0 Q (let! s := Cursor_take n what in sret (f s)).
Proof.
  intros Hn Hq. eapply steps_bind; [lia | by apply steps_take_0 |]. intros s _. by apply steps_ret.
Qed.

Lemma steps_u8_0 what : steps buf 0 nonneg (Cursor_u8 what).
Proof. apply (steps_weaken _ 1 nonneg); [apply steps_u8 | lia | done]. Qed.
Lemma steps_u16 what : steps buf 0 nonneg (Cursor_u16 what).
Proof. apply steps_fixed; [done | apply le_val_range]. Qed.
Lemma steps_u32 what : steps buf 0 nonneg (Cursor_u32 what).
Proof. apply steps_fixed; [done | apply le_val_range]. Qed.
Lemma steps_u64 what : steps buf 0 nonneg (Cursor_u64 what).
Proof. apply steps_fixed; [done | apply le_val_range]. Qed.
Lemma steps_skip n what : 0 <= n -> steps buf 0 any (Cursor_skip n what).
Proof. intros. by apply steps_fixed. Qed.
End Reads.

Ltac steps_auto :=
  repeat first [ apply steps_err | apply steps_u8_0 | apply steps_u16 | apply steps_u32
               | apply steps_u64 | apply steps_ok_or | apply steps_skip; lia | apply steps_take_0; assumption
               | eapply steps_bind; [lia | | intros ? ?] ].

Definition meta_ok (m : ImageMeta) : Prop := 0 <= bimg_len m.

(** The one subtraction that can underflow reads a length above the page size. *)
Lemma steps_image_header buf : steps buf 0 meta_ok image_header.
Proof.
  intros pos Hp. unfold image_header, Cursor_u16 at 1. rewrite sbind_assoc. unfold sbind at 1.
  unfold Cursor_take. cbn [c_buf c_pos]. case_test; [done |]. bool_to_prop. rewrite slice_ok by lia.
  set (s := sub buf pos (pos + 2 - pos)). erewrite sbind_Ok by reflexivity.
  assert (Hsub : steps buf 0 any (slift (sub_checked XLOG_BLCKSZ (le_val s)))).
  { unfold sub_checked. destruct (Z.leb_spec (le_val s) XLOG_BLCKSZ) as [|Hgt]; [by apply steps_ret |].
    intros p _. exists pos. unfold s in Hgt. replace (pos + 2 - pos) with 2 in Hgt by lia.
    split; [lia |]. split; [lia | done]. }
  match goal with |- match ?m (mkCursor _ _) with _ => _ end => assert (Hm : steps buf 0 meta_ok m) end.
  { steps_auto.
    - instantiate (1 := any). case_test; [by eapply steps_weaken; [apply steps_u16 | lia |] |].
      case_test; [exact Hsub | by apply steps_ret].
    - apply steps_ret. apply le_val_range. }
  specialize (Hm (pos + 2) ltac:(lia)).
  match goal with |- match ?m with _ => _ end => destruct m as [c [im | |]] end; [| done | done].
  destruct Hm as (? & ? & ?). split; [done |]. split; [lia | done].
Qed.

Definition work_ok (b : BlockWork) : Prop :=
  0 <= bw_data_len b /\ match image_meta b with Some m => meta_ok m | None => True end.

Lemma steps_block_header buf last : steps buf 0 (fun r => work_ok r.1) (block_header last).
Proof.
  unfold block_header. eapply steps_bind; [lia | apply steps_u8_0 | intros flags _].
  eapply steps_bind; [lia | apply steps_u16 | intros dl Hdl].
  eapply (steps_bind _ _ (fun o => match o with Some m => meta_ok m | None => True end)); [lia | |].
  { case_test; [| by apply steps_ret]. eapply steps_bind; [lia | apply steps_image_header |].
    intros m Hm. by apply steps_ret. }
  intros meta Hm. eapply (steps_bind _ _ any); [lia | |].
  { case_test; [apply steps_ok_or |]. steps_auto. by apply steps_ret. }
  intros [[spc db] rn] _. steps_auto. by apply steps_ret.
Qed.

(** The same from a position [lo] on. *)
Definition steps_from {A} (buf : bytes) (lo : Z) (Q : A -> Prop) (m : decoder A) : Prop := forall pos,
  lo <= pos <= len buf ->
  match m (mkCursor buf pos) with
  | (c, Ok a) => c = mkCursor buf (c_pos c) /\ pos <= c_pos c <= len buf /\ Q a
  | (_, Err _) => True
  | (_, Panic) => oversized buf
  end.

Lemma steps_from_bind {A B} buf lo d Q' Q (m : decoder A) (k : A -> decoder B) :
  0 <= lo -> 0 <= d -> steps buf d Q' m -> (forall a, Q' a -> steps_from buf (lo + d) Q (k a)) ->
  steps_from buf lo Q (sbind m k).
Proof.
  intros Hlo Hd Hm Hk pos Hp. specialize (Hm pos ltac:(lia)). unfold sbind.
  destruct (m (mkCursor buf pos)) as [c1 [a | |]]; [| done | done]. destruct Hm as (E & Hp1 & Hq).
  specialize (Hk a Hq (c_pos c1) ltac:(lia)). rewrite <- E in Hk. destruct (k a c1) as [c2 [b | |]]; [| done | done].
  destruct Hk as (E2 & Hp2 & Hq2). split; [done |]. split; [lia | done].
Qed.

Lemma steps_from_steps {A} buf lo (Q : A -> Prop) (m : decoder A) :
  0 <= lo -> steps buf 0 Q m -> steps_from buf lo Q m.
Proof.
  intros Hlo Hm pos Hp. specialize (Hm pos ltac:(lia)). destruct (m _) as [c [a | |]]; [| done | done].
  by rewrite Z.add_0_r in Hm.
Qed.

Lemma steps_header_section buf fuel last lo :
  0 <= lo -> len buf - lo < Z.of_nat fuel ->
  steps_from buf lo (fun r => 0 <= r.2 /\ Forall work_ok r.1) (header_section fuel last).
Proof.
  revert last lo; induction fuel as [|fuel IH]; intros last lo Hlo Hf.
  { intros pos Hp. lia. }
  cbn [header_section]. eapply steps_from_bind; [lia | | apply steps_u8 | intros id _]; [lia |].
  assert (Hend : forall n, nonneg n -> steps_from (A := list BlockWork * Z) buf (lo + 1)
            (fun r => 0 <= r.2 /\ Forall work_ok r.1) (sret ([], n))).
  { intros n Hn. apply steps_from_steps; [lia |]. apply steps_ret. split; [done | constructor]. }
  assert (Hend' : forall m : decoder Z, steps buf 0 nonneg m -> steps_from (A := list BlockWork * Z) buf (lo + 1)
            (fun r => 0 <= r.2 /\ Forall work_ok r.1) (let! n := m in sret ([], n))).
  { intros m Hm. eapply steps_from_bind; [lia | | exact Hm |]; [lia |]. rewrite Z.add_0_r. exact Hend. }
  assert (Hskip : forall n what, 0 <= n -> steps_from buf (lo + 1) (fun r => 0 <= r.2 /\ Forall work_ok r.1)
            (let! _ := Cursor_skip n what in header_section fuel last)).
  { intros n what Hn. eapply steps_from_bind; [lia | | by apply steps_skip |]; [lia |]. intros _ _.
    rewrite Z.add_0_r. apply IH; lia. }
  case_test; [apply Hend', steps_u8_0 |]. case_test; [apply Hend', steps_u32 |].
  case_test; [by apply Hskip |]. case_test; [by apply Hskip |].
  case_test; [| apply steps_from_steps; [lia | apply steps_err]].
  eapply steps_from_bind; [lia | | apply steps_block_header |]; [lia |]. intros [b last'] Hb. cbn in Hb.
  rewrite Z.add_0_r. intros pos Hp. unfold sbind. specialize (IH last' (lo + 1) ltac:(lia) ltac:(lia) pos Hp).
  destruct (header_section fuel last' (mkCursor buf pos)) as [c [[bs n] | |]]; [| done | done].
  destruct IH as (E & Hc & Hn & Hw). cbn. split; [done |]. split; [lia |]. split; [done | by constructor].
Qed.

Lemma steps_data_section buf works : Forall work_ok works -> steps buf 0 any (data_section works).
Proof.
  induction 1 as [|b works [Hd Hm] _ IH]; cbn [data_section]; [by apply steps_ret |].
  eapply (steps_bind _ _ any); [lia | |].
  { destruct (image_meta b) as [m|]; [| by apply steps_ret]. unfold meta_ok in Hm. steps_auto. by apply steps_ret. }
  intros im _. eapply (steps_bind _ _ any); [lia | |].
  { case_test; [by apply steps_take_0 | by apply steps_ret]. }
  intros data _. eapply steps_bind; [lia | exact IH |]. intros rest _. by apply steps_ret.
Qed.

Lemma decode_panics_oversized lsn record : decode_wal_record lsn record = Panic -> oversized record.
Proof.
  assert (Hs : steps_from record 0 any (decode_record lsn record)).
  { unfold decode_record.
    do 7 (eapply (steps_from_bind _ _ 0); [lia | lia |
      first [apply steps_u32 | apply steps_u64 | apply steps_u8_0 | by apply steps_skip] | intros ? ?; rewrite Z.add_0_r]).
    case_test; [apply steps_from_steps; [lia | apply steps_err] |].
    case_test; [apply steps_from_steps; [lia | apply steps_err] |].
    intros pos Hp. pose proof (steps_header_section record (S (length record)) None 0 ltac:(lia)
      ltac:(unfold len; lia) pos Hp) as Hh. unfold sbind at 1.
    destruct (header_section _ None (mkCursor record pos)) as [c [[works n] | |]]; [| done | done].
    destruct Hh as (-> & Hc & Hn & Hw). cbn [snd fst c_pos] in *.
    assert (Hrest : steps record 0 any (let! blocks := data_section works in
      let! main_data := Cursor_take n "main data" in
      sret (mkDecodedWalRecord lsn a3 a2 a0 main_data blocks))).
    { eapply steps_bind; [lia | by apply steps_data_section | intros blocks _].
      eapply steps_bind; [lia | by apply steps_take_0 | intros md _]. by apply steps_ret. }
    specialize (Hrest (c_pos c) ltac:(lia)).
    match goal with |- match ?m with _ => _ end => destruct m as [c2 [r | |]] end; [| done | done].
    destruct Hrest as (? & ? & ?). split; [done |]. split; [lia | done]. }
  intros E. pose proof (len_nonneg record). specialize (Hs 0 ltac:(lia)). unfold decode_wal_record in E.
  destruct (decode_record lsn record (mkCursor record 0)) as [c [r | |]]; [done | done | done].
Qed.


Definition example_block (n : Z) (im : option DecodedImage) : DecodedBlock :=
  mkDecodedBlock (mkRelTag 1663 5 16384 Main) n true im [x01; x02].


(** A block that declares a 9000-byte image with a hole makes the decoder
    subtract below zero; the record is otherwise well formed. *)
Lemma oversized_image_underflows :
  let body := [x00; x10; x00; x00] ++ le_bytes 2 9000 ++ le_bytes 2 0 ++ [x01] ++
              le_bytes 4 1663 ++ le_bytes 4 5 ++ le_bytes 4 16384 ++ le_bytes 4 0 ++ [xff; x00] in
  let record := le_bytes 4 (24 + len body) ++ replicate 20 x00 ++ body in
  decode_wal_record 0 record = Panic.
Proof. by vm_compute. Qed.

(** A record that is only a header is refused, and a top-level transaction id
    is taken to be eight bytes. *)
Lemma decoder_format_deviations :
  decode_wal_record 0 (le_bytes 4 24 ++ replicate 20 x00) = Err (Truncated "block_id") /\
  decode_wal_record 0 (le_bytes 4 31 ++ replicate 20 x00 ++ [xfc] ++ le_bytes 4 731 ++ [xff; x00]) =
    Err (Truncated "toplevel xid").
Proof. by_compute. Qed.
