(* ===== verification/WalStream.v ===== *)
(** Framing of the WAL byte stream (src/pageserver/src/waldecode.rs,
    [WalStreamDecoder]): pages with headers, records that continue across
    pages, alignment padding and zero-filled page ends.  LSNs are unbounded
    here: the decoder's own additions overflow only after 2^64 bytes of WAL. *)

From S2P Require Import Prelude Bytes Common WalDecode.

Definition SIZE_OF_XLOG_SHORT_PHD : Z := 24.
Definition SIZE_OF_XLOG_LONG_PHD : Z := 40.
Definition DEFAULT_WAL_SEG_SIZE : Z := 16 * 1024 * 1024.
Definition XLOG_PAGE_MAGIC_PG16 : Z := 0xD113.

Record WalStreamDecoder := mkWalStreamDecoder {
  ws_lsn : Z;
  wal_seg_size : Z;
  check_magic : bool;
  ws_buf : bytes
}.

Definition WalStreamDecoder_new (start_lsn : Lsn) : WalStreamDecoder :=
  mkWalStreamDecoder start_lsn DEFAULT_WAL_SEG_SIZE true [].

Definition with_segment_size (d : WalStreamDecoder) (seg_size : Z) : WalStreamDecoder :=
  mkWalStreamDecoder (ws_lsn d) seg_size (check_magic d) (ws_buf d).

Definition without_magic_check (d : WalStreamDecoder) : WalStreamDecoder :=
  mkWalStreamDecoder (ws_lsn d) (wal_seg_size d) false (ws_buf d).

Definition feed_bytes (bs : bytes) (d : WalStreamDecoder) : WalStreamDecoder :=
  mkWalStreamDecoder (ws_lsn d) (wal_seg_size d) (check_magic d) (ws_buf d ++ bs).

(** [a % b] on unsigned integers. *)
Definition rem {E} (a b : Z) : outcome E Z := if b =? 0 then Panic else Ok (a mod b).

Definition page_header_size (seg lsn : Z) : outcome WalDecodeError Z :=
  let? r := rem lsn seg in
  Ok (if r =? 0 then SIZE_OF_XLOG_LONG_PHD else SIZE_OF_XLOG_SHORT_PHD).

(** A mismatch of the long-header flag is tolerated, so only the magic counts. *)
Definition check_page_header (d : WalStreamDecoder) (off lsn : Z) : outcome WalDecodeError unit :=
  if check_magic d then
    let? magic := get_le 2 (ws_buf d) off in
    ensure magic =? XLOG_PAGE_MAGIC_PG16 else BadPageMagic magic XLOG_PAGE_MAGIC_PG16 in
    let? _info := get_le 2 (ws_buf d) (off + 2) in
    let? _expect := rem lsn (wal_seg_size d) in
    Ok tt
  else Ok tt.

(** Every iteration moves [off] forward inside the buffer, which bounds them. *)
Fixpoint collect_loop (fuel : nat) (d : WalStreamDecoder) (n : Z) (out : bytes) (off lsn : Z)
    (first : option Z) : outcome WalDecodeError (option (bytes * Z * Z)) :=
  if len out <? n then
    match fuel with
    | O => Panic
    | S fuel' =>
        if lsn mod XLOG_BLCKSZ =? 0 then
          let? h := page_header_size (wal_seg_size d) lsn in
          if len (ws_buf d) <? off + h then Ok None
          else
            let? _ := check_page_header d off lsn in
            collect_loop fuel' d n out (off + h) (lsn + h) first
        else
          let first := match first with None => Some lsn | Some l => Some l end in
          let page_remaining := XLOG_BLCKSZ - lsn mod XLOG_BLCKSZ in
          let want := Z.min (n - len out) page_remaining in
          if len (ws_buf d) <? off + want then Ok None
          else
            let? chunk := slice (ws_buf d) off (off + want) in
            collect_loop fuel' d n (out ++ chunk) (off + want) (lsn + want) first
    end
  else Ok (Some (out, off, match first with Some l => l | None => lsn end)).

Definition collect_payload (d : WalStreamDecoder) (n : Z) : outcome WalDecodeError (option (bytes * Z * Z)) :=
  collect_loop (S (length (ws_buf d))) d n [] 0 (ws_lsn d) None.

(** [buf.drain(0..raw)] *)
Definition consume (raw : Z) (d : WalStreamDecoder) : WalStreamDecoder :=
  mkWalStreamDecoder (ws_lsn d + raw) (wal_seg_size d) (check_magic d)
    (sub (ws_buf d) raw (len (ws_buf d) - raw)).

(** The loop of [poll_decode]; a [continue] has skipped the rest of a page, so
    the buffer bounds the iterations. *)
Fixpoint poll_loop (fuel : nat) : stateM WalStreamDecoder WalDecodeError (option (Lsn * bytes)) := fun d =>
  match fuel with
  | O => (d, Panic)
  | S fuel' =>
      let misalign := ws_lsn d mod 8 in
      let pad := 8 - misalign in
      if negb (misalign =? 0) && (len (ws_buf d) <? pad) then (d, Ok None)
      else
        let d := if negb (misalign =? 0) then consume pad d else d in
        match collect_payload d 4 with
        | Ok None => (d, Ok None)
        | Ok (Some (len_bytes, _, rec_lsn)) =>
            let xl_tot_len := le_val len_bytes in
            if xl_tot_len <? SIZE_OF_XLOG_RECORD then
              let next_page := (rec_lsn / XLOG_BLCKSZ + 1) * XLOG_BLCKSZ in
              let skip := next_page - ws_lsn d in
              if len (ws_buf d) <? skip then (d, Ok None)
              else poll_loop fuel' (consume skip d)
            else
              match collect_payload d xl_tot_len with
              | Ok None => (d, Ok None)
              | Ok (Some (record, raw, rec_lsn)) => (consume raw d, Ok (Some (rec_lsn, record)))
              | Err e => (d, Err e)
              | Panic => (d, Panic)
              end
        | Err e => (d, Err e)
        | Panic => (d, Panic)
        end
  end.

Definition poll_decode : stateM WalStreamDecoder WalDecodeError (option (Lsn * bytes)) := fun d =>
  poll_loop (S (length (ws_buf d))) d.

(** ** The stream format: what PostgreSQL writes *)

Definition header_size (seg l : Z) : Z :=
  if l mod seg =? 0 then SIZE_OF_XLOG_LONG_PHD else SIZE_OF_XLOG_SHORT_PHD.

(** Page headers of the right size with the right magic. *)
Class PageHeaders (seg : Z) := {
  page_header : Z -> bytes;
  page_header_len l : len (page_header l) = header_size seg l;
  page_header_magic l : sub (page_header l) 0 2 = le_bytes 2 XLOG_PAGE_MAGIC_PG16
}.

Section Layout.
Context (seg : Z) `{PageHeaders seg}.

(** The raw bytes of payload [p] written from position [l] on. *)
Fixpoint lay (l : Z) (p : bytes) : bytes :=
  match p with
  | [] => []
  | b :: p' =>
      if l mod XLOG_BLCKSZ =? 0
      then page_header l ++ b :: lay (l + header_size seg l + 1) p'
      else b :: lay (l + 1) p'
  end.

(** The position of the first payload byte written at [l]. *)
Definition payload_start (l : Z) : Z :=
  if l mod XLOG_BLCKSZ =? 0 then l + header_size seg l else l.

Inductive wal_item :=
| Rec (r : bytes)
| Fill.

(** The bytes left on the page for a payload at [l]. *)
Definition fill_len (l : Z) : Z := XLOG_BLCKSZ - payload_start l mod XLOG_BLCKSZ.

Definition item_payload (l : Z) (it : wal_item) : bytes :=
  match it with Rec r => r | Fill => replicate (Z.to_nat (fill_len l)) x00 end.

Definition pad_len (l : Z) : Z := (- l) mod 8.

(** Items from position [l] on: each is aligned to eight bytes. *)
Fixpoint stream (l : Z) (items : list wal_item) : bytes :=
  match items with
  | [] => []
  | it :: items' =>
      let a := l + pad_len l in
      let raw := lay a (item_payload a it) in
      replicate (Z.to_nat (pad_len l)) x00 ++ raw ++ stream (a + len raw) items'
  end.

(** The records of the items with their positions. *)
Fixpoint records_of (l : Z) (items : list wal_item) : list (Lsn * bytes) :=
  match items with
  | [] => []
  | it :: items' =>
      let a := l + pad_len l in
      let rest := records_of (a + len (lay a (item_payload a it))) items' in
      match it with Rec r => (payload_start a, r) :: rest | Fill => rest end
  end.

(** A record starts with its own length. *)
Definition rec_ok (r : bytes) : Prop :=
  SIZE_OF_XLOG_RECORD <= len r < 2 ^ 32 /\ le_val (sub r 0 4) = len r.

Definition item_ok (it : wal_item) : Prop := match it with Rec r => rec_ok r | Fill => True end.

(** ** Facts about the layout *)

Lemma header_size_range l : 24 <= header_size seg l <= 40.
Proof. unfold header_size, SIZE_OF_XLOG_LONG_PHD, SIZE_OF_XLOG_SHORT_PHD. case_test; lia. Qed.

Lemma header_size_mod8 l : header_size seg l mod 8 = 0.
Proof. unfold header_size. by case_test. Qed.

Lemma lay_app l p q : lay l (p ++ q) = lay l p ++ lay (l + len (lay l p)) q.
Proof.
  revert l; induction p as [|b p IH]; intros l; cbn [app lay].
  { change (len (@nil byte)) with 0. by rewrite Z.add_0_r. }
  case_test.
  - rewrite IH, <- app_assoc, <- app_comm_cons, len_app, len_cons, page_header_len. do 4 f_equal; lia.
  - rewrite IH, len_cons. cbn [app]. do 3 f_equal; lia.
Qed.

Lemma len_lay_ge l p : len p <= len (lay l p).
Proof.
  revert l; induction p as [|b p IH]; intros l; cbn [lay]; [done |].
  case_test; rewrite ?len_app, !len_cons.
  - specialize (IH (l + header_size seg l + 1)). pose proof (len_nonneg (page_header l)). lia.
  - specialize (IH (l + 1)). lia.
Qed.

(** Inside a page the payload is contiguous. *)
Lemma lay_chunk l p q :
  0 <= l -> l mod XLOG_BLCKSZ <> 0 -> len p <= XLOG_BLCKSZ - l mod XLOG_BLCKSZ ->
  lay l (p ++ q) = p ++ lay (l + len p) q.
Proof.
  unfold XLOG_BLCKSZ, PAGE_SIZE. revert l; induction p as [|b p IH]; intros l Hl Hm Hp.
  { change (len (@nil byte)) with 0. by rewrite Z.add_0_r. }
  cbn [app lay]. unfold XLOG_BLCKSZ, PAGE_SIZE. rewrite (proj2 (Z.eqb_neq _ _)) by done. f_equal.
  rewrite len_cons in Hp |- *. destruct p as [|b' p].
  { change (len (@nil byte)) with 0. cbn [app]. done. }
  assert (E : (l + 1) mod 8192 = l mod 8192 + 1).
  { rewrite len_cons in Hp. pose proof (len_nonneg p). pose proof (Z.mod_pos_bound l 8192).
    rewrite <- Z.add_mod_idemp_l, Z.mod_small by lia. lia. }
  pose proof (Z.mod_pos_bound l 8192 ltac:(lia)). rewrite IH by lia. by rewrite Z.add_assoc.
Qed.

(** At a page boundary the header comes first. *)
Lemma lay_boundary l p :
  l mod XLOG_BLCKSZ = 0 -> p <> [] -> lay l p = page_header l ++ lay (l + header_size seg l) p.
Proof.
  intros Hl Hp. destruct p as [|b p]; [done |]. cbn [lay]. rewrite Hl. change (0 =? 0) with true. cbn iota.
  f_equal. assert (E : (l + header_size seg l) mod XLOG_BLCKSZ = header_size seg l).
  { unfold XLOG_BLCKSZ, PAGE_SIZE in *. pose proof (header_size_range l).
    rewrite <- Z.add_mod_idemp_l, Hl, Z.mod_small by lia. lia. }
  rewrite E. pose proof (header_size_range l). rewrite (proj2 (Z.eqb_neq _ _)) by lia. done.
Qed.
End Layout.

(** ** Collecting payload *)

Lemma app_prefix {A} (a b c d : list A) :
  a ++ b = c ++ d -> len c <= len a -> exists a', a = c ++ a' /\ a' ++ b = d.
Proof.
  intros E Hl. exists (drop (length c) a).
  assert (Ha : a = c ++ drop (length c) a).
  { rewrite <- (take_drop (length c) a) at 1. f_equal. apply (f_equal (take (length c))) in E.
    rewrite take_app_length in E. rewrite take_app_le in E by (unfold len in Hl; lia). done. }
  split; [done |]. rewrite Ha in E at 1. rewrite <- app_assoc in E. by apply app_inv_head in E.
Qed.

Lemma app_short {A} (a b c d : list A) :
  a ++ b = c ++ d -> len a < len c -> exists c', c = a ++ c' /\ c' <> [].
Proof.
  intros E Hl. destruct (app_prefix c d a b (eq_sym E) ltac:(lia)) as (c' & -> & _). exists c'. split; [done |].
  intros ->. rewrite app_nil_r in Hl. lia.
Qed.

Section Decode.
Context (seg : Z) `{PageHeaders seg} (seg_pos : 0 < seg).

Abbreviation lay := (lay seg).
Abbreviation stream := (stream seg).

Lemma page_header_size_ok l : page_header_size seg l = Ok (header_size seg l).
Proof. unfold page_header_size, rem. by rewrite (proj2 (Z.eqb_neq seg 0)) by lia. Qed.

Lemma check_page_header_ok d off l p :
  wal_seg_size d = seg -> at_pos (ws_buf d) off (page_header l ++ p) -> check_page_header d off l = Ok tt.
Proof.
  intros Hs Ha. unfold check_page_header. destruct (check_magic d); [| done].
  pose proof (page_header_len l) as Hl. pose proof (header_size_range seg l) as Hr.
  pose proof (at_pos_room _ _ _ _ Ha) as Hroom. destruct Ha as (H0 & Hd & Hlen).
  rewrite !get_le_ok by lia. cbn [bind].
  assert (E : sub (ws_buf d) off 2 = le_bytes 2 XLOG_PAGE_MAGIC_PG16).
  { rewrite <- (page_header_magic l). unfold sub. rewrite Hd, drop_0.
    apply take_app_le. unfold len in *. lia. }
  rewrite E. change (le_val (le_bytes 2 XLOG_PAGE_MAGIC_PG16) =? XLOG_PAGE_MAGIC_PG16) with true. cbn iota.
  unfold rem. by rewrite Hs, (proj2 (Z.eqb_neq seg 0)) by lia.
Qed.

Lemma payload_start_page l : l mod XLOG_BLCKSZ <> 0 -> payload_start seg l = l.
Proof. intros Hl. unfold payload_start. by rewrite (proj2 (Z.eqb_neq _ _)). Qed.

Lemma after_header_mod l : l mod XLOG_BLCKSZ = 0 -> (l + header_size seg l) mod XLOG_BLCKSZ <> 0.
Proof.
  intros Hl. pose proof (header_size_range seg l). unfold XLOG_BLCKSZ, PAGE_SIZE in *.
  rewrite <- Z.add_mod_idemp_l, Hl, Z.mod_small by lia. lia.
Qed.

(** The payload up to the end of the page, and the rest of it. *)
Lemma page_split (todo : bytes) l :
  0 < len todo -> l mod XLOG_BLCKSZ <> 0 ->
  let want := Z.min (len todo) (XLOG_BLCKSZ - l mod XLOG_BLCKSZ) in
  exists c q, todo = c ++ q /\ len c = want /\ 1 <= want.
Proof.
  intros Ht Hl want. pose proof (Z.mod_pos_bound l XLOG_BLCKSZ ltac:(by_compute)).
  assert (1 <= want <= len todo) by (unfold want; lia).
  exists (sub todo 0 want), (sub todo want (len todo - want)). split; [| split; [apply sub_len; lia | lia]].
  rewrite <- (sub_full todo (len todo)) at 1 by done. by rewrite (sub_split todo 0 want (len todo)) by lia.
Qed.

Lemma collect_loop_ok fuel d todo out off l first tail n :
  wal_seg_size d = seg -> 0 <= l -> at_pos (ws_buf d) off (lay l todo ++ tail) ->
  n = len out + len todo -> len (lay l todo) < Z.of_nat fuel ->
  collect_loop fuel d n out off l first =
  Ok (Some (out ++ todo, off + len (lay l todo),
        match first with Some s => s | None => match todo with [] => l | _ => payload_start seg l end end)).
Proof.
  intros Hs. revert todo out off l first; induction fuel as [|fuel IH]; intros todo out off l first Hl Ha Hn Hf.
  { pose proof (len_nonneg (lay l todo)). lia. }
  destruct (Z.eq_dec (len todo) 0) as [E0 | E0].
  { apply len_zero_nil in E0 as ->. cbn [collect_loop]. change (len (@nil byte)) with 0 in Hn.
    rewrite (proj2 (Z.ltb_ge _ _)) by lia. rewrite app_nil_r. cbn [WalStream.lay].
    change (len (@nil byte)) with 0. by rewrite Z.add_0_r. }
  pose proof (len_nonneg todo) as Ht. cbn [collect_loop]. rewrite (proj2 (Z.ltb_lt (len out) n)) by lia.
  assert (Hne : todo <> []) by (by intros ->).
  destruct (Z.eqb_spec (l mod XLOG_BLCKSZ) 0) as [Hb | Hb].
  - rewrite Hs, page_header_size_ok. cbn [bind]. rewrite (lay_boundary seg l todo Hb Hne) in Ha, Hf |- *.
    rewrite <- app_assoc in Ha. pose proof (at_pos_room _ _ _ _ Ha) as Hroom. rewrite page_header_len in Hroom.
    pose proof (header_size_range seg l). rewrite (proj2 (Z.ltb_ge _ _)) by lia.
    rewrite (check_page_header_ok d off l _ Hs Ha). cbn [bind].
    rewrite len_app, page_header_len in Hf |- *. rewrite (IH todo); [| lia | | done | lia].
    + rewrite Z.add_assoc. do 3 f_equal. destruct first; [done |]. destruct todo; [done |].
      rewrite (payload_start_page _ (after_header_mod l Hb)). unfold payload_start. by rewrite Hb.
    + by eapply at_pos_app; [exact Ha | rewrite page_header_len].
  - destruct (page_split todo l ltac:(lia) Hb) as (c & q & -> & Hc & Hw).
    pose proof (len_nonneg q). rewrite len_app in Hn, Ht, E0, Hc, Hw.
    replace (n - len out) with (len c + len q) by lia. rewrite <- Hc.
    rewrite (lay_chunk seg l c q) in Ha, Hf |- * by lia. rewrite <- app_assoc in Ha.
    pose proof (at_pos_room _ _ _ _ Ha) as Hroom. rewrite (proj2 (Z.ltb_ge _ _)) by lia.
    rewrite (at_pos_slice _ _ _ _ _ Ha eq_refl). cbn [bind]. rewrite len_app in Hf |- *.
    rewrite (IH q); [| lia | by eapply at_pos_app | rewrite len_app; lia | lia].
    rewrite <- app_assoc, Z.add_assoc. do 3 f_equal. destruct c as [|b c]; [change (len (@nil byte)) with 0 in Hc, Hw; lia |].
    destruct first; [done |]. cbn [app]. by rewrite (payload_start_page l Hb).
Qed.

Lemma collect_loop_short fuel d todo out off l first b rest n :
  wal_seg_size d = seg -> 0 <= l -> at_pos (ws_buf d) off b -> b ++ rest = lay l todo -> rest <> [] ->
  n = len out + len todo -> len b < Z.of_nat fuel ->
  collect_loop fuel d n out off l first = Ok None.
Proof.
  intros Hs. revert todo out off l first b; induction fuel as [|fuel IH]; intros todo out off l first b Hl Ha Hb Hr Hn Hf.
  { pose proof (len_nonneg b). lia. }
  assert (Hne : todo <> []) by (intros ->; cbn in Hb; by apply app_eq_nil in Hb as [_ ?]).
  assert (Ht : 0 < len todo) by (destruct todo; [done | rewrite len_cons; pose proof (len_nonneg todo); lia]).
  cbn [collect_loop]. rewrite (proj2 (Z.ltb_lt (len out) n)) by lia. destruct Ha as (H0 & Hd & Hlen).
  destruct (Z.eqb_spec (l mod XLOG_BLCKSZ) 0) as [Hm | Hm].
  - rewrite Hs, page_header_size_ok. cbn [bind]. rewrite (lay_boundary seg l todo Hm Hne) in Hb.
    pose proof (header_size_range seg l). destruct (Z.ltb_spec (len (ws_buf d)) (off + header_size seg l)); [done |].
    destruct (app_prefix _ _ _ _ Hb ltac:(rewrite page_header_len; lia)) as (b' & -> & Hb').
    assert (Ha : at_pos (ws_buf d) off (page_header l ++ b')) by done.
    rewrite (check_page_header_ok d off l _ Hs Ha). cbn [bind]. rewrite len_app, page_header_len in Hf.
    eapply IH; [lia | by eapply at_pos_app; [exact Ha | rewrite page_header_len] | exact Hb' | done | done | lia].
  - destruct (page_split todo l Ht Hm) as (c & q & -> & Hc & Hw). pose proof (len_nonneg q).
    rewrite len_app in Hn, Hc, Hw. replace (n - len out) with (len c + len q) by lia. rewrite <- Hc.
    rewrite (lay_chunk seg l c q) in Hb by lia. destruct (Z.ltb_spec (len (ws_buf d)) (off + len c)); [done |].
    destruct (app_prefix _ _ _ _ Hb ltac:(lia)) as (b' & -> & Hb').
    assert (Ha : at_pos (ws_buf d) off (c ++ b')) by done.
    rewrite (at_pos_slice _ _ _ _ _ Ha eq_refl). cbn [bind]. rewrite len_app in Hf.
    eapply IH; [| by eapply at_pos_app | exact Hb' | done | rewrite len_app; lia | lia]. lia.
Qed.

(** What [collect_payload] returns on the beginning of a stream. *)
Lemma collect_payload_ok d p tail :
  wal_seg_size d = seg -> 0 <= ws_lsn d -> ws_buf d = lay (ws_lsn d) p ++ tail -> p <> [] ->
  collect_payload d (len p) = Ok (Some (p, len (lay (ws_lsn d) p), payload_start seg (ws_lsn d))).
Proof.
  intros Hs Hl Hb Hp. unfold collect_payload.
  rewrite (collect_loop_ok _ d p [] 0 _ None tail); [| done | done | | done |].
  - rewrite Z.add_0_l. by destruct p.
  - rewrite Hb. apply at_pos_start.
  - rewrite Hb. unfold len. rewrite length_app. lia.
Qed.

Lemma collect_payload_short d p rest :
  wal_seg_size d = seg -> 0 <= ws_lsn d -> ws_buf d ++ rest = lay (ws_lsn d) p -> rest <> [] ->
  collect_payload d (len p) = Ok None.
Proof.
  intros Hs Hl Hb Hr. unfold collect_payload.
  eapply (collect_loop_short _ d p [] 0 _ None (ws_buf d) rest);
    [done | done | apply at_pos_start | done | done | done | unfold len; lia].
Qed.

(** ** Polling *)

Lemma pad_len_spec l : 0 <= pad_len l < 8 /\ (l + pad_len l) mod 8 = 0 /\
  (l mod 8 = 0 -> pad_len l = 0) /\ (l mod 8 <> 0 -> pad_len l = 8 - l mod 8).
Proof.
  unfold pad_len. pose proof (Z.mod_pos_bound (- l) 8 ltac:(lia)). split; [lia |].
  split; [rewrite Z.add_mod_idemp_r by lia; by rewrite Z.add_opp_diag_r |].
  split; [intros E; by rewrite Z.mod_opp_l_z | intros E; by rewrite Z.mod_opp_l_nz].
Qed.

Lemma payload_start_mod8 l : l mod 8 = 0 -> payload_start seg l mod 8 = 0.
Proof.
  intros Hl. unfold payload_start. case_test; [| done].
  by rewrite <- Z.add_mod_idemp_l, Hl, Z.add_0_l, header_size_mod8 by lia.
Qed.

Lemma fill_len_range l : l mod 8 = 0 -> 8 <= fill_len seg l.
Proof.
  intros Hl%payload_start_mod8. unfold fill_len, XLOG_BLCKSZ, PAGE_SIZE.
  set (q := payload_start seg l) in *. pose proof (Z.mod_pos_bound q 8192 ltac:(lia)).
  assert (E : q mod 8192 mod 8 = 0) by (rewrite Z.mod_mod_divide; [done | by exists 1024]).
  pose proof (Z.div_mod (q mod 8192) 8 ltac:(lia)). lia.
Qed.

Lemma fill_skip l :
  0 <= l -> l mod 8 = 0 ->
  (payload_start seg l / XLOG_BLCKSZ + 1) * XLOG_BLCKSZ - l =
  len (lay l (replicate (Z.to_nat (fill_len seg l)) x00)).
Proof.
  intros H0 Hl. pose proof (fill_len_range l Hl) as Hf. set (z := replicate _ _).
  assert (Hz : len z = fill_len seg l) by (unfold z; rewrite len_replicate; lia).
  assert (Hne : z <> []) by (intros E; rewrite E in Hz; change (len (@nil byte)) with 0 in Hz; lia).
  assert (Hin : forall s, 0 <= s -> s mod XLOG_BLCKSZ <> 0 -> len z = XLOG_BLCKSZ - s mod XLOG_BLCKSZ -> len (lay s z) = len z).
  { intros s Hs Hm Hl'. rewrite <- (app_nil_r z). rewrite lay_chunk by lia. cbn [WalStream.lay]. by rewrite app_nil_r. }
  unfold fill_len in Hz. pose proof (header_size_range seg l).
  destruct (Z.eq_dec (l mod XLOG_BLCKSZ) 0) as [Hb | Hb].
  - rewrite (lay_boundary seg l z Hb Hne), len_app, page_header_len.
    unfold payload_start in *. rewrite Hb in *. change (0 =? 0) with true in *. cbv iota in *.
    rewrite Hin; [| lia | by apply after_header_mod | done]. rewrite Hz.
    unfold XLOG_BLCKSZ, PAGE_SIZE in *. pose proof (Z.div_mod (l + header_size seg l) 8192 ltac:(lia)). lia.
  - rewrite payload_start_page in * by done. rewrite Hin by done. rewrite Hz.
    unfold XLOG_BLCKSZ, PAGE_SIZE in *. pose proof (Z.div_mod l 8192 ltac:(lia)). lia.
Qed.

Lemma item_payload_len a it : a mod 8 = 0 -> item_ok it -> 8 <= len (item_payload seg a it).
Proof.
  intros Ha. destruct it as [r |]; cbn.
  - intros [Hr _]. unfold SIZE_OF_XLOG_RECORD in Hr. lia.
  - intros _. rewrite len_replicate. pose proof (fill_len_range a Ha). lia.
Qed.

Lemma consume_app raw d a b :
  ws_buf d = a ++ b -> raw = len a -> consume raw d = mkWalStreamDecoder (ws_lsn d + raw) (wal_seg_size d) (check_magic d) b.
Proof.
  intros Hb ->. unfold consume. rewrite Hb, len_app, sub_app_ge, Z.sub_diag by lia.
  by rewrite sub_full by lia.
Qed.

(** The decoder holds the beginning of the stream of [items]; [rest] is still to
    be fed. *)
Record framing (d : WalStreamDecoder) (items : list wal_item) (rest : bytes) : Prop := {
  fr_seg : wal_seg_size d = seg;
  fr_pos : 0 <= ws_lsn d;
  fr_buf : ws_buf d ++ rest = stream (ws_lsn d) items;
  fr_ok : Forall item_ok items
}.

Lemma stream_cons l it items :
  stream l (it :: items) =
  replicate (Z.to_nat (pad_len l)) x00 ++ stream (l + pad_len l) (it :: items).
Proof.
  pose proof (pad_len_spec l) as (_ & Hm & _ & _). pose proof (pad_len_spec (l + pad_len l)) as (_ & _ & Hp & _).
  cbn [WalStream.stream]. rewrite (Hp Hm). change (Z.to_nat 0) with 0%nat. rewrite Z.add_0_r. done.
Qed.

Lemma records_of_pad l items : records_of seg (l + pad_len l) items = records_of seg l items.
Proof.
  destruct items as [|it items]; [done |]. cbn [records_of].
  pose proof (pad_len_spec l) as (_ & Hm & _ & _). pose proof (pad_len_spec (l + pad_len l)) as (_ & _ & Hp & _).
  by rewrite (Hp Hm), Z.add_0_r.
Qed.

(** What one poll of a framed decoder does: the next record, or nothing yet. *)
Definition poll_result (d : WalStreamDecoder) (items : list wal_item) (rest : bytes)
    (res : WalStreamDecoder * outcome WalDecodeError (option (Lsn * bytes))) : Prop :=
  exists d' items', framing d' items' rest /\
    ((exists l r, res = (d', Ok (Some (l, r))) /\ len (ws_buf d') < len (ws_buf d) /\
        records_of seg (ws_lsn d) items = (l, r) :: records_of seg (ws_lsn d') items') \/
     (res = (d', Ok None) /\ records_of seg (ws_lsn d) items = records_of seg (ws_lsn d') items' /\
        (rest = [] -> items' = []))).

Lemma collect_payload_empty d n :
  wal_seg_size d = seg -> ws_buf d = [] -> 0 < n -> collect_payload d n = Ok None.
Proof.
  intros Hs Hb Hn. unfold collect_payload. rewrite Hb. cbn [length collect_loop].
  change (len (@nil byte)) with 0. rewrite (proj2 (Z.ltb_lt 0 n)) by lia. rewrite Hb. change (len (@nil byte)) with 0.
  pose proof (header_size_range seg (ws_lsn d)). case_test.
  - rewrite Hs, page_header_size_ok. cbn [bind]. by rewrite (proj2 (Z.ltb_lt _ _)) by lia.
  - pose proof (Z.mod_pos_bound (ws_lsn d) XLOG_BLCKSZ ltac:(by_compute)).
    by rewrite (proj2 (Z.ltb_lt _ _)) by lia.
Qed.

(** The part of a poll after alignment. *)
Definition poll_aligned (fuel : nat) (d : WalStreamDecoder) :=
  match collect_payload d 4 with
  | Ok None => (d, Ok None)
  | Ok (Some (len_bytes, _, rec_lsn)) =>
      let xl_tot_len := le_val len_bytes in
      if xl_tot_len <? SIZE_OF_XLOG_RECORD then
        let next_page := (rec_lsn / XLOG_BLCKSZ + 1) * XLOG_BLCKSZ in
        let skip := next_page - ws_lsn d in
        if len (ws_buf d) <? skip then (d, Ok None) else poll_loop fuel (consume skip d)
      else
        match collect_payload d xl_tot_len with
        | Ok None => (d, Ok None)
        | Ok (Some (record, raw, rec_lsn)) => (consume raw d, Ok (Some (rec_lsn, record)))
        | Err e => (d, Err e)
        | Panic => (d, Panic)
        end
  | Err e => (d, Err e)
  | Panic => (d, Panic)
  end.

Lemma poll_aligned_framing fuel d it items rest :
  (forall d' items', framing d' items' rest -> (length (ws_buf d') < fuel)%nat ->
     poll_result d' items' rest (poll_loop fuel d')) ->
  framing d (it :: items) rest -> ws_lsn d mod 8 = 0 -> (length (ws_buf d) <= fuel)%nat ->
  poll_result d (it :: items) rest (poll_aligned fuel d).
Proof.
  intros IH Hfr Ha Hf. destruct Hfr as [Hs H0 Hb Hok]. inversion Hok as [|? ? Hit Hits]; subst x l.
  set (a := ws_lsn d) in *. pose proof (pad_len_spec a) as (_ & _ & Hpad & _). specialize (Hpad Ha).
  assert (Hst : stream a (it :: items) = lay a (item_payload seg a it) ++ stream (a + len (lay a (item_payload seg a it))) items).
  { cbn [WalStream.stream]. rewrite Hpad. change (Z.to_nat 0) with 0%nat. by rewrite Z.add_0_r. }
  rewrite Hst in Hb. set (p := item_payload seg a it) in *.
  assert (Hrec : records_of seg a (it :: items) =
    let rs := records_of seg (a + len (lay a p)) items in match it with Rec r => (payload_start seg a, r) :: rs | Fill => rs end).
  { cbn [records_of]. rewrite Hpad, Z.add_0_r. done. }
  pose proof (item_payload_len a it Ha Hit) as Hp8. fold p in Hp8.
  assert (Hnone : len (ws_buf d) < len (lay a p) -> poll_result d (it :: items) rest (d, Ok None)).
  { intros Hlt. exists d, (it :: items). split; [by split; [.. | fold a; rewrite Hst |] |]. right.
    split; [done |]. split; [done |]. intros ->. rewrite app_nil_r in Hb. rewrite Hb, len_app in Hlt.
    pose proof (len_nonneg (stream (a + len (lay a p)) items)). lia. }
  assert (Hp4 : p = sub p 0 4 ++ sub p 4 (len p - 4)).
  { rewrite <- (sub_full p (len p)) at 1 by done. apply (sub_split p 0 4); lia. }
  assert (Hl4 : len (sub p 0 4) = 4) by (rewrite sub_len; lia).
  assert (Hne4 : sub p 0 4 <> []) by (intros E; rewrite E in Hl4; done).
  pose proof (lay_app seg a (sub p 0 4) (sub p 4 (len p - 4))) as Hla. rewrite <- Hp4 in Hla.
  unfold poll_aligned. rewrite <- Hl4 at 1.
  destruct (Z.lt_ge_cases (len (ws_buf d)) (len (lay a (sub p 0 4)))) as [Hlt | Hge].
  { rewrite Hla, <- app_assoc in Hb. destruct (app_short _ _ _ _ Hb Hlt) as (c & Ec & Hc).
    rewrite (collect_payload_short d _ c); [| done | done | by symmetry | done].
    apply Hnone. rewrite Hla, len_app. pose proof (len_nonneg (lay (a + len (lay a (sub p 0 4))) (sub p 4 (len p - 4)))). lia. }
  rewrite Hla, <- app_assoc in Hb. destruct (app_prefix _ _ _ _ Hb Hge) as (b1 & Eb1 & Hb1).
  rewrite (collect_payload_ok d _ b1); [| done | done | done | done]. cbv zeta.
  assert (Hb' : ws_buf d ++ rest = lay a p ++ stream (a + len (lay a p)) items) by (rewrite Hla, <- app_assoc; exact Hb).
  assert (Hnext : forall b2, ws_buf d = lay a p ++ b2 -> b2 ++ rest = stream (a + len (lay a p)) items ->
     framing (mkWalStreamDecoder (a + len (lay a p)) (wal_seg_size d) (check_magic d) b2) items rest).
  { intros b2 E1 E2. split; [done | | done | done]. cbn [ws_lsn]. pose proof (len_nonneg (lay a p)). lia. }
  pose proof (len_lay_ge seg a p). destruct it as [r |]; cbn [item_ok] in Hit.
  - destruct Hit as [Hr Hrl]. assert (Er : p = r) by done. clearbody p. subst r. rewrite Hrl.
    rewrite (proj2 (Z.ltb_ge _ _)) by lia.
    destruct (Z.lt_ge_cases (len (ws_buf d)) (len (lay a p))) as [Hlt | Hge2].
    { destruct (app_short _ _ _ _ Hb' Hlt) as (c & Ec & Hc).
      rewrite (collect_payload_short d p c); [| done | done | by symmetry | done]. by apply Hnone. }
    destruct (app_prefix _ _ _ _ Hb' Hge2) as (b2 & Eb2 & Hb2).
    rewrite (collect_payload_ok d p b2); [| done | done | done | by intros E; rewrite E in Hp8].
    fold a. rewrite (consume_app _ d (lay a p) b2 Eb2 eq_refl). fold a.
    eexists _, items. split; [by apply Hnext |]. left. exists (payload_start seg a), p. split; [done |].
    split; [cbn [ws_buf]; rewrite Eb2, len_app; lia | exact Hrec].
  - assert (E0 : le_val (sub p 0 4) = 0).
    { assert (E : sub p 0 4 = replicate 4 x00); [| by rewrite E].
      unfold p, sub. cbn [item_payload]. change (Z.to_nat 0) with 0%nat. rewrite drop_0, take_replicate. f_equal.
      pose proof (fill_len_range a Ha). lia. }
    rewrite E0. change (0 <? SIZE_OF_XLOG_RECORD) with true. cbn iota. fold a. rewrite (fill_skip a H0 Ha). change (replicate (Z.to_nat (fill_len seg a)) x00) with p.
    destruct (Z.ltb_spec (len (ws_buf d)) (len (lay a p))) as [Hlt | Hge2]; [by apply Hnone |].
    destruct (app_prefix _ _ _ _ Hb' Hge2) as (b2 & Eb2 & Hb2).
    rewrite (consume_app _ d (lay a p) b2 Eb2 eq_refl). fold a.
    set (d2 := mkWalStreamDecoder _ _ _ b2). assert (Hfr2 : framing d2 items rest) by (by apply Hnext).
    assert (Hlen2 : len (ws_buf d2) < len (ws_buf d)) by (unfold d2; cbn [ws_buf]; rewrite Eb2, len_app; lia).
    destruct (IH d2 items Hfr2) as (d' & items' & Hfr' & Hres); [unfold len in Hlen2; lia |].
    exists d', items'. split; [done |]. fold a. rewrite Hrec. unfold d2 in Hres; cbn [ws_lsn] in Hres; fold d2 in Hres.
    destruct Hres as [(l & r & -> & Hl & Hr) | (-> & Hr & Hrest)]; [left | right; done].
    exists l, r. split; [done |]. split; [lia | done].
Qed.

Lemma poll_loop_S fuel d :
  poll_loop (S fuel) d =
  if negb (ws_lsn d mod 8 =? 0) && (len (ws_buf d) <? 8 - ws_lsn d mod 8) then (d, Ok None)
  else poll_aligned fuel (if negb (ws_lsn d mod 8 =? 0) then consume (8 - ws_lsn d mod 8) d else d).
Proof. done. Qed.

(** Every poll of a framed decoder makes progress or waits for more bytes. *)
Lemma poll_loop_framing fuel : forall d items rest,
  framing d items rest -> (length (ws_buf d) < fuel)%nat -> poll_result d items rest (poll_loop fuel d).
Proof.
  induction fuel as [|fuel IH]; intros d items rest Hfr Hf; [lia |].
  rewrite poll_loop_S.
  pose proof Hfr as [Hs H0 Hb Hok]. destruct (pad_len_spec (ws_lsn d)) as (Hr & Hm & Hz & Hnz).
  destruct items as [|it items].
  - cbn [WalStream.stream] in Hb. apply app_eq_nil in Hb as [Eb Er].
    destruct (Z.eqb_spec (ws_lsn d mod 8) 0) as [E | E]; cbn [negb andb].
    + unfold poll_aligned. rewrite collect_payload_empty by done. exists d, []. split; [done |]. by right.
    + rewrite Eb. change (len (@nil byte)) with 0. pose proof (Z.mod_pos_bound (ws_lsn d) 8).
      rewrite (proj2 (Z.ltb_lt 0 _)) by lia. exists d, []. split; [done |]. by right.
  - destruct (Z.eqb_spec (ws_lsn d mod 8) 0) as [E | E]; cbn [negb andb].
    { apply poll_aligned_framing; [by intros; apply IH | done | done | lia]. }
    rewrite <- (Hnz E). rewrite stream_cons in Hb.
    assert (Hlp : len (replicate (Z.to_nat (pad_len (ws_lsn d))) x00) = pad_len (ws_lsn d)).
    { unfold len. rewrite length_replicate. lia. }
    destruct (Z.ltb_spec (len (ws_buf d)) (pad_len (ws_lsn d))) as [Hlt | Hge].
    { exists d, (it :: items). split; [done |]. right. split; [done |]. split; [done |]. intros ->.
      rewrite app_nil_r in Hb. rewrite Hb, len_app, Hlp in Hlt.
      pose proof (len_nonneg (stream (ws_lsn d + pad_len (ws_lsn d)) (it :: items))). lia. }
    destruct (app_prefix _ _ _ _ Hb) as (b & Eb & Hb'); [by rewrite Hlp |].
    rewrite (consume_app _ d _ b Eb (eq_sym Hlp)).
    set (d2 := mkWalStreamDecoder _ _ _ b).
    assert (Hle : len (ws_buf d2) <= len (ws_buf d)) by (unfold d2; cbn [ws_buf]; rewrite Eb, len_app, Hlp; lia).
    destruct (poll_aligned_framing fuel d2 it items rest) as (d' & items' & Hfr' & Hres);
      [by intros; apply IH | split; [done | unfold d2; cbn [ws_lsn]; lia | done | done] | done | unfold len in Hle; lia |].
    unfold d2 in Hres; cbn [ws_lsn] in Hres; fold d2 in Hres. rewrite records_of_pad in Hres.
    exists d', items'. split; [done |]. destruct Hres as [(l & r & -> & Hl & Hrs) | Hres]; [left | by right].
    exists l, r. split; [done |]. split; [lia | done].
Qed.

Lemma poll_decode_framing d items rest :
  framing d items rest -> poll_result d items rest (poll_decode d).
Proof. intros Hfr. apply poll_loop_framing; [done | lia]. Qed.
End Decode.

(** ** Reading a whole stream *)

(** [while let Some(..) = decoder.poll_decode()?], as [Repository::ingest_wal]
    and the WAL receiver do it. *)
Fixpoint drain_loop (fuel : nat) (acc : list (Lsn * bytes)) :
    stateM WalStreamDecoder WalDecodeError (list (Lsn * bytes)) :=
  match fuel with
  | O => spanic
  | S fuel' =>
      let! r := poll_decode in
      match r with
      | Some x => drain_loop fuel' (acc ++ [x])
      | None => sret acc
      end
  end.

Definition drain : stateM WalStreamDecoder WalDecodeError (list (Lsn * bytes)) :=
  fun d => drain_loop (S (length (ws_buf d))) [] d.

(** The chunks of a stream as they arrive, each drained. *)
Fixpoint read_chunks (chunks : list bytes) :
    stateM WalStreamDecoder WalDecodeError (list (Lsn * bytes)) :=
  match chunks with
  | [] => sret []
  | c :: cs =>
      let! _ := smod (feed_bytes c) in
      let! rs := drain in
      let! rs' := read_chunks cs in
      sret (rs ++ rs')
  end.

Section Reading.
Context (seg : Z) `{PageHeaders seg} (seg_pos : 0 < seg).

Lemma drain_loop_framing fuel : forall acc d items rest,
  framing seg d items rest -> (length (ws_buf d) < fuel)%nat ->
  exists d' items' rs, drain_loop fuel acc d = (d', Ok (acc ++ rs)) /\ framing seg d' items' rest /\
    records_of seg (ws_lsn d) items = rs ++ records_of seg (ws_lsn d') items' /\ (rest = [] -> items' = []).
Proof.
  induction fuel as [|fuel IH]; intros acc d items rest Hfr Hf; [lia |].
  destruct (poll_decode_framing seg seg_pos d items rest Hfr) as (d1 & items1 & Hfr1 & [Hsome | Hnone]).
  - destruct Hsome as (l & r & E & Hl & Hr). cbn [drain_loop]. erewrite sbind_Ok by exact E. cbn iota beta.
    destruct (IH (acc ++ [(l, r)]) d1 items1 rest Hfr1) as (d2 & items2 & rs & E2 & Hfr2 & Hr2 & Hn2).
    { unfold len in Hl. lia. }
    exists d2, items2, ((l, r) :: rs). split; [by rewrite E2, <- app_assoc |]. split; [done |].
    split; [| done]. rewrite Hr, Hr2. done.
  - destruct Hnone as (E & Hr & Hn). cbn [drain_loop]. erewrite sbind_Ok by exact E. cbn iota beta.
    exists d1, items1, []. rewrite app_nil_r. done.
Qed.

Lemma read_chunks_framing chunks : forall d items,
  framing seg d items (concat chunks) -> (concat chunks = [] -> items = []) ->
  exists d', read_chunks chunks d = (d', Ok (records_of seg (ws_lsn d) items)) /\ ws_buf d' = [].
Proof.
  induction chunks as [|c cs IH]; intros d items Hfr Hd.
  { rewrite (Hd eq_refl) in Hfr |- *. exists d. split; [done |]. destruct Hfr as [_ _ Hb _].
    by apply app_eq_nil in Hb as [? _]. }
  cbn [read_chunks]. erewrite sbind_Ok by done. cbn beta.
  assert (Hfr1 : framing seg (feed_bytes c d) items (concat cs)).
  { destruct Hfr as [Hs H0 Hb Hok]. split; [done | done | | done].
    cbn [feed_bytes ws_buf ws_lsn concat] in *. by rewrite <- app_assoc. }
  destruct (drain_loop_framing _ [] _ _ _ Hfr1 (Nat.lt_succ_diag_r _)) as (d2 & items2 & rs & E2 & Hfr2 & Hr2 & Hn2).
  erewrite sbind_Ok by exact E2. cbn beta.
  destruct (IH d2 items2 Hfr2 Hn2) as (d3 & E3 & Hb3).
  erewrite sbind_Ok by exact E3. cbn beta. exists d3. split; [| done].
  change (ws_lsn (feed_bytes c d)) with (ws_lsn d) in Hr2. by rewrite Hr2.
Qed.

Lemma stream_nil_inv l items : Forall item_ok items -> stream seg l items = [] -> items = [].
Proof.
  intros Hok E. destruct items as [|it items]; [done | exfalso]. inversion Hok as [|? ? Hit _]; subst.
  destruct (pad_len_spec l) as (_ & Hm & _). pose proof (item_payload_len seg _ it Hm Hit) as Hl.
  pose proof (len_lay_ge seg (l + pad_len l) (item_payload seg (l + pad_len l) it)).
  cbn [WalStream.stream] in E. apply app_eq_nil in E as [_ E]. apply app_eq_nil in E as [E _].
  rewrite E in *. change (len (@nil byte)) with 0 in *. lia.
Qed.

(** C36: whatever chunks a well-formed WAL stream arrives in, feeding them to a
    decoder that starts at its first byte and polling after every chunk yields
    exactly the stream's records with their positions, in order, with no error
    and nothing left in the buffer. *)
Theorem stream_decoder_yields_records start items chunks magic :
  0 <= start -> Forall item_ok items -> concat chunks = stream seg start items ->
  exists d', read_chunks chunks (mkWalStreamDecoder start seg magic []) = (d', Ok (records_of seg start items)) /\
    ws_buf d' = [].
Proof.
  intros Hs Hok E. apply (read_chunks_framing chunks (mkWalStreamDecoder start seg magic []) items).
  - by split.
  - intros En. apply (stream_nil_inv start); [done |]. by rewrite <- E.
Qed.
End Reading.

(** Page headers with the magic and zeros after it. *)
Definition plain_header (seg l : Z) : bytes :=
  le_bytes 2 XLOG_PAGE_MAGIC_PG16 ++ replicate (Z.to_nat (header_size seg l - 2)) x00.

#[export] Instance plain_headers seg : PageHeaders seg.
Proof.
  refine {| page_header := plain_header seg |}.
  - intros l. unfold plain_header. rewrite len_app. unfold header_size. by case_test.
  - intros l. unfold plain_header, header_size. by case_test.
Defined.

(** A long record across a page boundary, a page end of zeros, a short record. *)
Definition sample_record (n : Z) : bytes := le_bytes 4 n ++ replicate (Z.to_nat (n - 4)) x07.

Definition sample_items : list wal_item := [Rec (sample_record 8201); Fill; Rec (sample_record 30)].

Lemma stream_decoder_yields_records_witness :
  let bs := stream 32768 0 sample_items in
  let d := with_segment_size (WalStreamDecoder_new 0) 32768 in
  records_of 32768 0 sample_items = [(40, sample_record 8201); (16408, sample_record 30)] /\
  exists d', read_chunks [sub bs 0 5; sub bs 5 8195; sub bs 8200 (len bs - 8200)] d =
    (d', Ok (records_of 32768 0 sample_items)) /\ ws_buf d' = [].
Proof.
  intros bs d. split; [by vm_compute |].
  apply (stream_decoder_yields_records 32768 ltac:(done) 0 sample_items _ true).
  - done.
  - repeat constructor; by vm_compute.
  - by vm_compute.
Defined.

(** ** The decoder on arbitrary bytes *)

Lemma check_page_header_total d off lsn :
  0 < wal_seg_size d -> 0 <= off -> off + 24 <= len (ws_buf d) -> check_page_header d off lsn <> Panic.
Proof.
  intros Hs Ho Hl. unfold check_page_header, rem. case_test; [| done].
  rewrite get_le_ok by lia. cbn [bind].
  case_test; [| done].
  rewrite get_le_ok by lia. cbn [bind].
  by rewrite (proj2 (Z.eqb_neq _ _)) by lia.
Qed.

(** Collecting moves forward through the buffer, by at least what it collects. *)
Lemma collect_loop_total fuel : forall d n out off lsn first lo,
  0 < wal_seg_size d -> 0 <= off <= len (ws_buf d) -> len (ws_buf d) - off < Z.of_nat fuel -> lo <= lsn ->
  match first with Some l => lo <= l | None => True end ->
  match collect_loop fuel d n out off lsn first with
  | Ok (Some (_, raw, first')) => off <= raw <= len (ws_buf d) /\ n - len out <= raw - off /\ lo <= first'
  | Panic => False
  | _ => True
  end.
Proof.
  induction fuel as [|fuel IH]; intros d n out off lsn first lo Hs Ho Hf Hlo Hfirst; [lia |].
  cbn [collect_loop]. destruct (Z.ltb_spec (len out) n) as [Hn | Hn]; [| split; [lia | split; [lia | by destruct first]]].
  destruct (Z.eqb_spec (lsn mod XLOG_BLCKSZ) 0) as [Hb | Hb].
  - rewrite page_header_size_ok by done. cbn [bind]. pose proof (header_size_range (wal_seg_size d) lsn).
    destruct (Z.ltb_spec (len (ws_buf d)) (off + header_size (wal_seg_size d) lsn)); [done |].
    pose proof (check_page_header_total d off lsn Hs ltac:(lia) ltac:(lia)) as Hc.
    destruct (check_page_header d off lsn); [| done | done]. cbn [bind].
    specialize (IH d n out (off + header_size (wal_seg_size d) lsn) (lsn + header_size (wal_seg_size d) lsn) first lo).
    match goal with |- match ?m with _ => _ end => destruct m as [[[[o r] f] |] | |] end; try done; try (apply IH; lia || done).
    destruct IH as (? & ? & ?); [done | lia | lia | lia | done |]. split; [lia | split; [lia | done]].
  - pose proof (Z.mod_pos_bound lsn XLOG_BLCKSZ ltac:(by_compute)). cbv zeta.
    set (want := Z.min _ _). assert (Hw : 0 < want) by (unfold want; lia).
    destruct (Z.ltb_spec (len (ws_buf d)) (off + want)); [done |].
    rewrite slice_ok by lia. cbn [bind]. set (chunk := sub _ _ _).
    assert (Hc : len chunk = want) by (unfold chunk; rewrite sub_len; lia).
    set (first' := match first with None => Some lsn | Some l => Some l end).
    specialize (IH d n (out ++ chunk) (off + want) (lsn + want) first' lo). rewrite len_app, Hc in IH.
    assert (Hf' : match first' with Some l => lo <= l | None => True end) by (unfold first'; by destruct first).
    match goal with |- match ?m with _ => _ end => destruct m as [[[[o r] f] |] | |] end; try done; try (apply IH; lia || done).
    destruct IH as (? & ? & ?); [done | lia | lia | lia | done |]. split; [lia | split; [lia | done]].
Qed.

Lemma collect_payload_total d n :
  0 < wal_seg_size d -> 0 < n ->
  match collect_payload d n with
  | Ok (Some (_, raw, first)) => n <= raw <= len (ws_buf d) /\ ws_lsn d <= first
  | Panic => False
  | _ => True
  end.
Proof.
  intros Hs Hn. pose proof (len_nonneg (ws_buf d)).
  pose proof (collect_loop_total (S (length (ws_buf d))) d n [] 0 (ws_lsn d) None (ws_lsn d) Hs) as Hc.
  unfold collect_payload. change (len (@nil byte)) with 0 in Hc. unfold len in *.
  destruct (collect_loop _ _ _ _ _ _ _) as [[[[o r] f] |] | |]; try done; try (apply Hc; lia || done).
  destruct Hc as (? & ? & ?); [lia | lia | lia | done |]. split; [lia | done].
Qed.

Lemma len_consume raw d : 0 <= raw <= len (ws_buf d) -> len (ws_buf (consume raw d)) = len (ws_buf d) - raw.
Proof. intros H. cbn [consume ws_buf]. rewrite sub_len; lia. Qed.

(** Every poll of any decoder ends, and one that yields a record shortens the
    buffer. *)
Lemma poll_loop_total fuel : forall d,
  0 < wal_seg_size d -> (length (ws_buf d) < fuel)%nat ->
  let '(d', res) := poll_loop fuel d in
  wal_seg_size d' = wal_seg_size d /\
  match res with
  | Ok (Some _) => len (ws_buf d') < len (ws_buf d)
  | Panic => False
  | _ => True
  end.
Proof.
  induction fuel as [|fuel IH]; intros d Hs Hf; [lia |]. rewrite poll_loop_S.
  destruct (negb _ && _) eqn:Hshort; [done |].
  set (d1 := if negb _ then _ else d).
  assert (H1 : wal_seg_size d1 = wal_seg_size d /\ len (ws_buf d1) <= len (ws_buf d)).
  { unfold d1. destruct (negb (ws_lsn d mod 8 =? 0)); [| done]. cbn [andb] in Hshort. apply Z.ltb_ge in Hshort.
    pose proof (Z.mod_pos_bound (ws_lsn d) 8 ltac:(lia)). rewrite len_consume by lia. split; [done | lia]. }
  destruct H1 as [E1 H1]. rewrite <- E1 in *. clear Hshort.
  unfold poll_aligned. pose proof (collect_payload_total d1 4 Hs ltac:(lia)) as Hc.
  destruct (collect_payload d1 4) as [[[[lb r] first] |] | |]; try done. destruct Hc as [Hr Hfirst].
  case_test.
  - pose proof (Z.div_mod first XLOG_BLCKSZ ltac:(done)).
    pose proof (Z.mod_pos_bound first XLOG_BLCKSZ ltac:(done)). set (skip := _ - ws_lsn d1).
    assert (Hk : 0 < skip) by (unfold skip; lia). destruct (Z.ltb_spec (len (ws_buf d1)) skip); [done |].
    specialize (IH (consume skip d1)). pose proof (len_consume skip d1 ltac:(lia)) as Hl.
    destruct (poll_loop fuel (consume skip d1)) as [d' res].
    destruct IH as [E IH]; [done | unfold len in *; lia |]. split; [done |]. destruct res as [[] | |]; try done. lia.
  - unfold SIZE_OF_XLOG_RECORD in *. bool_to_prop.
    pose proof (collect_payload_total d1 (le_val lb) Hs ltac:(lia)) as Hc.
    destruct (collect_payload d1 (le_val lb)) as [[[[rec raw] l] |] | |]; try done. destruct Hc as [Hw _].
    split; [done |]. rewrite len_consume by lia. lia.
Qed.

Lemma drain_loop_total fuel : forall acc d,
  0 < wal_seg_size d -> (length (ws_buf d) < fuel)%nat ->
  let '(d', res) := drain_loop fuel acc d in wal_seg_size d' = wal_seg_size d /\ res <> Panic.
Proof.
  induction fuel as [|fuel IH]; intros acc d Hs Hf; [lia |]. cbn [drain_loop].
  pose proof (poll_loop_total (S (length (ws_buf d))) d Hs (Nat.lt_succ_diag_r _)) as Hp. unfold sbind.
  change (poll_loop (S (length (ws_buf d))) d) with (poll_decode d) in Hp.
  destruct (poll_decode d) as [d1 [[x|] | |]]; destruct Hp as [E Hp]; try done.
  rewrite <- E in *. apply IH; [done | unfold len in Hp; lia].
Qed.

Lemma read_chunks_total chunks : forall d, 0 < wal_seg_size d -> (read_chunks chunks d).2 <> Panic.
Proof.
  induction chunks as [|c cs IH]; intros d Hs; [done |]. cbn [read_chunks]. erewrite sbind_Ok by done. cbn beta.
  pose proof (drain_loop_total (S (length (ws_buf (feed_bytes c d)))) [] (feed_bytes c d) Hs (Nat.lt_succ_diag_r _)) as Hd.
  unfold sbind at 1. change (drain_loop (S (length (ws_buf (feed_bytes c d)))) [] (feed_bytes c d)) with (drain (feed_bytes c d)) in Hd.
  destruct (drain (feed_bytes c d)) as [d1 [rs | |]]; destruct Hd as [E Hd]; try done.
  assert (Hs1 : 0 < wal_seg_size d1) by (by rewrite E). specialize (IH d1 Hs1). unfold sbind.
  by destruct (read_chunks cs d1) as [d2 []].
Qed.


