(* ===== verification/WalIngest.v ===== *)
(** Ingest of raw WAL (src/pageserver/src/repository.rs, [ingest_wal],
    [ingest_record], [modifications_from_record]): the stream decoder, the
    record decoder and the page store together. *)

From Stdlib Require Import Sorting.Sorted.
From S2P Require Import Prelude Bytes BTree Common PageVersion Layer WalRedo Repository WalDecode WalRecordFormat WalStream.

Section Ingest.
Context `{Decompressors}.

Definition version_from_block (raw : bytes) (b : DecodedBlock) : outcome WalDecodeError PageVersion :=
  let wal := WalRec (mkWalRecord (db_will_init b) raw) in
  match db_image b with
  | Some img =>
      match restore img with
      | Ok page => Ok (Image page)
      | Err _ => Ok wal
      | Panic => Panic
      end
  | None => Ok wal
  end.

Fixpoint block_modifications (lsn : Lsn) (raw : bytes) (bs : list DecodedBlock) :
    outcome WalDecodeError (list Modification) :=
  match bs with
  | [] => Ok []
  | b :: bs' =>
      let? v := version_from_block raw b in
      let? ms := block_modifications lsn raw bs' in
      Ok (mkModification (db_rel b) (db_blkno b) lsn v :: ms)
  end.

Definition modifications_from_record (decoded : DecodedWalRecord) (raw : bytes) :
    outcome WalDecodeError (list Modification) :=
  block_modifications (dr_lsn decoded) raw (dr_blocks decoded).

(** [self.ingest(mods)], which has no error. *)
Definition ingest_all (mods : list Modification) : stateM Inner WalDecodeError unit := fun i =>
  match ingest mods i with
  | Ok i' => (i', Ok tt)
  | _ => (i, Panic)
  end.

Definition ingest_record (lsn : Lsn) (record : bytes) : stateM Inner WalDecodeError unit :=
  let! decoded := slift (decode_wal_record lsn record) in
  let! mods := slift (modifications_from_record decoded record) in
  ingest_all mods.

(** The loop over the decoder; every record shortens its buffer. *)
Fixpoint ingest_loop (fuel : nat) (decoder : WalStreamDecoder) (n : Z) : stateM Inner WalDecodeError Z :=
  match fuel with
  | O => spanic
  | S fuel' =>
      let '(decoder, polled) := poll_decode decoder in
      let! next := slift polled in
      match next with
      | Some (lsn, record) =>
          let! _ := ingest_record lsn record in
          ingest_loop fuel' decoder (n + 1)
      | None => sret n
      end
  end.

Definition ingest_wal (start_lsn : Lsn) (wal : bytes) : stateM Inner WalDecodeError Z :=
  let decoder := feed_bytes wal (WalStreamDecoder_new start_lsn) in
  ingest_loop (S (length (ws_buf decoder))) decoder 0.

(** ** What a stream of records says about pages *)

(** One record or the zeros at the end of a page. *)
Inductive wal_entry :=
| WRec (prev crc : Z) (r : DecodedWalRecord)
| WFill.

Definition item_of (e : wal_entry) : wal_item :=
  match e with WRec prev crc r => Rec (write_wal_record prev crc r) | WFill => Fill end.

Definition block_version (raw : bytes) (b : DecodedBlock) : PageVersion :=
  match db_image b with
  | Some img => match restore img with Ok page => Image page | _ => WalRec (mkWalRecord (db_will_init b) raw) end
  | None => WalRec (mkWalRecord (db_will_init b) raw)
  end.

Definition block_mod (lsn : Lsn) (raw : bytes) (b : DecodedBlock) : Modification :=
  mkModification (db_rel b) (db_blkno b) lsn (block_version raw b).

(** A record of the stream, and the blocks it touches. *)
Definition entry_ok (e : wal_entry) : Prop :=
  match e with
  | WRec _ _ r =>
      wal_record_wf r /\ NoDup ((fun b => mkPageKey (db_rel b) (db_blkno b)) <$> dr_blocks r) /\
      Forall (fun b => db_blkno b < u32_max) (dr_blocks r)
  | WFill => True
  end.

Context `{PageHeaders DEFAULT_WAL_SEG_SIZE}.
Abbreviation seg := DEFAULT_WAL_SEG_SIZE.

(** The page versions of the entries written from position [l] on. *)
Fixpoint stream_mods (l : Z) (es : list wal_entry) : list Modification :=
  match es with
  | [] => []
  | e :: es' =>
      let a := l + pad_len l in
      let rest := stream_mods (a + len (lay seg a (item_payload seg a (item_of e)))) es' in
      match e with
      | WRec prev crc r => (block_mod (payload_start seg a) (write_wal_record prev crc r) <$> dr_blocks r) ++ rest
      | WFill => rest
      end
  end.

Definition record_count (es : list wal_entry) : Z :=
  len (List.filter (fun e => match e with WRec _ _ _ => true | WFill => false end) es).

(** ** Decoding and ingesting agree with that *)

Lemma version_from_block_ok raw b : block_wf b -> version_from_block raw b = Ok (block_version raw b).
Proof.
  intros (_ & _ & _ & Him). unfold version_from_block, block_version. destruct (db_image b) as [im|]; [| done].
  destruct Him as (_ & [Ho _] & [Hl _] & _). pose proof (restore_total im Ho Hl). by destruct (restore im).
Qed.

Lemma block_modifications_ok lsn raw bs :
  Forall block_wf bs -> block_modifications lsn raw bs = Ok (block_mod lsn raw <$> bs).
Proof.
  induction 1 as [|b bs Hb _ IH]; [done |]. cbn [block_modifications].
  rewrite version_from_block_ok by done. cbn [bind]. by rewrite IH.
Qed.

Lemma ingest_ok mods i : Forall (fun m => m_block m < u32_max) mods -> exists i', ingest mods i = Ok i'.
Proof.
  intros Hm; revert i; induction Hm as [|m mods Hm _ IH]; intros i; [by exists i |]. cbn [ingest].
  unfold ingest_one. rewrite (proj2 (Z.ltb_ge _ _)) by lia. cbn [bind]. apply IH.
Qed.

Lemma ingest_app mods1 mods2 i i1 : ingest mods1 i = Ok i1 -> ingest (mods1 ++ mods2) i = ingest mods2 i1.
Proof.
  revert i; induction mods1 as [|m mods1 IH]; intros i; cbn [ingest app]; [by intros [= ->] |].
  destruct (ingest_one i m); [cbn [bind]; apply IH | done | done].
Qed.

(** The modifications of a framed record. *)
Definition record_mods (r : Lsn * bytes) : list Modification :=
  match decode_wal_record r.1 r.2 with Ok d => block_mod r.1 r.2 <$> dr_blocks d | _ => [] end.

Definition record_good (r : Lsn * bytes) : Prop := exists d,
  decode_wal_record r.1 r.2 = Ok d /\ dr_lsn d = r.1 /\ Forall block_wf (dr_blocks d) /\
  Forall (fun b => db_blkno b < u32_max) (dr_blocks d).

Lemma ingest_record_ok l r i :
  record_good (l, r) -> exists i', ingest (record_mods (l, r)) i = Ok i' /\ ingest_record l r i = (i', Ok tt).
Proof.
  intros (d & Hd & Hl & Hb & Hn). cbn [fst snd] in *. unfold record_mods, ingest_record. cbn [fst snd]. rewrite Hd.
  destruct (ingest_ok (block_mod l r <$> dr_blocks d) i) as [i' Hi].
  { apply Forall_fmap. eapply Forall_impl; [exact Hn | done]. }
  exists i'. split; [done |]. erewrite sbind_Ok by done. unfold modifications_from_record. rewrite Hl, block_modifications_ok by done.
  erewrite sbind_Ok by done. unfold ingest_all. by rewrite Hi.
Qed.

Lemma ingest_loop_framing fuel : forall d n items i,
  framing seg d items [] -> (length (ws_buf d) < fuel)%nat -> Forall record_good (records_of seg (ws_lsn d) items) ->
  exists i', ingest (flat_map record_mods (records_of seg (ws_lsn d) items)) i = Ok i' /\
    ingest_loop fuel d n i = (i', Ok (n + len (records_of seg (ws_lsn d) items))).
Proof.
  induction fuel as [|fuel IH]; intros d n items i Hfr Hf Hg; [lia |]. cbn [ingest_loop].
  destruct (poll_decode_framing seg ltac:(by_compute) d items [] Hfr) as (d1 & items1 & Hfr1 & [Hsome | Hnone]).
  - destruct Hsome as (l & r & -> & Hl & Hr). rewrite Hr in *. apply Forall_cons in Hg as [Hg1 Hg2].
    erewrite sbind_Ok by done. cbn iota.
    destruct (ingest_record_ok l r i Hg1) as (i1 & Hi1 & E1). erewrite sbind_Ok by exact E1.
    destruct (IH d1 (n + 1) items1 i1 Hfr1) as (i2 & Hi2 & E2); [unfold len in Hl; lia | done |].
    exists i2. cbn [flat_map]. rewrite (ingest_app _ _ _ _ Hi1). split; [done |].
    rewrite E2, len_cons. do 2 f_equal. lia.
  - destruct Hnone as (-> & Hr & Hn). rewrite Hr, (Hn eq_refl). erewrite sbind_Ok by done. cbn iota.
    exists i. split; [done |]. change (len (records_of seg (ws_lsn d1) [])) with 0. by rewrite Z.add_0_r.
Qed.

Lemma write_wal_record_head prev crc r : exists t,
  write_wal_record prev crc r = le_bytes 4 (SIZE_OF_XLOG_RECORD + len (write_body r)) ++ t /\
  len (write_wal_record prev crc r) = SIZE_OF_XLOG_RECORD + len (write_body r).
Proof.
  unfold write_wal_record. eexists. split; [done |]. rewrite !len_app, !len_le_bytes.
  change (len [x00; x00]) with 2. change (len [_]) with 1. unfold SIZE_OF_XLOG_RECORD. lia.
Qed.

Lemma entry_item_ok e : entry_ok e -> item_ok (item_of e).
Proof.
  destruct e as [prev crc r |]; [| done]. intros [(_ & _ & _ & _ & _ & _ & Hlen) _]. cbn [item_of item_ok].
  destruct (write_wal_record_head prev crc r) as (t & E & Hl). pose proof (len_nonneg (write_body r)).
  split; [unfold in_u32 in Hlen; lia |]. rewrite Hl, E, sub_app_exact by (by rewrite len_le_bytes).
  rewrite le_val_le_bytes. apply Z.mod_small. exact Hlen.
Qed.

(** The records of the stream carry the modifications of the entries. *)
Lemma records_of_entries es l :
  Forall entry_ok es ->
  let rs := records_of seg l (item_of <$> es) in
  flat_map record_mods rs = stream_mods l es /\ Forall record_good rs /\ len rs = record_count es.
Proof.
  intros Hes; revert l; induction Hes as [|e es He _ IH]; intros l; [done |]. cbv zeta.
  cbn [fmap list_fmap records_of stream_mods]. set (a := l + pad_len l).
  specialize (IH (a + len (lay seg a (item_payload seg a (item_of e))))). cbv zeta in IH.
  destruct IH as (IH1 & IH2 & IH3). destruct e as [prev crc r |]; cbn [item_of] in *; [| done].
  destruct He as (Hwf & _ & Hn). pose proof Hwf as (_ & _ & _ & _ & Hb & _).
  set (p := payload_start seg a).
  set (r' := mkDecodedWalRecord p (dr_rmid r) (dr_info r) (dr_xid r) (dr_main_data r) (dr_blocks r)).
  assert (Hd : decode_wal_record p (write_wal_record prev crc r) = Ok r') by (by apply (decode_write_record p prev crc r')).
  cbn [flat_map]. unfold record_mods at 1. cbn [fst snd]. rewrite Hd, IH1. split; [done |].
  split; [constructor; [by exists r' | done] |]. rewrite len_cons, IH3. unfold record_count. cbn [List.filter].
  rewrite len_cons. done.
Qed.

(** ** Positions grow along the stream *)

Lemma payload_start_le a : a <= payload_start seg a.
Proof. unfold payload_start. pose proof (header_size_range seg a). case_test; lia. Qed.

Lemma payload_start_lt a p : p <> [] -> payload_start seg a < a + len (lay seg a p).
Proof.
  intros Hp. assert (0 < len p) by (destruct p; [done | rewrite len_cons; pose proof (len_nonneg p); lia]).
  unfold payload_start. case_test.
  - bool_to_prop. rewrite lay_boundary, len_app, page_header_len by done.
    pose proof (len_lay_ge seg (a + header_size seg a) p). lia.
  - pose proof (len_lay_ge seg a p). lia.
Qed.

Lemma stream_mods_lower es : forall l m, Forall entry_ok es -> m ∈ stream_mods l es -> l <= m_lsn m.
Proof.
  induction es as [|e es IH]; intros l m Hok; [by intros ?%not_elem_of_nil |].
  inversion Hok; subst. cbn [stream_mods]. set (a := l + pad_len l).
  assert (Ha : l <= a) by (pose proof (proj1 (pad_len_spec l)); unfold a; lia).
  pose proof (payload_start_le a). pose proof (len_nonneg (lay seg a (item_payload seg a (item_of e)))).
  assert (Hrest : m ∈ stream_mods (a + len (lay seg a (item_payload seg a (item_of e)))) es -> l <= m_lsn m).
  { intros Hm. apply IH in Hm; [lia | done]. }
  destruct e as [prev crc r |]; [| done]. rewrite elem_of_app. intros [Hm | Hm]; [| by apply Hrest].
  apply list_elem_of_fmap in Hm as (b & -> & _). cbn [block_mod m_lsn]. lia.
Qed.

Lemma stream_mods_ordered es : forall l,
  0 <= l -> Forall entry_ok es -> lsn_ordered (stream_mods l es) /\ NoDup (mod_key <$> stream_mods l es).
Proof.
  induction es as [|e es IH]; intros l Hl Hok; [repeat constructor |].
  inversion Hok as [|? ? He Hes]; subst. cbn [stream_mods]. set (a := l + pad_len l).
  assert (Ha : l <= a) by (pose proof (proj1 (pad_len_spec l)); unfold a; lia).
  set (next := a + len (lay seg a (item_payload seg a (item_of e)))).
  assert (Hnext : 0 <= next) by (pose proof (len_nonneg (lay seg a (item_payload seg a (item_of e)))); unfold next; lia).
  destruct (IH next Hnext Hes) as [[Hf Hs] Hnd]. destruct e as [prev crc r |]; [| done].
  destruct He as (Hwf & Hblk & Hmax). pose proof Hwf as (_ & _ & _ & _ & Hb & _).
  pose proof (payload_start_le a). set (p := payload_start seg a) in *.
  set (raw := write_wal_record prev crc r) in *.
  assert (Hp : p < next).
  { apply payload_start_lt. cbn [item_of item_payload]. destruct (write_wal_record_head prev crc r) as (t & -> & _).
    intros [E _]%app_eq_nil. by apply (f_equal len) in E. }
  assert (Hlow : forall m, m ∈ stream_mods next es -> p < m_lsn m).
  { intros m Hm. apply stream_mods_lower in Hm; [lia | done]. }
  split; [split |].
  - apply Forall_app. split; [| done]. apply Forall_fmap. eapply Forall_impl; [exact Hb |].
    intros b (_ & [Hbl _] & _). cbn. lia.
  - clear Hblk Hmax Hwf Hnd Hf. induction (dr_blocks r) as [|b bs IHb]; [done |]. cbn [fmap list_fmap app].
    inversion Hb; subst. constructor; [by apply IHb |]. apply Forall_app. split; apply Forall_forall; intros m Hm.
    + apply list_elem_of_fmap in Hm as (b' & -> & _). cbn. lia.
    + cbn. apply Hlow in Hm. lia.
  - rewrite fmap_app. apply NoDup_app. split; [| split; [| done]].
    + replace (mod_key <$> (block_mod p raw <$> dr_blocks r)) with
        ((fun k : PageKey => (k, p)) <$> ((fun b => mkPageKey (db_rel b) (db_blkno b)) <$> dr_blocks r))
        by (by rewrite <- !list_fmap_compose).
      apply NoDup_fmap_2; [| done]. by intros k k' [= ->].
    + intros k Hk Hk'. apply list_elem_of_fmap in Hk as (m & -> & Hm). apply list_elem_of_fmap in Hm as (b & -> & _).
      apply list_elem_of_fmap in Hk' as (m' & E & Hm'). apply Hlow in Hm'. injection E as _ _ E. cbn in E. lia.
Qed.
End Ingest.

(** A repository that took the modifications of a stream has its history. *)
Lemma ingested_stream_reads {R} `{WalRedoLaws R} `{Decompressors} `{PageHeaders DEFAULT_WAL_SEG_SIZE} es start t i :
  0 <= start -> Forall entry_ok es -> ingest (stream_mods start es) (Repository_new t) = Ok i ->
  (forall key lsn (r : R), get_page i key lsn r =
     let '(r', res) := reconstruct key lsn (range_versions key lsn (spec_ingest (stream_mods start es) [])) r in
     (r', lookup_result res)) /\
  (forall rel lsn, get_rel_size i rel lsn = high_water rel lsn (stream_mods start es)).
Proof.
  intros Hs Hok Hi. set (mods := stream_mods start es) in *. destruct (stream_mods_ordered es start Hs Hok) as [Hord Hnd]. split.
  - intros key lsn r.
    assert (Hrep : rep i (spec_ingest mods []) lsn).
    { eapply rep_ingest; [apply (rep_new t) | exact Hnd | intros m _; apply not_elem_of_nil | exact Hi]. }
    unfold get_page, get_page_with_base. rewrite (rep_read i (spec_ingest mods []) lsn key lsn None r Hrep) by lia. done.
  - intros rel lsn. apply (so_sizes (rel_sizes i) mods).
    by apply (ingest_sizes_ok mods (Repository_new t) [] i).
Qed.

(** C5: raw WAL becomes page history.  Ingesting the bytes of any well-formed
    stream into a new repository succeeds and counts its records; afterwards a
    read of any page at any LSN is what the redo backend makes of the versions
    the records gave that page up to that LSN (the restored full-page image
    where there is one, the raw record otherwise), and the size of any relation
    fork is that of the largest block touched up to that LSN. *)
Theorem wal_bytes_become_page_history {R} `{WalRedoLaws R} `{Decompressors} `{PageHeaders DEFAULT_WAL_SEG_SIZE} es start t :
  0 <= start -> Forall entry_ok es ->
  let mods := stream_mods start es in
  exists i, ingest_wal start (stream DEFAULT_WAL_SEG_SIZE start (item_of <$> es)) (Repository_new t) = (i, Ok (record_count es)) /\
    (forall key lsn (r : R), get_page i key lsn r =
       let '(r', res) := reconstruct key lsn (range_versions key lsn (spec_ingest mods [])) r in (r', lookup_result res)) /\
    (forall rel lsn, get_rel_size i rel lsn = high_water rel lsn mods).
Proof.
  intros Hs Hok mods. destruct (records_of_entries es start Hok) as (Hm & Hg & Hc).
  set (wal := stream _ _ _). set (d := feed_bytes wal (WalStreamDecoder_new start)).
  assert (Hfr : framing DEFAULT_WAL_SEG_SIZE d (item_of <$> es) []).
  { split; [done | done | by rewrite app_nil_r |]. apply Forall_fmap. eapply Forall_impl; [exact Hok | apply entry_item_ok]. }
  destruct (ingest_loop_framing (S (length (ws_buf d))) d 0 _ (Repository_new t) Hfr (Nat.lt_succ_diag_r _) Hg) as (i & Hi & E).
  change (ws_lsn d) with start in *. rewrite Hm in Hi. rewrite Hc in E. fold mods in Hi.
  exists i. split; [exact E |]. by apply (ingested_stream_reads es start t).
Qed.

Definition image_block : DecodedBlock :=
  mkDecodedBlock (mkRelTag 1663 5 16384 Main) 7 true (Some (mkDecodedImage [x61; x62] 2 8190 NoCompression true)) [].

Definition sample_wal : list wal_entry :=
  [WRec 0 0 (mkDecodedWalRecord 0 10 0x20 731 [xaa; xbb] [image_block]);
   WRec 40 0 (mkDecodedWalRecord 0 10 0x20 731 [xcc] [mkDecodedBlock (mkRelTag 1663 5 16384 Main) 8 false None [x01]])].

Lemma sample_wal_ok : Forall entry_ok sample_wal.
Proof.
  constructor; [| constructor; [| constructor]].
  - split; [| split; [apply (bool_decide_unpack _); by vm_compute | constructor; [by_compute | constructor]]].
    split; [by_compute |]. split; [by_compute |]. split; [by_compute |]. split; [by_compute |].
    split; [| by_compute]. constructor; [| constructor].
    split; [by_compute |]. split; [by_compute |]. split; [by_compute |].
    split; [by_compute |]. split; [by_compute |]. split; [by_compute | intros _; by right].
  - split; [| split; [apply (bool_decide_unpack _); by vm_compute | constructor; [by_compute | constructor]]].
    split; [by_compute |]. split; [by_compute |]. split; [by_compute |]. split; [by_compute |].
    split; [| by_compute]. constructor; [by_compute | constructor].
Qed.

Lemma wal_bytes_become_page_history_witness :
  exists i, ingest_wal (H := no_codecs) 0 (stream DEFAULT_WAL_SEG_SIZE 0 (item_of <$> sample_wal)) (Repository_new 100) = (i, Ok 2) /\
    get_page i (mkPageKey (mkRelTag 1663 5 16384 Main) 7) 100 tt =
      (tt, Ok (Page ([x61; x62] ++ replicate (Z.to_nat 8190) x00))) /\
    get_rel_size i (mkRelTag 1663 5 16384 Main) 200 = Some 9.
Proof.
  destruct (wal_bytes_become_page_history (R := unit) (H1 := no_codecs) sample_wal 0 100) as (i & Hi & Hp & Hz).
  - done.
  - apply sample_wal_ok.
  - exists i. split; [exact Hi |]. rewrite Hp, Hz. split; vm_compute; reflexivity.
Defined.
