(* ===== verification/Timeline.v ===== *)
(** Timelines (src/pageserver/src/timeline.rs): branches that own the changes
    written on them and inherit everything else from a parent at a branch point.
    An [Arc<Timeline>] is an index into the arena of the timelines allocated so
    far, so that a parent is shared, not copied. *)

From S2P Require Import Prelude Bytes BTree Common PageVersion Layer WalRedo Repository WalDecode WalIngest.

(** The address of a timeline. *)
Abbreviation taddr := nat.

Record Timeline := mkTimeline {
  tl_id : TimelineId;
  tl_repo : Inner;
  tl_ancestor : option (taddr * Lsn)
}.

Abbreviation arena_t := (list Timeline).

Definition Timeline_root (id : TimelineId) (repo : Inner) : Timeline := mkTimeline id repo None.

Definition Timeline_branched (id : TimelineId) (repo : Inner) (parent : taddr) (ancestor_lsn : Lsn) : Timeline :=
  mkTimeline id repo (Some (parent, ancestor_lsn)).

Definition ancestor_timeline (ts : arena_t) (t : Timeline) : option TimelineId :=
  a ← tl_ancestor t; p ← ts !! a.1; Some (tl_id p).

Definition ancestor_lsn (t : Timeline) : option Lsn := snd <$> tl_ancestor t.

(** ** Writes: the branch's own store *)

Definition on_repo {E A} (a : taddr) (m : stateM Inner E A) : stateM arena_t E A := fun ts =>
  match ts !! a with
  | Some t =>
      let '(i, res) := m (tl_repo t) in
      (<[a := mkTimeline (tl_id t) i (tl_ancestor t)]> ts, res)
  | None => (ts, Panic)
  end.

Section Writes.
Context `{Decompressors}.

Definition Timeline_ingest (a : taddr) (mods : list Modification) : stateM arena_t WalDecodeError unit :=
  on_repo a (ingest_all mods).

Definition Timeline_ingest_wal (a : taddr) (start_lsn : Lsn) (wal : bytes) : stateM arena_t WalDecodeError Z :=
  on_repo a (ingest_wal start_lsn wal).

Definition Timeline_ingest_record (a : taddr) (lsn : Lsn) (record : bytes) : stateM arena_t WalDecodeError unit :=
  on_repo a (ingest_record lsn record).
End Writes.

Definition Timeline_freeze {E} (a : taddr) : stateM arena_t E unit := on_repo a (smod freeze).

Definition Timeline_compact {E} (a : taddr) (gc_horizon : Lsn) : stateM arena_t E CompactionStats :=
  on_repo a (fun i => let '(i', stats) := compact gc_horizon i in (i', Ok stats)).

(** ** Reads: up the ancestor chain *)

Section Reads.
Context {R} `{WalRedoManager R}.

(** A parent is older than its branches, so its address bounds the depth. *)
Fixpoint get_page_chain (fuel : nat) (ts : arena_t) (a : taddr) (key : PageKey) (lsn : Lsn) :
    stateM R PageError PageLookup :=
  match fuel, ts !! a with
  | S fuel', Some t =>
      match tl_ancestor t with
      | None => get_page (tl_repo t) key lsn
      | Some (parent, ancestor_lsn) =>
          let! own := get_page (tl_repo t) key lsn in
          match own with
          | Page page => sret (Page page)
          | NotFound =>
              let! inherited := get_page_chain fuel' ts parent key ancestor_lsn in
              match inherited with
              | Page base => get_page_with_base (tl_repo t) key lsn (Some (ancestor_lsn, base))
              | NotFound => sret NotFound
              end
          end
      end
  | _, _ => spanic
  end.

Definition Timeline_get_page (ts : arena_t) (a : taddr) (key : PageKey) (lsn : Lsn) : stateM R PageError PageLookup :=
  get_page_chain (S a) ts a key lsn.
End Reads.

Fixpoint get_rel_size_chain {E} (fuel : nat) (ts : arena_t) (a : taddr) (r : RelTag) (lsn : Lsn) : outcome E (option Z) :=
  match fuel, ts !! a with
  | S fuel', Some t =>
      let own := get_rel_size (tl_repo t) r lsn in
      match tl_ancestor t with
      | None => Ok own
      | Some (parent, ancestor_lsn) =>
          let? inherited := get_rel_size_chain fuel' ts parent r ancestor_lsn in
          Ok (match own, inherited with
              | Some a, Some b => Some (Z.max a b)
              | Some a, None => Some a
              | None, b => b
              end)
      end
  | _, _ => Panic
  end.

Definition Timeline_get_rel_size {E} (ts : arena_t) (a : taddr) (r : RelTag) (lsn : Lsn) : outcome E (option Z) :=
  get_rel_size_chain (S a) ts a r lsn.

(** ** The reference: every branch with a full copy of its history

    What was ever written on a timeline, its branch point, and the highest
    horizon it was compacted at. *)

Record branch := mkBranch {
  b_mods : list Modification;
  b_ancestor : option (taddr * Lsn);
  b_horizon : Lsn
}.

Definition b_versions (b : branch) : VersionMap := spec_ingest (b_mods b) [].

(** The versions of a page a branch sees at an LSN: its ancestors' up to the
    branch points, then its own. *)
Fixpoint flat_chain (fuel : nat) (bs : list branch) (a : taddr) (key : PageKey) (lsn : Lsn) : History :=
  match fuel, bs !! a with
  | S fuel', Some b =>
      (match b_ancestor b with
       | Some (parent, alsn) => flat_chain fuel' bs parent key alsn
       | None => []
       end) ++ range_versions key lsn (b_versions b)
  | _, _ => []
  end.

Definition flat_history (bs : list branch) (a : taddr) (key : PageKey) (lsn : Lsn) : History :=
  flat_chain (S a) bs a key lsn.

(** The writes a branch sees at an LSN. *)
Fixpoint flat_writes (fuel : nat) (bs : list branch) (a : taddr) (lsn : Lsn) (m : Modification) : Prop :=
  match fuel, bs !! a with
  | S fuel', Some b =>
      (m ∈ b_mods b /\ m_lsn m <= lsn) \/
      match b_ancestor b with
      | Some (parent, alsn) => flat_writes fuel' bs parent alsn m
      | None => False
      end
  | _, _ => False
  end.

Definition sees (bs : list branch) (a : taddr) (lsn : Lsn) (m : Modification) : Prop := flat_writes (S a) bs a lsn m.

(** A branch point lies on an older timeline, at or above every horizon that
    one was compacted at, and at or below every write of the branch. *)
Definition branch_ok (bs : list branch) (a : taddr) (b : branch) : Prop :=
  match b_ancestor b with
  | Some (parent, alsn) =>
      (parent < a)%nat /\ (exists bp, bs !! parent = Some bp /\ b_horizon bp <= alsn) /\
      Forall (fun m => alsn <= m_lsn m) (b_mods b)
  | None => True
  end.

Definition tree_ok (bs : list branch) : Prop := forall a b, bs !! a = Some b -> branch_ok bs a b.

Record timeline_rep (t : Timeline) (b : branch) : Prop := {
  tr_ancestor : tl_ancestor t = b_ancestor b;
  tr_rep : rep (tl_repo t) (b_versions b) (b_horizon b);
  tr_sizes : sizes_ok (rel_sizes (tl_repo t)) (b_mods b);
  tr_ordered : lsn_ordered (b_mods b)
}.

Definition arena_rep (ts : arena_t) (bs : list branch) : Prop := Forall2 timeline_rep ts bs /\ tree_ok bs.

(** ** Reading a branch is reading its flat history *)

Lemma spec_ingest_In mods k l v : In (k, l, v) (spec_ingest mods []) -> exists m, m ∈ mods /\ mod_key m = (k, l).
Proof.
  intros Hin%In_fst. destruct (spec_ingest_keys mods [] (k, l) Hin) as [Hk | Hk]; [| by apply not_elem_of_nil in Hk].
  apply list_elem_of_fmap in Hk as (m & E & Hm). by exists m.
Qed.

Lemma insert_by_lsn_first l v (vs : History) :
  (forall e, In e vs -> l <= e.1) -> insert_by_lsn (l, v) vs = (l, v) :: vs.
Proof.
  intros Hl. destruct vs as [|e vs]; [done |]. cbn [insert_by_lsn fst]. specialize (Hl e (or_introl eq_refl)).
  by rewrite (proj2 (Z.leb_le _ _)).
Qed.

Lemma branch_history_first bs a b parent alsn key lsn :
  tree_ok bs -> bs !! a = Some b -> b_ancestor b = Some (parent, alsn) ->
  forall e, In e (range_versions key lsn (b_versions b)) -> alsn <= e.1.
Proof.
  intros Hok Hb Ha [l v] He. apply In_range_versions in He as [He _].
  apply spec_ingest_In in He as (m & Hm & E). specialize (Hok a b Hb). unfold branch_ok in Hok. rewrite Ha in Hok.
  destruct Hok as (_ & _ & Hf). rewrite Forall_forall in Hf. injection E as _ <-. by apply Hf.
Qed.

Lemma arena_rep_lookup ts bs a b :
  arena_rep ts bs -> bs !! a = Some b -> exists t, ts !! a = Some t /\ timeline_rep t b.
Proof. intros [Hf _] Hb. by apply (Forall2_lookup_r _ _ _ _ _ Hf Hb). Qed.

Section Branch_reads.
Context {R} `{HM : WalRedoManager R} `{!WalRedoLaws R} `{!FullReplay R}.

Lemma repo_read i M h key lsn base (r : R) :
  rep i M h -> h <= lsn -> fr_ready r -> fr_key key ->
  Forall (fr_version key) (spec_history M key lsn base) -> len (spec_history M key lsn base) <= fr_limit ->
  exists r', get_page_with_base i key lsn base r =
    (r', lookup_result (page_at fr_apply key (spec_history M key lsn base))) /\ fr_ready r'.
Proof.
  intros Hrep Hl Hr Hk Hv Hn. destruct (fr_replay key lsn _ r Hr Hk Hv Hn) as (r' & E & Hr').
  exists r'. split; [| done]. unfold get_page_with_base. rewrite (rep_read i M h key lsn base r Hrep Hl). by rewrite E.
Qed.

Lemma page_at_size key (lsn : Lsn) vs (r : R) p :
  fr_ready r -> fr_key key -> Forall (fr_version key) vs -> len vs <= fr_limit ->
  page_at fr_apply key vs = Ok (Some p) -> len p = PAGE_SIZE.
Proof.
  intros Hr Hk Hv Hn E. destruct (fr_replay key lsn vs r Hr Hk Hv Hn) as (r' & E' & _). rewrite E in E'.
  apply reconstruct_size in E'; [done |]. eapply Forall_impl; [exact Hv | apply fr_version_ok].
Qed.

Lemma page_at_has_base key (lsn : Lsn) vs (r : R) :
  fr_ready r -> fr_key key -> Forall (fr_version key) vs -> len vs <= fr_limit ->
  has_base vs = true -> page_at fr_apply key vs <> Ok None.
Proof.
  intros Hr Hk Hv Hn Hb E. destruct (fr_replay key lsn vs r Hr Hk Hv Hn) as (r' & E' & _). rewrite E in E'.
  apply reconstruct_found in E'. congruence.
Qed.

Lemma page_at_own_base key inh own :
  has_base own = true -> page_at fr_apply key (inh ++ own) = page_at fr_apply key own.
Proof.
  intros Hb. destruct (last_base_cases own) as [[Hn _] | (pre & b & post & -> & Hbb & _)]; [congruence |].
  rewrite app_assoc, !page_at_from_base by done. done.
Qed.

Lemma get_page_chain_flat fuel : forall ts bs a b key lsn (r : R),
  arena_rep ts bs -> (a < fuel)%nat -> bs !! a = Some b -> b_horizon b <= lsn ->
  fr_ready r -> fr_key key -> Forall (fr_version key) (flat_chain fuel bs a key lsn) ->
  1 + len (flat_chain fuel bs a key lsn) <= fr_limit ->
  exists r', get_page_chain fuel ts a key lsn r =
    (r', lookup_result (page_at fr_apply key (flat_chain fuel bs a key lsn))) /\ fr_ready r'.
Proof.
  induction fuel as [|fuel IH]; intros ts bs a b key lsn r Hrep Hf Hb Hh Hr Hk Hv Hn; [lia |].
  destruct (arena_rep_lookup ts bs a b Hrep Hb) as (t & Ht & [Ha Hrt _ _]).
  cbn [get_page_chain flat_chain] in *. rewrite Ht, Ha. rewrite Hb in *. set (own := range_versions key lsn (b_versions b)) in *.
  pose proof Hrep as [_ Htree]. pose proof (Htree a b Hb) as Hbo. unfold branch_ok in Hbo.
  destruct (b_ancestor b) as [[parent alsn]|] eqn:Eanc.
  2: { cbn [app] in *. unfold get_page. apply (repo_read _ (b_versions b) (b_horizon b)); [done | lia | done | done | done |].
       cbn [spec_history]. fold own. pose proof (len_nonneg own). lia. }
  destruct Hbo as (Hlt & (bp & Hbp & Hhp) & _). set (inh := flat_chain fuel bs parent key alsn) in *.
  pose proof (branch_history_first bs a b parent alsn key lsn Htree Hb Eanc) as Hfirst. fold own in Hfirst.
  rewrite len_app in Hn. pose proof (len_nonneg own). pose proof (len_nonneg inh). apply Forall_app in Hv as [Hvi Hvo].
  assert (Hno : len own <= fr_limit) by lia.
  destruct (repo_read (tl_repo t) (b_versions b) (b_horizon b) key lsn None r Hrt Hh Hr Hk Hvo Hno) as (r1 & E1 & Hr1).
  cbn [spec_history] in E1. fold own in E1. unfold get_page, sbind at 1. rewrite E1. clear E1.
  destruct (has_base own) eqn:Hbase.
  { rewrite (page_at_own_base key inh own Hbase). exists r1. split; [| done].
    pose proof (page_at_has_base key lsn own r Hr Hk Hvo Hno Hbase) as Hne.
    destruct (page_at fr_apply key own) as [[p|] | [] |]; done. }
  unfold page_at at 1. rewrite (fold_history_no_base fr_apply key own Hbase). cbn [lookup_result]. cbn iota.
  assert (Hni : len inh <= fr_limit) by lia.
  destruct (IH ts bs parent bp key alsn r1 Hrep ltac:(lia) Hbp Hhp Hr1 Hk Hvi ltac:(fold inh; lia)) as (r2 & E2 & Hr2).
  fold inh in E2. unfold sbind. rewrite E2. unfold page_at at 2. rewrite fold_left_app. fold (page_at fr_apply key inh).
  destruct (page_at fr_apply key inh) as [[base|] | e |] eqn:Einh; cbn [lookup_result].
  - pose proof (page_at_size key alsn inh r base Hr Hk Hvi Hni Einh) as Hsize.
    assert (Es : spec_history (b_versions b) key lsn (Some (alsn, base)) = (alsn, Image base) :: own)
      by (by apply insert_by_lsn_first).
    destruct (repo_read (tl_repo t) (b_versions b) (b_horizon b) key lsn (Some (alsn, base)) r2 Hrt Hh Hr2 Hk)
      as (r3 & E3 & Hr3); rewrite ?Es.
    + constructor; [apply fr_image | done].
    + rewrite len_cons. lia.
    + exists r3. rewrite E3, Es. split; [| done]. unfold page_at. cbn [fold_left]. unfold history_step at 2. cbn [snd].
      by rewrite Hsize.
  - rewrite (fold_history_no_base fr_apply key own Hbase). by exists r2.
  - rewrite (fold_history_Err fr_apply key own e Hbase). destruct e; by exists r2.
  - rewrite (fold_history_Panic fr_apply key own Hbase). by exists r2.
Qed.
End Branch_reads.

(** ** Relation sizes along the chain *)

(** [o] is one more than the largest block of [r] among the writes [W]. *)
Definition size_of (r : RelTag) (W : Modification -> Prop) (o : option Z) : Prop :=
  match o with
  | Some n => (exists m, W m /\ m_rel m = r /\ n = m_block m + 1) /\
              forall m, W m -> m_rel m = r -> m_block m + 1 <= n
  | None => forall m, W m -> m_rel m <> r
  end.

Lemma size_of_union r (W1 W2 W : Modification -> Prop) o1 o2 :
  size_of r W1 o1 -> size_of r W2 o2 -> (forall m, W m <-> W1 m \/ W2 m) ->
  size_of r W (match o1, o2 with
               | Some a, Some b => Some (Z.max a b)
               | Some a, None => Some a
               | None, b => b
               end).
Proof.
  intros H1 H2 HW. destruct o1 as [n1|], o2 as [n2|]; cbn [size_of] in *.
  - destruct H1 as [(m1 & Hm1 & Hr1 & E1) Hmax1], H2 as [(m2 & Hm2 & Hr2 & E2) Hmax2]. split.
    + destruct (Z.le_ge_cases n1 n2); [exists m2 | exists m1]; rewrite HW; (split; [auto | split; [done | lia]]).
    + intros m [Hm | Hm]%HW Hr; [specialize (Hmax1 m Hm Hr) | specialize (Hmax2 m Hm Hr)]; lia.
  - destruct H1 as [(m1 & Hm1 & Hr1 & E1) Hmax1]. split; [exists m1; rewrite HW; auto |].
    intros m [Hm | Hm]%HW Hr; [by apply Hmax1 | by apply H2 in Hm].
  - destruct H2 as [(m2 & Hm2 & Hr2 & E2) Hmax2]. split; [exists m2; rewrite HW; auto |].
    intros m [Hm | Hm]%HW Hr; [by apply H1 in Hm | by apply Hmax2].
  - intros m [Hm | Hm]%HW; [by apply H1 | by apply H2].
Qed.

Lemma own_size_of t b r lsn :
  timeline_rep t b -> size_of r (fun m => m ∈ b_mods b /\ m_lsn m <= lsn) (get_rel_size (tl_repo t) r lsn).
Proof.
  intros [_ _ Hs Ho]. unfold get_rel_size. rewrite (so_sizes _ _ Hs).
  assert (Hb : Forall (fun m => 0 <= m_block m) (b_mods b)).
  { eapply Forall_impl; [apply Ho |]. by intros m [_ ?]. }
  pose proof (high_water_spec r lsn (b_mods b) Hb) as Hw. destruct (high_water r lsn (b_mods b)) as [n|]; cbn [size_of].
  - destruct Hw as [(m & Hm & [Hr Hl] & E) Hmax]. split; [by exists m |].
    intros m' [Hm' Hl'] Hr'. by apply Hmax.
  - intros m [Hm Hl] Hr. by apply (Hw m Hm).
Qed.

Lemma get_rel_size_chain_flat {E} fuel : forall ts bs a b r lsn,
  arena_rep ts bs -> (a < fuel)%nat -> bs !! a = Some b ->
  exists o, get_rel_size_chain (E := E) fuel ts a r lsn = Ok o /\ size_of r (flat_writes fuel bs a lsn) o.
Proof.
  induction fuel as [|fuel IH]; intros ts bs a b r lsn Hrep Hf Hb; [lia |].
  destruct (arena_rep_lookup ts bs a b Hrep Hb) as (t & Ht & Htr). pose proof (tr_ancestor _ _ Htr) as Ha.
  pose proof (own_size_of t b r lsn Htr) as Hown. cbn [get_rel_size_chain]. rewrite Ht, Ha.
  pose proof Hrep as [_ Htree]. specialize (Htree a b Hb). unfold branch_ok in Htree.
  assert (HW : forall m, flat_writes (S fuel) bs a lsn m <-> (m ∈ b_mods b /\ m_lsn m <= lsn) \/
    match b_ancestor b with Some (p, l) => flat_writes fuel bs p l m | None => False end).
  { intros m. cbn [flat_writes]. by rewrite Hb. }
  destruct (b_ancestor b) as [[parent alsn]|].
  - destruct Htree as (Hlt & (bp & Hbp & _) & _).
    destruct (IH ts bs parent bp r alsn Hrep ltac:(lia) Hbp) as (o & Eo & Ho). rewrite Eo. cbn [bind].
    eexists. split; [done |]. by eapply size_of_union.
  - eexists. split; [done |]. assert (Hnone : size_of r (fun _ => False) None) by (by intros m).
    pose proof (size_of_union r _ _ _ _ _ Hown Hnone HW) as Hu. by destruct (get_rel_size (tl_repo t) r lsn).
Qed.

(** ** Writes keep the representation *)

(** [bs'] differs from [bs] only at [a], whose branch point stays. *)
Lemma tree_ok_update bs a b b' :
  tree_ok bs -> bs !! a = Some b -> b_ancestor b' = b_ancestor b ->
  (match b_ancestor b with Some (_, alsn) => Forall (fun m => alsn <= m_lsn m) (b_mods b') | None => True end) ->
  (forall c bc alsn, bs !! c = Some bc -> b_ancestor bc = Some (a, alsn) -> b_horizon b' <= alsn) ->
  tree_ok (<[a := b']> bs).
Proof.
  intros Hok Hb Hanc Hm Hh c bc Hc. rewrite list_lookup_insert_Some in Hc.
  assert (Hpar : forall parent alsn, (parent < length bs)%nat -> (exists bp, bs !! parent = Some bp /\ b_horizon bp <= alsn) ->
    (parent = a -> b_horizon b' <= alsn) -> exists bp, <[a := b']> bs !! parent = Some bp /\ b_horizon bp <= alsn).
  { intros parent alsn Hlen (bp & Hbp & Hle) Ha. destruct (Nat.eq_dec a parent) as [-> | Hne].
    - exists b'. split; [by apply list_lookup_insert_eq | auto].
    - exists bp. by rewrite list_lookup_insert_ne. }
  pose proof (lookup_lt_Some _ _ _ Hb) as Hlen.
  assert (Hb' : forall d bd, bs !! d = Some bd -> branch_ok bs d bd) by apply Hok. unfold branch_ok in *.
  destruct Hc as [(-> & -> & _) | [Hne Hc]].
  - specialize (Hb' c b Hb). rewrite Hanc. destruct (b_ancestor b) as [[parent alsn]|] eqn:Eb; [| done].
    destruct Hb' as (Hlt & Hex & _). split; [done |]. split; [| done]. apply Hpar; [lia | done | lia].
  - specialize (Hb' c bc Hc). destruct (b_ancestor bc) as [[parent alsn]|] eqn:Ec; [| done].
    destruct Hb' as (Hlt & Hex & Hall). split; [done |]. split; [| done]. apply Hpar; [| done |].
    + pose proof (lookup_lt_Some _ _ _ Hc). lia.
    + intros ->. by eapply Hh.
Qed.

Lemma tree_ok_push bs b : tree_ok bs -> branch_ok (bs ++ [b]) (length bs) b -> tree_ok (bs ++ [b]).
Proof.
  intros Hok Hb c bc Hc. apply lookup_app_Some in Hc as [Hc | [Hge Hc]].
  - specialize (Hok c bc Hc). unfold branch_ok in *. destruct (b_ancestor bc) as [[p alsn]|]; [| done].
    destruct Hok as (Hlt & (bp & Hbp & Hle) & Hall). split; [done |]. split; [| done]. exists bp. split; [| done].
    by apply lookup_app_l_Some.
  - apply list_lookup_singleton_Some in Hc as [Hz ->]. by replace c with (length bs) by lia.
Qed.

Lemma arena_rep_push ts bs t b :
  arena_rep ts bs -> timeline_rep t b -> branch_ok (bs ++ [b]) (length bs) b -> arena_rep (ts ++ [t]) (bs ++ [b]).
Proof.
  intros [Hf Hok] Ht Hb. split; [by apply Forall2_app; [| constructor] |]. by apply tree_ok_push.
Qed.

Lemma timeline_rep_new id t anc : timeline_rep (mkTimeline id (Repository_new t) anc) (mkBranch [] anc 0).
Proof. split; [done | apply rep_new | done | repeat constructor]. Qed.

Lemma arena_rep_update ts bs a t b b' :
  arena_rep ts bs -> bs !! a = Some b -> timeline_rep t b' -> tree_ok (<[a := b']> bs) ->
  arena_rep (<[a := t]> ts) (<[a := b']> bs).
Proof. intros [Hf _] Hb Ht Hok. split; [by apply Forall2_insert | done]. Qed.
