(* ===== verification/Tenant.v ===== *)
(** Tenants (src/pageserver/src/tenant.rs): the set of timelines of one database,
    branch creation and branch-aware garbage collection.  A tenant owns the arena
    its timelines live in; the order in which a hash map is walked is a
    parameter. *)

From S2P Require Import Prelude Bytes BTree Common PageVersion Layer WalRedo Repository WalDecode WalIngest Timeline.

(** [HashMap::iter]: every entry once, in some order. *)
Class HashOrder := {
  order : forall {V}, gmap Id V -> list (Id * V);
  order_perm {V} (m : gmap Id V) : order m ≡ₚ map_to_list m
}.

#[export] Program Instance default_order : HashOrder | 100 := {| order V m := map_to_list m |}.
Next Obligation. done. Qed.

Inductive TenantError :=
| AlreadyExists (id : TimelineId)
| NoSuchParent (id : TimelineId).

Record Tenant := mkTenant {
  timelines : gmap TimelineId taddr;
  arena : arena_t;
  tn_freeze_threshold : Z
}.

Definition Tenant_new (freeze_threshold : Z) : Tenant := mkTenant ∅ [] freeze_threshold.

Definition new_repo (tn : Tenant) : Inner := Repository_new (tn_freeze_threshold tn).

(** Allocate a timeline and enter it into the map. *)
Definition add_timeline (id : TimelineId) (t : Timeline) (tn : Tenant) : Tenant :=
  mkTenant (<[id := length (arena tn)]> (timelines tn)) (arena tn ++ [t]) (tn_freeze_threshold tn).

Definition create_timeline (id : TimelineId) : stateM Tenant TenantError taddr := fun tn =>
  match timelines tn !! id with
  | Some _ => (tn, Err (AlreadyExists id))
  | None => (add_timeline id (Timeline_root id (new_repo tn)) tn, Ok (length (arena tn)))
  end.

Definition branch_timeline (new_id parent_id : TimelineId) (ancestor_lsn : Lsn) : stateM Tenant TenantError taddr := fun tn =>
  match timelines tn !! new_id with
  | Some _ => (tn, Err (AlreadyExists new_id))
  | None =>
      match timelines tn !! parent_id with
      | None => (tn, Err (NoSuchParent parent_id))
      | Some parent =>
          (add_timeline new_id (Timeline_branched new_id (new_repo tn) parent ancestor_lsn) tn, Ok (length (arena tn)))
      end
  end.

Definition get_timeline (tn : Tenant) (id : TimelineId) : option taddr := timelines tn !! id.

Definition timeline_ids `{HashOrder} (tn : Tenant) : list TimelineId := (order (timelines tn)).*1.

(** Run an operation of the arena inside the tenant. *)
Definition in_arena {E A : Type} (m : stateM arena_t E A) : stateM Tenant E A := fun tn =>
  let '(ts, res) := m (arena tn) in (mkTenant (timelines tn) ts (tn_freeze_threshold tn), res).

(** ** Garbage collection *)

(** The lowest branch point pinned on each parent. *)
Fixpoint child_pin (ts : arena_t) (l : list (TimelineId * taddr)) (pins : gmap TimelineId Lsn) : gmap TimelineId Lsn :=
  match l with
  | [] => pins
  | (_, a) :: l' =>
      child_pin ts l'
        (match ts !! a with
         | Some tl =>
             match ancestor_timeline ts tl, ancestor_lsn tl with
             | Some parent, Some alsn => <[parent := Z.min (default u64_max (pins !! parent)) alsn]> pins
             | _, _ => pins
             end
         | None => pins
         end)
  end.

Fixpoint gc_loop {E : Type} (pins : gmap TimelineId Lsn) (requested : Lsn) (l : list (TimelineId * taddr)) :
    stateM arena_t E (list (TimelineId * CompactionStats)) :=
  match l with
  | [] => sret []
  | (id, a) :: l' =>
      let horizon := match pins !! id with Some pin => Z.min requested pin | None => requested end in
      let! stats := Timeline_compact a horizon in
      let! rest := gc_loop pins requested l' in
      sret ((id, stats) :: rest)
  end.

Definition gc {E : Type} `{HashOrder} (requested_horizon : Lsn) : stateM Tenant E (list (TimelineId * CompactionStats)) := fun tn =>
  let l := order (timelines tn) in
  in_arena (gc_loop (child_pin (arena tn) l ∅) requested_horizon l) tn.

(** ** The invariant: the map and the arena name the same timelines *)

Record tenant_ok (tn : Tenant) : Prop := {
  tn_named id a : timelines tn !! id = Some a -> exists t, arena tn !! a = Some t /\ tl_id t = id;
  tn_listed a t : arena tn !! a = Some t -> timelines tn !! tl_id t = Some a
}.

Lemma tenant_ok_new t : tenant_ok (Tenant_new t).
Proof. split; [intros id a Ha; cbn in Ha; by rewrite lookup_empty in Ha | done]. Qed.

Lemma tenant_ok_add tn id t :
  tenant_ok tn -> timelines tn !! id = None -> tl_id t = id -> tenant_ok (add_timeline id t tn).
Proof.
  intros [Hn Hl] Hid Ht. split; cbn [add_timeline timelines arena].
  - intros id' a. rewrite lookup_insert. case_decide as E.
    + intros [= <-]. exists t. split; [by apply list_lookup_middle | congruence].
    + intros (t' & Ha & E')%Hn. exists t'. split; [by apply lookup_app_l_Some | done].
  - intros a t' Ha. rewrite lookup_insert. apply lookup_app_Some in Ha as [Ha | [Hge Ha]].
    + rewrite decide_False; [by apply Hl |]. intros E. apply Hl in Ha. rewrite <- E in Ha. congruence.
    + apply list_lookup_singleton_Some in Ha as [Hz <-]. rewrite decide_True by done. f_equal. lia.
Qed.

(** The arena changed, but no identifier did. *)
Lemma tenant_ok_arena tn ts :
  tenant_ok tn -> tl_id <$> ts = tl_id <$> arena tn ->
  tenant_ok (mkTenant (timelines tn) ts (tn_freeze_threshold tn)).
Proof.
  intros [Hn Hl] E.
  assert (Hlk : forall (a : taddr) i, (exists t, i = tl_id t /\ ts !! a = Some t) <->
                                      (exists t, i = tl_id t /\ arena tn !! a = Some t)).
  { intros a i. rewrite <- !list_lookup_fmap_Some. by rewrite E. }
  split; cbn [timelines arena].
  - intros id a (t & Ha & Ei)%Hn. destruct (proj2 (Hlk a id)) as (t' & -> & Ha'); [by exists t | by exists t'].
  - intros a t Ha. destruct (proj1 (Hlk a (tl_id t))) as (t' & -> & Ha'); [by exists t |]. by apply Hl.
Qed.

Lemma on_repo_shape {E A : Type} a (m : stateM Inner E A) ts ts' res :
  on_repo a m ts = (ts', res) ->
  tl_id <$> ts' = tl_id <$> ts /\ tl_ancestor <$> ts' = tl_ancestor <$> ts /\
  forall t, ts !! a = Some t -> exists i, m (tl_repo t) = (i, res) /\ ts' = <[a := mkTimeline (tl_id t) i (tl_ancestor t)]> ts.
Proof.
  unfold on_repo. destruct (ts !! a) as [t|] eqn:Ht; [| by intros [= <- <-]].
  destruct (m (tl_repo t)) as [i r] eqn:Em. intros [= <- <-]. rewrite !list_fmap_insert. cbn [tl_id tl_ancestor].
  split; [| split].
  - apply list_insert_id. by rewrite list_lookup_fmap, Ht.
  - apply list_insert_id. by rewrite list_lookup_fmap, Ht.
  - intros t' [= <-]. by exists i.
Qed.

Lemma gc_loop_ids {E : Type} pins req l : forall ts ts' (res : outcome E _),
  gc_loop pins req l ts = (ts', res) -> tl_id <$> ts' = tl_id <$> ts.
Proof.
  induction l as [|[id a] l IH]; intros ts ts' res; cbn [gc_loop]; [by intros [= <- <-] |]. unfold sbind.
  destruct (Timeline_compact a _ ts) as [ts1 [st | e |]] eqn:E1; apply on_repo_shape in E1 as (Hi & _ & _);
    [| by intros [= <- <-] .. ].
  destruct (gc_loop pins req l ts1) as [ts2 [r | e |]] eqn:E2; apply IH in E2; intros [= <- <-]; congruence.
Qed.

(** ** Pins *)

Lemma child_pin_mono ts l pins id p :
  pins !! id = Some p -> exists q, child_pin ts l pins !! id = Some q /\ q <= p.
Proof.
  revert pins p; induction l as [|[i a] l IH]; intros pins p Hp; cbn [child_pin]; [exists p; split; [done | lia] |].
  set (pins' := match ts !! a with Some _ => _ | None => _ end).
  assert (Hp' : exists q, pins' !! id = Some q /\ q <= p).
  { unfold pins'. destruct (ts !! a) as [tl|]; [| exists p; split; [done | lia]].
    destruct (ancestor_timeline ts tl) as [par|]; [| exists p; split; [done | lia]].
    destruct (ancestor_lsn tl) as [alsn|]; [| exists p; split; [done | lia]].
    rewrite lookup_insert. case_decide as E; [| exists p; split; [done | lia]].
    subst par. rewrite Hp. eexists. split; [done |]. cbn. lia. }
  destruct Hp' as (q & Hq & Hle). destruct (IH pins' q Hq) as (q' & Hq' & Hle'). exists q'. split; [done | lia].
Qed.

(** A parent is pinned at or below the branch point of each listed child. *)
Lemma child_pin_le ts l pins cid c tc par alsn :
  In (cid, c) l -> ts !! c = Some tc -> ancestor_timeline ts tc = Some par -> ancestor_lsn tc = Some alsn ->
  exists q, child_pin ts l pins !! par = Some q /\ q <= alsn.
Proof.
  intros Hin Hc Hp Ha. revert pins; induction l as [|[i a] l IH]; intros pins; [done |]. cbn [child_pin].
  destruct Hin as [[= -> ->] | Hin]; [| by apply IH]. rewrite Hc, Hp, Ha.
  destruct (child_pin_mono ts l (<[par := Z.min (default u64_max (pins !! par)) alsn]> pins) par
    (Z.min (default u64_max (pins !! par)) alsn)) as (q & Hq & Hle); [by rewrite lookup_insert_eq |].
  exists q. split; [done | lia].
Qed.

(** ** Garbage collection in the reference

    A timeline is compacted at the requested horizon, lowered to the branch
    points of its children. *)
Definition gc_horizon_of (requested : Lsn) (bs : list branch) (a : taddr) : Lsn :=
  foldr (fun c h => match b_ancestor c with
                    | Some (p, alsn) => if (p =? a)%nat then Z.min h alsn else h
                    | None => h
                    end) requested bs.

Definition gc_branches (requested : Lsn) (bs : list branch) : list branch :=
  imap (fun a b => mkBranch (b_mods b) (b_ancestor b) (Z.max (b_horizon b) (gc_horizon_of requested bs a))) bs.

Lemma gc_horizon_of_child requested bs a c bc alsn :
  bs !! c = Some bc -> b_ancestor bc = Some (a, alsn) -> gc_horizon_of requested bs a <= alsn.
Proof.
  unfold gc_horizon_of. revert c; induction bs as [|b bs IH]; intros c Hc Ha; [done |]. cbn [foldr].
  destruct c as [|c]; [injection Hc as -> | specialize (IH c Hc Ha)].
  - rewrite Ha, Nat.eqb_refl. lia.
  - destruct (b_ancestor b) as [[p l]|]; [| done]. case_test; [| done]. lia.
Qed.

(** What is at or below the request and every child's branch point is at or
    below the horizon. *)
Lemma gc_horizon_of_ge requested bs a h :
  h <= requested -> (forall c bc alsn, bs !! c = Some bc -> b_ancestor bc = Some (a, alsn) -> h <= alsn) ->
  h <= gc_horizon_of requested bs a.
Proof.
  intros Hr. unfold gc_horizon_of. induction bs as [|b bs IH]; intros Hc; [done |]. cbn [foldr].
  assert (IH' := IH (fun c => Hc (S c))). destruct (b_ancestor b) as [[p l]|] eqn:E; [| done].
  destruct (Nat.eqb_spec p a) as [-> |]; [| done]. specialize (Hc 0%nat b l eq_refl E). lia.
Qed.

Lemma rep_mono i M h h' : rep i M h -> h <= h' -> rep i M h'.
Proof.
  intros [Hs HM Hsound Hcomp] Hle. split; [done .. |]. intros k l v Hin.
  destruct (Hcomp k l v Hin) as [|(b & vb & Hb & Hbase & Hr)]; [by left |].
  right. exists b, vb. split; [done |]. split; [done | lia].
Qed.

Lemma timeline_rep_raise t b h :
  timeline_rep t b -> b_horizon b <= h -> timeline_rep t (mkBranch (b_mods b) (b_ancestor b) h).
Proof. intros [Ha Hr Hs Ho] Hle. split; [done | by apply (rep_mono _ _ (b_horizon b)) | done | done]. Qed.

(** Raising horizons up to the branch points is always possible. *)
Lemma arena_rep_gc requested ts bs : arena_rep ts bs -> arena_rep ts (gc_branches requested bs).
Proof.
  intros [Hf Hok]. unfold gc_branches. split.
  - apply Forall2_same_length_lookup_2; [by rewrite length_imap, (Forall2_length _ _ _ Hf) |].
    intros a t b Ht Hb. rewrite list_lookup_imap in Hb. destruct (bs !! a) as [b0|] eqn:E; [| done].
    cbn in Hb. injection Hb as <-. apply timeline_rep_raise; [| lia].
    by apply (Forall2_lookup_lr _ _ _ _ _ _ Hf Ht E).
  - intros a b Hb. rewrite list_lookup_imap in Hb. destruct (bs !! a) as [b0|] eqn:E; [| done].
    cbn in Hb. injection Hb as <-. specialize (Hok a b0 E). unfold branch_ok in *. cbn [b_ancestor b_mods].
    destruct (b_ancestor b0) as [[p alsn]|] eqn:Ea; [| done]. destruct Hok as (Hlt & (bp & Hbp & Hle) & Hall).
    split; [done |]. split; [| done]. rewrite list_lookup_imap, Hbp. cbn. eexists. split; [done |]. cbn [b_horizon].
    pose proof (gc_horizon_of_child requested bs p a b0 alsn E Ea). lia.
Qed.

(** Compacting at or below a timeline's horizon keeps the representation. *)
Lemma arena_rep_compact {E : Type} a h ts bs b :
  arena_rep ts bs -> bs !! a = Some b -> h <= b_horizon b ->
  exists ts' stats, Timeline_compact (E := E) a h ts = (ts', Ok stats) /\ arena_rep ts' bs.
Proof.
  intros Hrep Hb Hh. destruct (arena_rep_lookup ts bs a b Hrep Hb) as (t & Ht & [Ha Hr Hs Ho]).
  unfold Timeline_compact, on_repo. rewrite Ht. destruct (compact h (tl_repo t)) as [i stats] eqn:Ec.
  eexists _, stats. split; [done |]. rewrite <- (list_insert_id bs a b Hb). apply (arena_rep_update ts bs a _ b b Hrep Hb).
  - assert (Ei : i = (compact h (tl_repo t)).1) by (by rewrite Ec).
    split; cbn [tl_ancestor tl_repo]; [done | | | done]; rewrite Ei; [by apply rep_compact | by rewrite compact_rel_sizes].
  - rewrite (list_insert_id bs a b Hb). apply Hrep.
Qed.

Lemma gc_loop_rep {E : Type} pins requested l : forall ts bs,
  arena_rep ts bs ->
  (forall id a, In (id, a) l -> exists b, bs !! a = Some b /\
     match pins !! id with Some pin => Z.min requested pin | None => requested end <= b_horizon b) ->
  exists ts' stats, gc_loop (E := E) pins requested l ts = (ts', Ok stats) /\ arena_rep ts' bs.
Proof.
  induction l as [|[id a] l IH]; intros ts bs Hrep Hl; cbn [gc_loop]; [by exists ts, [] |].
  destruct (Hl id a (or_introl eq_refl)) as (b & Hb & Hh).
  destruct (arena_rep_compact (E := E) a _ ts bs b Hrep Hb Hh) as (ts1 & st & E1 & Hrep1).
  destruct (IH ts1 bs Hrep1) as (ts2 & sts & E2 & Hrep2); [intros id' a' Hin; apply Hl; by right |].
  erewrite sbind_Ok by exact E1. erewrite sbind_Ok by exact E2. by eexists _, _.
Qed.

Lemma gc_rep {E : Type} `{HashOrder} requested tn bs :
  tenant_ok tn -> arena_rep (arena tn) bs ->
  exists tn' stats, gc (E := E) requested tn = (tn', Ok stats) /\ tenant_ok tn' /\
    arena_rep (arena tn') (gc_branches requested bs).
Proof.
  intros Hok Hrep. set (l := order (timelines tn)). set (pins := child_pin (arena tn) l ∅).
  assert (Hin : forall id a, In (id, a) l <-> timelines tn !! id = Some a).
  { intros id a. rewrite <- list_elem_of_In. unfold l. rewrite order_perm. apply elem_of_map_to_list. }
  destruct (gc_loop_rep (E := E) pins requested l (arena tn) (gc_branches requested bs)) as (ts' & stats & Eg & Hrep').
  - by apply arena_rep_gc.
  - intros id a Ha%Hin. destruct (tn_named _ Hok id a Ha) as (t & Ht & Hid).
    destruct Hrep as [Hf Htree]. destruct (Forall2_lookup_l _ _ _ _ _ Hf Ht) as (b & Hb & Htr).
    unfold gc_branches. rewrite list_lookup_imap, Hb. cbn. eexists. split; [done |]. cbn [b_horizon].
    etransitivity; [| apply Z.le_max_r]. apply gc_horizon_of_ge; [destruct (pins !! id); lia |].
    intros c bc alsn Hc Hanc. destruct (Forall2_lookup_r _ _ _ _ _ Hf Hc) as (tc & Htc & Htrc).
    assert (Hp : ancestor_timeline (arena tn) tc = Some id /\ ancestor_lsn tc = Some alsn).
    { unfold ancestor_timeline, ancestor_lsn. rewrite (tr_ancestor _ _ Htrc), Hanc. cbn. rewrite Ht. cbn. by rewrite Hid. }
    destruct (child_pin_le (arena tn) l ∅ (tl_id tc) c tc id alsn) as (q & Hq & Hle); [| done | apply Hp | apply Hp |].
    + apply Hin. by apply (tn_listed _ Hok).
    + fold pins in Hq. rewrite Hq. lia.
  - exists (mkTenant (timelines tn) ts' (tn_freeze_threshold tn)), stats. split; [| split; [| done]].
    + unfold gc. fold l. fold pins. unfold in_arena. by rewrite Eg.
    + apply tenant_ok_arena; [done |]. by apply gc_loop_ids in Eg.
Qed.

(** ** Histories of a tenant

    [tenant_run tn bs]: the tenant is in state [tn] after operations that wrote
    [bs].  Versions of a page are written once and in LSN order on each timeline,
    a branch is written above its branch point, and a branch is not taken below
    what garbage collection has already compacted. *)

Definition add_mods (mods : list Modification) (b : branch) : branch :=
  mkBranch (b_mods b ++ mods) (b_ancestor b) (b_horizon b).

Definition writable (b : branch) (mods : list Modification) : Prop :=
  NoDup (mod_key <$> b_mods b ++ mods) /\ lsn_ordered (b_mods b ++ mods) /\
  match b_ancestor b with Some (_, alsn) => Forall (fun m => alsn <= m_lsn m) mods | None => True end.

Inductive tenant_run `{HashOrder} : Tenant -> list branch -> Prop :=
| run_new t : tenant_run (Tenant_new t) []
| run_create tn bs id tn' a :
    tenant_run tn bs -> create_timeline id tn = (tn', Ok a) -> tenant_run tn' (bs ++ [mkBranch [] None 0])
| run_branch tn bs new par alsn p bp tn' a :
    tenant_run tn bs -> get_timeline tn par = Some p -> bs !! p = Some bp -> b_horizon bp <= alsn ->
    branch_timeline new par alsn tn = (tn', Ok a) -> tenant_run tn' (bs ++ [mkBranch [] (Some (p, alsn)) 0])
| run_ingest tn bs a b mods tn' :
    tenant_run tn bs -> bs !! a = Some b -> writable b mods ->
    in_arena (Timeline_ingest a mods) tn = (tn', Ok tt) -> tenant_run tn' (<[a := add_mods mods b]> bs)
| run_freeze tn bs a tn' :
    tenant_run tn bs -> in_arena (E := WalDecodeError) (Timeline_freeze a) tn = (tn', Ok tt) -> tenant_run tn' bs
| run_uploaded tn bs a id tn' :
    tenant_run tn bs -> in_arena (E := WalDecodeError) (on_repo a (smod (mark_uploaded id))) tn = (tn', Ok tt) ->
    tenant_run tn' bs
| run_gc tn bs horizon tn' stats :
    tenant_run tn bs -> gc (E := WalDecodeError) horizon tn = (tn', Ok stats) -> tenant_run tn' (gc_branches horizon bs).

(** A change of one store that keeps what it represents. *)
Lemma repo_update_rep {E A : Type} a (m : stateM Inner E A) tn tn' res bs b b' :
  tenant_ok tn -> arena_rep (arena tn) bs -> in_arena (on_repo a m) tn = (tn', res) -> bs !! a = Some b ->
  (forall i, timeline_rep (mkTimeline [] i (b_ancestor b)) b ->
     match m i with (i', r) => r = res -> timeline_rep (mkTimeline [] i' (b_ancestor b)) b' end) ->
  tree_ok (<[a := b']> bs) ->
  tenant_ok tn' /\ arena_rep (arena tn') (<[a := b']> bs).
Proof.
  intros Hok Hrep Hop Hb Hm Htree. unfold in_arena in Hop. destruct (on_repo a m (arena tn)) as [ts r] eqn:Eo.
  injection Hop as <- <-. apply on_repo_shape in Eo as (Hi & _ & Ht). split; [by apply tenant_ok_arena |].
  destruct (arena_rep_lookup _ _ _ _ Hrep Hb) as (t & Hta & [Ha Hr Hs Ho]).
  destruct (Ht t Hta) as (i & Em & ->). cbn [arena]. apply (arena_rep_update (arena tn) bs a _ b b' Hrep Hb); [| done].
  assert (H0 : timeline_rep (mkTimeline [] (tl_repo t) (b_ancestor b)) b) by (by split).
  specialize (Hm _ H0). rewrite Em in Hm. destruct (Hm eq_refl) as [Ha' Hr' Hs' Ho']. split; [| done .. ].
  cbn [tl_ancestor] in *. congruence.
Qed.

Lemma ingest_timeline_rep b mods i i' :
  timeline_rep (mkTimeline [] i (b_ancestor b)) b -> writable b mods -> ingest mods i = Ok i' ->
  timeline_rep (mkTimeline [] i' (b_ancestor b)) (add_mods mods b).
Proof.
  intros [_ Hr Hs Ho] (Hnd & Hord & _) Hi. cbn [tl_repo] in *. split; cbn [tl_repo add_mods b_mods b_ancestor]; [done | | | done].
  - unfold b_versions. cbn [add_mods b_mods]. rewrite spec_ingest_app.
    rewrite fmap_app in Hnd. apply NoDup_app in Hnd as (_ & Hd & Hnd).
    eapply rep_ingest; [exact Hr | done | | exact Hi]. intros m Hm Hk.
    apply spec_ingest_keys in Hk as [Hk | Hk]; [| by apply not_elem_of_nil in Hk].
    apply (Hd _ Hk). by apply list_elem_of_fmap_2.
  - by apply (ingest_sizes_ok mods i).
Qed.

Lemma tree_ok_ingest bs a b mods :
  tree_ok bs -> bs !! a = Some b -> writable b mods -> tree_ok (<[a := add_mods mods b]> bs).
Proof.
  intros Htree Hb (_ & _ & Hlow). apply (tree_ok_update bs a b); [done | done | done | |].
  - pose proof (Htree a b Hb) as Hbo. unfold branch_ok in Hbo. cbn [add_mods b_mods].
    destruct (b_ancestor b) as [[p alsn]|]; [| done]. apply Forall_app. split; [apply Hbo | done].
  - intros c bc alsn Hc Hanc. specialize (Htree c bc Hc). unfold branch_ok in Htree. rewrite Hanc in Htree.
    destruct Htree as (_ & (bp & Hbp & Hle) & _). cbn. congruence.
Qed.

Lemma tree_ok_same bs a b : tree_ok bs -> bs !! a = Some b -> tree_ok (<[a := b]> bs).
Proof. intros Ht Hb. by rewrite (list_insert_id bs a b Hb). Qed.

Lemma repo_keep_rep {E A : Type} a (m : stateM Inner E A) tn tn' x bs :
  tenant_ok tn -> arena_rep (arena tn) bs -> in_arena (on_repo a m) tn = (tn', Ok x) ->
  (forall b i, timeline_rep (mkTimeline [] i (b_ancestor b)) b -> timeline_rep (mkTimeline [] (m i).1 (b_ancestor b)) b) ->
  tenant_ok tn' /\ arena_rep (arena tn') bs.
Proof.
  intros Hok Hrep Hop Hm. destruct (arena tn !! a) as [t|] eqn:Ht; [| unfold in_arena, on_repo in Hop; by rewrite Ht in Hop].
  destruct (Forall2_lookup_l _ _ _ _ _ (proj1 Hrep) Ht) as (b & Hb & _). rewrite <- (list_insert_id bs a b Hb).
  apply (repo_update_rep a m tn tn' (Ok x) bs b b); [done | done | done | done | |].
  - intros i Hi. specialize (Hm b i Hi). by destruct (m i).
  - apply tree_ok_same; [apply Hrep | done].
Qed.

(** Every history is represented. *)
Lemma tenant_run_rep `{HashOrder} tn bs : tenant_run tn bs -> tenant_ok tn /\ arena_rep (arena tn) bs.
Proof.
  induction 1 as [t | tn bs id tn' a _ [Hok Hrep] Hop | tn bs new par alsn p bp tn' a _ [Hok Hrep] Hp Hbp Hh Hop
    | tn bs a b mods tn' _ [Hok Hrep] Hb Hw Hop | tn bs a tn' _ [Hok Hrep] Hop | tn bs a id tn' _ [Hok Hrep] Hop
    | tn bs horizon tn' stats _ [Hok Hrep] Hop].
  - split; [apply tenant_ok_new |]. split; [constructor | by intros a b ?].
  - unfold create_timeline in Hop. destruct (timelines tn !! id) eqn:Eid; [done |]. injection Hop as <- <-.
    split; [by apply tenant_ok_add |]. apply arena_rep_push; [done | apply timeline_rep_new | done].
  - unfold branch_timeline in Hop. destruct (timelines tn !! new) eqn:Eid; [done |]. unfold get_timeline in Hp.
    rewrite Hp in Hop. injection Hop as <- <-. split; [by apply tenant_ok_add |].
    apply arena_rep_push; [done | apply timeline_rep_new |]. unfold branch_ok. cbn [b_ancestor b_mods].
    pose proof (lookup_lt_Some _ _ _ Hbp). split; [lia |]. split; [| constructor]. exists bp.
    split; [by apply lookup_app_l_Some | done].
  - apply (repo_update_rep a (ingest_all mods) tn tn' (Ok tt) bs b); [done | done | done | done | |].
    + intros i Hi. unfold ingest_all. destruct (ingest mods i) as [i' | |] eqn:Ei; [| done | done]. intros _.
      by apply (ingest_timeline_rep b mods i).
    + apply tree_ok_ingest; [apply Hrep | done | done].
  - apply (repo_keep_rep (E := WalDecodeError) a (smod freeze) tn tn' tt bs); [done | done | done |].
    intros b i [Ha Hr Hs Ho]. split; [done | by apply rep_freeze | | done]. cbn in *. by rewrite freeze_rel_sizes.
  - apply (repo_keep_rep (E := WalDecodeError) a (smod (mark_uploaded id)) tn tn' tt bs); [done | done | done |].
    intros b i [Ha Hr Hs Ho]. split; [done | | done | done]. cbn [tl_repo] in *.
    destruct (rep_store _ _ _ Hr) as (Hm & Hl & _). by apply (rep_perm i).
  - destruct (gc_rep (E := WalDecodeError) horizon tn bs Hok Hrep) as (tn2 & st2 & E2 & Hok2 & Hrep2).
    rewrite Hop in E2. injection E2 as -> ->. done.
Qed.


(** *** A tenant with a branch *)

Definition tid (b : byte) : TimelineId := replicate 16 b.

Definition root_mods : list Modification :=
  [mkModification demo_rel 0 10 (Image zero_page); mkModification demo_rel 0 30 (Delta [mkByteEdit 0 [x61]])].
Definition branch_mods : list Modification := [mkModification demo_rel 0 25 (Delta [mkByteEdit 1 [x62]])].

Definition demo_tenant (k : nat) : Tenant :=
  let t0 := (create_timeline (tid x01) (Tenant_new 2)).1 in
  let t1 := (in_arena (Timeline_ingest 0 root_mods) t0).1 in
  let t2 := (branch_timeline (tid x02) (tid x01) 20 t1).1 in
  let t3 := (in_arena (Timeline_ingest 1 branch_mods) t2).1 in
  let t4 := (gc (E := WalDecodeError) 100 t3).1 in
  match k with 0 => t0 | 1 => t1 | 2 => t2 | 3 => t3 | _ => t4 end%nat.

Definition demo_branches (k : nat) : list branch :=
  let root := mkBranch root_mods None 0 in
  let child mods := mkBranch mods (Some (0%nat, 20)) 0 in
  match k with
  | 1 => [root] | 2 => [root; child []] | 3 => [root; child branch_mods]
  | _ => gc_branches 100 [root; child branch_mods]
  end%nat.

Ltac run_step := reflexivity.

Lemma demo_run (k : nat) : (1 <= k <= 4)%nat -> tenant_run (demo_tenant k) (demo_branches k).
Proof.
  intros Hk.
  assert (H1 : tenant_run (demo_tenant 1) (demo_branches 1)).
  { eapply (run_ingest _ ([] ++ [mkBranch [] None 0]) 0 (mkBranch [] None 0) root_mods);
      [eapply (run_create (Tenant_new 2) [] (tid x01)); [constructor | run_step] | done | | run_step].
    split; [apply (bool_decide_unpack _); by vm_compute |]. split; [| done]. repeat constructor; by_compute. }
  assert (H2 : tenant_run (demo_tenant 2) (demo_branches 2)).
  { eapply (run_branch _ (demo_branches 1) (tid x02) (tid x01) 20 0 (mkBranch root_mods None 0)); [exact H1 | run_step | done | cbn; lia | run_step]. }
  assert (H3 : tenant_run (demo_tenant 3) (demo_branches 3)).
  { eapply (run_ingest _ (demo_branches 2) 1 (mkBranch [] (Some (0%nat, 20)) 0) branch_mods); [exact H2 | done | | run_step].
    split; [apply (bool_decide_unpack _); by vm_compute |]. split; repeat constructor; by_compute. }
  destruct k as [|[|[|[|[|]]]]]; [lia | done | done | done | | lia].
  eapply (run_gc _ (demo_branches 3) 100); [exact H3 | run_step].
Qed.


(** Relation sizes follow the branches.  After any such history, the size of
    a relation fork on a timeline at an LSN is one more than the largest block
    that its own writes up to the LSN, or its ancestors' writes up to the branch
    points, touch; there is none exactly when they touch none. *)
Theorem branch_sizes_follow_ancestors `{HashOrder} tn bs id a r lsn :
  tenant_run tn bs -> get_timeline tn id = Some a ->
  exists o, Timeline_get_rel_size (E := PageError) (arena tn) a r lsn = Ok o /\ size_of r (sees bs a lsn) o.
Proof.
  intros Hrun Hid. apply tenant_run_rep in Hrun as [Hok Hrep]. destruct (tn_named _ Hok id a Hid) as (t & Ht & _).
  destruct (Forall2_lookup_l _ _ _ _ _ (proj1 Hrep) Ht) as (b & Hb & _).
  apply (get_rel_size_chain_flat (S a) (arena tn) bs a b); [done | lia | done].
Qed.

Lemma branch_sizes_follow_ancestors_witness :
  exists o, Timeline_get_rel_size (E := PageError) (arena (demo_tenant 4)) 1 demo_rel 15 = Ok o /\
    size_of demo_rel (sees (demo_branches 4) 1 15) o.
Proof. apply (branch_sizes_follow_ancestors _ _ (tid x02) 1 demo_rel 15 (demo_run 4 ltac:(lia))). run_step. Defined.

(** ** Isolation of branches *)

Lemma range_versions_above key lsn (M : VersionMap) k l v :
  bt_sorted M -> lsn < l -> range_versions key lsn (bt_insert (k, l) v M) = range_versions key lsn M.
Proof.
  intros Hs Hl. apply bt_sorted_eq; [by apply range_versions_sorted, bt_insert_sorted | by apply range_versions_sorted |].
  intros [l' v']. rewrite !In_range_versions. rewrite <- !bt_get_In by (done || by apply bt_insert_sorted).
  split; intros [Hg Hr]; (split; [| done]); [rewrite bt_get_insert_ne in Hg | rewrite bt_get_insert_ne];
    first [done | intros [= _ E]; lia].
Qed.

Lemma spec_ingest_sorted mods M : bt_sorted M -> bt_sorted (spec_ingest mods M).
Proof. revert M; induction mods as [|m mods IH]; intros M Hs; [done |]. by apply IH, bt_insert_sorted. Qed.

Lemma range_spec_ingest_above key lsn mods M :
  bt_sorted M -> Forall (fun m => lsn < m_lsn m) mods ->
  range_versions key lsn (spec_ingest mods M) = range_versions key lsn M.
Proof.
  intros Hs Hm; revert M Hs; induction Hm as [|m mods Hm _ IH]; intros M Hs; [done |].
  unfold spec_ingest. cbn [fold_left]. fold (spec_ingest mods (bt_insert (mod_key m) (m_version m) M)).
  rewrite IH by (by apply bt_insert_sorted). by apply range_versions_above.
Qed.

Lemma flat_chain_ingest fuel bs a b mods : forall c key lsn,
  bs !! a = Some b -> (c = a -> Forall (fun m => lsn < m_lsn m) mods) ->
  (forall d bd alsn, bs !! d = Some bd -> b_ancestor bd = Some (a, alsn) -> Forall (fun m => alsn < m_lsn m) mods) ->
  flat_chain fuel (<[a := add_mods mods b]> bs) c key lsn = flat_chain fuel bs c key lsn.
Proof.
  induction fuel as [|fuel IH]; intros c key lsn Hb Hc Hd; [done |]. cbn [flat_chain].
  destruct (Nat.eq_dec a c) as [-> | Hne].
  - rewrite list_lookup_insert_eq by (by eapply lookup_lt_Some). rewrite Hb. cbn [add_mods b_ancestor b_mods]. f_equal.
    + destruct (b_ancestor b) as [[p alsn]|] eqn:Ea; [| done]. apply IH; [done | | done].
      intros ->. by eapply Hd.
    + unfold b_versions. cbn [add_mods b_mods]. rewrite spec_ingest_app.
      apply range_spec_ingest_above; [by apply spec_ingest_sorted | by apply Hc].
  - rewrite list_lookup_insert_ne by done. destruct (bs !! c) as [bc|] eqn:Ec; [| done]. f_equal.
    destruct (b_ancestor bc) as [[p alsn]|] eqn:Ea; [| done]. apply IH; [done | | done]. intros ->. by eapply Hd.
Qed.

(** C30: branches are isolated.  A write on one timeline, above the branch points
    taken from it, changes no read on any other timeline: neither on its
    ancestors, nor on its siblings, nor on the branches taken from it. *)
Theorem branch_writes_are_isolated {R} `{HM : WalRedoManager R, !WalRedoLaws R, !FullReplay R} `{HashOrder}
    tn bs a b mods tn' c bc key lsn (r : R) :
  tenant_run tn bs -> bs !! a = Some b -> writable b mods ->
  in_arena (Timeline_ingest a mods) tn = (tn', Ok tt) ->
  (forall d bd alsn, bs !! d = Some bd -> b_ancestor bd = Some (a, alsn) -> Forall (fun m => alsn < m_lsn m) mods) ->
  c <> a -> bs !! c = Some bc -> b_horizon bc <= lsn -> fr_ready r -> fr_key key ->
  Forall (fr_version key) (flat_history bs c key lsn) -> 1 + len (flat_history bs c key lsn) <= fr_limit ->
  exists r1 r2 res, Timeline_get_page (arena tn) c key lsn r = (r1, res) /\
                    Timeline_get_page (arena tn') c key lsn r = (r2, res).
Proof.
  intros Hrun Hb Hw Hop Hd Hne Hc Hh Hr Hk Hv Hn.
  pose proof (tenant_run_rep _ _ Hrun) as [_ Hrep].
  pose proof (tenant_run_rep _ _ (run_ingest tn bs a b mods tn' Hrun Hb Hw Hop)) as [_ Hrep'].
  assert (E : flat_history (<[a := add_mods mods b]> bs) c key lsn = flat_history bs c key lsn)
    by (by apply flat_chain_ingest).
  destruct (get_page_chain_flat (S c) (arena tn) bs c bc key lsn r) as (r1 & E1 & _); [done | lia | done .. |].
  destruct (get_page_chain_flat (S c) (arena tn') (<[a := add_mods mods b]> bs) c bc key lsn r) as (r2 & E2 & _);
    [done | lia | by rewrite list_lookup_insert_ne | done | done | done | | |].
  - change (Forall (fr_version key) (flat_history (<[a := add_mods mods b]> bs) c key lsn)). by rewrite E.
  - change (1 + len (flat_history (<[a := add_mods mods b]> bs) c key lsn) <= fr_limit). by rewrite E.
  - change (flat_chain (S c) (<[a := add_mods mods b]> bs) c key lsn = flat_chain (S c) bs c key lsn) in E.
    rewrite E in E2. by exists r1, r2, (lookup_result (page_at fr_apply key (flat_chain (S c) bs c key lsn))).
Qed.

Lemma branch_writes_are_isolated_witness :
  exists r1 r2 res,
    Timeline_get_page (arena (demo_tenant 2)) 0 (mkPageKey demo_rel 0) 40 tt = (r1, res) /\
    Timeline_get_page (arena (demo_tenant 3)) 0 (mkPageKey demo_rel 0) 40 tt = (r2, res).
Proof.
  apply (branch_writes_are_isolated (R := unit) (demo_tenant 2) (demo_branches 2) 1 (mkBranch [] (Some (0%nat, 20)) 0) branch_mods
    (demo_tenant 3) 0 (mkBranch root_mods None 0) (mkPageKey demo_rel 0) 40 tt (demo_run 2 ltac:(lia))).
  - done.
  - split; [apply (bool_decide_unpack _); by vm_compute |]. split; repeat constructor; by_compute.
  - run_step.
  - intros [|[|d]] bd alsn; [by intros [= <-] | by intros [= <-] | done].
  - done.
  - done.
  - cbn. lia.
  - done.
  - done.
  - repeat constructor; by_compute.
  - by_compute.
Defined.

(** *** What the code does not check

    A branch may be taken below the horizon its parent was collected at: it then
    inherits pages from which the history it needs is gone. *)
Lemma branch_below_collected_history :
  let root := [mkModification demo_rel 0 10 (Image zero_page); mkModification demo_rel 0 30 (Image zero_page)] in
  let t0 := (create_timeline (tid x01) (Tenant_new 1)).1 in
  let t1 := (in_arena (Timeline_ingest 0 root) t0).1 in
  let t2 := (gc (E := WalDecodeError) 100 t1).1 in
  let read tn := match branch_timeline (tid x02) (tid x01) 20 tn with
                 | (tn', Ok a) => (Timeline_get_page (R := unit) (arena tn') a (mkPageKey demo_rel 0) 40 tt).2
                 | _ => Panic
                 end in
  read t1 = Ok (Page zero_page) /\ read t2 = Ok NotFound.
Proof. split; vm_compute; reflexivity. Qed.

(** A read of a branch below its branch point is answered with the parent's page
    at the branch point, a later version than the one asked for. *)
Lemma branch_read_below_branch_point :
  let read a := (Timeline_get_page (R := unit) (arena (demo_tenant 2)) a (mkPageKey demo_rel 0) 5 tt).2 in
  read 0%nat = Ok NotFound /\ read 1%nat = Ok (Page zero_page).
Proof. split; vm_compute; reflexivity. Qed.
