(* ===== verification/TenantManager.v ===== *)
(** The registry of tenants (src/pageserver/src/tenant_manager.rs).  An
    [Arc<Tenant>] is an address into the manager's arena, so a tenant removed
    from the registry stays usable by whoever still holds it.  The redo backend
    is the same for all tenants and is a parameter of reads. *)

From S2P Require Import Prelude Bytes BTree Common PageVersion Layer WalRedo Repository WalDecode WalIngest Timeline Tenant.

(** The address of a tenant. *)
Abbreviation gaddr := nat.

Inductive TenantManagerError := TenantExists (id : TenantId).

Record TenantManager := mkTenantManager {
  tm_freeze_threshold : Z;
  tm_tenants : gmap TenantId gaddr;
  tm_arena : list Tenant
}.

Definition TenantManager_new (freeze_threshold : Z) : TenantManager := mkTenantManager freeze_threshold ∅ [].

(** A manager around one tenant; it has no store. *)
Definition single (tenant : Tenant) : TenantManager := mkTenantManager 100000 {[ Id_ZERO := 0%nat ]} [tenant].

Definition build_tenant (tm : TenantManager) : Tenant := Tenant_new (tm_freeze_threshold tm).

Definition tm_get (tm : TenantManager) (id : TenantId) : option gaddr := tm_tenants tm !! id.

Definition add_tenant (id : TenantId) (tm : TenantManager) : TenantManager :=
  mkTenantManager (tm_freeze_threshold tm) (<[id := length (tm_arena tm)]> (tm_tenants tm)) (tm_arena tm ++ [build_tenant tm]).

Definition get_or_create (id : TenantId) (tm : TenantManager) : TenantManager * gaddr :=
  match tm_get tm id with
  | Some a => (tm, a)
  | None => (add_tenant id tm, length (tm_arena tm))
  end.

Definition tm_create (id : TenantId) : stateM TenantManager TenantManagerError gaddr := fun tm =>
  match tm_tenants tm !! id with
  | Some _ => (tm, Err (TenantExists id))
  | None => (add_tenant id tm, Ok (length (tm_arena tm)))
  end.

Definition tm_remove (id : TenantId) (tm : TenantManager) : TenantManager * bool :=
  (mkTenantManager (tm_freeze_threshold tm) (delete id (tm_tenants tm)) (tm_arena tm),
   match tm_tenants tm !! id with Some _ => true | None => false end).

Section Iteration.
Context `{HashOrder}.

Definition tenant_ids (tm : TenantManager) : list TenantId := (order (tm_tenants tm)).*1.

Definition tm_tenants_list (tm : TenantManager) : list (TenantId * gaddr) := order (tm_tenants tm).

(** Run a tenant's operation inside the manager. *)
Definition in_tenant {E A : Type} (a : gaddr) (m : stateM Tenant E A) : stateM TenantManager E A := fun tm =>
  match tm_arena tm !! a with
  | Some tn =>
      let '(tn', res) := m tn in
      (mkTenantManager (tm_freeze_threshold tm) (tm_tenants tm) (<[a := tn']> (tm_arena tm)), res)
  | None => (tm, Panic)
  end.

Fixpoint gc_tenants {E : Type} (horizon : Lsn) (l : list (TenantId * gaddr)) :
    stateM TenantManager E (list (TenantId * TimelineId * CompactionStats)) :=
  match l with
  | [] => sret []
  | (tid, a) :: l' =>
      let! stats := in_tenant a (gc horizon) in
      let! rest := gc_tenants horizon l' in
      sret (((fun s => (tid, s.1, s.2)) <$> stats) ++ rest)
  end.

Definition gc_all {E : Type} (horizon : Lsn) : stateM TenantManager E (list (TenantId * TimelineId * CompactionStats)) :=
  fun tm => gc_tenants horizon (tm_tenants_list tm) tm.
End Iteration.

(** ** Invariant *)

(** The timelines of a tenant: named by their identifiers, parents before their
    branches. *)
Record tenant_wf (tn : Tenant) : Prop := {
  tw_ok : tenant_ok tn;
  tw_ids id a : timelines tn !! id = Some a -> Id_wf id;
  tw_older a t p l : arena tn !! a = Some t -> tl_ancestor t = Some (p, l) -> (p < a)%nat
}.

(** The registry and the tenants it points to, none of them twice. *)
Record manager_wf (tm : TenantManager) : Prop := {
  mw_tenants : Forall tenant_wf (tm_arena tm);
  mw_ids id a : tm_tenants tm !! id = Some a -> Id_wf id /\ (a < length (tm_arena tm))%nat;
  mw_distinct id id' a : tm_tenants tm !! id = Some a -> tm_tenants tm !! id' = Some a -> id = id'
}.

Lemma tenant_wf_new t : tenant_wf (Tenant_new t).
Proof. split; [apply tenant_ok_new | intros id a Ha; cbn in Ha; by rewrite lookup_empty in Ha | done]. Qed.

Lemma manager_wf_new t : manager_wf (TenantManager_new t).
Proof. split; [constructor | |]; intros *; cbn; by rewrite lookup_empty. Qed.

Lemma manager_wf_add id tm : manager_wf tm -> Id_wf id -> tm_tenants tm !! id = None -> manager_wf (add_tenant id tm).
Proof.
  intros [Ht Hi Hd] Hid Hn. split; cbn [add_tenant tm_arena tm_tenants].
  - apply Forall_app. split; [done |]. constructor; [apply tenant_wf_new | constructor].
  - intros id' a. rewrite lookup_insert, length_app. cbn [length]. case_decide as E.
    + intros [= <-]. subst. split; [done | lia].
    + intros [Hid' Ha]%Hi. split; [done | lia].
  - intros id1 id2 a H1 H2. rewrite !lookup_insert in H1, H2. destruct (decide (id = id1)), (decide (id = id2)); [congruence | | | by eapply Hd].
    + injection H1 as <-. apply Hi in H2. lia.
    + injection H2 as <-. apply Hi in H1. lia.
Qed.

Lemma tenant_wf_add tn id t :
  tenant_wf tn -> Id_wf id -> timelines tn !! id = None -> tl_id t = id ->
  (forall p l, tl_ancestor t = Some (p, l) -> (p < length (arena tn))%nat) -> tenant_wf (add_timeline id t tn).
Proof.
  intros [Hok Hi Ho] Hid Hn Ht Hp. split; [by apply tenant_ok_add | |]; cbn [add_timeline timelines arena].
  - intros id' a. rewrite lookup_insert. case_decide as E; [intros _; by subst | apply Hi].
  - intros a t' p l Ha Hanc. apply lookup_app_Some in Ha as [Ha | [Hge Ha]]; [by eapply Ho |].
    apply list_lookup_singleton_Some in Ha as [Hz <-]. apply Hp in Hanc. lia.
Qed.

Lemma create_timeline_wf tn id tn' res :
  tenant_wf tn -> Id_wf id -> create_timeline id tn = (tn', res) -> tenant_wf tn'.
Proof.
  intros Hwf Hid. unfold create_timeline. destruct (timelines tn !! id) eqn:E; intros [= <- <-]; [done |].
  by apply tenant_wf_add.
Qed.

Lemma branch_timeline_wf tn new par alsn tn' res :
  tenant_wf tn -> Id_wf new -> branch_timeline new par alsn tn = (tn', res) -> tenant_wf tn'.
Proof.
  intros Hwf Hid. unfold branch_timeline. destruct (timelines tn !! new) eqn:E; [by intros [= <- <-] |].
  destruct (timelines tn !! par) as [p|] eqn:Ep; intros [= <- <-]; [| done].
  apply tenant_wf_add; [done | done | done | done |]. cbn [tl_ancestor Timeline_branched]. intros q l [= <- <-].
  destruct (tn_named _ (tw_ok _ Hwf) par p Ep) as (t & Ht & _). by eapply lookup_lt_Some.
Qed.

(** A change of the stores keeps the names and the ancestry. *)
Lemma arena_update_wf tn ts :
  tenant_wf tn -> tl_id <$> ts = tl_id <$> arena tn -> tl_ancestor <$> ts = tl_ancestor <$> arena tn ->
  tenant_wf (mkTenant (timelines tn) ts (tn_freeze_threshold tn)).
Proof.
  intros [Hok Hi Ho] Hid Hanc. split; [by apply tenant_ok_arena | done |]. cbn [arena]. intros a t p l Ha Ht.
  assert (Hl : (tl_ancestor <$> ts) !! a = Some (Some (p, l))) by (rewrite list_lookup_fmap, Ha; cbn; by rewrite Ht).
  rewrite Hanc, list_lookup_fmap in Hl. destruct (arena tn !! a) as [t'|] eqn:E; [| done]. injection Hl as Hl. by eapply Ho.
Qed.

Lemma on_repo_wf {E A : Type} a (m : stateM Inner E A) tn tn' res :
  tenant_wf tn -> in_arena (on_repo a m) tn = (tn', res) -> tenant_wf tn'.
Proof.
  intros Hwf. unfold in_arena. destruct (on_repo a m (arena tn)) as [ts r] eqn:Eo. intros [= <- <-].
  apply on_repo_shape in Eo as (Hi & Ha & _). by apply arena_update_wf.
Qed.

Lemma gc_loop_ancestors {E : Type} pins req l : forall ts ts' (res : outcome E _),
  gc_loop pins req l ts = (ts', res) -> tl_ancestor <$> ts' = tl_ancestor <$> ts.
Proof.
  induction l as [|[id a] l IH]; intros ts ts' res; cbn [gc_loop]; [by intros [= <- <-] |]. unfold sbind.
  destruct (Timeline_compact a _ ts) as [ts1 [st | e |]] eqn:E1; apply on_repo_shape in E1 as (_ & E1 & _);
    [| by intros [= <- <-] ..].
  destruct (gc_loop pins req l ts1) as [ts2 [r | e |]] eqn:E2; apply IH in E2; intros [= <- <-]; congruence.
Qed.

Lemma gc_wf {E : Type} `{HashOrder} h tn tn' (res : outcome E _) : tenant_wf tn -> gc h tn = (tn', res) -> tenant_wf tn'.
Proof.
  intros Hwf. unfold gc, in_arena. destruct (gc_loop _ h _ (arena tn)) as [ts r] eqn:Eg. intros [= <- <-].
  apply arena_update_wf; [done | by eapply gc_loop_ids | by eapply gc_loop_ancestors].
Qed.

Lemma get_or_create_wf id tm tm' a :
  manager_wf tm -> Id_wf id -> get_or_create id tm = (tm', a) ->
  manager_wf tm' /\ tm_get tm' id = Some a /\ exists tn, tm_arena tm' !! a = Some tn.
Proof.
  intros Hwf Hid. unfold get_or_create. destruct (tm_get tm id) as [a0|] eqn:Eg; intros [= <- <-].
  - split; [done |]. split; [done |]. apply (mw_ids _ Hwf) in Eg as [_ Hlt]. by apply lookup_lt_is_Some.
  - split; [by apply manager_wf_add |]. unfold tm_get. cbn [add_tenant tm_tenants tm_arena].
    split; [by rewrite lookup_insert_eq |]. eexists. by apply list_lookup_middle.
Qed.

Lemma in_tenant_wf {E A : Type} a (m : stateM Tenant E A) tm tm' res :
  manager_wf tm -> in_tenant a m tm = (tm', res) ->
  (forall tn, tm_arena tm !! a = Some tn -> tenant_wf tn -> tenant_wf (m tn).1) -> manager_wf tm'.
Proof.
  intros [Ht Hi Hd]. unfold in_tenant. destruct (tm_arena tm !! a) as [tn|] eqn:Ea; [| by intros [= <- <-]].
  destruct (m tn) as [tn' r] eqn:Em. intros [= <- <-] Hm. split; cbn [tm_arena tm_tenants].
  - apply Forall_insert; [done |]. specialize (Hm tn eq_refl). rewrite Em in Hm. apply Hm.
    by apply (Forall_lookup_1 _ _ _ _ Ht Ea).
  - intros id a' Hl. rewrite length_insert. by apply Hi.
  - done.
Qed.
