(* ===== verification/ObjStore.v ===== *)
(** Object storage (src/pageserver/src/objstore.rs): the [ObjectStore] trait as a
    type class with the laws its clients rely on, and [LocalObjectStore] over a
    file system whose calls can fail.  The cloud stores are in Startup. *)

From S2P Require Import Prelude Bytes BTree Text Common.

Inductive StoreError := InvalidKey | StoreIo | NoObject.

Class ObjectStore (S : Type) := {
  os_put : bytes -> bytes -> stateM S StoreError unit;
  os_get : bytes -> stateM S StoreError bytes;
  os_list : bytes -> stateM S StoreError (list bytes);
  os_delete : bytes -> stateM S StoreError unit
}.

(** What the clients rely on, for keys of the kind they use: a store is a map of
    objects; an operation that fails leaves the map as it was, or has taken
    effect. *)
Class ObjectStoreLaws (S : Type) `{ObjectStore S} := {
  objects : S -> gmap bytes bytes;
  plain_key : bytes -> Prop;
  os_put_law key v s :
    plain_key key ->
    runs (os_put key v) s (fun _ s' => objects s' = <[key := v]> (objects s))
      (fun _ s' => objects s' = objects s \/ objects s' = <[key := v]> (objects s));
  os_get_law key s :
    plain_key key ->
    runs (os_get key) s (fun v s' => objects s !! key = Some v /\ objects s' = objects s)
      (fun e s' => objects s' = objects s /\ (e = NoObject -> objects s !! key = None));
  os_delete_law key s :
    plain_key key ->
    runs (os_delete key) s (fun _ s' => objects s' = delete key (objects s))
      (fun _ s' => objects s' = objects s \/ objects s' = delete key (objects s))
}.

(** ** Paths *)

Definition slash : byte := z2b 47.
Definition dot : byte := z2b 46.
Definition backslash : byte := z2b 92.

(** [s.starts_with(pat)] *)
Definition starts_with (pat s : bytes) : bool := bool_decide (take (length pat) s = pat).

(** [s.contains(pat)] *)
Fixpoint contains (pat s : bytes) : bool :=
  starts_with pat s || match s with [] => false | _ :: s' => contains pat s' end.

(** The parts before and after the last [c]. *)
Definition rsplit_once (c : byte) (s : bytes) : option (bytes * bytes) :=
  match split_once c (rev s) with
  | Some (r, l) => Some (rev l, rev r)
  | None => None
  end.

(** The directory of a relative path, with its slash, and the file name. *)
Definition split_path (key : bytes) : bytes * bytes :=
  match rsplit_once slash key with
  | Some (d, f) => (d ++ [slash], f)
  | None => ([], key)
  end.

(** [Path::file_stem] and [Path::extension] of a file name: a leading dot does not
    start an extension. *)
Definition split_ext (name : bytes) : bytes * option bytes :=
  match rsplit_once dot name with
  | Some (x :: l, e) => (x :: l, Some e)
  | _ => (name, None)
  end.

Definition tmp_ext : bytes := String.list_byte_of_string "tmp".

(** [path.with_extension("tmp")] *)
Definition tmp_path (key : bytes) : bytes :=
  let '(d, f) := split_path key in d ++ (split_ext f).1 ++ dot :: tmp_ext.

(** [path.extension() == Some("tmp")] *)
Definition is_tmp (key : bytes) : bool := bool_decide ((split_ext (split_path key).2).2 = Some tmp_ext).

(** ** LocalObjectStore

    The files below the root, by their path relative to it.  The [k]-th system
    call fails when [fault k] is [Some n]; a failing write leaves the first [n]
    bytes. *)
Record LocalObjectStore := mkLocalObjectStore {
  files : gmap bytes bytes;
  fs_ticks : nat
}.

Section Local.
Context (fault : nat -> option Z).

Definition fs_call (f : gmap bytes bytes -> gmap bytes bytes) (partial : Z -> gmap bytes bytes -> gmap bytes bytes) :
    stateM LocalObjectStore StoreError unit := fun s =>
  match fault (fs_ticks s) with
  | None => (mkLocalObjectStore (f (files s)) (S (fs_ticks s)), Ok tt)
  | Some n => (mkLocalObjectStore (partial n (files s)) (S (fs_ticks s)), Err StoreIo)
  end.

Definition path_for (key : bytes) : outcome StoreError bytes :=
  ensure negb (contains [dot; dot] key) && negb (starts_with [slash] key) else InvalidKey in Ok key.

Definition local_put (key v : bytes) : stateM LocalObjectStore StoreError unit :=
  let! path := slift (path_for key) in
  let! _ := fs_call id (fun _ => id) in
  let tmp := tmp_path path in
  let! _ := fs_call (insert tmp v) (fun n => insert tmp (sub v 0 n)) in
  fs_call (fun m => match m !! tmp with Some b => <[path := b]> (delete tmp m) | None => m end) (fun _ => id).

Definition local_get (key : bytes) : stateM LocalObjectStore StoreError bytes :=
  let! path := slift (path_for key) in
  let! _ := fs_call id (fun _ => id) in
  let! s := sget in
  slift (ok_or (files s !! path) NoObject).

(** [\ ] becomes [/] in a listed key. *)
Definition unify_slashes (key : bytes) : bytes := (fun b => if decide (b = backslash) then slash else b) <$> key.

Definition local_list (prefix : bytes) : stateM LocalObjectStore StoreError (list bytes) :=
  let! _ := fs_call id (fun _ => id) in
  let! s := sget in
  let keys := unify_slashes <$> List.filter (fun k => negb (is_tmp k)) ((map_to_list (files s)).*1) in
  sret (sort_key id (List.filter (starts_with prefix) keys)).

Definition local_delete (key : bytes) : stateM LocalObjectStore StoreError unit :=
  let! path := slift (path_for key) in
  fs_call (delete path) (fun _ => id).
End Local.

(** A store with its fault oracle. *)
#[export] Instance LocalStore (fault : nat -> option Z) : ObjectStore LocalObjectStore := {|
  os_put := local_put fault;
  os_get := local_get fault;
  os_list := local_list fault;
  os_delete := local_delete fault
|}.

(** ** The local store is an object store *)

Lemma split_once_Some c s l r : split_once c s = Some (l, r) -> s = l ++ c :: r /\ Forall (fun b => b <> c) l.
Proof.
  revert l; induction s as [|b s IH]; intros l; [done |]. cbn [split_once]. case_decide as E.
  - intros [= <- <-]. by subst.
  - destruct (split_once c s) as [[l' r']|]; [| done]. intros [= <- <-]. destruct (IH l' eq_refl) as [-> Hl].
    split; [done | by constructor].
Qed.

Lemma split_once_None c s : split_once c s = None <-> Forall (fun b => b <> c) s.
Proof.
  induction s as [|b s IH]; cbn [split_once]; [by split |]. rewrite Forall_cons. case_decide as E.
  - split; [done | by intros [? _]].
  - destruct (split_once c s) as [[l r]|]; split; [done | intros [_ Hs]; by apply IH in Hs | | done].
    intros _. split; [done | by apply IH].
Qed.

Lemma rsplit_once_Some c s l r : rsplit_once c s = Some (l, r) <-> s = l ++ c :: r /\ Forall (fun b => b <> c) r.
Proof.
  unfold rsplit_once. split.
  - destruct (split_once c (rev s)) as [[r' l']|] eqn:E; [| done]. intros [= <- <-].
    apply split_once_Some in E as [E Hr]. split; [| by apply Forall_rev].
    rewrite <- (rev_involutive s), E, rev_app_distr. cbn [rev]. by rewrite <- app_assoc.
  - intros [-> Hr]. rewrite rev_app_distr. cbn [rev]. rewrite <- app_assoc. cbn [app].
    rewrite split_once_app by (by apply Forall_rev). by rewrite !rev_involutive.
Qed.

Lemma rsplit_once_None c s : rsplit_once c s = None <-> Forall (fun b => b <> c) s.
Proof.
  unfold rsplit_once. pose proof (split_once_None c (rev s)) as H.
  assert (Hr : Forall (fun b => b <> c) (rev s) <-> Forall (fun b => b <> c) s).
  { split; [intros Hs; rewrite <- (rev_involutive s) |]; by apply Forall_rev. }
  rewrite Hr in H.
  destruct (split_once c (rev s)) as [[r l]|]; [| by rewrite <- H]. split; [done |]. by intros ?%H.
Qed.

Lemma split_path_spec key : let '(d, f) := split_path key in
  key = d ++ f /\ Forall (fun b => b <> slash) f /\ (d = [] \/ exists d', d = d' ++ [slash]).
Proof.
  unfold split_path. destruct (rsplit_once slash key) as [[d f]|] eqn:E.
  - apply rsplit_once_Some in E as [-> Hf]. split; [by rewrite <- app_assoc |]. split; [done |]. right. by exists d.
  - apply rsplit_once_None in E. split; [done |]. split; [done | by left].
Qed.

Lemma split_path_app d f :
  Forall (fun b => b <> slash) f -> (d = [] \/ exists d', d = d' ++ [slash]) -> split_path (d ++ f) = (d, f).
Proof.
  intros Hf Hd. unfold split_path. destruct Hd as [-> | [d' ->]].
  - cbn [app]. by rewrite (proj2 (rsplit_once_None slash f) Hf).
  - rewrite (proj2 (rsplit_once_Some slash ((d' ++ [slash]) ++ f) d' f)); [done |]. by rewrite <- app_assoc.
Qed.

Lemma split_ext_stem name : name <> [] -> exists x l r, (split_ext name).1 = x :: l /\ name = (x :: l) ++ r.
Proof.
  intros Hn. unfold split_ext. destruct (rsplit_once dot name) as [[[|x l] e]|] eqn:E.
  - destruct name as [|x l]; [done |]. exists x, l, []. by rewrite app_nil_r.
  - apply rsplit_once_Some in E as [-> _]. by exists x, l, (dot :: e).
  - destruct name as [|x l]; [done |]. exists x, l, []. by rewrite app_nil_r.
Qed.

(** The temporary file of a key is one. *)
Lemma is_tmp_tmp_path key : (split_path key).2 <> [] -> is_tmp (tmp_path key) = true.
Proof.
  pose proof (split_path_spec key) as Hk. unfold tmp_path, is_tmp. destruct (split_path key) as [d f].
  destruct Hk as (_ & Hf & Hd). cbn [snd]. intros Hn. destruct (split_ext_stem f Hn) as (x & l & r & Es & Ef).
  rewrite Es. apply bool_decide_eq_true. rewrite split_path_app; [| | done].
  - cbn [snd]. unfold split_ext.
    rewrite (proj2 (rsplit_once_Some dot ((x :: l) ++ dot :: tmp_ext) (x :: l) tmp_ext)); [done |].
    split; [done |]. by repeat constructor.
  - rewrite Ef in Hf. apply Forall_app in Hf as [Hf _]. apply Forall_app. split; [done |]. by repeat constructor.
Qed.

(** A relative path in normal form that is not taken for a temporary file. *)
Definition local_key (key : bytes) : Prop :=
  contains [dot; dot] key = false /\ starts_with [slash] key = false /\ (split_path key).2 <> [] /\ is_tmp key = false.

Definition local_objects (s : LocalObjectStore) : gmap bytes bytes := filter (fun kv => is_tmp kv.1 = false) (files s).

Lemma filter_insert_tmp (tmp v : bytes) (m : gmap bytes bytes) :
  is_tmp tmp = true -> filter (fun kv => is_tmp kv.1 = false) (<[tmp := v]> m) = filter (fun kv => is_tmp kv.1 = false) m.
Proof.
  intros Ht. apply map_eq. intros k. apply option_eq. intros x. rewrite !map_lookup_filter_Some, lookup_insert_Some. cbn.
  split; [| intros [Hm Hk]; split; [| done]; right; split; [intros ->; congruence | done]].
  intros [[[<- _] | [Hne Hm]] Hk]; [congruence | done].
Qed.

Lemma filter_delete_tmp (tmp : bytes) (m : gmap bytes bytes) :
  is_tmp tmp = true -> filter (fun kv => is_tmp kv.1 = false) (delete tmp m) = filter (fun kv => is_tmp kv.1 = false) m.
Proof.
  intros Ht. apply map_eq. intros k. apply option_eq. intros x. rewrite !map_lookup_filter_Some, lookup_delete_Some. cbn.
  split; [tauto |]. intros [Hm Hk]. split; [| done]. split; [intros ->; congruence | done].
Qed.

Lemma local_put_ok fault key v s :
  local_key key ->
  runs (local_put fault key v) s (fun _ s' => local_objects s' = <[key := v]> (local_objects s))
    (fun _ s' => local_objects s' = local_objects s).
Proof.
  intros (H1 & H2 & H3 & H4). pose proof (is_tmp_tmp_path key H3) as Ht. unfold local_put, path_for. rewrite H1, H2. cbn [negb andb].
  eapply runs_lift; [done |]. unfold runs, sbind, fs_call, local_objects.
  destruct (fault (fs_ticks s)); [done |]. cbn [fs_ticks files].
  destruct (fault (S (fs_ticks s))); cbn [fs_ticks files]; unfold id; [by rewrite (filter_insert_tmp (tmp_path key)) |].
  destruct (fault (S (S (fs_ticks s)))); cbn [files]; [by rewrite filter_insert_tmp |].
  rewrite lookup_insert_eq. rewrite map_filter_insert_True by done. f_equal.
  by rewrite filter_delete_tmp, filter_insert_tmp.
Qed.

Lemma local_get_ok fault key s :
  local_key key ->
  runs (local_get fault key) s (fun v s' => local_objects s !! key = Some v /\ local_objects s' = local_objects s)
    (fun e s' => local_objects s' = local_objects s /\ (e = NoObject -> local_objects s !! key = None)).
Proof.
  intros (H1 & H2 & H3 & H4). unfold local_get, path_for. rewrite H1, H2. cbn [negb andb].
  eapply runs_lift; [done |]. unfold runs, sbind, fs_call, sget, slift, local_objects.
  destruct (fault (fs_ticks s)); [done |]. cbn [files]. unfold id. destruct (files s !! key) as [v|] eqn:E; cbn [ok_or].
  - split; [| done]. by apply map_lookup_filter_Some.
  - split; [done |]. intros _. apply map_lookup_filter_None. by left.
Qed.

Lemma local_delete_ok fault key s :
  local_key key ->
  runs (local_delete fault key) s (fun _ s' => local_objects s' = delete key (local_objects s))
    (fun _ s' => local_objects s' = local_objects s).
Proof.
  intros (H1 & H2 & H3 & H4). unfold local_delete, path_for. rewrite H1, H2. cbn [negb andb].
  eapply runs_lift; [done |]. unfold runs, fs_call, local_objects.
  destruct (fault (fs_ticks s)); [done |]. cbn [files]. by rewrite map_filter_delete.
Qed.

#[export] Program Instance LocalStoreLaws (fault : nat -> option Z) : @ObjectStoreLaws LocalObjectStore (LocalStore fault) := {|
  objects := local_objects;
  plain_key := local_key
|}.
Next Obligation.
  intros fault key v s Hk. eapply runs_conseq; [by apply local_put_ok | done |]. intros e s' E. by left.
Qed.
Next Obligation. intros fault key s Hk. by apply local_get_ok. Qed.
Next Obligation.
  intros fault key s Hk. eapply runs_conseq; [by apply local_delete_ok | done |]. intros e s' E. by left.
Qed.


Definition key_of (s : string) : bytes := String.list_byte_of_string s.

