(* ===== verification/Catalog.v ===== *)
(** The persisted topology (src/pageserver/src/catalog.rs): a snapshot of which
    tenants and timelines exist and how they branch, restored at start-up.  JSON
    and the object store are parameters. *)

From S2P Require Import Prelude Bytes BTree Text Common Repository Timeline Tenant TenantManager ObjStore.

Record TimelineRecord := mkTimelineRecord {
  tr_id : bytes;
  tr_anc : option bytes;
  tr_anc_lsn : option Z
}.

Record TenantRecord := mkTenantRecord {
  nr_id : bytes;
  nr_timelines : list TimelineRecord
}.

Record Catalog := mkCatalog {
  cat_version : Z;
  cat_tenants : list TenantRecord
}.

Definition CATALOG_KEY : bytes := key_of "catalog/topology.json".

(** ** Snapshot *)

Definition timeline_record (tn : Tenant) (id : TimelineId) : list TimelineRecord :=
  match get_timeline tn id with
  | Some a =>
      match arena tn !! a with
      | Some tl => [mkTimelineRecord (Id_display id) (Id_display <$> ancestor_timeline (arena tn) tl) (ancestor_lsn tl)]
      | None => []
      end
  | None => []
  end.

Definition tenant_record `{HashOrder} (tm : TenantManager) (t : TenantId * gaddr) : TenantRecord :=
  mkTenantRecord (Id_display t.1)
    (match tm_arena tm !! t.2 with
     | Some tn => sort_key tr_id (flat_map (timeline_record tn) (timeline_ids tn))
     | None => []
     end).

Definition snapshot `{HashOrder} (tm : TenantManager) : Catalog :=
  mkCatalog 1 (sort_key nr_id (tenant_record tm <$> tm_tenants_list tm)).

(** ** Restore *)

(** The closure of [retain]: whether the record stays pending. *)
Definition restore_record (rec : TimelineRecord) : stateM Tenant Error bool := fun tn =>
  match Id_from_str (tr_id rec) with
  | Panic => (tn, Panic)
  | Err _ => (tn, Ok false)
  | Ok id =>
      match get_timeline tn id with
      | Some _ => (tn, Ok false)
      | None =>
          match tr_anc rec with
          | None => ((create_timeline id tn).1, Ok false)
          | Some parent_hex =>
              match Id_from_str parent_hex with
              | Panic => (tn, Panic)
              | Err _ => (tn, Ok false)
              | Ok parent =>
                  match get_timeline tn parent with
                  | Some _ => ((branch_timeline id parent (default 0 (tr_anc_lsn rec)) tn).1, Ok false)
                  | None => (tn, Ok true)
                  end
              end
          end
      end
  end.

Fixpoint retain_pending (recs : list TimelineRecord) : stateM Tenant Error (list TimelineRecord) :=
  match recs with
  | [] => sret []
  | rec :: recs' =>
      let! keep := restore_record rec in
      let! rest := retain_pending recs' in
      sret (if keep then rec :: rest else rest)
  end.

(** Every pass but the last shortens the list. *)
Fixpoint restore_loop (fuel : nat) (pending : list TimelineRecord) : stateM Tenant Error (list TimelineRecord) :=
  match fuel with
  | O => spanic
  | S fuel' =>
      let! pending' := retain_pending pending in
      if (len pending' =? 0) || (len pending' =? len pending) then sret pending'
      else restore_loop fuel' pending'
  end.

Definition restore_timelines (recs : list TimelineRecord) : stateM Tenant Error (list TimelineRecord) :=
  restore_loop (S (length recs)) recs.

Definition restore_tenant (rec : TenantRecord) : stateM TenantManager Error unit := fun tm =>
  match Id_from_str (nr_id rec) with
  | Panic => (tm, Panic)
  | Err _ => (tm, Ok tt)
  | Ok id =>
      let '(tm, a) := get_or_create id tm in
      (let! _ := in_tenant a (restore_timelines (nr_timelines rec)) in sret tt) tm
  end.

Fixpoint restore_tenants (recs : list TenantRecord) : stateM TenantManager Error unit :=
  match recs with
  | [] => sret tt
  | rec :: recs' => let! _ := restore_tenant rec in restore_tenants recs'
  end.

Definition restore (c : Catalog) : stateM TenantManager Error unit := restore_tenants (cat_tenants c).

(** ** Persistence *)

(** [serde_json] on catalogs. *)
Class CatalogJson := {
  to_vec_pretty : Catalog -> option bytes;
  from_slice : bytes -> option Catalog
}.

Section Persist.
Context {S} `{ObjectStore S} `{CatalogJson} `{HashOrder}.

Definition save (c : Catalog) : stateM S StoreError unit :=
  let! bs := slift (ok_or (to_vec_pretty c) StoreIo) in
  os_put CATALOG_KEY bs.

(** Every failure to read the object counts as its absence. *)
Definition load : stateM S StoreError (option Catalog) := fun s =>
  match os_get CATALOG_KEY s with
  | (s', Ok bs) => (s', match from_slice bs with Some c => Ok (Some c) | None => Err StoreIo end)
  | (s', Err _) => (s', Ok None)
  | (s', Panic) => (s', Panic)
  end.

(** [TenantManager::persist]: nothing without a store; a failure is only logged. *)
Definition persist {E : Type} (tm : TenantManager) : stateM (option S) E unit := fun store =>
  match store with
  | Some s =>
      match save (snapshot tm) s with
      | (s', Panic) => (Some s', Panic)
      | (s', _) => (Some s', Ok tt)
      end
  | None => (None, Ok tt)
  end.

Definition load_persisted : stateM (TenantManager * option S) Error unit := fun '(tm, store) =>
  match store with
  | Some s =>
      match load s with
      | (s', Ok (Some doc)) => let '(tm', res) := restore doc tm in ((tm', Some s'), res)
      | (s', Panic) => ((tm, Some s'), Panic)
      | (s', _) => ((tm, Some s'), Ok tt)
      end
  | None => ((tm, None), Ok tt)
  end.
End Persist.

(** ** Topology

    What exists and how it branches: for each timeline its parent and branch
    point. *)
Abbreviation ancestry := (option (TimelineId * Lsn)).

Definition topo (tn : Tenant) (id : TimelineId) : option ancestry :=
  a ← timelines tn !! id; t ← arena tn !! a;
  Some (match tl_ancestor t with
        | Some (p, l) => (fun tp => (tl_id tp, l)) <$> arena tn !! p
        | None => None
        end).

Definition record_of (p : TimelineId * ancestry) : TimelineRecord :=
  mkTimelineRecord (Id_display p.1) (Id_display <$> (fst <$> p.2)) (snd <$> p.2).

Lemma topo_None tn id : tenant_ok tn -> topo tn id = None <-> timelines tn !! id = None.
Proof.
  intros Hok. unfold topo. destruct (timelines tn !! id) as [a|] eqn:E; [| done].
  destruct (tn_named _ Hok id a E) as (t & Ht & _). cbn. by rewrite Ht.
Qed.

Lemma topo_parent tn id p l :
  tenant_wf tn -> topo tn id = Some (Some (p, l)) ->
  exists a b, timelines tn !! id = Some a /\ timelines tn !! p = Some b /\ (b < a)%nat.
Proof.
  intros Hwf. unfold topo. destruct (timelines tn !! id) as [a|] eqn:E; [| done]. cbn.
  destruct (arena tn !! a) as [t|] eqn:Ha; [| done]. cbn. destruct (tl_ancestor t) as [[q l']|] eqn:Ht; [| done].
  destruct (arena tn !! q) as [tp|] eqn:Hq; [| done]. cbn. intros [= <- <-]. exists a, q.
  split; [done |]. split; [by apply (tn_listed _ (tw_ok _ Hwf)) | by apply (tw_older _ Hwf a t q l')].
Qed.

Lemma topo_wf tn id x : tenant_wf tn -> topo tn id = Some x -> Id_wf id /\ forall p l, x = Some (p, l) -> Id_wf p.
Proof.
  intros Hwf Ht. split.
  - destruct (timelines tn !! id) as [a|] eqn:E; [by apply (tw_ids _ Hwf id a) |].
    apply (topo_None _ _ (tw_ok _ Hwf)) in E. congruence.
  - intros p l ->. destruct (topo_parent tn id p l Hwf Ht) as (a & b & _ & Hb & _). by apply (tw_ids _ Hwf p b).
Qed.

Lemma timeline_record_topo tn id :
  tenant_wf tn -> timeline_record tn id = match topo tn id with Some x => [record_of (id, x)] | None => [] end.
Proof.
  intros Hwf. unfold timeline_record, get_timeline, topo. destruct (timelines tn !! id) as [a|]; [| done]. cbn.
  destruct (arena tn !! a) as [t|] eqn:Ha; [| done]. cbn. unfold ancestor_timeline, ancestor_lsn, record_of. cbn [fst snd].
  destruct (tl_ancestor t) as [[p l]|] eqn:Ht; [| done]. cbn.
  destruct (arena tn !! p) as [tp|] eqn:Hp; [done |]. apply lookup_ge_None in Hp.
  pose proof (tw_older _ Hwf a t p l Ha Ht). apply lookup_lt_Some in Ha. lia.
Qed.

Lemma topo_add tn id t i :
  tenant_wf tn -> timelines tn !! id = None ->
  (forall p l, tl_ancestor t = Some (p, l) -> (p < length (arena tn))%nat) ->
  topo (add_timeline id t tn) i =
  if decide (i = id) then Some (match tl_ancestor t with
                                | Some (p, l) => (fun tp => (tl_id tp, l)) <$> arena tn !! p
                                | None => None
                                end)
  else topo tn i.
Proof.
  intros Hwf Hn Hp. unfold topo. cbn [add_timeline timelines arena]. rewrite lookup_insert.
  destruct (decide (i = id)) as [-> | Hne].
  - rewrite decide_True by done. cbn. rewrite list_lookup_middle by done. cbn.
    destruct (tl_ancestor t) as [[p l]|]; [| done]. by rewrite lookup_app_l by (by eapply Hp).
  - rewrite decide_False by done. destruct (timelines tn !! i) as [a|] eqn:E; [| done]. cbn.
    destruct (tn_named _ (tw_ok _ Hwf) i a E) as (ti & Hti & _). rewrite Hti, (lookup_app_l_Some _ _ _ _ Hti). cbn.
    destruct (tl_ancestor ti) as [[p l]|] eqn:Et; [| done]. rewrite lookup_app_l; [done |].
    pose proof (tw_older _ Hwf a ti p l Hti Et). apply lookup_lt_Some in Hti. lia.
Qed.

(** Creating and branching add exactly the new timeline. *)
Lemma create_timeline_topo tn id :
  tenant_wf tn -> Id_wf id -> topo tn id = None ->
  exists tn' a, create_timeline id tn = (tn', Ok a) /\ tenant_wf tn' /\
    forall i, topo tn' i = if decide (i = id) then Some None else topo tn i.
Proof.
  intros Hwf Hid Ht. destruct (create_timeline id tn) as [tn' res] eqn:Ec.
  pose proof (create_timeline_wf _ _ _ _ Hwf Hid Ec) as Hwf'. apply (topo_None _ _ (tw_ok _ Hwf)) in Ht.
  unfold create_timeline in Ec. rewrite Ht in Ec. injection Ec as <- <-. eexists _, _. split; [done |]. split; [done |].
  intros i. by rewrite topo_add.
Qed.

Lemma branch_timeline_topo tn id p l :
  tenant_wf tn -> Id_wf id -> topo tn id = None -> topo tn p <> None ->
  exists tn' a, branch_timeline id p l tn = (tn', Ok a) /\ tenant_wf tn' /\
    forall i, topo tn' i = if decide (i = id) then Some (Some (p, l)) else topo tn i.
Proof.
  intros Hwf Hid Ht Hp. pose proof (tw_ok _ Hwf) as Hok. destruct (branch_timeline id p l tn) as [tn' res] eqn:Eb.
  pose proof (branch_timeline_wf _ _ _ _ _ _ Hwf Hid Eb) as Hwf'. apply (topo_None _ _ Hok) in Ht.
  unfold branch_timeline in Eb. rewrite Ht in Eb.
  destruct (timelines tn !! p) as [pa|] eqn:Ep; [| by apply (topo_None _ _ Hok) in Ep]. injection Eb as <- <-.
  destruct (tn_named _ Hok p pa Ep) as (tp & Htp & Hidp). eexists _, _. split; [done |]. split; [done |].
  intros i. rewrite topo_add; [| done | done | intros q l' [= <- <-]; by eapply lookup_lt_Some].
  case_decide; [| done]. cbn. rewrite Htp. cbn. by rewrite Hidp.
Qed.

(** ** One record *)

(** The parent a record waits for. *)
Definition waits_for (tn : Tenant) (x : ancestry) : Prop := exists p l, x = Some (p, l) /\ topo tn p = None.

Lemma restore_record_spec tn id x :
  tenant_wf tn -> Id_wf id -> (forall p l, x = Some (p, l) -> Id_wf p) ->
  exists tn' keep, restore_record (record_of (id, x)) tn = (tn', Ok keep) /\ tenant_wf tn' /\
    ((keep = true /\ tn' = tn /\ waits_for tn x) \/
     (keep = false /\ topo tn' id <> None /\
      forall i, topo tn' i = topo tn i \/ (i = id /\ topo tn i = None /\ topo tn' i = Some x))).
Proof.
  intros Hwf Hid Hp. pose proof (tw_ok _ Hwf) as Hok. unfold restore_record, record_of. cbn [tr_id tr_anc tr_anc_lsn fst snd].
  rewrite Id_parse_print by done. destruct (get_timeline tn id) as [a|] eqn:Eg.
  { exists tn, false. split; [done |]. split; [done |]. right. split; [done |]. split; [| by left].
    intros E. apply (topo_None _ _ Hok) in E. unfold get_timeline in Eg. congruence. }
  pose proof (proj2 (topo_None _ _ Hok) Eg) as Et.
  destruct x as [[p l]|]; cbn [fmap option_fmap option_map fst snd].
  - specialize (Hp p l eq_refl). rewrite Id_parse_print by done. destruct (get_timeline tn p) as [pa|] eqn:Ep.
    + destruct (branch_timeline_topo tn id p l Hwf Hid Et) as (tn' & b & E & Hwf' & Hadd).
      { intros E. apply (topo_None _ _ Hok) in E. unfold get_timeline in Ep. congruence. }
      change (default 0 (Some l)) with l. rewrite E. exists tn', false. split; [done |]. split; [done |]. right. split; [done |].
      rewrite Hadd, decide_True by done. split; [done |]. intros i. rewrite Hadd. case_decide; [right; by subst | by left].
    + exists tn, true. split; [done |]. split; [done |]. left. split; [done |]. split; [done |]. exists p, l.
      split; [done |]. by apply (topo_None _ _ Hok).
  - destruct (create_timeline_topo tn id Hwf Hid Et) as (tn' & b & E & Hwf' & Hadd). rewrite E. exists tn', false.
    split; [done |]. split; [done |]. right. split; [done |]. rewrite Hadd, decide_True by done. split; [done |].
    intros i. rewrite Hadd. case_decide; [right; by subst | by left].
Qed.

(** ** The passes over one tenant's records *)

Lemma sublist_same_length {A} (l k : list A) : l `sublist_of` k -> length l = length k -> l = k.
Proof.
  induction 1 as [| x l k _ IH | x l k Hs]; cbn; intros H; [done | by rewrite IH by lia |].
  apply sublist_length in Hs. lia.
Qed.

Section Restore.
Variable T : TimelineId -> option ancestry.

(** Every timeline present is one of the described ones, as described. *)
Definition within (tn : Tenant) : Prop := forall i y, topo tn i = Some y -> T i = Some y.

Definition grows (tn tn' : Tenant) : Prop := forall i, topo tn i <> None -> topo tn' i <> None.

Definition good_record (p : TimelineId * ancestry) : Prop :=
  T p.1 = Some p.2 /\ Id_wf p.1 /\ forall q l, p.2 = Some (q, l) -> Id_wf q.

Lemma restore_record_step tn p :
  tenant_wf tn -> within tn -> good_record p ->
  exists tn' keep, restore_record (record_of p) tn = (tn', Ok keep) /\ tenant_wf tn' /\ within tn' /\ grows tn tn' /\
    if keep : bool then waits_for tn p.2 else topo tn' p.1 <> None.
Proof.
  destruct p as [id x]. intros Hwf Hw (HT & Hid & Hp). cbn [fst snd] in *.
  destruct (restore_record_spec tn id x Hwf Hid Hp) as (tn' & keep & -> & Hwf' & H). exists tn', keep.
  split; [done |]. split; [done |].
  destruct H as [(-> & -> & H) | (-> & Hin & H)]; [by split_and!; [| intros i |] |].
  split; [| split; [| done]].
  - intros i y Hi. destruct (H i) as [E | (-> & _ & E)]; [apply Hw; congruence | congruence].
  - intros i Hi. destruct (H i) as [E | (-> & _ & E)]; congruence.
Qed.

Lemma retain_pending_spec ps : forall tn,
  tenant_wf tn -> within tn -> Forall good_record ps ->
  exists tn' ps', retain_pending (record_of <$> ps) tn = (tn', Ok (record_of <$> ps')) /\
    tenant_wf tn' /\ within tn' /\ grows tn tn' /\ ps' `sublist_of` ps /\
    Forall (fun p => waits_for tn p.2) ps' /\
    (forall p, p ∈ ps -> p ∈ ps' \/ topo tn' p.1 <> None).
Proof.
  induction ps as [| p ps IH]; intros tn Hwf Hw Hps.
  { exists tn, []. split_and!; try done; [by intros i | intros p Hp; by apply elem_of_nil in Hp]. }
  apply Forall_cons in Hps as [Hp Hps].
  destruct (restore_record_step tn p Hwf Hw Hp) as (tn1 & keep & E1 & Hwf1 & Hw1 & Hg1 & Hk).
  destruct (IH tn1 Hwf1 Hw1 Hps) as (tn2 & ps' & E2 & Hwf2 & Hw2 & Hg2 & Hsub & Hwait & Hcov).
  exists tn2, (if keep then p :: ps' else ps'). split.
  { cbn [fmap list_fmap retain_pending]. rewrite (sbind_Ok _ _ _ _ _ E1), (sbind_Ok _ _ _ _ _ E2). by destruct keep. }
  assert (Hwait' : Forall (fun q => waits_for tn q.2) ps').
  { eapply Forall_impl; [exact Hwait |]. intros q (a & l & Hq & Hn). exists a, l. split; [done |].
    destruct (topo tn a) eqn:Ea; [| done]. exfalso. apply (Hg1 a); [by rewrite Ea | done]. }
  split_and!; [done | done | by intros i Hi; apply Hg2, Hg1 | | |].
  - destruct keep; [by apply sublist_skip | by apply sublist_cons].
  - destruct keep; [by apply Forall_cons | done].
  - intros q [-> | Hq]%elem_of_cons.
    + destruct keep; [left; apply list_elem_of_here | right; by apply Hg2].
    + destruct (Hcov q Hq) as [|]; [left; destruct keep; [by apply list_elem_of_further | done] | by right].
Qed.

(** Parents come before their children in some order. *)
Variable rank : TimelineId -> nat.
Hypothesis T_parent : forall i p l, T i = Some (Some (p, l)) -> T p <> None /\ (rank p < rank i)%nat.

Definition covers (tn : Tenant) (ps : list (TimelineId * ancestry)) : Prop :=
  forall i, T i <> None -> topo tn i <> None \/ exists x, (i, x) ∈ ps.

(** A pass that keeps every record has none: the first timeline missing has its
    parent. *)
Lemma some_record_is_ready tn ps :
  covers tn ps -> Forall good_record ps -> Forall (fun p => waits_for tn p.2) ps -> ps = [].
Proof.
  intros Hc Hg Hwait. rewrite Forall_forall in Hg, Hwait.
  assert (H : forall n p, p ∈ ps -> ~ (rank p.1 < n)%nat).
  { induction n as [| n IH]; [lia |]. intros p Hp Hr. destruct (Hwait p Hp) as (q & l & Ex & Hq).
    destruct (Hg p Hp) as (HT & _). rewrite Ex in HT. destruct (T_parent _ _ _ HT) as [Hpar Hlt].
    destruct (Hc q Hpar) as [|[x Hx]]; [done |]. apply (IH (q, x) Hx). cbn. lia. }
  destruct ps as [| p ps]; [done |]. exfalso. apply (H (S (rank p.1)) p); [apply list_elem_of_here | lia].
Qed.

Lemma restore_loop_spec fuel : forall ps tn,
  (length ps < fuel)%nat -> tenant_wf tn -> within tn -> Forall good_record ps -> covers tn ps ->
  exists tn', restore_loop fuel (record_of <$> ps) tn = (tn', Ok []) /\ tenant_wf tn' /\ forall i, topo tn' i = T i.
Proof.
  induction fuel as [| fuel IH]; intros ps tn Hf Hwf Hw Hps Hc; [lia |].
  destruct (retain_pending_spec ps tn Hwf Hw Hps) as (tn1 & ps1 & E & Hwf1 & Hw1 & Hg & Hsub & Hwait & Hcov).
  cbn [restore_loop]. rewrite (sbind_Ok _ _ _ _ _ E). unfold len. rewrite !length_fmap.
  assert (Hc1 : covers tn1 ps1).
  { intros i Hi. destruct (Hc i Hi) as [Ht | [x Hx]]; [left; by apply Hg |].
    destruct (Hcov _ Hx) as [|]; [right; by exists x | by left]. }
  assert (Hps1 : Forall good_record ps1).
  { rewrite Forall_forall in Hps |- *. intros p Hp. by apply Hps, (elem_of_sublist _ _ _ Hp). }
  destruct (decide (ps1 = [])) as [-> | Hne].
  { exists tn1. split; [done |]. split; [done |]. intros i. destruct (T i) as [x|] eqn:Ei.
    - destruct (Hc1 i) as [Ht | [y Hy]]; [by rewrite Ei | | by apply elem_of_nil in Hy].
      destruct (topo tn1 i) as [y|] eqn:Ey; [| done]. apply Hw1 in Ey. congruence.
    - destruct (topo tn1 i) as [y|] eqn:Ey; [| done]. apply Hw1 in Ey. congruence. }
  assert (Hlt : (length ps1 < length ps)%nat).
  { pose proof (sublist_length _ _ Hsub). destruct (decide (length ps1 = length ps)) as [El|]; [| lia].
    exfalso. apply Hne. assert (ps1 = ps) as -> by (apply sublist_same_length; [done | lia]).
    by apply (some_record_is_ready tn ps). }
  assert (0 < length ps1)%nat by (destruct ps1; [done | cbn; lia]).
  rewrite (proj2 (Z.eqb_neq _ _)), (proj2 (Z.eqb_neq _ _)) by lia. cbn [orb].
  apply IH; [lia | done..].
Qed.
End Restore.

(** ** A whole manager *)

Definition tenant_of (tm : TenantManager) (id : TenantId) : option Tenant := a ← tm_tenants tm !! id; tm_arena tm !! a.

Definition same_branches (tn tn' : Tenant) : Prop := forall i, topo tn' i = topo tn i.

(** The same tenants, with the same timelines, branching the same way. *)
Definition same_topology (tm tm' : TenantManager) : Prop :=
  forall id, option_Forall2 same_branches (tenant_of tm id) (tenant_of tm' id).

Lemma tenant_of_wf tm id tn : manager_wf tm -> tenant_of tm id = Some tn -> tenant_wf tn.
Proof.
  intros Hwf. unfold tenant_of. destruct (tm_tenants tm !! id) as [a|]; [| done]. cbn. intros Ha.
  by apply (Forall_lookup_1 _ _ _ _ (mw_tenants _ Hwf) Ha).
Qed.

Lemma records_of_topo `{HashOrder} tn ids :
  tenant_wf tn -> flat_map (timeline_record tn) ids = record_of <$> omap (fun id => (id,.) <$> topo tn id) ids.
Proof.
  intros Hwf. induction ids as [| id ids IH]; [done |]. cbn [flat_map omap list_omap]. rewrite timeline_record_topo by done.
  destruct (topo tn id) as [x|]; cbn; by rewrite IH.
Qed.

Lemma tenant_records `{HashOrder} tn t :
  tenant_wf tn ->
  exists ps, sort_key tr_id (flat_map (timeline_record tn) (timeline_ids tn)) = record_of <$> ps /\
    Forall (good_record (topo tn)) ps /\ covers (topo tn) (Tenant_new t) ps.
Proof.
  intros Hwf. rewrite records_of_topo by done. set (ps0 := omap _ _).
  destruct (Permutation_map_inv _ _ (sort_key_perm tr_id (record_of <$> ps0))) as (ps & E & Hp). exists ps.
  split; [exact E |].
  assert (Hin : forall p, p ∈ ps <-> p.1 ∈ timeline_ids tn /\ topo tn p.1 = Some p.2).
  { intros [i x]. rewrite <- Hp. unfold ps0. rewrite list_elem_of_omap. cbn [fst snd]. split.
    - intros (i' & Hi & Hx). destruct (topo tn i') eqn:Et; cbn in Hx; [by injection Hx as <- <- | done].
    - intros [Hi Hx]. exists i. by rewrite Hx. }
  split.
  - apply Forall_forall. intros p [_ Ht]%Hin. split; [done |]. by apply (topo_wf tn).
  - intros i Hi. right. destruct (topo tn i) as [x|] eqn:Ex; [| done]. exists x. apply Hin. split; [| done]. cbn [fst].
    destruct (timelines tn !! i) as [a|] eqn:Ea; [| by apply (topo_None _ _ (tw_ok _ Hwf)) in Ea; congruence].
    unfold timeline_ids. rewrite order_perm. apply list_elem_of_fmap. exists (i, a). split; [done |].
    by apply elem_of_map_to_list.
Qed.

(** The records of one tenant rebuild it inside a fresh tenant, every record
    consumed. *)
Lemma restore_timelines_spec `{HashOrder} tn t :
  tenant_wf tn ->
  exists tn', restore_timelines (sort_key tr_id (flat_map (timeline_record tn) (timeline_ids tn))) (Tenant_new t) = (tn', Ok []) /\
    tenant_wf tn' /\ same_branches tn tn'.
Proof.
  intros Hwf. destruct (tenant_records tn t Hwf) as (ps & -> & Hg & Hc). unfold restore_timelines.
  apply (restore_loop_spec (topo tn) (fun i => default 0%nat (timelines tn !! i))); try done.
  - intros i p l Hi. destruct (topo_parent tn i p l Hwf Hi) as (a & b & -> & Hb & Hlt). rewrite Hb. split; [| done].
    intros E. apply (topo_None _ _ (tw_ok _ Hwf)) in E. congruence.
  - rewrite length_fmap. lia.
Qed.

Lemma restore_tenant_spec `{HashOrder} src tm id a tn :
  manager_wf src -> manager_wf tm -> tm_tenants src !! id = Some a -> tm_arena src !! a = Some tn ->
  tm_tenants tm !! id = None ->
  exists tm' tn', restore_tenant (tenant_record src (id, a)) tm = (tm', Ok tt) /\ manager_wf tm' /\ same_branches tn tn' /\
    forall i, (tm_tenants tm' !! i = None <-> i <> id /\ tm_tenants tm !! i = None) /\
      tenant_of tm' i = if decide (i = id) then Some tn' else tenant_of tm i.
Proof.
  intros Hsrc Htm Ha Htn Hn. destruct (mw_ids _ Hsrc id a Ha) as [Hid _].
  pose proof (Forall_lookup_1 _ _ _ _ (mw_tenants _ Hsrc) Htn) as Hwf.
  unfold restore_tenant, tenant_record. cbn [nr_id nr_timelines fst snd]. rewrite Id_parse_print, Htn by done.
  set (recs := sort_key _ _).
  destruct (restore_timelines_spec tn (tm_freeze_threshold tm) Hwf) as (tn' & E & Hwf' & Hsame). fold recs in E.
  destruct (get_or_create id tm) as [tm1 a1] eqn:Eg.
  destruct (get_or_create_wf id tm tm1 a1 Htm Hid Eg) as (Htm1 & _). unfold get_or_create, tm_get in Eg. rewrite Hn in Eg.
  injection Eg as <- <-. set (tm1 := add_tenant id tm) in *.
  assert (Hlook : tm_arena tm1 !! length (tm_arena tm) = Some (Tenant_new (tm_freeze_threshold tm)))
    by (by apply list_lookup_middle).
  assert (Ei : in_tenant (length (tm_arena tm)) (restore_timelines recs) tm1 =
    (mkTenantManager (tm_freeze_threshold tm1) (tm_tenants tm1) (<[length (tm_arena tm) := tn']> (tm_arena tm1)), Ok [])).
  { unfold in_tenant. rewrite Hlook. by rewrite E. }
  rewrite (sbind_Ok _ _ _ _ _ Ei). eexists _, tn'. split; [done |]. split; [| split; [done |]].
  { eapply (in_tenant_wf _ _ _ _ _ Htm1 Ei). intros tn0 Ht0 _. rewrite Hlook in Ht0. injection Ht0 as <-. by rewrite E. }
  intros i. unfold tenant_of. cbn [tm_tenants tm_arena]. unfold tm1. cbn [add_tenant tm_tenants tm_arena]. rewrite lookup_insert.
  destruct (decide (i = id)) as [-> | Hne].
  - rewrite decide_True by done. split; [split; [done | by intros [? _]] |]. cbn. apply list_lookup_insert_eq. rewrite length_app. cbn. lia.
  - rewrite decide_False by done. split; [tauto |]. destruct (tm_tenants tm !! i) as [b|] eqn:Eb; [| done]. cbn.
    destruct (mw_ids _ Htm i b Eb) as [_ Hb]. rewrite list_lookup_insert_ne by lia. by rewrite lookup_app_l.
Qed.

Lemma restore_tenants_spec `{HashOrder} src l : forall tm,
  manager_wf src -> manager_wf tm -> NoDup l.*1 ->
  (forall id a, (id, a) ∈ l -> tm_tenants src !! id = Some a /\ tm_tenants tm !! id = None) ->
  exists tm', restore_tenants (tenant_record src <$> l) tm = (tm', Ok tt) /\ manager_wf tm' /\
    forall i, option_Forall2 same_branches (if decide (i ∈ l.*1) then tenant_of src i else tenant_of tm i) (tenant_of tm' i).
Proof.
  induction l as [| [id a] l IH]; intros tm Hsrc Htm Hnd Hl.
  { exists tm. split; [done |]. split; [done |]. intros i. rewrite decide_False by (apply not_elem_of_nil).
    by destruct (tenant_of tm i); constructor. }
  cbn [fmap list_fmap fst] in Hnd |- *. apply NoDup_cons in Hnd as [Hni Hnd].
  destruct (Hl id a) as [Ha Hn]; [apply list_elem_of_here |].
  destruct (lookup_lt_is_Some_2 _ _ (proj2 (mw_ids _ Hsrc id a Ha))) as [tn Htn].
  destruct (restore_tenant_spec src tm id a tn Hsrc Htm Ha Htn Hn) as (tm1 & tn' & E1 & Hwf1 & Hsame & H1).
  destruct (IH tm1 Hsrc Hwf1 Hnd) as (tm2 & E2 & Hwf2 & H2).
  { intros i b Hb. destruct (Hl i b) as [Hs Ht]; [by apply list_elem_of_further |]. split; [done |].
    apply (proj1 (H1 i)). split; [| done]. intros ->. apply Hni, list_elem_of_fmap. by exists (id, b). }
  exists tm2. split; [by cbn [restore_tenants]; rewrite (sbind_Ok _ _ _ _ _ E1) |]. split; [done |].
  intros i. specialize (H2 i). rewrite (proj2 (H1 i)) in H2. destruct (decide (i = id)) as [-> | Hne].
  - rewrite decide_False in H2 by done. rewrite decide_True by apply list_elem_of_here.
    unfold tenant_of at 1. rewrite Ha. cbn. rewrite Htn. inversion H2 as [? tn2 H2' Heq E |]; subst. constructor.
    intros j. by rewrite H2', Hsame.
  - destruct (decide (i ∈ l.*1)) as [Hi | Hi].
    + by rewrite decide_True by (by apply list_elem_of_further).
    + by rewrite decide_False by (by intros [?|?]%elem_of_cons).
Qed.

Lemma restore_snapshot `{HashOrder} tm t :
  manager_wf tm ->
  exists tm', restore (snapshot tm) (TenantManager_new t) = (tm', Ok tt) /\ manager_wf tm' /\ same_topology tm tm'.
Proof.
  intros Hwf. unfold restore, snapshot. cbn [cat_tenants].
  destruct (Permutation_map_inv _ _ (sort_key_perm nr_id (tenant_record tm <$> tm_tenants_list tm))) as (l & E & Hp).
  unfold tm_tenants_list in Hp. rewrite order_perm in Hp.
  destruct (restore_tenants_spec tm l (TenantManager_new t) Hwf) as (tm' & E' & Hwf' & H').
  - apply manager_wf_new.
  - rewrite <- Hp. apply NoDup_fst_map_to_list.
  - intros id a Hin. rewrite <- Hp in Hin. split; [by apply elem_of_map_to_list | apply lookup_empty].
  - exists tm'. split; [rewrite <- E'; f_equal; exact E |]. split; [done |]. intros i. specialize (H' i).
    case_decide as Hi; [done |]. replace (tenant_of tm i) with (@None Tenant); [done |].
    unfold tenant_of. destruct (tm_tenants tm !! i) as [a|] eqn:Ea; [| done]. exfalso. apply Hi. rewrite <- Hp.
    apply list_elem_of_fmap. exists (i, a). split; [done | by apply elem_of_map_to_list].
Qed.

(** ** The snapshot does not depend on iteration order *)

Lemma Id_display_inj_wf i j : Id_wf i -> Id_wf j -> Id_display i = Id_display j -> i = j.
Proof. intros Hi Hj E. pose proof (Id_parse_print i Hi) as H. rewrite E, Id_parse_print in H by done. congruence. Qed.

Lemma NoDup_displayed {A} (f : A -> Id) (g : A -> bytes) l :
  NoDup (f <$> l) -> (forall x, x ∈ l -> Id_wf (f x) /\ g x = Id_display (f x)) -> NoDup (g <$> l).
Proof.
  induction l as [| x l IH]; intros Hnd Hl; [constructor |]. cbn in *. apply NoDup_cons in Hnd as [Hx Hnd].
  apply NoDup_cons. split; [| apply IH; [done |]; intros y Hy; by apply Hl, list_elem_of_further].
  intros (y & E & Hy)%list_elem_of_fmap. apply Hx, list_elem_of_fmap. exists y. split; [| done].
  destruct (Hl x) as [Hwx Ex]; [apply list_elem_of_here |]. destruct (Hl y) as [Hwy Ey]; [by apply list_elem_of_further |].
  apply Id_display_inj_wf; congruence.
Qed.

Lemma tenant_record_order (O1 O2 : HashOrder) tm id a :
  manager_wf tm -> tm_tenants tm !! id = Some a -> @tenant_record O1 tm (id, a) = @tenant_record O2 tm (id, a).
Proof.
  intros Hwf Ha. unfold tenant_record. cbn [fst snd]. f_equal. destruct (tm_arena tm !! a) as [tn|] eqn:Et; [| done].
  pose proof (Forall_lookup_1 _ _ _ _ (mw_tenants _ Hwf) Et) as Htn.
  assert (Hp : @timeline_ids O1 tn ≡ₚ @timeline_ids O2 tn) by (unfold timeline_ids; by rewrite !order_perm).
  apply sort_key_unique; [by apply Permutation_flat_map |]. rewrite records_of_topo by done.
  rewrite <- list_fmap_compose. apply (NoDup_displayed fst).
  - assert (Hnd : NoDup (@timeline_ids O1 tn)) by (unfold timeline_ids; rewrite order_perm; apply NoDup_fst_map_to_list).
    clear Hp. induction (@timeline_ids O1 tn) as [| i l IH]; [constructor |]. apply NoDup_cons in Hnd as [Hi Hnd].
    cbn [omap list_omap]. destruct (topo tn i) as [x|]; cbn; [| by apply IH]. apply NoDup_cons. split; [| by apply IH].
    intros ([j y] & -> & (k & Hk & E)%list_elem_of_omap)%list_elem_of_fmap. cbn in Hi.
    destruct (topo tn k); cbn in E; [injection E as <- _; by apply Hi | done].
  - intros [i x] (j & Hj & E)%list_elem_of_omap. cbn. split; [| done]. destruct (topo tn j) as [y|] eqn:Ey; cbn in E; [| done].
    injection E as <- <-. by apply (topo_wf tn j y).
Qed.

Lemma snapshot_order (O1 O2 : HashOrder) tm : manager_wf tm -> @snapshot O1 tm = @snapshot O2 tm.
Proof.
  intros Hwf. unfold snapshot. f_equal. unfold tm_tenants_list.
  assert (Hin : forall (O : HashOrder) p, p ∈ @order O _ (tm_tenants tm) -> tm_tenants tm !! p.1 = Some p.2).
  { intros O [i a]. rewrite order_perm. apply elem_of_map_to_list. }
  transitivity (sort_key nr_id (@tenant_record O1 tm <$> @order O2 _ (tm_tenants tm))).
  - apply sort_key_unique; [apply fmap_Permutation; by rewrite !order_perm |]. rewrite <- list_fmap_compose.
    apply (NoDup_displayed fst); [rewrite order_perm; apply NoDup_fst_map_to_list |]. intros p Hp%Hin.
    split; [by apply (mw_ids _ Hwf p.1 p.2) | done].
  - f_equal. apply list_fmap_ext. intros k [i a] Hk%list_elem_of_lookup_2%Hin. by apply tenant_record_order.
Qed.

(** ** Across a restart *)

Section Restart.
Context {S} `{HS : ObjectStore S, !ObjectStoreLaws S} `{HJ : CatalogJson} `{HO : HashOrder}.

(** The store holds the catalog of [tm], as any process would have written it. *)
Definition catalog_holds (s : S) (tm : TenantManager) : Prop :=
  manager_wf tm /\ exists bs, to_vec_pretty (snapshot tm) = Some bs /\ objects s !! CATALOG_KEY = Some bs.

Hypothesis json_round_trip : forall c, exists bs, to_vec_pretty c = Some bs /\ from_slice bs = Some c.
Hypothesis catalog_key_plain : plain_key CATALOG_KEY.

Lemma save_spec tm s :
  manager_wf tm ->
  runs (save (snapshot tm)) s (fun _ s' => catalog_holds s' tm)
    (fun _ s' => objects s' = objects s \/ catalog_holds s' tm).
Proof.
  intros Hwf. destruct (json_round_trip (snapshot tm)) as (bs & E & _). unfold save. rewrite E. cbn [ok_or].
  eapply runs_lift; [done |]. eapply runs_conseq; [by apply os_put_law | |].
  - intros [] s' Hs. split; [done |]. exists bs. split; [done |]. rewrite Hs. apply lookup_insert_eq.
  - intros e s' [Hs | Hs]; [by left | right]. split; [done |]. exists bs. split; [done |]. rewrite Hs. apply lookup_insert_eq.
Qed.

Lemma load_persisted_spec tm s t :
  catalog_holds s tm -> is_ok (os_get CATALOG_KEY s).2 = true ->
  exists tm' s', load_persisted (TenantManager_new t, Some s) = ((tm', Some s'), Ok tt) /\ manager_wf tm' /\ same_topology tm tm'.
Proof.
  intros (Hwf & bs & Ej & Eo) Hok. pose proof (os_get_law CATALOG_KEY s catalog_key_plain) as Hg. unfold runs in Hg.
  unfold load_persisted, load. destruct (os_get CATALOG_KEY s) as [s' [v | e |]]; cbn in Hok; try done.
  destruct Hg as [Hv _]. assert (v = bs) as -> by congruence.
  destruct (json_round_trip (snapshot tm)) as (bs' & E' & Hf). assert (bs' = bs) as -> by congruence. rewrite Hf.
  destruct (restore_snapshot tm t Hwf) as (tm' & -> & Hr). by exists tm', s'.
Qed.

(** The topology survives a restart.  Writing the catalog over the one of an
    earlier topology leaves the store with the old or the new one, and the new
    one when the write succeeded, whatever order the hash maps iterate in; a
    process that then starts and can read the object rebuilds exactly those
    tenants, timelines, parents and branch points. *)
Theorem catalog_survives_restart (tm0 tm : TenantManager) (s s1 : S) (res : outcome StoreError unit) (t : Z) :
  catalog_holds s tm0 -> manager_wf tm -> save (snapshot tm) s = (s1, res) ->
  is_ok (os_get CATALOG_KEY s1).2 = true ->
  (forall O : HashOrder, @snapshot O tm = snapshot tm) /\
  persist (E := Error) tm (Some s) = (Some s1, Ok tt) /\
  exists tmx tm' s2, (tmx = tm \/ tmx = tm0 /\ res <> Ok tt) /\
    load_persisted (TenantManager_new t, Some s1) = ((tm', Some s2), Ok tt) /\ manager_wf tm' /\ same_topology tmx tm'.
Proof.
  intros H0 Hwf E Hok. split; [intros O; by apply snapshot_order |].
  pose proof (save_spec tm s Hwf) as Hs. unfold runs in Hs. rewrite E in Hs. split.
  { unfold persist. rewrite E. by destruct res. }
  assert (Hx : exists tmx, (tmx = tm \/ tmx = tm0 /\ res <> Ok tt) /\ catalog_holds s1 tmx).
  { destruct res as [[] | e |]; [exists tm; split; [by left | done] | | done].
    destruct Hs as [Hs | Hs]; [exists tm0 | exists tm; split; [by left | done]]. split; [by right |].
    destruct H0 as (? & bs & ? & ?). split; [done |]. exists bs. by rewrite Hs. }
  destruct Hx as (tmx & Hx & Hh). destruct (load_persisted_spec tmx s1 t Hh Hok) as (tm' & s2 & ? & ? & ?). by exists tmx, tm', s2.
Qed.
End Restart.

(** *** A catalog format and a manager with a branch *)

Definition catalog_tuple (c : Catalog) : Z * list (bytes * list (bytes * option bytes * option Z)) :=
  (cat_version c, (fun r => (nr_id r, (fun t => (tr_id t, tr_anc t, tr_anc_lsn t)) <$> nr_timelines r)) <$> cat_tenants c).
Definition tuple_catalog (x : Z * list (bytes * list (bytes * option bytes * option Z))) : Catalog :=
  mkCatalog x.1 ((fun r => mkTenantRecord r.1 ((fun t => mkTimelineRecord t.1.1 t.1.2 t.2) <$> r.2)) <$> x.2).

Lemma tuple_catalog_tuple c : tuple_catalog (catalog_tuple c) = c.
Proof.
  destruct c as [v ts]. unfold tuple_catalog, catalog_tuple. cbn. f_equal. rewrite <- list_fmap_compose.
  rewrite <- (list_fmap_id ts) at 2. apply list_fmap_ext. intros i [id tls] _. cbn. f_equal. rewrite <- list_fmap_compose.
  rewrite <- (list_fmap_id tls) at 2. apply list_fmap_ext. by intros j [].
Qed.

(** One bit of the encoding per byte. *)
Fixpoint bits_of (p : positive) : bytes :=
  match p with xH => [] | xO p' => x30 :: bits_of p' | xI p' => x31 :: bits_of p' end%positive.
Fixpoint of_bits (l : bytes) : positive :=
  match l with [] => xH | b :: l' => if bool_decide (b = x31) then xI (of_bits l') else xO (of_bits l') end%positive.

Lemma of_bits_of p : of_bits (bits_of p) = p.
Proof. induction p as [p IH | p IH |]; cbn [bits_of of_bits]; [| | done]; rewrite IH; [by rewrite bool_decide_true | done]. Qed.

Definition bit_json : CatalogJson := {|
  to_vec_pretty c := Some (bits_of (encode (catalog_tuple c)));
  from_slice bs := tuple_catalog <$> decode (of_bits bs)
|}.

Lemma bit_json_round_trip c :
  exists bs, @to_vec_pretty bit_json c = Some bs /\ @from_slice bit_json bs = Some c.
Proof. eexists. split; [done |]. cbn. by rewrite of_bits_of, decode_encode; cbn; rewrite tuple_catalog_tuple. Qed.

Definition demo_manager : TenantManager :=
  let '(m, a) := get_or_create (tid x07) (TenantManager_new 2) in
  (in_tenant a (fun tn => branch_timeline (tid x01) (tid x02) 20 (create_timeline (tid x02) tn).1) m).1.

Lemma demo_manager_wf : manager_wf demo_manager.
Proof.
  unfold demo_manager. destruct (get_or_create (tid x07) (TenantManager_new 2)) as [m a] eqn:E.
  destruct (get_or_create_wf (tid x07) _ m a (manager_wf_new 2) eq_refl E) as (Hm & _).
  set (f := fun tn => _). destruct (in_tenant a f m) as [m' r] eqn:Ei. apply (in_tenant_wf _ _ _ _ _ Hm Ei).
  intros tn _ Hw. unfold f. destruct (create_timeline (tid x02) tn) as [tn1 r1] eqn:E1. cbn [fst].
  destruct (branch_timeline (tid x01) (tid x02) 20 tn1) as [tn2 r2] eqn:E2.
  apply (branch_timeline_wf _ _ _ _ _ _ (create_timeline_wf _ (tid x02) _ _ Hw eq_refl E1) (eq_refl : Id_wf (tid x01)) E2).
Qed.

Lemma catalog_key_local : local_key CATALOG_KEY.
Proof. split_and!; vm_compute; first [reflexivity | congruence]. Qed.

Lemma pair_first {A B} (x : A * B) b : x.2 = b -> x = (x.1, b).
Proof. destruct x. by intros <-. Qed.

(** The topology of an empty manager is replaced by one with a branch whose
    identifier sorts before its parent's. *)
Lemma catalog_survives_restart_witness :
  let store := LocalStore (fun _ => None) in
  let s := mkLocalObjectStore {[ CATALOG_KEY := default [] (@to_vec_pretty bit_json (snapshot (TenantManager_new 2))) ]} 0 in
  let s1 := (@save _ store bit_json (snapshot demo_manager) s).1 in
  exists tm' s2, @load_persisted _ store bit_json (TenantManager_new 5, Some s1) = ((tm', Some s2), Ok tt) /\
    same_topology demo_manager tm'.
Proof.
  intros store s s1.
  destruct (@catalog_survives_restart _ store (LocalStoreLaws _) bit_json default_order bit_json_round_trip) with
    (tm0 := TenantManager_new 2) (tm := demo_manager) (s := s) (s1 := s1) (res := @Ok StoreError unit tt) (t := 5)
    as (_ & _ & tmx & tm' & s2 & [-> | [_ Hne]] & Hl & _ & Hs).
  - apply catalog_key_local.
  - split; [apply manager_wf_new |]. eexists. split; [reflexivity |]. apply map_lookup_filter_Some. split; vm_compute; reflexivity.
  - apply demo_manager_wf.
  - apply pair_first. vm_compute; reflexivity.
  - vm_compute; reflexivity.
  - exists tm', s2. split; [exact Hl | exact Hs].
  - exfalso. apply Hne. reflexivity.
Defined.
