(* ===== verification/Offload.v ===== *)
(** The offload worker (src/pageserver/src/offload.rs) and the deletion of
    collected layers (src/pageserver/src/control.rs, [gc_command]): frozen layers
    go to the object store as one object each, under a key made of the layer's
    number. *)

From S2P Require Import Prelude Bytes BTree Text Common PageVersion Layer Repository Timeline Tenant TenantManager ObjStore.

Definition LAYER_PREFIX : bytes := key_of "layers/".

Definition layer_key (id : LayerId) : bytes := LAYER_PREFIX ++ fmt_hex_pad 16 id ++ key_of ".layer".

Section Offload.
Context {S} `{ObjectStore S} {E : Type}.

(** ** One pass *)

(** The loop over the layers that were pending when the pass began. *)
Fixpoint offload_loop (pending : list Layer) (n : Z) : stateM (Inner * S) E Z := fun '(i, s) =>
  match pending with
  | [] => ((i, s), Ok n)
  | layer :: pending' =>
      match os_put (layer_key (layer_id layer)) (Layer_serialize layer) s with
      | (s', Ok _) => offload_loop pending' (n + 1) (mark_uploaded (layer_id layer) i, s')
      | (s', Err _) => offload_loop pending' n (i, s')
      | (s', Panic) => ((i, s'), Panic)
      end
  end.

Definition offload_pending : stateM (Inner * S) E Z := fun '(i, s) => offload_loop (pending_offload i) 0 (i, s).

(** Run an operation of a repository and the store inside the tenant. *)
Definition in_repo {A : Type} (a : taddr) (m : stateM (Inner * S) E A) : stateM (Tenant * S) E A := fun '(tn, s) =>
  match arena tn !! a with
  | Some t =>
      let '((i, s'), res) := m (tl_repo t, s) in
      ((mkTenant (timelines tn) (<[a := mkTimeline (tl_id t) i (tl_ancestor t)]> (arena tn)) (tn_freeze_threshold tn), s'), res)
  | None => ((tn, s), Panic)
  end.

Fixpoint offload_timelines (ids : list TimelineId) (n : Z) : stateM (Tenant * S) E Z := fun '(tn, s) =>
  match ids with
  | [] => ((tn, s), Ok n)
  | id :: ids' =>
      match get_timeline tn id with
      | Some a => (let! k := in_repo a offload_pending in offload_timelines ids' (n + k)) (tn, s)
      | None => offload_timelines ids' n (tn, s)
      end
  end.

Definition offload_tenant `{HashOrder} : stateM (Tenant * S) E Z := fun '(tn, s) =>
  offload_timelines (timeline_ids tn) 0 (tn, s).

Fixpoint offload_tenants `{HashOrder} (l : list (TenantId * gaddr)) (n : Z) : stateM (TenantManager * S) E Z := fun '(tm, s) =>
  match l with
  | [] => ((tm, s), Ok n)
  | (_, a) :: l' =>
      match tm_arena tm !! a with
      | Some tn =>
          let '((tn', s'), res) := offload_tenant (tn, s) in
          let tm' := mkTenantManager (tm_freeze_threshold tm) (tm_tenants tm) (<[a := tn']> (tm_arena tm)) in
          match res with
          | Ok k => offload_tenants l' (n + k) (tm', s')
          | Err e => ((tm', s'), Err e)
          | Panic => ((tm', s'), Panic)
          end
      | None => ((tm, s), Panic)
      end
  end.

Definition offload_all `{HashOrder} : stateM (TenantManager * S) E Z := fun '(tm, s) =>
  offload_tenants (tm_tenants_list tm) 0 (tm, s).

(** ** Collected layers *)

(** The inner loop of [gc_command]; a failed deletion is not counted. *)
Fixpoint delete_layers (ids : list LayerId) (n : Z) : stateM S E Z := fun s =>
  match ids with
  | [] => (s, Ok n)
  | id :: ids' =>
      match os_delete (layer_key id) s with
      | (s', Ok _) => delete_layers ids' (n + 1) s'
      | (s', Err _) => delete_layers ids' n s'
      | (s', Panic) => (s', Panic)
      end
  end.
End Offload.

(** ** Keys *)

Lemma len_fmt_hex_pad n z : length (fmt_hex_pad n z) = n.
Proof. revert z. induction n as [| n IH]; intros z; [done |]. cbn. rewrite length_app, IH. cbn. lia. Qed.

Lemma fmt_hex_pad_inj n : forall a b,
  0 <= a < 16 ^ Z.of_nat n -> 0 <= b < 16 ^ Z.of_nat n -> fmt_hex_pad n a = fmt_hex_pad n b -> a = b.
Proof.
  induction n as [| n IH]; intros a b Ha Hb; [cbn in *; lia |].
  rewrite Nat2Z.inj_succ, Z.pow_succ_r in Ha, Hb by lia. cbn [fmt_hex_pad]. intros [E1 [= E2]]%app_inj_2; [| done].
  apply digit_lower_inj in E2; [| apply Z.mod_pos_bound; lia ..].
  apply IH in E1; [rewrite (Z.div_mod a 16), (Z.div_mod b 16) by lia; congruence | |];
    (split; [apply Z.div_pos; lia | apply Z.div_lt_upper_bound; lia]).
Qed.

Lemma layer_key_inj a b : in_u64 a -> in_u64 b -> layer_key a = layer_key b -> a = b.
Proof.
  intros Ha Hb E. unfold layer_key in E. apply app_inj_1 in E as [_ E]; [| done].
  apply app_inj_1 in E as [E _]; [| by rewrite !len_fmt_hex_pad]. by apply fmt_hex_pad_inj in E.
Qed.

(** ** What is marked uploaded is in the store *)

Definition with_uploaded (u : gset LayerId) (i : Inner) : Inner :=
  mkInner (memtable i) (rel_sizes i) (layers i) u (next_layer_id i) (freeze_threshold i).

Record numbered (i : Inner) : Prop := {
  nb_next : in_u64 (next_layer_id i);
  nb_layers l : l ∈ layers i -> 0 <= layer_id l < next_layer_id i;
  nb_distinct : NoDup (layer_id <$> layers i);
  nb_uploaded id : id ∈ uploaded i -> id < next_layer_id i
}.

Lemma numbered_freeze i : numbered i -> in_u64 (next_layer_id (freeze_locked i)) -> numbered (freeze_locked i).
Proof.
  intros [Hn Hl Hd Hu]. unfold freeze_locked. destruct (memtable i) as [| e es] eqn:Em; [done |].
  cbn [next_layer_id]. intros Hn'. unfold in_u64 in *. split; cbn [next_layer_id layers uploaded]; [done | | |].
  - intros l [Hin | ->%list_elem_of_singleton]%elem_of_app; [apply Hl in Hin; lia | cbn; lia].
  - rewrite fmap_app. apply NoDup_app. split; [done |]. split; [| apply NoDup_singleton].
    intros id (l & -> & Hin)%list_elem_of_fmap Hq%list_elem_of_singleton. apply Hl in Hin. cbn in Hq. lia.
  - intros id Hid. apply Hu in Hid. lia.
Qed.

(** Only the layers, their numbers and the marks matter. *)
Lemma numbered_same i j :
  layers j = layers i -> uploaded j = uploaded i -> next_layer_id j = next_layer_id i -> numbered i -> numbered j.
Proof. intros El Eu En [Hn Hl Hd Hu]. split; rewrite ?El, ?Eu, ?En; done. Qed.

Lemma next_freeze i : next_layer_id i <= next_layer_id (freeze_locked i).
Proof. unfold freeze_locked. destruct (memtable i); cbn; lia. Qed.

Lemma next_ingest mods : forall i i', ingest mods i = Ok i' -> next_layer_id i <= next_layer_id i'.
Proof.
  induction mods as [| m mods IH]; intros i i'; cbn [ingest]; [by intros [= <-] |].
  unfold ingest_one. case_test; [done |]. cbn [bind]. intros H%IH. case_test; [| done].
  etransitivity; [| exact H]. apply (next_freeze (mkInner _ _ _ _ _ _)).
Qed.

(** The layers frozen so far, with their objects, through an ingest. *)
Record depot_ok (objs : gmap bytes bytes) (i : Inner) : Prop := {
  dp_numbered : numbered i;
  dp_stored l : l ∈ layers i -> layer_id l ∈ uploaded i -> objs !! layer_key (layer_id l) = Some (Layer_serialize l)
}.

Lemma depot_same objs i j :
  layers j = layers i -> uploaded j = uploaded i -> next_layer_id j = next_layer_id i -> depot_ok objs i -> depot_ok objs j.
Proof. intros El Eu En [Hn Hs]. split; [by apply (numbered_same i) |]. by rewrite El, Eu. Qed.

Lemma depot_freeze objs i : depot_ok objs i -> in_u64 (next_layer_id (freeze_locked i)) -> depot_ok objs (freeze_locked i).
Proof.
  intros [Hn Hs] Hb. split; [by apply numbered_freeze |]. unfold freeze_locked. destruct (memtable i) as [| e es] eqn:Em; [done |].
  cbn [layers uploaded]. intros l [Hin | ->%list_elem_of_singleton]%elem_of_app Hu; [by apply Hs |].
  apply (nb_uploaded _ Hn) in Hu. cbn in Hu. lia.
Qed.

Lemma depot_ingest objs mods : forall i i',
  depot_ok objs i -> ingest mods i = Ok i' -> in_u64 (next_layer_id i') -> depot_ok objs i'.
Proof.
  induction mods as [| m mods IH]; intros i i' Hi; cbn [ingest]; [by intros [= <-] |].
  unfold ingest_one. case_test; [done |]. cbn [bind]. set (j := mkInner _ _ _ _ _ _).
  assert (Hj : depot_ok objs j) by (by apply (depot_same objs i)). case_test; intros H Hb; [| by apply (IH j)].
  apply (IH (freeze_locked j)); [| done | done]. apply depot_freeze; [done |].
  pose proof (next_ingest _ _ _ H). pose proof (next_freeze j). destruct (nb_next _ (dp_numbered _ _ Hj)).
  unfold in_u64 in *. lia.
Qed.

(** Compaction leaves at most one layer, with a fresh number. *)
Lemma compact_layers h i i' stats :
  numbered i -> compact h i = (i', stats) -> in_u64 (next_layer_id i') ->
  numbered i' /\ (layers i' = [] \/ exists l, layers i' = [l] /\ layer_id l = next_layer_id i) /\
  uploaded i' ⊆ uploaded i /\ removed_layer_ids stats = layer_id <$> layers i.
Proof.
  intros [Hn Hl Hd Hu]. unfold compact. destruct (layers i) as [| l0 ls] eqn:El.
  { intros [= <- <-] _. split; [split; rewrite ?El; done |]. rewrite El. by split; [left |]. }
  rewrite <- El. set (up := foldr _ _ _). assert (Hup : up ⊆ uploaded i).
  { unfold up. induction (layer_id <$> layers i) as [| x xs IH]; [done |]. cbn.
    intros y [Hy _]%elem_of_difference. by apply IH. }
  unfold in_u64 in *. destruct (prune h (merge_layers (layers i))) as [| e es] eqn:Ep; intros [= <- <-]; cbn [next_layer_id]; intros Hb.
  - split; [| by split; [left |]]. split; cbn; [done | by intros l ?%elem_of_nil | constructor |].
    intros id Hid. by apply Hu, Hup.
  - split; [| split; [by right; eexists | done]]. split; cbn; [done | | apply NoDup_singleton |].
    + intros l ->%list_elem_of_singleton. cbn. lia.
    + intros id Hid%Hup%Hu. lia.
Qed.

Lemma filter_done {A} (key : A -> Z) (u : gset Z) (done ls : list A) :
  NoDup (key <$> ls) -> done `sublist_of` List.filter (fun l => negb (bool_decide (key l ∈ u))) ls ->
  (length (List.filter (fun l => negb (bool_decide (key l ∈ (list_to_set (key <$> done) : gset Z) ∪ u))) ls) + length done =
   length (List.filter (fun l => negb (bool_decide (key l ∈ u))) ls))%nat.
Proof.
  revert done. induction ls as [| l ls IH]; intros done Hnd Hs.
  { apply sublist_nil_r in Hs as ->. done. }
  cbn [fmap list_fmap] in Hnd. apply NoDup_cons in Hnd as [Hl Hnd].
  assert (Hsub : forall d, d `sublist_of` List.filter (fun l => negb (bool_decide (key l ∈ u))) ls -> key l ∉ key <$> d).
  { intros d Hd (x & Ex & Hx)%list_elem_of_fmap. apply Hl, list_elem_of_fmap. exists x. split; [done |].
    apply (elem_of_sublist _ _ _ Hx) in Hd. by apply list_elem_of_In, filter_In in Hd as [?%list_elem_of_In _]. }
  cbn [List.filter] in *. destruct (decide (key l ∈ u)) as [Hu | Hu].
  - rewrite (bool_decide_true (key l ∈ u)) in * by done. cbn [negb] in *.
    rewrite bool_decide_true by (apply elem_of_union; by right). by apply IH.
  - rewrite (bool_decide_false (key l ∈ u)) in * by done. cbn [negb] in *.
    apply sublist_cons_r in Hs as [Hs | (done' & -> & Hs)].
    + rewrite bool_decide_false by (intros [?%elem_of_list_to_set|?]%elem_of_union; [by apply (Hsub done) | done]).
      cbn [negb length]. rewrite <- (IH done Hnd Hs). lia.
    + rewrite bool_decide_true by (apply elem_of_union; left; apply elem_of_list_to_set, list_elem_of_here). cbn [negb length].
      rewrite <- (IH done' Hnd Hs). rewrite Nat.add_succ_r. f_equal. f_equal. f_equal. apply filter_ext_in. intros x Hx.
      f_equal. apply bool_decide_ext. rewrite !elem_of_union, !elem_of_list_to_set, fmap_cons, elem_of_cons.
      split; [| tauto]. intros [[E | ?] | ?]; [| tauto | tauto]. exfalso. apply Hl. rewrite <- E.
      apply list_elem_of_fmap. exists x. split; [done |]. by apply list_elem_of_In.
Qed.

Lemma NoDup_key_inj {A B} (f : A -> B) (l : list A) x y : NoDup (f <$> l) -> x ∈ l -> y ∈ l -> f x = f y -> x = y.
Proof.
  induction l as [| z l IH]; [by intros _ ?%elem_of_nil |]. cbn. intros [Hz Hnd]%NoDup_cons Hx Hy E.
  apply elem_of_cons in Hx as [-> | Hx], Hy as [-> | Hy]; [done | | | by apply IH];
    exfalso; apply Hz; [rewrite E | rewrite <- E]; by apply list_elem_of_fmap_2.
Qed.

Section Depot.
Context {S} `{HS : ObjectStore S, !ObjectStoreLaws S}.

Hypothesis layer_keys_plain : forall id, in_u64 id -> plain_key (layer_key id).

(** What a pass does to the marks and the store, whichever uploads fail. *)
Lemma offload_loop_spec {Er : Type} pending : forall n i s,
  depot_ok (objects s) i -> (forall l, l ∈ pending -> l ∈ layers i) ->
  exists done s', offload_loop (E := Er) pending n (i, s) =
      ((with_uploaded (list_to_set (layer_id <$> done) ∪ uploaded i) i, s'), Ok (n + len done)) /\
    done `sublist_of` pending /\ depot_ok (objects s') (with_uploaded (list_to_set (layer_id <$> done) ∪ uploaded i) i) /\
    forall k, (forall l, l ∈ pending -> k <> layer_key (layer_id l)) -> objects s' !! k = objects s !! k.
Proof.
  induction pending as [| l pending IH]; intros n i s Hok Hin.
  { exists [], s. cbn. rewrite union_empty_l_L, Z.add_0_r. by destruct i. }
  pose proof (dp_numbered _ _ Hok) as Hn.
  assert (Hl : l ∈ layers i) by (apply Hin, list_elem_of_here).
  assert (Hid : in_u64 (layer_id l)) by (apply (nb_layers _ Hn) in Hl; pose proof (nb_next _ Hn); unfold in_u64 in *; lia).
  pose proof (os_put_law (layer_key (layer_id l)) (Layer_serialize l) s (layer_keys_plain _ Hid)) as Hput.
  assert (Hstep : forall s' u, objects s' = objects s /\ u = uploaded i \/
              objects s' = <[layer_key (layer_id l) := Layer_serialize l]> (objects s) /\ (u = uploaded i \/ u = {[layer_id l]} ∪ uploaded i) ->
            depot_ok (objects s') (with_uploaded u i)).
  { intros s' u Ho. split.
    { destruct Hn as [H1 H2 H3 H4]. split; cbn; try done. intros id Hu.
      destruct Ho as [[_ ->] | [_ [-> | ->]]]; [by apply H4 .. |]. apply elem_of_union in Hu as [->%elem_of_singleton | Hu]; [| by apply H4].
      apply H2 in Hl. lia. }
    cbn. intros l' Hl' Hu'. destruct Ho as [[-> ->] | [-> Hu]]; [by apply (dp_stored _ _ Hok) |].
    destruct (decide (layer_id l' = layer_id l)) as [E | Hne].
    { apply (NoDup_key_inj _ _ _ _ (nb_distinct _ Hn)) in E as ->; [| done ..]. by rewrite lookup_insert_eq. }
    rewrite lookup_insert_ne.
    - apply (dp_stored _ _ Hok); [done |]. destruct Hu as [-> | ->]; [done |]. by apply elem_of_union in Hu' as [?%elem_of_singleton |].
    - intros E. apply layer_key_inj in E; [by apply Hne | done |]. apply (nb_layers _ Hn) in Hl'. pose proof (nb_next _ Hn). unfold in_u64 in *. lia. }
  unfold runs in Hput. cbn [offload_loop].
  destruct (os_put (layer_key (layer_id l)) (Layer_serialize l) s) as [s1 [[] | e |]]; [| | done].
  - destruct (IH (n + 1) (mark_uploaded (layer_id l) i) s1) as (done & s' & E & Hsub & Hok' & Hfr).
    { apply Hstep. right. by split; [| right]. }
    { intros l' Hl'. by apply Hin, list_elem_of_further. }
    exists (l :: done), s'.
    assert (Ew : with_uploaded (list_to_set (layer_id <$> done) ∪ uploaded (mark_uploaded (layer_id l) i)) (mark_uploaded (layer_id l) i) =
                 with_uploaded (list_to_set (layer_id <$> l :: done) ∪ uploaded i) i).
    { unfold with_uploaded, mark_uploaded. cbn. f_equal. apply set_eq. intros x. rewrite !elem_of_union. tauto. }
    rewrite Ew in E, Hok'. split; [rewrite E, len_cons; do 2 f_equal; lia |]. split; [by apply sublist_skip |]. split; [done |].
    intros k Hk. rewrite Hfr by (intros l' Hl'; by apply Hk, list_elem_of_further). rewrite Hput. apply lookup_insert_ne.
    intros E'. by apply (Hk l); [apply list_elem_of_here |].
  - destruct (IH n i s1) as (done & s' & E & Hsub & Hok' & Hfr).
    { replace i with (with_uploaded (uploaded i) i) by (by destruct i). apply Hstep. destruct Hput as [? | ?]; [by left | right].
      by split; [| left]. }
    { intros l' Hl'. by apply Hin, list_elem_of_further. }
    exists done, s'. split; [exact E |]. split; [by apply sublist_cons |]. split; [done |].
    intros k Hk. rewrite Hfr by (intros l' Hl'; by apply Hk, list_elem_of_further). destruct Hput as [-> | ->]; [done |].
    apply lookup_insert_ne. intros E'. by apply (Hk l); [apply list_elem_of_here |].
Qed.

(** Deletions touch no other object. *)
Lemma delete_layers_spec {Er : Type} ids : forall n s,
  (forall id, id ∈ ids -> in_u64 id) ->
  exists s' k, delete_layers (E := Er) ids n s = (s', Ok (n + k)) /\ 0 <= k <= len ids /\
    (k = len ids -> forall id, id ∈ ids -> objects s' !! layer_key id = None) /\
    forall key, (forall id, id ∈ ids -> key <> layer_key id) -> objects s' !! key = objects s !! key.
Proof.
  induction ids as [| id ids IH]; intros n s Hid.
  { exists s, 0. cbn. rewrite Z.add_0_r. split; [done |]. split; [done |]. split; [| done]. intros _ id ?%elem_of_nil. done. }
  pose proof (os_delete_law (layer_key id) s (layer_keys_plain _ (Hid id (list_elem_of_here _ _)))) as Hd.
  unfold runs in Hd. cbn [delete_layers].
  assert (Hids : forall x, x ∈ ids -> in_u64 x) by (intros x Hx; by apply Hid, list_elem_of_further).
  assert (Hframe : forall s1, objects s1 = objects s \/ objects s1 = delete (layer_key id) (objects s) ->
    forall key, (forall x, x ∈ id :: ids -> key <> layer_key x) -> objects s1 !! key = objects s !! key).
  { intros s1 Hs key Hk. destruct Hs as [-> | ->]; [done |]. rewrite lookup_delete_ne; [done |]. intros E.
    by apply (Hk id (list_elem_of_here _ _)). }
  rewrite len_cons. destruct (os_delete (layer_key id) s) as [s1 [[] | e |]]; [| | done].
  - destruct (IH (n + 1) s1 Hids) as (s' & k & E & Hk & Hall & Hfr). exists s', (1 + k).
    split; [rewrite E; do 2 f_equal; lia |]. split; [lia |]. split.
    + intros Ek x Hx. assert (Hx' : objects s' !! layer_key x = None \/ layer_key x ∉ layer_key <$> ids).
      { destruct (decide (layer_key x ∈ layer_key <$> ids)) as [(y & Ey & Hy)%list_elem_of_fmap |]; [left | by right].
        rewrite Ey. apply Hall; [lia | done]. }
      destruct Hx' as [| Hni]; [done |]. apply elem_of_cons in Hx as [-> | Hx].
      * rewrite Hfr, Hd; [apply lookup_delete_eq |]. intros y Hy E'. apply Hni. rewrite E'. by apply list_elem_of_fmap_2.
      * exfalso. apply Hni. by apply list_elem_of_fmap_2.
    + intros key Hkey. rewrite Hfr by (intros x Hx; by apply Hkey, list_elem_of_further). apply Hframe; [by right | done].
  - destruct (IH n s1 Hids) as (s' & k & E & Hk & Hall & Hfr). exists s', k.
    split; [exact E |]. split; [lia |]. split; [intros; lia |].
    intros key Hkey. rewrite Hfr by (intros x Hx; by apply Hkey, list_elem_of_further). by apply Hframe.
Qed.

(** ** Any history of one repository and its store *)

Inductive depot_run : Inner -> S -> Prop :=
| depot_new t s : depot_run (Repository_new t) s
| depot_write i s mods i' :
    depot_run i s -> ingest mods i = Ok i' -> in_u64 (next_layer_id i') -> depot_run i' s
| depot_cut i s : depot_run i s -> in_u64 (next_layer_id (freeze i)) -> depot_run (freeze i) s
| depot_offload i s i' s' res :
    depot_run i s -> offload_pending (E := Empty_set) (i, s) = ((i', s'), res) -> depot_run i' s'
| depot_collect i s h i' stats s' res :
    depot_run i s -> compact h i = (i', stats) -> in_u64 (next_layer_id i') ->
    delete_layers (E := Empty_set) (removed_layer_ids stats) 0 s = (s', res) -> depot_run i' s'
| depot_elsewhere i s s' :
    depot_run i s -> (forall id, in_u64 id -> objects s' !! layer_key id = objects s !! layer_key id) -> depot_run i s'.

Lemma pending_in i l : l ∈ pending_offload i -> l ∈ layers i.
Proof. intros [H _]%list_elem_of_In%filter_In. by apply list_elem_of_In. Qed.

Lemma layer_id_u64 i l : numbered i -> l ∈ layers i -> in_u64 (layer_id l).
Proof. intros [Hn Hl _ _] Hin. apply Hl in Hin. unfold in_u64 in *. lia. Qed.

Lemma depot_run_ok i s : depot_run i s -> depot_ok (objects s) i.
Proof.
  induction 1 as [t s | i s mods i' _ IH Hi Hb | i s _ IH Hb | i s i' s' res _ IH E | i s h i' stats s' res _ IH Ec Hb Ed | i s s' _ IH Hs].
  - split; [split; cbn; [done | by intros l ?%elem_of_nil | constructor | by intros id ?%elem_of_empty] |].
    by intros l ?%elem_of_nil.
  - by apply (depot_ingest _ mods i).
  - by apply depot_freeze.
  - destruct (offload_loop_spec (Er := Empty_set) (pending_offload i) 0 i s IH (pending_in i)) as (done & s1 & E' & _ & Hok & _).
    unfold offload_pending in E. rewrite E' in E. by injection E as <- <- <-.
  - pose proof (dp_numbered _ _ IH) as Hn. destruct (compact_layers h i i' stats Hn Ec Hb) as (Hn' & Hls & Hup & Hrm).
    rewrite Hrm in Ed. destruct (delete_layers_spec (Er := Empty_set) (layer_id <$> layers i) 0 s) as (s1 & k & E' & _ & _ & Hfr).
    { intros id (l & -> & Hl)%list_elem_of_fmap. by apply (layer_id_u64 i). }
    rewrite E' in Ed. injection Ed as <- <-. split; [done |]. intros l Hl Hu.
    destruct Hls as [El | (l' & El & Eid)]; rewrite El in Hl; [by apply elem_of_nil in Hl |].
    apply list_elem_of_singleton in Hl as ->. apply Hup, (nb_uploaded _ Hn) in Hu. lia.
  - split; [apply IH |]. intros l Hl Hu. rewrite Hs by (by apply (layer_id_u64 i); [apply IH |]). by apply (dp_stored _ _ IH).
Qed.

(** A layer marked uploaded can be read back from the object store.  This
    holds after any history of writes, freezes, offload passes and collections
    on a repository, whichever store operations fail; a pass always returns, and
    changes nothing but the marks: it takes exactly the layers it uploaded off
    the pending list. *)
Theorem offloaded_layers_are_stored (i : Inner) (s : S) :
  depot_run i s ->
  (forall l, l ∈ layers i -> layer_id l ∈ uploaded i -> Layer_wf l ->
     exists bs, objects s !! layer_key (layer_id l) = Some bs /\ Layer_deserialize bs = Ok l) /\
  exists u s' n, offload_pending (E := Empty_set) (i, s) = ((with_uploaded u i, s'), Ok n) /\
    uploaded i ⊆ u /\ 0 <= n /\ len (pending_offload (with_uploaded u i)) = len (pending_offload i) - n.
Proof.
  intros Hrun%depot_run_ok. split.
  - intros l Hl Hu Hwf. eexists. split; [by apply (dp_stored _ _ Hrun) |].
    rewrite <- (app_nil_r (Layer_serialize l)). by apply Layer_deserialize_serialize.
  - destruct (offload_loop_spec (Er := Empty_set) (pending_offload i) 0 i s Hrun (pending_in i)) as (done & s' & E & Hsub & _ & _).
    eexists _, s', _. split; [exact E |]. split; [apply union_subseteq_r |]. split; [apply len_nonneg |].
    pose proof (filter_done layer_id (uploaded i) done (layers i) (nb_distinct _ (dp_numbered _ _ Hrun)) Hsub) as Hf.
    unfold len, pending_offload, with_uploaded. cbn [layers uploaded]. lia.
Qed.

Lemma offload_loop_accepting {Er : Type} pending : forall n i s,
  (forall id v s, in_u64 id -> is_ok (os_put (layer_key id) v s).2 = true) -> (forall l, l ∈ pending -> in_u64 (layer_id l)) ->
  (offload_loop (E := Er) pending n (i, s)).2 = Ok (n + len pending).
Proof.
  induction pending as [| l pending IH]; intros n i s Hput Hid; [cbn; by rewrite Z.add_0_r |].
  cbn [offload_loop]. specialize (Hput (layer_id l) (Layer_serialize l) s (Hid l (list_elem_of_here _ _))) as Hp.
  destruct (os_put _ _ s) as [s' [[] | |]]; [| done | done]. rewrite IH; [rewrite len_cons; f_equal; lia | done |].
  intros x Hx. by apply Hid, list_elem_of_further.
Qed.

(** Once the store accepts writes, one offload pass uploads everything that
    is frozen: nothing is left pending and every layer can be read back. *)
Theorem offload_pass_drains (i : Inner) (s : S) :
  depot_run i s -> (forall id v s, in_u64 id -> is_ok (os_put (layer_key id) v s).2 = true) -> Forall Layer_wf (layers i) ->
  exists i' s', offload_pending (E := Empty_set) (i, s) = ((i', s'), Ok (len (pending_offload i))) /\
    pending_offload i' = [] /\ layers i' = layers i /\
    forall l, l ∈ layers i -> exists bs, objects s' !! layer_key (layer_id l) = Some bs /\ Layer_deserialize bs = Ok l.
Proof.
  intros Hrun%depot_run_ok Hput Hwf.
  destruct (offload_loop_spec (Er := Empty_set) (pending_offload i) 0 i s Hrun (pending_in i)) as (done & s' & E & Hsub & Hok & _).
  pose proof (offload_loop_accepting (Er := Empty_set) (pending_offload i) 0 i s Hput
    (fun l Hl => layer_id_u64 i l (dp_numbered _ _ Hrun) (pending_in i l Hl))) as Hn. rewrite E in Hn. cbn [snd] in Hn.
  injection Hn as Hn. set (i' := with_uploaded _ i) in *. exists i', s'. split; [unfold offload_pending; rewrite E; by rewrite Hn |].
  pose proof (filter_done layer_id (uploaded i) done (layers i) (nb_distinct _ (dp_numbered _ _ Hrun)) Hsub) as Hf.
  assert (Hp : pending_offload i' = []).
  { apply length_zero_iff_nil. unfold len, pending_offload in *. unfold i', with_uploaded. cbn [layers uploaded]. lia. }
  split; [done |]. split; [done |]. intros l Hl. eexists. split.
  - apply (dp_stored _ _ Hok); [done |]. destruct (decide (layer_id l ∈ uploaded i')) as [|Hno]; [done |].
    exfalso. assert (Hin : l ∈ pending_offload i'); [| rewrite Hp in Hin; by apply elem_of_nil in Hin].
    apply list_elem_of_In, filter_In. split; [by apply list_elem_of_In |]. by rewrite bool_decide_false.
  - rewrite <- (app_nil_r (Layer_serialize l)). apply Layer_deserialize_serialize. rewrite Forall_forall in Hwf. by apply Hwf.
Qed.
End Depot.

(** ** In the local store *)

Lemma contains_skip a b : Forall (fun c => c <> dot) a -> contains [dot; dot] (a ++ b) = contains [dot; dot] b.
Proof.
  induction 1 as [| c a Hc Ha IH]; [done |]. cbn [app contains]. rewrite IH. unfold starts_with.
  rewrite bool_decide_false; [done |]. cbn. by intros [= ->].
Qed.

Lemma fmt_hex_pad_digits n : forall z, Forall (fun c => c <> dot /\ c <> slash) (fmt_hex_pad n z).
Proof.
  induction n as [| n IH]; intros z; [constructor |]. cbn. apply Forall_app. split; [apply IH |]. constructor; [| constructor].
  assert (H : 0 <= z mod 16 < 16) by (apply Z.mod_pos_bound; lia).
  by split; intros E; pose proof (digit_val_lower _ H) as Hv; rewrite E in Hv.
Qed.

Lemma layer_key_local id : local_key (layer_key id).
Proof.
  pose proof (fmt_hex_pad_digits 16 id) as Hd. unfold local_key, layer_key.
  assert (Hslash : Forall (fun c => c <> slash) (fmt_hex_pad 16 id ++ key_of ".layer")).
  { apply Forall_app. split; [eapply Forall_impl; [exact Hd | by intros ? []] | by repeat constructor]. }
  assert (Hp : split_path (LAYER_PREFIX ++ fmt_hex_pad 16 id ++ key_of ".layer") = (LAYER_PREFIX, fmt_hex_pad 16 id ++ key_of ".layer")).
  { apply split_path_app; [done |]. right. by exists (key_of "layers"). }
  split_and!.
  - rewrite contains_skip by (by repeat constructor). rewrite contains_skip; [done |].
    eapply Forall_impl; [exact Hd | by intros ? []].
  - done.
  - rewrite Hp. cbn [snd]. intros E. apply (f_equal length) in E. rewrite length_app, len_fmt_hex_pad in E. done.
  - unfold is_tmp. rewrite Hp. cbn [snd]. unfold split_ext.
    rewrite (proj2 (rsplit_once_Some dot (fmt_hex_pad 16 id ++ key_of ".layer") (fmt_hex_pad 16 id) (key_of "layer")))
      by (split; [done | by repeat constructor]).
    pose proof (len_fmt_hex_pad 16 id) as Hl. destruct (fmt_hex_pad 16 id); [done |]. done.
Qed.

Lemma local_put_accepts key v s : local_key key -> is_ok (local_put (fun _ => None) key v s).2 = true.
Proof. intros (H1 & H2 & _). unfold local_put, path_for. by rewrite H1, H2. Qed.

(** *** Two frozen layers *)

Definition small_mods : list Modification :=
  [mkModification demo_rel 0 10 (Delta [mkByteEdit 0 [x61]]); mkModification demo_rel 1 11 (Delta [mkByteEdit 1 [x62]])].

Definition small_repo : Inner :=
  mkInner [] [((demo_rel, 10), 1); ((demo_rel, 11), 2)]
    [Layer_new 0 [(mkPageKey demo_rel 0, 10, Delta [mkByteEdit 0 [x61]])];
     Layer_new 1 [(mkPageKey demo_rel 1, 11, Delta [mkByteEdit 1 [x62]])]] ∅ 2 1.

Definition empty_store : LocalObjectStore := mkLocalObjectStore ∅ 0.

Lemma small_run fault : @depot_run _ (LocalStore fault) (LocalStoreLaws fault) small_repo empty_store.
Proof. eapply (depot_write (Repository_new 1) empty_store small_mods); [constructor | reflexivity | by_compute]. Qed.

Lemma small_layers_wf : Forall Layer_wf (layers small_repo).
Proof.
  apply Forall_cons; split; [| apply Forall_cons; split; [| constructor]];
    (split; [by_compute |]; split; [by_compute |]; split; [done |]; repeat constructor; by_compute).
Qed.

(** The write of the second object fails half-way. *)
Lemma offloaded_layers_are_stored_witness :
  let fault := fun k : nat => if (k =? 4)%nat then Some 3 else None in
  let store := LocalStore fault in
  let st := (@offload_pending _ store Empty_set (small_repo, empty_store)).1 in
  st.1 = with_uploaded {[0]} small_repo /\ len (pending_offload st.1) = 1 /\
  exists bs, local_objects st.2 !! layer_key 0 = Some bs /\
    Layer_deserialize bs = Ok (Layer_new 0 [(mkPageKey demo_rel 0, 10, Delta [mkByteEdit 0 [x61]])]).
Proof.
  intros fault store st.
  assert (E : st.1 = with_uploaded {[0]} small_repo) by (vm_compute; reflexivity).
  split; [exact E |]. split; [rewrite E; vm_compute; reflexivity |].
  destruct (@offloaded_layers_are_stored _ store (LocalStoreLaws fault) (fun id _ => layer_key_local id) st.1 st.2) as [Hs _].
  { eapply (@depot_offload _ _ (LocalStoreLaws fault) small_repo empty_store); [apply small_run |].
    rewrite (surjective_pairing (offload_pending _)). fold st. by rewrite (surjective_pairing st). }
  rewrite E in Hs. apply (Hs (Layer_new 0 _)); [apply list_elem_of_here | apply (bool_decide_unpack _); vm_compute; reflexivity |].
  exact (Forall_inv small_layers_wf).
Defined.

Lemma offload_pass_drains_witness :
  exists i' s', @offload_pending _ (LocalStore (fun _ => None)) Empty_set (small_repo, empty_store) = ((i', s'), Ok 2) /\
    pending_offload i' = [] /\ layers i' = layers small_repo /\
    forall l, l ∈ layers small_repo -> exists bs, local_objects s' !! layer_key (layer_id l) = Some bs /\ Layer_deserialize bs = Ok l.
Proof.
  apply (@offload_pass_drains _ (LocalStore (fun _ => None)) (LocalStoreLaws _) (fun id _ => layer_key_local id) small_repo empty_store).
  - apply small_run.
  - intros id v s _. apply local_put_accepts, layer_key_local.
  - exact small_layers_wf.
Defined.

(** ** Keys say nothing of the timeline *)

Definition two_timelines : Tenant :=
  let t0 := (create_timeline (tid x01) (Tenant_new 1)).1 in
  let t1 := (create_timeline (tid x02) t0).1 in
  let t2 := (in_arena (Timeline_ingest 0 [mkModification demo_rel 0 10 (Delta [mkByteEdit 0 [x61]])]) t1).1 in
  (in_arena (Timeline_ingest 1 [mkModification demo_rel 0 10 (Delta [mkByteEdit 0 [x62]])]) t2).1.

Definition frozen (tn : Tenant) (a : taddr) : list Layer := match arena tn !! a with Some t => layers (tl_repo t) | None => [] end.
Definition waiting (tn : Tenant) (a : taddr) : list Layer := match arena tn !! a with Some t => pending_offload (tl_repo t) | None => [] end.

(** Layers of two timelines have the same number, hence the same key: both are
    marked uploaded, and the store holds one of them. *)
Lemma offload_collides_across_timelines :
  let st := (@offload_tenant _ (LocalStore (fun _ => None)) Empty_set _ (two_timelines, empty_store)).1 in
  waiting st.1 0 = [] /\ waiting st.1 1 = [] /\ size (local_objects st.2) = 1%nat /\
  exists l0 l1, frozen st.1 0 = [l0] /\ frozen st.1 1 = [l1] /\ layer_key (layer_id l0) = layer_key (layer_id l1) /\
    Layer_serialize l0 <> Layer_serialize l1.
Proof.
  intros st. split; [vm_compute; reflexivity |]. split; [vm_compute; reflexivity |]. split; [vm_compute; reflexivity |].
  eexists _, _. split; [vm_compute; reflexivity |]. split; [vm_compute; reflexivity |]. split; [reflexivity |].
  vm_compute. congruence.
Qed.
