(* ===== verification/OffloadRace.v ===== *)
(** The offload worker and a collection at the same time (src/pageserver/src/offload.rs
    and the [gc] commands of control.rs and httpapi.rs).

    A pass takes the list of pending layers once, and then uploads them one by one
    without holding the repository; each is marked under the lock after its upload.
    A collection replaces the layers under the lock and deletes the objects of the
    old ones afterwards.  Passes, collections, writes and freezes interleave between
    any two of these steps, and any store operation may fail. *)

From S2P Require Import Prelude Bytes Text BTree Common PageVersion Layer Repository Timeline Tenant ObjStore Offload.

Inductive job :=
| Uploading (todo : list Layer)
| Marking (l : Layer) (todo : list Layer)
| Deleting (ids : list LayerId).

Section Race.
Context {S} `{HS : ObjectStore S}.

(** The next step of a job; there is none when it is done. *)
Definition job_step (j : job) (st : Inner * S) : option ((Inner * S) * job) :=
  let '(i, s) := st in
  match j with
  | Uploading (l :: todo) =>
      match os_put (layer_key (layer_id l)) (Layer_serialize l) s with
      | (s', Ok _) => Some ((i, s'), Marking l todo)
      | (s', Err _) => Some ((i, s'), Uploading todo)
      | (_, Panic) => None
      end
  | Marking l todo => Some ((mark_uploaded (layer_id l) i, s), Uploading todo)
  | Deleting (id :: ids) =>
      match os_delete (layer_key id) s with
      | (s', Ok _) | (s', Err _) => Some ((i, s'), Deleting ids)
      | (_, Panic) => None
      end
  | Uploading [] | Deleting [] => None
  end.

Inductive race : (Inner * S) * list job -> (Inner * S) * list job -> Prop :=
| race_write i s js mods i' :
    ingest mods i = Ok i' -> in_u64 (next_layer_id i') -> race ((i, s), js) ((i', s), js)
| race_freeze i s js : in_u64 (next_layer_id (freeze i)) -> race ((i, s), js) ((freeze i, s), js)
| race_pass i s js : race ((i, s), js) ((i, s), js ++ [Uploading (pending_offload i)])
| race_collect i s js h i' stats :
    compact h i = (i', stats) -> in_u64 (next_layer_id i') ->
    race ((i, s), js) ((i', s), js ++ [Deleting (removed_layer_ids stats)])
| race_job st js n j st' j' :
    js !! n = Some j -> job_step j st = Some (st', j') -> race (st, js) (st', <[n := j']> js).

Definition race_start (threshold : Z) (s : S) : (Inner * S) * list job := ((Repository_new threshold, s), []).

(** *** A pass on its own is [offload_pending] *)

Fixpoint run_job (fuel : nat) (j : job) (st : Inner * S) : option ((Inner * S) * job) :=
  match fuel with
  | O => Some (st, j)
  | Datatypes.S fuel' => match job_step j st with Some (st', j') => run_job fuel' j' st' | None => Some (st, j) end
  end.

Lemma run_pass {Er : Type} todo : forall n i s i' s' n',
  offload_loop (E := Er) todo n (i, s) = ((i', s'), Ok n') ->
  exists fuel, (fuel <= 2 * length todo)%nat /\ run_job fuel (Uploading todo) (i, s) = Some ((i', s'), Uploading []).
Proof using.
  induction todo as [| l todo IH]; intros n i s i' s' n'; cbn [offload_loop].
  - intros [= -> -> _]. by exists 0%nat.
  - destruct (os_put _ _ s) as [s1 [u | e |]] eqn:Ep; [| | done]; intros (fuel & Hf & E)%IH.
    + exists (2 + fuel)%nat. cbn [length]. split; [lia |]. cbn [run_job Nat.add job_step]. by rewrite Ep.
    + exists (1 + fuel)%nat. cbn [length]. split; [lia |]. cbn [run_job Nat.add job_step]. by rewrite Ep.
Qed.

Lemma run_deletes {Er : Type} ids : forall n i s s' n',
  delete_layers (E := Er) ids n s = (s', Ok n') -> run_job (length ids) (Deleting ids) (i, s) = Some ((i, s'), Deleting []).
Proof using.
  induction ids as [| id ids IH]; intros n i s s' n'; cbn [delete_layers length run_job job_step]; [by intros [= -> _] |].
  destruct (os_delete _ s) as [s1 [u | e |]]; [| | done]; apply IH.
Qed.
End Race.

(** ** What the jobs hold *)

(** A layer there was: its number is taken, by itself if by any. *)
Definition known (i : Inner) (l : Layer) : Prop :=
  0 <= layer_id l < next_layer_id i /\ forall l', l' ∈ layers i -> layer_id l' = layer_id l -> l' = l.

(** The number of a layer there is no longer. *)
Definition gone (i : Inner) (id : LayerId) : Prop :=
  0 <= id < next_layer_id i /\ forall l, l ∈ layers i -> layer_id l <> id.

Definition job_ok (objs : gmap bytes bytes) (i : Inner) (j : job) : Prop :=
  match j with
  | Uploading todo => Forall (known i) todo
  | Marking l todo => Forall (known i) (l :: todo) /\ (l ∈ layers i -> objs !! layer_key (layer_id l) = Some (Layer_serialize l))
  | Deleting ids => Forall (gone i) ids
  end.

(** Layers are dropped, and made with new numbers. *)
Definition succeeds (i i' : Inner) : Prop :=
  next_layer_id i <= next_layer_id i' /\ forall l, l ∈ layers i' -> l ∈ layers i \/ next_layer_id i <= layer_id l.

#[export] Instance succeeds_preorder : PreOrder succeeds.
Proof.
  split; [intros i; split; [done | by left] |]. intros i1 i2 i3 [N1 H1] [N2 H2]. split; [lia |].
  intros l [Hl | Hl]%H2; [by apply H1 | right; lia].
Qed.

Lemma succeeds_known i i' l : succeeds i i' -> known i l -> known i' l.
Proof.
  intros [Hn Hl] [Hid Hk]. split; [lia |]. intros l' [Hl' | Hl']%Hl E; [by apply Hk | lia].
Qed.

Lemma succeeds_gone i i' id : succeeds i i' -> gone i id -> gone i' id.
Proof. intros [Hn Hl] [Hid Hk]. split; [lia |]. intros l [Hl' | Hl']%Hl; [by apply Hk | lia]. Qed.

Lemma succeeds_job objs i i' j : succeeds i i' -> job_ok objs i j -> job_ok objs i' j.
Proof.
  intros Hs. destruct j as [todo | l todo | ids]; cbn [job_ok].
  - intros Hf. eapply Forall_impl; [exact Hf |]. intros l. by apply succeeds_known.
  - intros [Hf Hm]. split; [eapply Forall_impl; [exact Hf |]; intros x; by apply succeeds_known |].
    intros Hl. apply Hm. destruct (proj2 Hs l Hl) as [| Hge]; [done |]. apply Forall_cons_1 in Hf as [[Hid _] _]. lia.
  - intros Hf. eapply Forall_impl; [exact Hf |]. intros id. by apply succeeds_gone.
Qed.

Lemma freeze_succeeds i : succeeds i (freeze_locked i).
Proof.
  split; [apply next_freeze |]. unfold freeze_locked. destruct (memtable i) as [| e es]; [by left |]. cbn [layers].
  intros l [Hl | ->%list_elem_of_singleton]%elem_of_app; [by left | by right].
Qed.

Lemma ingest_succeeds mods : forall i i', ingest mods i = Ok i' -> succeeds i i'.
Proof.
  induction mods as [| m mods IH]; intros i i'; cbn [ingest]; [by intros [= <-] |].
  unfold ingest_one. case_test; [done |]. cbn [bind]. intros H%IH.
  set (j := mkInner _ _ _ _ _ _) in H. assert (Hj : succeeds i j) by (split; [done | by left]).
  etrans; [exact Hj |]. etrans; [| exact H]. case_test; [apply freeze_succeeds | done].
Qed.

Lemma compact_succeeds h i i' stats :
  numbered i -> compact h i = (i', stats) -> in_u64 (next_layer_id i') ->
  succeeds i i' /\ Forall (gone i') (removed_layer_ids stats).
Proof.
  intros Hn Ec Hb. destruct (compact_layers h i i' stats Hn Ec Hb) as (Hn' & Hls & _ & Hrm).
  assert (Hnext : next_layer_id i <= next_layer_id i').
  { unfold compact in Ec. destruct (layers i); [by injection Ec as <- _ |]. destruct (prune _ _); injection Ec as <- _; cbn; lia. }
  assert (Hnew : forall l, l ∈ layers i' -> next_layer_id i <= layer_id l).
  { intros l Hl. destruct Hls as [El | (l' & El & Eid)]; rewrite El in Hl; [by apply elem_of_nil in Hl |].
    apply list_elem_of_singleton in Hl as ->. lia. }
  split; [split; [done |]; intros l Hl; right; by apply Hnew |].
  rewrite Hrm. apply Forall_fmap, Forall_forall. intros l Hl. apply (nb_layers _ Hn) in Hl. split; [cbn; lia |].
  intros l' Hl'. apply Hnew in Hl'. cbn. lia.
Qed.

(** ** The store *)

Section Stored.
Context {S} `{HS : ObjectStore S, !ObjectStoreLaws S}.
Hypothesis layer_keys_plain : forall id, in_u64 id -> plain_key (layer_key id).

Definition race_ok (c : (Inner * S) * list job) : Prop :=
  depot_ok (objects c.1.2) c.1.1 /\ Forall (job_ok (objects c.1.2) c.1.1) c.2.

(** Only what the layers there are have stored matters. *)
Lemma store_change i (s s' : S) :
  (forall l, l ∈ layers i -> objects s !! layer_key (layer_id l) = Some (Layer_serialize l) ->
     objects s' !! layer_key (layer_id l) = Some (Layer_serialize l)) ->
  (depot_ok (objects s) i -> depot_ok (objects s') i) /\ forall j, job_ok (objects s) i j -> job_ok (objects s') i j.
Proof using.
  intros Hk. split.
  - intros [Hn Hs]. split; [done |]. intros l Hl Hu. by apply Hk, Hs.
  - intros [todo | l todo | ids]; cbn [job_ok]; [done | | done]. intros [Hf Hm]. split; [done |]. intros Hl. by apply Hk, Hm.
Qed.

Lemma put_keeps i (s s' : S) l :
  numbered i -> known i l -> objects s' = objects s \/ objects s' = <[layer_key (layer_id l) := Layer_serialize l]> (objects s) ->
  forall l', l' ∈ layers i -> objects s !! layer_key (layer_id l') = Some (Layer_serialize l') ->
    objects s' !! layer_key (layer_id l') = Some (Layer_serialize l').
Proof using.
  intros Hn [Hid Hk] [-> | ->] l' Hl' Hs; [done |]. destruct (decide (layer_key (layer_id l) = layer_key (layer_id l'))) as [E | Hne].
  - rewrite E, lookup_insert_eq. apply layer_key_inj in E; [by rewrite (Hk l' Hl') | pose proof (nb_next _ Hn); unfold in_u64 in *; lia |].
    by eapply layer_id_u64.
  - by rewrite lookup_insert_ne.
Qed.

Lemma delete_keeps i (s s' : S) id :
  numbered i -> gone i id -> objects s' = objects s \/ objects s' = delete (layer_key id) (objects s) ->
  forall l', l' ∈ layers i -> objects s !! layer_key (layer_id l') = Some (Layer_serialize l') ->
    objects s' !! layer_key (layer_id l') = Some (Layer_serialize l').
Proof using.
  intros Hn [Hid Hk] [-> | ->] l' Hl' Hs; [done |]. rewrite lookup_delete_ne; [done |]. intros E.
  apply layer_key_inj in E; [by apply (Hk l' Hl') | pose proof (nb_next _ Hn); unfold in_u64 in *; lia | by eapply layer_id_u64].
Qed.

Lemma mark_ok i (s : S) l :
  depot_ok (objects s) i -> known i l -> (l ∈ layers i -> objects s !! layer_key (layer_id l) = Some (Layer_serialize l)) ->
  depot_ok (objects s) (mark_uploaded (layer_id l) i) /\ succeeds i (mark_uploaded (layer_id l) i).
Proof using.
  intros [[H1 H2 H3 H4] Hs] [Hid Hk] Hm. split; [| by split; [| left]]. split; [split; cbn; try done |]; cbn.
  - intros id [->%elem_of_singleton | Hu]%elem_of_union; [lia | by apply H4].
  - intros l' Hl' [E%elem_of_singleton | Hu]%elem_of_union; [| by apply Hs]. apply Hk in E as ->; [| done]. by apply Hm.
Qed.

Lemma job_step_ok j i (s : S) i' s' j' :
  job_step j (i, s) = Some ((i', s'), j') -> depot_ok (objects s) i -> job_ok (objects s) i j ->
  depot_ok (objects s') i' /\ job_ok (objects s') i' j' /\ forall k, job_ok (objects s) i k -> job_ok (objects s') i' k.
Proof using layer_keys_plain.
  intros E Hd Hj. pose proof (dp_numbered _ _ Hd) as Hn.
  assert (Hu64 : forall id, 0 <= id < next_layer_id i -> in_u64 id) by (pose proof (nb_next _ Hn); unfold in_u64 in *; lia).
  destruct j as [[| l todo] | l todo | [| id ids]]; cbn [job_step job_ok] in *; [done | | | done |].
  - apply Forall_cons in Hj as [Hl Ht]. pose proof (os_put_law (layer_key (layer_id l)) (Layer_serialize l) s (layer_keys_plain _ (Hu64 _ (proj1 Hl)))) as Hp.
    unfold runs in Hp. destruct (os_put _ _ s) as [s1 [[] | e |]]; [| | done]; injection E as <- <- <-.
    + destruct (store_change i s s1 (put_keeps i s s1 l Hn Hl (or_intror Hp))) as [Hd' Hj']. split; [auto |]. split; [| auto].
      split; [by apply Forall_cons |]. intros _. by rewrite Hp, lookup_insert_eq.
    + destruct (store_change i s s1 (put_keeps i s s1 l Hn Hl ltac:(tauto))) as [Hd' Hj']. split; [auto |]. split; [done | auto].
  - injection E as <- <- <-. destruct Hj as [Hf Hm]. apply Forall_cons in Hf as [Hl Ht].
    destruct (mark_ok i s l Hd Hl Hm) as [Hd' Hs]. split; [done |]. split; [| intros k; by apply succeeds_job].
    by apply (succeeds_job (objects s) i _ (Uploading todo)).
  - apply Forall_cons in Hj as [Hg Ht]. pose proof (os_delete_law (layer_key id) s (layer_keys_plain _ (Hu64 _ (proj1 Hg)))) as Hp.
    unfold runs in Hp. destruct (os_delete _ s) as [s1 [[] | e |]]; [| | done]; injection E as <- <- <-;
      (destruct (store_change i s s1 (delete_keeps i s s1 id Hn Hg ltac:(tauto))) as [Hd' Hj']; split; [auto |]; split; [done | auto]).
Qed.

Lemma race_step_ok c c' : race c c' -> race_ok c -> race_ok c'.
Proof using layer_keys_plain.
  intros Hr. destruct Hr as [i s js mods i' Hi Hb | i s js Hb | i s js | i s js h i' stats Hc Hb | [i s] js n j [i' s'] j' Hn Hj];
    intros [Hd Hjs]; cbn [fst snd] in *.
  - split; cbn [fst snd]; [by apply (depot_ingest _ mods i) |]. eapply Forall_impl; [exact Hjs |]. intros j. apply succeeds_job. by eapply ingest_succeeds.
  - split; cbn [fst snd]; [by apply depot_freeze |]. eapply Forall_impl; [exact Hjs |]. intros j. apply succeeds_job, freeze_succeeds.
  - split; cbn [fst snd]; [done |]. apply Forall_app. split; [done |]. apply Forall_singleton, Forall_forall. intros l Hl%pending_in.
    pose proof (dp_numbered _ _ Hd) as Hn. split; [by apply (nb_layers _ Hn) |]. intros l' Hl' E. by apply (NoDup_key_inj _ _ _ _ (nb_distinct _ Hn)) in E.
  - pose proof (dp_numbered _ _ Hd) as Hn. destruct (compact_succeeds h i i' stats Hn Hc Hb) as [Hs Hg].
    destruct (compact_layers h i i' stats Hn Hc Hb) as (Hn' & Hls & Hup & _). split; cbn [fst snd].
    + split; [done |]. intros l Hl Hu. destruct Hls as [El | (l' & El & Eid)]; rewrite El in Hl; [by apply elem_of_nil in Hl |].
      apply list_elem_of_singleton in Hl as ->. apply Hup, (nb_uploaded _ Hn) in Hu. lia.
    + apply Forall_app. split; [| by apply Forall_singleton]. eapply Forall_impl; [exact Hjs |]. intros j. by apply succeeds_job.
  - destruct (job_step_ok _ _ _ _ _ _ Hj Hd (Forall_lookup_1 _ _ _ _ Hjs Hn)) as (Hd' & Hj' & Hall). split; cbn [fst snd]; [done |].
    apply Forall_insert; [| done]. eapply Forall_impl; [exact Hjs | exact Hall].
Qed.

(** C21: what is marked uploaded is stored, whatever runs at the same time.  However the
    steps of any number of offload passes and collections of a repository and its
    store interleave with each other and with writes and freezes, and whichever
    store operations fail, a layer that is marked uploaded can be read back from
    the store; and no deletion under way, nor any still to come of those begun,
    is of a layer there is. *)
Theorem marked_layers_survive_races threshold (s0 : S) i s js :
  rtc race (race_start threshold s0) ((i, s), js) ->
  (forall l, l ∈ layers i -> layer_id l ∈ uploaded i -> Layer_wf l ->
     exists bs, objects s !! layer_key (layer_id l) = Some bs /\ Layer_deserialize bs = Ok l) /\
  (forall ids id l, Deleting ids ∈ js -> id ∈ ids -> l ∈ layers i -> layer_key (layer_id l) <> layer_key id).
Proof using layer_keys_plain.
  intros Hr. assert (Hok : race_ok ((i, s), js)).
  { assert (H0 : race_ok (race_start threshold s0)).
    { split; [| done]. split; [split; cbn; [done | by intros l ?%elem_of_nil | constructor | by intros id ?%elem_of_empty] |].
      by intros l ?%elem_of_nil. }
    revert H0. induction Hr as [| c1 c2 c3 H1 H2 IH]; [done |]. intros H0. by eapply IH, race_step_ok. }
  destruct Hok as [Hd Hjs]. cbn [fst snd] in *. split.
  - intros l Hl Hu Hwf. eexists. split; [by apply (dp_stored _ _ Hd) |]. rewrite <- (app_nil_r (Layer_serialize l)). by apply Layer_deserialize_serialize.
  - intros ids id l Hj Hid Hl E. rewrite Forall_forall in Hjs. specialize (Hjs _ Hj). cbn [job_ok] in Hjs. rewrite Forall_forall in Hjs.
    destruct (Hjs id Hid) as [Hr' Hne]. apply (Hne l Hl). pose proof (dp_numbered _ _ Hd) as Hn. apply layer_key_inj in E; [done | by eapply layer_id_u64 |].
    pose proof (nb_next _ Hn). unfold in_u64 in *. lia.
Qed.
End Stored.

(** ** Two schedules *)

(** Let the jobs with these numbers take a step each. *)
Fixpoint take_turns {S} `{ObjectStore S} (turns : list nat) (c : (Inner * S) * list job) : option ((Inner * S) * list job) :=
  match turns with
  | [] => Some c
  | n :: turns' =>
      j ← c.2 !! n;
      r ← job_step j c.1;
      take_turns turns' (r.1, <[n := r.2]> c.2)
  end.

Lemma turns_race {S} `{ObjectStore S} turns : forall c c' : (Inner * S) * list job, take_turns turns c = Some c' -> rtc race c c'.
Proof.
  induction turns as [| n turns IH]; intros [st js] c'; cbn [take_turns fst snd]; [by intros [= ->] |].
  intros (j & Hj & ([st1 j1] & Hs & E)%bind_Some)%bind_Some. eapply rtc_l; [by eapply race_job | by apply IH].
Qed.

#[local] Instance calm_store : ObjectStore LocalObjectStore := LocalStore (fun _ => None).
#[local] Instance calm_laws : ObjectStoreLaws LocalObjectStore := LocalStoreLaws (fun _ => None).

(** Two layers, a pass that has begun, and a collection. *)
Definition collected : Inner := (compact 0 small_repo).1.
Definition race_demo : (Inner * LocalObjectStore) * list job :=
  ((collected, empty_store), [Uploading (layers small_repo); Deleting [0; 1]]).

Lemma race_demo_reached : rtc race (race_start 1 empty_store) race_demo.
Proof.
  eapply rtc_l; [apply (race_write (Repository_new 1) empty_store [] small_mods small_repo); [reflexivity | by_compute] |].
  eapply rtc_l; [apply race_pass |]. eapply rtc_l; [| apply rtc_refl].
  apply (race_collect small_repo empty_store [Uploading (pending_offload small_repo)] 0 collected (compact 0 small_repo).2); by_compute.
Qed.

Definition after_turns (turns : list nat) : (Inner * LocalObjectStore) * list job := default race_demo (take_turns turns race_demo).

Lemma after_turns_reached turns :
  match take_turns turns race_demo with Some _ => true | None => false end = true -> rtc race (race_start 1 empty_store) (after_turns turns).
Proof.
  unfold after_turns. destruct (take_turns turns race_demo) as [c |] eqn:E; [intros _ | done]. cbn [default].
  etrans; [apply race_demo_reached | by eapply turns_race].
Qed.

Definition merged_layer : Layer :=
  Layer_new 2 [(mkPageKey demo_rel 0, 10, Delta [mkByteEdit 0 [x61]]); (mkPageKey demo_rel 1, 11, Delta [mkByteEdit 1 [x62]])].

Lemma merged_layer_wf : Layer_wf merged_layer.
Proof.
  split; [by_compute |]. split; [by_compute |]. split; [| repeat constructor; by_compute].
  change (bt_sorted (entries merged_layer)) with (bt_sorted (bt_insert (mkPageKey demo_rel 1, 11) (Delta [mkByteEdit 1 [x62]])
    [(mkPageKey demo_rel 0, 10, Delta [mkByteEdit 0 [x61]])])). by apply bt_insert_sorted.
Qed.

(** The pass goes on with the layer it had, the deletions run, and the next pass
    uploads the layer of the collection. *)
Lemma marked_layers_survive_races_witness :
  let st := (run_job 2 (Uploading (layers collected)) (after_turns [0; 0; 1; 1; 0; 0]%nat).1) in
  exists i s, st = Some ((i, s), Uploading []) /\
    forall l, l ∈ layers i -> exists bs, objects s !! layer_key (layer_id l) = Some bs /\ Layer_deserialize bs = Ok l.
Proof.
  intros st. pose (c := after_turns [0; 0; 1; 1; 0; 0]%nat).
  assert (Hr : rtc race (race_start 1 empty_store) c) by (apply after_turns_reached; vm_compute; reflexivity).
  assert (Hp : rtc race c (c.1, c.2 ++ [Uploading (pending_offload c.1.1)])) by (destruct c as [[i s] js]; apply rtc_once, race_pass).
  assert (Ht : take_turns [2; 2]%nat (c.1, c.2 ++ [Uploading (pending_offload c.1.1)]) =
    Some (default c.1 (fst <$> st), c.2 ++ [Uploading []])) by (vm_compute; reflexivity).
  assert (Hall : rtc race (race_start 1 empty_store) (default c.1 (fst <$> st), c.2 ++ [Uploading []])).
  { etrans; [exact Hr |]. etrans; [exact Hp |]. by eapply turns_race. }
  assert (Est : match st with Some (_, Uploading []) => true | _ => false end = true) by (vm_compute; reflexivity).
  assert (Hwf : Forall Layer_wf (layers (default c.1 (fst <$> st)).1) /\
    Forall (fun l => layer_id l ∈ uploaded (default c.1 (fst <$> st)).1) (layers (default c.1 (fst <$> st)).1)).
  { split; [| apply (bool_decide_eq_true_1 _); vm_compute; reflexivity].
    replace (layers _) with [merged_layer] by (vm_compute; reflexivity). apply Forall_singleton, merged_layer_wf. }
  destruct st as [[[i s] [[| l todo] | l todo | ids]] |] eqn:Es; try discriminate. exists i, s. split; [done |]. cbn [default fmap option_fmap option_map fst] in *.
  destruct (@marked_layers_survive_races _ calm_store calm_laws (fun id _ => layer_key_local id) 1 empty_store i s _ Hall) as [Hm _].
  intros l Hl. destruct Hwf as [Hw Hu]. rewrite Forall_forall in Hw, Hu. apply Hm; [done | by apply Hu | by apply Hw].
Defined.

(** An upload that ends after the collection deleted its object puts it back: the
    layer is gone, every job is done, and its object stays in the store. *)
Lemma late_upload_leaves_object :
  let c := after_turns [1; 1; 0; 0; 0; 0]%nat in
  rtc race (race_start 1 empty_store) c /\ c.2 = [Uploading []; Deleting []] /\
  Forall (fun l => layer_id l <> 0) (layers c.1.1) /\ is_Some (local_objects c.1.2 !! layer_key 0).
Proof.
  intros c. split; [apply after_turns_reached; vm_compute; reflexivity |]. split; [vm_compute; reflexivity |].
  split; [apply (bool_decide_eq_true_1 _); vm_compute; reflexivity | apply (bool_decide_eq_true_1 _); vm_compute; reflexivity].
Qed.
