(* ===== verification/WalReceiver.v ===== *)
(** The WAL receiver (src/pageserver/src/walreceiver.rs): committed WAL is pulled
    from a safekeeper in chunks and fed to a long-lived stream decoder, and every
    complete record goes into a timeline.  The connection is a parameter; its
    instance below runs the safekeeper's own connection loop at the other end. *)

From S2P Require Import Prelude.
From S2P Require Import Bytes.
From S2P Require Import BTree.
From S2P Require Import Common.
From S2P Require Import WalService.
From S2P Require Import Consensus.
From S2P Require Import WalStorage.
From S2P Require Import Safekeeper.
From S2P Require Import PageVersion.
From S2P Require Import Layer.
From S2P Require Import WalRedo.
From S2P Require Import Repository.
From S2P Require Import WalDecode.
From S2P Require Import WalRecordFormat.
From S2P Require Import WalStream.
From S2P Require Import WalIngest.
From S2P Require Import Timeline.

Record WalReceiverConfig := mkWalReceiverConfig {
  rc_tenant : TenantId;
  rc_timeline : TimelineId;
  rc_start_lsn : Lsn;
  rc_max_chunk : Z;
  rc_poll_interval : Z
}.

Definition WalReceiverConfig_new (tenant : TenantId) (timeline : TimelineId) (start_lsn : Lsn) : WalReceiverConfig :=
  mkWalReceiverConfig tenant timeline start_lsn (2 ^ 20) 100.

Record WalReceiver := mkWalReceiver {
  wr_timeline : taddr;
  wr_cfg : WalReceiverConfig;
  wr_decoder : option WalStreamDecoder;
  wr_cursor : Lsn
}.

Inductive ReceiveError :=
| RIo
| RParse (e : Error)
| RDecode (e : WalDecodeError).

(** A connected byte stream. *)
Class Socket (P : Type) := {
  write_all : bytes -> stateM P ReceiveError unit;
  recv_exact : Z -> stateM P ReceiveError bytes
}.

(** [WalReceiver::connect], once the connection is open. *)
Definition WalReceiver_connect (timeline : taddr) (cfg : WalReceiverConfig) : WalReceiver :=
  mkWalReceiver timeline cfg None (rc_start_lsn cfg).

Section Receiver.
Context {P} `{Socket P} `{Decompressors}.

(** The whole state a poll works on: the receiver, the timelines and the connection. *)
Record Receiving := mkReceiving {
  rv_receiver : WalReceiver;
  rv_arena : arena_t;
  rv_stream : P
}.

Definition on_stream {A : Type} (m : stateM P ReceiveError A) : stateM Receiving ReceiveError A := fun s =>
  let '(p, res) := m (rv_stream s) in (mkReceiving (rv_receiver s) (rv_arena s) p, res).

Definition with_decoder (d : WalStreamDecoder) (r : WalReceiver) : WalReceiver :=
  mkWalReceiver (wr_timeline r) (wr_cfg r) (Some d) (wr_cursor r).

Definition with_cursor (c : Lsn) (r : WalReceiver) : WalReceiver :=
  mkWalReceiver (wr_timeline r) (wr_cfg r) (wr_decoder r) c.

Definition mod_receiver (f : WalReceiver -> WalReceiver) : stateM Receiving ReceiveError unit :=
  smod (fun s => mkReceiving (f (rv_receiver s)) (rv_arena s) (rv_stream s)).

(** [while let Some((lsn, record)) = decoder.poll_decode()?]; every record
    shortens the decoder's buffer. *)
Fixpoint receive_loop (fuel : nat) (ingested : Z) : stateM Receiving ReceiveError Z := fun s =>
  match fuel, wr_decoder (rv_receiver s) with
  | S fuel', Some d =>
      let '(d', polled) := poll_decode d in
      let s := mkReceiving (with_decoder d' (rv_receiver s)) (rv_arena s) (rv_stream s) in
      match polled with
      | Ok (Some (lsn, record)) =>
          let '(ts, res) := Timeline_ingest_record (wr_timeline (rv_receiver s)) lsn record (rv_arena s) in
          let s := mkReceiving (rv_receiver s) ts (rv_stream s) in
          match res with
          | Ok _ => receive_loop fuel' (ingested + 1) s
          | Err e => (s, Err (RDecode e))
          | Panic => (s, Panic)
          end
      | Ok None => (s, Ok ingested)
      | Err e => (s, Err (RDecode e))
      | Panic => (s, Panic)
      end
  | _, _ => (s, Panic)
  end.

Definition poll_request (r : WalReceiver) : ReadRequest :=
  mkReadRequest (rc_tenant (wr_cfg r)) (rc_timeline (wr_cfg r)) (wr_cursor r) (rc_max_chunk (wr_cfg r)).

Definition read_response : stateM Receiving ReceiveError ReadResponse :=
  let! header := on_stream (recv_exact READ_RESPONSE_HEADER_LEN) in
  let! plen := slift (map_err RParse (ReadResponse_payload_len header)) in
  let! payload := on_stream (recv_exact plen) in
  slift (map_err RParse (ReadResponse_decode (header ++ payload))).

(** Feed a chunk, on a new decoder when it does not continue the last one. *)
Definition feed_chunk (resp : ReadResponse) (r : WalReceiver) : WalReceiver :=
  let decoder := match wr_decoder r with
                 | Some d => if rs_start_lsn resp =? wr_cursor r then d else WalStreamDecoder_new (rs_start_lsn resp)
                 | None => WalStreamDecoder_new (rs_start_lsn resp)
                 end in
  with_decoder (feed_bytes (rs_payload resp) decoder) r.

Definition poll_once : stateM Receiving ReceiveError Z :=
  let! s := sget in
  let! _ := on_stream (write_all (ReadRequest_encode (poll_request (rv_receiver s)))) in
  let! resp := read_response in
  if len (rs_payload resp) =? 0 then sret 0
  else
    let! _ := mod_receiver (feed_chunk resp) in
    let next := rs_start_lsn resp + len (rs_payload resp) in
    if u64_max <? next then spanic
    else
      let! _ := mod_receiver (with_cursor next) in
      let! s := sget in
      receive_loop (S (length (default [] (ws_buf <$> wr_decoder (rv_receiver s))))) 0.

Lemma on_stream_ok {A : Type} (m : stateM P ReceiveError A) r ts p p' a :
  m p = (p', Ok a) -> on_stream m (mkReceiving r ts p) = (mkReceiving r ts p', Ok a).
Proof. intros E. unfold on_stream. cbn [rv_stream rv_receiver rv_arena]. by rewrite E. Qed.
End Receiver.
Arguments Receiving P : clear implicits.

(** ** A safekeeper at the other end

    What the receiver writes goes through the safekeeper's connection loop, whose
    replies can then be read; a request it fails on ends the connection. *)
Record Link := mkLink {
  lk_node : Safekeeper;
  lk_inbox : bytes
}.

Definition SafekeeperLink (fault : nat -> option Z) `{Replicator} : Socket Link := {|
  write_all msg l :=
    let '(k, res) := serve_connection fault (length msg) msg (lk_node l) in
    match res with
    | Ok out => (mkLink k (lk_inbox l ++ out), Ok tt)
    | Err _ => (mkLink k (lk_inbox l), Ok tt)
    | Panic => (mkLink k (lk_inbox l), Ok tt)
    end;
  recv_exact n l :=
    if n <=? len (lk_inbox l)
    then (mkLink (lk_node l) (sub (lk_inbox l) n (len (lk_inbox l) - n)), Ok (sub (lk_inbox l) 0 n))
    else (l, Err RIo)
|}.

(** ** One exchange *)

Definition read_header (r : ReadResponse) : bytes :=
  put_u32 MAGIC ++ z2b VERSION :: z2b (rs_status r) :: x00 :: x00 ::
  put_u64 (rs_commit_lsn r) ++ put_u64 (rs_start_lsn r) ++ put_u32 (len (rs_payload r)).

Lemma read_response_split r : ReadResponse_encode r = read_header r ++ rs_payload r.
Proof. unfold ReadResponse_encode, read_header. cbn [app]. rewrite <- !app_assoc. cbn [app]. by rewrite <- !app_assoc. Qed.

Lemma len_read_header r : len (read_header r) = READ_RESPONSE_HEADER_LEN.
Proof. unfold read_header, put_u64, put_u32. autorewrite with len. done. Qed.

Lemma read_header_payload_len r : ReadResponse_wf r -> ReadResponse_payload_len (read_header r) = Ok (len (rs_payload r)).
Proof.
  intros (H1 & H2 & H3 & H4). pose proof magic_u32. pose proof (len_nonneg (rs_payload r)).
  unfold ReadResponse_payload_len, read_header. unfold_wal. rewrite <- ?app_comm_cons, <- ?app_assoc. cbn [app].
  match goal with |- ?l = _ => rewrite <- (bind_ret l) end. run_decoder; reflexivity.
Qed.

Section Exchange.
Context (fault : nat -> option Z) `{Replicator} `{Decompressors}.

Let link : Socket Link := SafekeeperLink fault.
#[local] Existing Instance link.

Lemma write_request req k k' resp :
  ReadRequest_wf req -> handle_read fault req k = (k', Ok resp) ->
  write_all (ReadRequest_encode req) (mkLink k []) = (mkLink k' (ReadResponse_encode resp), Ok tt).
Proof.
  intros Hreq Hk. cbn [write_all link SafekeeperLink lk_node lk_inbox].
  assert (Hs : serve_connection fault (length (ReadRequest_encode req)) (ReadRequest_encode req) k = (k', Ok (ReadResponse_encode resp))).
  { pose proof (serve_connection_messages fault [MRead req] (length (ReadRequest_encode req)) [] k) as Hc.
    cbn [fmap list_fmap concat message_encode app] in Hc. rewrite !app_nil_r in Hc. rewrite Hc.
    - cbn [handle_messages handle_message]. unfold sbind, lift_storage. rewrite Hk. cbn. unfold sret. by rewrite app_nil_r.
    - by apply Forall_singleton.
    - unfold ReadRequest_encode, put_u32. destruct (be_bytes 4 MAGIC); cbn [app length]; lia.
    - done. }
  by rewrite Hs.
Qed.

Lemma read_response_ok r ts k resp :
  ReadResponse_wf resp ->
  read_response (mkReceiving r ts (mkLink k (ReadResponse_encode resp))) = (mkReceiving r ts (mkLink k []), Ok resp).
Proof.
  intros Hwf. pose proof (len_nonneg (rs_payload resp)). rewrite read_response_split. unfold read_response.
  assert (E1 : on_stream (recv_exact READ_RESPONSE_HEADER_LEN) (mkReceiving r ts (mkLink k (read_header resp ++ rs_payload resp))) =
    (mkReceiving r ts (mkLink k (rs_payload resp)), Ok (read_header resp))).
  { unfold on_stream. cbn [recv_exact link SafekeeperLink rv_stream rv_receiver rv_arena lk_inbox lk_node]. rewrite len_app, len_read_header.
    rewrite (proj2 (Z.leb_le _ _)) by lia. rewrite sub_app_exact by (by rewrite len_read_header).
    rewrite sub_app_ge by (rewrite len_read_header; lia). rewrite len_read_header, Z.sub_diag, sub_full by lia. done. }
  rewrite (sbind_Ok _ _ _ _ _ E1). rewrite read_header_payload_len by done. erewrite sbind_Ok by done.
  assert (E2 : on_stream (recv_exact (len (rs_payload resp))) (mkReceiving r ts (mkLink k (rs_payload resp))) =
    (mkReceiving r ts (mkLink k []), Ok (rs_payload resp))).
  { unfold on_stream. cbn [recv_exact link SafekeeperLink rv_stream rv_receiver rv_arena lk_inbox lk_node].
    rewrite (proj2 (Z.leb_le _ _)) by lia. rewrite (sub_full (rs_payload resp)) by done. by rewrite Z.sub_diag. }
  rewrite (sbind_Ok _ _ _ _ _ E2). rewrite <- read_response_split, <- (app_nil_r (ReadResponse_encode resp)).
  by rewrite ReadResponse_decode_encode.
Qed.
End Exchange.

(** ** Polling a safekeeper that holds a stream *)

Section Streaming.
Context `{Replicator} `{Decompressors} `{PageHeaders DEFAULT_WAL_SEG_SIZE}.
Abbreviation seg := DEFAULT_WAL_SEG_SIZE.

Let link : Socket Link := SafekeeperLink (fun _ => None).
#[local] Existing Instance link.

Context (es : list wal_entry) (start : Lsn) (cfg : WalReceiverConfig) (ts0 : arena_t) (a : taddr) (t0 : Timeline).
Abbreviation items := (item_of <$> es).
Abbreviation W := (stream seg start items).
Hypothesis es_ok : Forall entry_ok es.
Hypothesis start_ok : 0 <= start.
Hypothesis end_ok : start + len W <= u64_max.
Hypothesis cfg_ok : Id_wf (rc_tenant cfg) /\ Id_wf (rc_timeline cfg) /\ in_u32 (rc_max_chunk cfg).
Hypothesis ts0_a : ts0 !! a = Some t0.

(** The timelines when the receiver's has come to the repository [i]. *)
Definition arena_with (i : Inner) : arena_t := <[a := mkTimeline (tl_id t0) i (tl_ancestor t0)]> ts0.

Lemma ingest_record_arena lsn r i i' :
  ingest_record lsn r i = (i', Ok tt) -> Timeline_ingest_record a lsn r (arena_with i) = (arena_with i', Ok tt).
Proof.
  intros E. unfold Timeline_ingest_record, on_repo, arena_with. rewrite list_lookup_insert_eq by (by eapply lookup_lt_Some).
  cbn [tl_repo]. rewrite E. by rewrite list_insert_insert_eq.
Qed.

Lemma receive_loop_framing fuel : forall n r d its rest i p,
  wr_timeline r = a -> wr_decoder r = Some d -> framing seg d its rest -> (length (ws_buf d) < fuel)%nat ->
  Forall record_good (records_of seg (ws_lsn d) its) ->
  exists d' its' rs i', receive_loop (P := Link) fuel n (mkReceiving r (arena_with i) p) =
      (mkReceiving (with_decoder d' r) (arena_with i') p, Ok (n + len rs)) /\
    framing seg d' its' rest /\ records_of seg (ws_lsn d) its = rs ++ records_of seg (ws_lsn d') its' /\
    (rest = [] -> its' = []) /\ ingest (flat_map record_mods rs) i = Ok i'.
Proof.
  induction fuel as [| fuel IH]; intros n r d its rest i p Ha Hd Hfr Hf Hg; [lia |]. cbn [receive_loop rv_receiver]. rewrite Hd.
  destruct (poll_decode_framing seg ltac:(by_compute) d its rest Hfr) as (d1 & its1 & Hfr1 & [Hsome | Hnone]).
  - destruct Hsome as (l & rec & -> & Hl & Hr). rewrite Hr in *. apply Forall_cons in Hg as [Hg1 Hg2].
    destruct (ingest_record_ok l rec i Hg1) as (i1 & Hi1 & E1). cbn [rv_receiver rv_arena rv_stream with_decoder wr_timeline].
    rewrite Ha, (ingest_record_arena _ _ _ _ E1).
    destruct (IH (n + 1) (with_decoder d1 r) d1 its1 rest i1 p) as (d2 & its2 & rs & i2 & E2 & Hfr2 & Hr2 & Hn2 & Hi2);
      [done | done | done | unfold len in Hl; lia | done |].
    exists d2, its2, ((l, rec) :: rs), i2. unfold with_decoder in E2 |- *. cbn [wr_timeline wr_cfg wr_decoder wr_cursor] in E2.
    split; [rewrite E2, len_cons; do 2 f_equal; lia |]. split; [done |]. split; [by rewrite Hr2 |]. split; [done |].
    cbn [flat_map]. by rewrite (ingest_app _ _ _ _ Hi1).
  - destruct Hnone as (-> & Hr & Hn). exists d1, its1, [], i. cbn [rv_arena rv_stream]. rewrite Z.add_0_r.
    split; [done |]. split; [done |]. split; [done |]. split; [done | done].
Qed.

(** What a receiver has taken in: the records completed before its cursor. *)
Definition received (r : WalReceiver) (ts : arena_t) (rs : list (Lsn * bytes)) : Prop := exists i,
  wr_timeline r = a /\ wr_cfg r = cfg /\ start <= wr_cursor r <= start + len W /\
  ts = arena_with i /\ ingest (flat_map record_mods rs) (tl_repo t0) = Ok i /\
  let rest := drop (Z.to_nat (wr_cursor r - start)) W in
  match wr_decoder r with
  | None => wr_cursor r = start /\ rs = []
  | Some d => exists its, framing seg d its rest /\
      records_of seg start items = rs ++ records_of seg (ws_lsn d) its /\ (rest = [] -> its = [])
  end.

(** A node whose committed log, from the start of the stream, is a prefix of it. *)
Definition serves (k : Safekeeper) : Prop := exists al,
  wal_rep (storage k) al /\ lo al <= start /\ commit_lsn (consensus k) <= alog_end al /\
  0 <= commit_lsn (consensus k) <= start + len W /\
  (start <= commit_lsn (consensus k) ->
   sub (data al) (start - lo al) (commit_lsn (consensus k) - start) = sub W 0 (commit_lsn (consensus k) - start)).

Lemma serves_read k r :
  serves k -> wr_cfg r = cfg -> start <= wr_cursor r <= start + len W ->
  let n := Z.min (saturating_sub (commit_lsn (consensus k)) (wr_cursor r)) (rc_max_chunk cfg) in
  0 <= n /\ exists k', handle_read (fun _ => None) (poll_request r) k =
    (k', Ok (mkReadResponse STATUS_OK (commit_lsn (consensus k)) (wr_cursor r) (sub W (wr_cursor r - start) n))).
Proof.
  intros (al & HR & Hlo & Hend & Hc & Hpre) Hcfg Hcur n. destruct cfg_ok as (_ & _ & Hmax). unfold in_u32 in Hmax.
  assert (Hn : 0 <= n) by (unfold n, saturating_sub; lia). split; [done |].
  pose proof (handle_read_ok (fun _ => None) k al (poll_request r) HR) as H2. cbn [poll_request rr_start_lsn rr_max_bytes] in H2.
  rewrite Hcfg, Z.max_l in H2 by lia. fold n in H2. specialize (H2 ltac:(lia) ltac:(lia) ltac:(lia)). unfold runs in H2.
  destruct (handle_read _ _ k) as [k' [resp | e |]]; [| | done].
  - exists k'. destruct H2 as (-> & _ & _). do 3 f_equal. destruct (Z.le_gt_cases n 0) as [Hz | Hz].
    { replace n with 0 by lia. by rewrite !sub_zero. }
    assert (Hcn : wr_cursor r + n <= commit_lsn (consensus k)) by (unfold n, saturating_sub in *; lia).
    rewrite <- (sub_sub W 0 (commit_lsn (consensus k) - start) (wr_cursor r - start) n) by lia. rewrite <- Hpre by lia.
    rewrite sub_sub by lia. f_equal. lia.
  - destruct H2 as [[_ [j Hj]] | (_ & Hpos & Hlt)]; [done |]. unfold n, saturating_sub in *. lia.
Qed.

Lemma sub_drop (l : bytes) o n : 0 <= o -> 0 <= n -> sub l o n ++ drop (Z.to_nat (o + n)) l = drop (Z.to_nat o) l.
Proof.
  intros. unfold sub. rewrite <- (take_drop (Z.to_nat n) (drop (Z.to_nat o) l)) at 2. rewrite drop_drop. do 2 f_equal. lia.
Qed.

Lemma records_good : Forall record_good (records_of seg start items).
Proof. apply (records_of_entries es start es_ok). Qed.

(** The decoder a chunk is fed to, and what it frames afterwards. *)
Lemma feed_chunk_framing r rs payload c :
  wr_timeline r = a -> start <= wr_cursor r -> payload = sub W (wr_cursor r - start) (len payload) ->
  (let rest := drop (Z.to_nat (wr_cursor r - start)) W in
   match wr_decoder r with
   | None => wr_cursor r = start /\ rs = []
   | Some d => exists its, framing seg d its rest /\
       records_of seg start items = rs ++ records_of seg (ws_lsn d) its /\ (rest = [] -> its = [])
   end) ->
  exists d its, feed_chunk (mkReadResponse STATUS_OK c (wr_cursor r) payload) r = with_decoder d r /\
    framing seg d its (drop (Z.to_nat (wr_cursor r + len payload - start)) W) /\
    records_of seg start items = rs ++ records_of seg (ws_lsn d) its.
Proof.
  intros Ha Hcur Hp Hd. pose proof (len_nonneg payload) as Hl.
  assert (Hsplit : payload ++ drop (Z.to_nat (wr_cursor r + len payload - start)) W = drop (Z.to_nat (wr_cursor r - start)) W).
  { rewrite Hp at 1. replace (wr_cursor r + len payload - start) with (wr_cursor r - start + len payload) by lia.
    apply sub_drop; lia. }
  cbv zeta in Hd. unfold feed_chunk. cbn [rs_start_lsn rs_payload].
  assert (Hitems : Forall item_ok items) by (apply Forall_fmap; eapply Forall_impl; [exact es_ok | apply entry_item_ok]).
  destruct (wr_decoder r) as [d|].
  - rewrite Z.eqb_refl. destruct Hd as (its & [Hs Hz Hb Hok] & Hrs & _). exists (feed_bytes payload d), its.
    split; [done |]. split; [| done]. split; [done | done | | done]. cbn [feed_bytes ws_buf ws_lsn].
    by rewrite <- app_assoc, Hsplit.
  - destruct Hd as [Ec ->]. rewrite Ec in Hsplit |- *. exists (feed_bytes payload (WalStreamDecoder_new start)), items. split; [done |]. split; [| done].
    split; [done | done | | done]. cbn [feed_bytes ws_buf ws_lsn WalStreamDecoder_new app].
    rewrite Hsplit. by rewrite Z.sub_diag.
Qed.

Lemma poll_once_ok r ts rs k :
  received r ts rs -> serves k ->
  let n := Z.min (saturating_sub (commit_lsn (consensus k)) (wr_cursor r)) (rc_max_chunk cfg) in
  exists r' ts' rs' k', poll_once (mkReceiving r ts (mkLink k [])) = (mkReceiving r' ts' (mkLink k' []), Ok (len rs')) /\
    received r' ts' (rs ++ rs') /\ wr_cursor r' = wr_cursor r + n.
Proof.
  intros (i & Ha & Hcfg & Hcur & -> & Hi & Hdec) Hk n.
  destruct (serves_read k r Hk Hcfg Hcur) as (Hn & k' & Hread). fold n in Hn, Hread. set (payload := sub W _ n) in Hread.
  destruct Hk as (al & _ & _ & _ & Hc & _). destruct cfg_ok as (Hte & Hti & Hmax).
  assert (Hlen : len payload = n).
  { unfold payload. destruct (Z.le_gt_cases n 0); [assert (E0 : n = 0) by lia; by rewrite E0 |].
    apply sub_len; [lia | done |]. unfold n, saturating_sub in *. lia. }
  set (resp := mkReadResponse _ _ _ payload) in Hread.
  assert (Hreq : ReadRequest_wf (poll_request r)).
  { unfold ReadRequest_wf, poll_request. cbn. rewrite Hcfg. unfold in_u64, u64_max in *. split_and!; [done | done | lia | lia | done]. }
  assert (Hresp : ReadResponse_wf resp).
  { unfold ReadResponse_wf. cbn. unfold in_u64, u64_max, in_u32 in *. rewrite Hlen. split_and!; try done; lia. }
  unfold poll_once. erewrite sbind_Ok by done. cbn [rv_receiver].
  pose proof (on_stream_ok _ r (arena_with i) _ _ _ (write_request (fun _ => None) _ _ _ _ Hreq Hread)) as Ew.
  rewrite (sbind_Ok _ _ _ _ _ Ew), (sbind_Ok _ _ _ _ _ (read_response_ok (fun _ => None) r _ k' resp Hresp)).
  cbn [rs_payload rs_start_lsn resp]. rewrite Hlen. destruct (Z.eqb_spec n 0) as [Hz | Hz].
  { exists r, (arena_with i), [], k'. rewrite app_nil_r. split; [done |]. split; [by exists i | lia]. }
  destruct (feed_chunk_framing r rs payload (commit_lsn (consensus k)) Ha ltac:(lia) ltac:(by rewrite Hlen) Hdec)
    as (d & its & Ef & Hfr & Hrs). rewrite Hlen in Hfr.
  unfold mod_receiver. erewrite sbind_Ok by done. cbn [rv_receiver rv_arena rv_stream].
  assert (Hle : wr_cursor r + n <= start + len W) by (unfold n, saturating_sub in *; lia).
  rewrite (proj2 (Z.ltb_ge _ _)) by lia. erewrite sbind_Ok by done. cbn [rv_receiver rv_arena rv_stream].
  erewrite sbind_Ok by done. cbn [rv_receiver]. fold resp in Ef. rewrite Ef. cbn [with_cursor with_decoder wr_decoder fmap option_fmap option_map default].
  pose proof records_good as Hg. rewrite Hrs in Hg. apply Forall_app in Hg as [_ Hg].
  destruct (receive_loop_framing (S (length (ws_buf d))) 0 (with_cursor (wr_cursor r + n) (with_decoder d r)) d its
              (drop (Z.to_nat (wr_cursor r + n - start)) W) i (mkLink k' []) Ha eq_refl Hfr (Nat.lt_succ_diag_r _) Hg)
    as (d' & its' & rs' & i' & E & Hfr' & Hrs' & Hnil & Hi').
  exists (with_decoder d' (with_cursor (wr_cursor r + n) (with_decoder d r))), (arena_with i'), rs', k'.
  split; [exact E |]. split; [| done]. exists i'. cbn [with_decoder with_cursor wr_timeline wr_cfg wr_cursor wr_decoder].
  split_and!; [done | done | lia | lia | done | |].
  - rewrite flat_map_app. by rewrite (ingest_app _ _ _ _ Hi).
  - exists its'. split; [done |]. split; [| done]. by rewrite Hrs, Hrs', app_assoc.
Qed.

(** ** Any sequence of polls, the safekeeper committing more in between *)

Hypothesis cfg_start : rc_start_lsn cfg = start.
Context (th : Z).
Hypothesis t0_new : tl_repo t0 = Repository_new th.

Inductive receive_run : WalReceiver -> arena_t -> Prop :=
| receive_start : receive_run (WalReceiver_connect a cfg) ts0
| receive_poll r ts k r' ts' k' n :
    receive_run r ts -> serves k ->
    poll_once (mkReceiving r ts (mkLink k [])) = (mkReceiving r' ts' (mkLink k' []), Ok n) -> receive_run r' ts'.

Lemma received_start : received (WalReceiver_connect a cfg) ts0 [].
Proof.
  exists (tl_repo t0). pose proof (len_nonneg W). cbn. rewrite cfg_start. split_and!; try done; try lia.
  unfold arena_with. symmetry. apply list_insert_id. rewrite ts0_a. by destruct t0.
Qed.

Lemma receive_run_received r ts : receive_run r ts -> exists rs, received r ts rs.
Proof.
  induction 1 as [| r ts k r' ts' k' n _ [rs IH] Hk E]; [exists []; apply received_start |].
  destruct (poll_once_ok r ts rs k IH Hk) as (r1 & ts1 & rs1 & k1 & E1 & Hr & _). exists (rs ++ rs1). congruence.
Qed.

Lemma received_all r ts rs : received r ts rs -> wr_cursor r = start + len W -> rs = records_of seg start items.
Proof.
  intros (i & _ & _ & _ & _ & _ & Hd) Hc. cbv zeta in Hd.
  assert (Hitems : Forall item_ok items) by (apply Forall_fmap; eapply Forall_impl; [exact es_ok | apply entry_item_ok]).
  destruct (wr_decoder r) as [d|].
  - destruct Hd as (its & _ & -> & Hnil). rewrite Hnil; [cbn; by rewrite app_nil_r |]. apply drop_ge. rewrite Hc. unfold len. lia.
  - destruct Hd as [Hs ->]. replace items with (@nil wal_item); [done |]. symmetry. apply (stream_nil_inv seg start); [done |].
    apply nil_length_inv. unfold len in Hc. lia.
Qed.

(** C4: committed WAL reaches the pages.  A receiver that polls safekeepers, in
    chunks of whatever size and while they commit more, never fails: each poll
    advances its cursor to the commit position, or by one chunk towards it.
    What its timeline holds is always the modifications of the first records of
    the stream; once the cursor is at the end of the stream, a read of any page
    at any LSN is what redo makes of the versions the whole stream gave it, and
    no other timeline has changed. *)
Theorem committed_wal_reaches_pages {R} `{WalRedoLaws R} r ts :
  receive_run r ts ->
  (forall k, serves k ->
     exists r' ts' k' n, poll_once (mkReceiving r ts (mkLink k [])) = (mkReceiving r' ts' (mkLink k' []), Ok n) /\
       wr_cursor r' = wr_cursor r + Z.min (saturating_sub (commit_lsn (consensus k)) (wr_cursor r)) (rc_max_chunk cfg)) /\
  (forall b, b <> a -> ts !! b = ts0 !! b) /\
  exists t, ts !! a = Some t /\
    (exists rs rs', records_of seg start items = rs ++ rs' /\
       ingest (flat_map record_mods rs) (Repository_new th) = Ok (tl_repo t)) /\
    (wr_cursor r = start + len W ->
     (forall key lsn (redo : R), get_page (tl_repo t) key lsn redo =
        let '(redo', res) := reconstruct key lsn (range_versions key lsn (spec_ingest (stream_mods start es) [])) redo in
        (redo', lookup_result res)) /\
     (forall rel lsn, get_rel_size (tl_repo t) rel lsn = high_water rel lsn (stream_mods start es))).
Proof.
  intros Hrun. destruct (receive_run_received r ts Hrun) as [rs Hr]. split.
  { intros k Hk. destruct (poll_once_ok r ts rs k Hr Hk) as (r' & ts' & rs' & k' & E & _ & Hc). eauto 10. }
  pose proof Hr as (i & _ & _ & _ & Hts & Hi & Hd). split.
  { intros b Hb. rewrite Hts. unfold arena_with. by rewrite list_lookup_insert_ne. }
  exists (mkTimeline (tl_id t0) i (tl_ancestor t0)). split.
  { rewrite Hts. unfold arena_with. apply list_lookup_insert_eq. by eapply lookup_lt_Some. }
  cbn [tl_repo]. rewrite t0_new in Hi. split.
  - exists rs. cbv zeta in Hd. destruct (wr_decoder r) as [d|].
    + destruct Hd as (its & _ & Hrs & _). eauto.
    + destruct Hd as [_ ->]. by exists (records_of seg start items).
  - intros Hc. rewrite (received_all r ts rs Hr Hc) in Hi. destruct (records_of_entries es start es_ok) as (Hm & _ & _).
    rewrite Hm in Hi. by apply (ingested_stream_reads es start th).
Qed.
End Streaming.

(** *** Two records from a node of three, in two chunks *)

Definition sample_stream : bytes := stream DEFAULT_WAL_SEG_SIZE 8 (item_of <$> sample_wal).
Definition sample_append : AppendRequest := mkAppendRequest Id_ZERO Id_ZERO 2 8 sample_stream.
Definition sample_node : Safekeeper := (handle_append (fun _ => None) (H := LocalSimReplicator [2; 3]) sample_append example_node).1.
Definition sample_cfg : WalReceiverConfig := mkWalReceiverConfig Id_ZERO Id_ZERO 8 64 100.
Definition sample_timeline : Timeline := Timeline_root Id_ZERO (Repository_new 100).

Lemma sample_commit : commit_lsn (consensus sample_node) = 8 + len sample_stream /\ len sample_stream = 104.
Proof. split; vm_compute; reflexivity. Qed.

Lemma example_node_rep : wal_rep (storage example_node) (mkALog 8 [] 8).
Proof. apply store_at_rep; by_compute. Qed.

Lemma sample_node_serves : serves sample_wal 8 sample_node.
Proof.
  destruct sample_commit as [Hc Hl]. exists (mkALog 8 sample_stream (8 + len sample_stream)).
  assert (Hw : wal_rep (storage sample_node) (mkALog 8 sample_stream (8 + len sample_stream))).
  { pose proof (store_run_ok (fun _ => None) example_node (mkALog 8 [] 8) sample_append) as H.
    assert (H2 : ar_start_lsn sample_append + len (ar_payload sample_append) <= u64_max).
    { cbn [sample_append ar_start_lsn ar_payload]. rewrite Hl. clear. by_compute. }
    specialize (H example_node_rep ltac:(cbn; lia) H2). unfold runs in H.
    assert (Es : storage sample_node = storage (store_run (fun _ => None) sample_append example_node).1) by (vm_compute; reflexivity).
    assert (Eok : is_ok (store_run (fun _ => None) sample_append example_node).2 = true) by (vm_compute; reflexivity).
    rewrite Es. destruct (store_run (fun _ => None) sample_append example_node) as [k' [l | e |]]; [| done | done].
    destruct H as (s' & a' & -> & Ha & _ & Hr & _). cbn [fst storage with_storage].
    replace a' with (mkALog 8 sample_stream 8) in Hr; [exact Hr |].
    assert (Ha' : alog_append (mkALog 8 [] 8) (ar_start_lsn sample_append) (ar_payload sample_append) = Ok (mkALog 8 sample_stream 8))
      by (vm_compute; reflexivity).
    rewrite Ha' in Ha. by injection Ha. }
  split; [exact Hw |]. rewrite Hc. unfold alog_end. cbn [lo data]. fold sample_stream. split; [lia |]. split; [lia |]. split; [lia |].
  intros _. replace (8 + len sample_stream - 8) with (len sample_stream) by lia. reflexivity.
Qed.

Definition sample_run := receive_run (H := LocalSimReplicator []) (H0 := no_codecs) sample_wal 8 sample_cfg [sample_timeline] 0.

Lemma sample_cfg_ok : Id_wf (rc_tenant sample_cfg) /\ Id_wf (rc_timeline sample_cfg) /\ in_u32 (rc_max_chunk sample_cfg).
Proof. by_compute. Qed.

Lemma sample_end_ok : 8 + len sample_stream <= u64_max.
Proof. rewrite (proj2 sample_commit). by_compute. Qed.

Lemma committed_wal_reaches_pages_witness :
  exists r ts t, sample_run r ts /\ wr_cursor r = 112 /\ ts !! 0%nat = Some t /\
    get_page (tl_repo t) (mkPageKey (mkRelTag 1663 5 16384 Main) 7) 100 tt =
      (tt, Ok (Page ([x61; x62] ++ repeat x00 (Z.to_nat 8190)))) /\
    get_rel_size (tl_repo t) (mkRelTag 1663 5 16384 Main) 200 = Some 9.
Proof.
  pose proof (fun r ts => @committed_wal_reaches_pages (LocalSimReplicator []) no_codecs _ sample_wal 8 sample_cfg [sample_timeline] 0
    sample_timeline sample_wal_ok ltac:(lia) sample_end_ok sample_cfg_ok eq_refl eq_refl 100 eq_refl unit _ _ r ts) as H.
  destruct sample_commit as [Hc Hl].
  destruct (H _ _ (receive_start _ _ _ _ _)) as [Hp _].
  destruct (Hp sample_node sample_node_serves) as (r1 & ts1 & k1 & n1 & E1 & C1).
  pose proof (receive_poll _ _ _ _ _ _ _ _ _ _ _ _ (receive_start _ _ _ _ _) sample_node_serves E1) as R1.
  destruct (H _ _ R1) as [Hp1 _]. destruct (Hp1 sample_node sample_node_serves) as (r2 & ts2 & k2 & n2 & E2 & C2).
  pose proof (receive_poll _ _ _ _ _ _ _ _ _ _ _ _ R1 sample_node_serves E2) as R2.
  destruct (H _ _ R2) as (_ & _ & t & Ht & _ & Hread). exists r2, ts2, t. split; [exact R2 |].
  assert (C : wr_cursor r2 = 112).
  { rewrite C2, C1, Hc, Hl. reflexivity. }
  split; [exact C |]. split; [exact Ht |].
  destruct Hread as [Hg Hz]; [rewrite C; fold sample_stream; rewrite Hl; reflexivity |].
  rewrite Hg, Hz. split; vm_compute; reflexivity.
Defined.
