(* ===== verification/PageServer.v ===== *)
(** The page server's two network endpoints (src/pageserver/src/server.rs): page
    requests routed to the tenant and timeline they name, and the ingest of
    length-prefixed modifications.  A connection is the bytes the client sends
    before it closes, and the bytes written back so far. *)

From S2P Require Import Prelude.
From S2P Require Import Bytes.
From S2P Require Import Text.
From S2P Require Import Common.
From S2P Require Import PageService.
From S2P Require Import PageVersion.
From S2P Require Import WalRedo.
From S2P Require Import Repository.
From S2P Require Import WalDecode.
From S2P Require Import WalIngest.
From S2P Require Import Timeline.
From S2P Require Import Tenant.
From S2P Require Import TenantManager.

Definition PAGE_REQ_HEADER : Z := 8.
Definition MAX_INGEST_BODY : Z := 2 ^ 20.

Inductive ConnError :=
| CEof
| CParse (e : Error)
| CPage (e : PageError)
| CDecode (e : WalDecodeError)
| CBodyLength (n : Z).

(** [read_exact] of [n] bytes. *)
Definition take_exact {E} (n : Z) (e : E) (input : bytes) : outcome E (bytes * bytes) :=
  if n <=? len input then Ok (sub input 0 n, sub input n (len input - n)) else Err e.

Definition request_ids (req : Request) : TenantId * TimelineId :=
  match req with
  | GetPage tenant timeline _ _ _ | GetRelSize tenant timeline _ _ => (tenant, timeline)
  end.

(** The timeline a request is for, with the tenant that holds it. *)
Definition route (tm : TenantManager) (ids : TenantId * TimelineId) : option (Tenant * taddr) :=
  g ← tm_get tm ids.1; tn ← tm_arena tm !! g; a ← get_timeline tn ids.2; Some (tn, a).

Definition unknown_message (ids : TenantId * TimelineId) : bytes :=
  text "unknown tenant/timeline " ++ Id_display ids.1 ++ text "/" ++ Id_display ids.2.

Section Pages.
Context {R} `{WalRedoManager R} (tm : TenantManager).

Definition answer (req : Request) : stateM R ConnError Response := fun r =>
  match route tm (request_ids req) with
  | None => (r, Ok (PageService.Error_ (unknown_message (request_ids req))))
  | Some (tn, a) =>
      match req with
      | GetPage _ _ rel block lsn =>
          match Timeline_get_page (arena tn) a (mkPageKey rel block) lsn r with
          | (r', Ok (Page page)) => (r', Ok (PageService.Page page))
          | (r', Ok NotFound) => (r', Ok PageService.NotFound)
          | (r', Err e) => (r', Ok (PageService.Error_ (text "reconstruction failed: " ++ PageError_display e)))
          | (r', Panic) => (r', Panic)
          end
      | GetRelSize _ _ rel lsn =>
          match Timeline_get_rel_size (E := ConnError) (arena tn) a rel lsn with
          | Ok (Some n) => (r, Ok (PageService.RelSize n))
          | Ok None => (r, Ok PageService.NotFound)
          | Err e => (r, Err e)
          | Panic => (r, Panic)
          end
      end
  end.

(** The rest of one request after its header. *)
Definition read_request (header input : bytes) : outcome ConnError (Request * bytes) :=
  let? total := map_err CParse (Request_total_len header) in
  let? (body, input) := take_exact (total - PAGE_REQ_HEADER) CEof input in
  let? req := map_err CParse (Request_decode (header ++ body)) in
  Ok (req, input).

(** The loop: end of stream inside a header ends it without an error.  Each round
    takes a header, so [length input] rounds suffice. *)
Fixpoint handle_page_conn (fuel : nat) (input : bytes) : stateM (bytes * R) ConnError unit :=
  match take_exact PAGE_REQ_HEADER CEof input with
  | Ok (header, input) =>
      match fuel with
      | O => spanic
      | S fuel' =>
          let! (req, input) := slift (read_request header input) in
          let! resp := (fun '(out, r) => let '(r', res) := answer req r in ((out, r'), res)) in
          let! _ := smod (fun '(out, r) => (out ++ Response_encode resp, r)) in
          handle_page_conn fuel' input
      end
  | _ => sret tt
  end.
End Pages.

(** ** Ingest *)

Section Ingest.
Context (a : taddr).

Definition read_modification (len_buf input : bytes) : outcome ConnError (Modification * bytes) :=
  let n := be_val len_buf in
  ensure (0 <? n) && (n <=? MAX_INGEST_BODY) else CBodyLength n in
  let? (body, input) := take_exact n CEof input in
  let? m := map_err CPage (Modification_decode body) in
  Ok (m, input).

Fixpoint handle_ingest_conn (fuel : nat) (input : bytes) : stateM (bytes * arena_t) ConnError unit :=
  match take_exact 4 CEof input with
  | Ok (len_buf, input) =>
      match fuel with
      | O => spanic
      | S fuel' =>
          let! (m, input) := slift (read_modification len_buf input) in
          let! _ := (fun '(out, ts) => let '(ts', res) := Timeline_ingest a [m] ts in ((out, ts'), map_err CDecode res)) in
          let! _ := smod (fun '(out, ts) => (out ++ [x00], ts)) in
          handle_ingest_conn fuel' input
      end
  | _ => sret tt
  end.
End Ingest.

(** ** Framing *)

Lemma taken_exact_app {E} (x y : bytes) n (e : E) : n = len x -> take_exact n e (x ++ y) = Ok (x, y).
Proof.
  intros ->. pose proof (len_nonneg y). unfold take_exact. rewrite len_app, (proj2 (Z.leb_le _ _)) by lia.
  rewrite sub_app_exact by done. rewrite sub_app_ge by lia. by rewrite Z.add_simpl_l, Z.sub_diag, sub_full.
Qed.

Lemma taken_exact_short {E} n (e : E) (x : bytes) : len x < n -> take_exact n e x = Err e.
Proof. intros H. unfold take_exact. by rewrite (proj2 (Z.leb_gt _ _)). Qed.

Lemma len_Request_encode r : Request_wf r -> 8 <= len (Request_encode r).
Proof.
  intros H. unfold Request_encode, Request_prefix, PageService.put_u32, PageService.put_u64.
  destruct r; autorewrite with len; len_lia.
Qed.

(** A request is read whole: its header, then the rest its header announces. *)
Lemma read_request_ok req rest :
  Request_wf req ->
  exists header body, Request_encode req = header ++ body /\ len header = PAGE_REQ_HEADER /\
    read_request header (body ++ rest) = Ok (req, rest).
Proof.
  intros Hwf. pose proof (len_Request_encode req Hwf) as Hl. set (enc := Request_encode req) in *.
  exists (sub enc 0 8), (sub enc 8 (len enc - 8)). assert (He : sub enc 0 8 ++ sub enc 8 (len enc - 8) = enc).
  { transitivity (sub enc 0 (8 + (len enc - 8))); [symmetry; apply (sub_app_split enc 0 8); lia | apply sub_full; lia]. }
  split; [done |]. split; [apply (sub_len enc 0 8); lia |]. unfold read_request, enc at 1. rewrite Request_total_len_encode by done. cbn [bind map_err].
  fold enc. rewrite taken_exact_app by (unfold PAGE_REQ_HEADER; rewrite sub_len; lia). cbn [bind].
  rewrite He, <- (app_nil_r enc). unfold enc. by rewrite Request_decode_encode.
Qed.

Section Serving.
Context {R} `{WalRedoManager R} (tm : TenantManager).

(** Requests answered one after the other. *)
Fixpoint answers (reqs : list Request) : stateM R ConnError (list Response) :=
  match reqs with
  | [] => sret []
  | req :: reqs' =>
      let! resp := answer tm req in
      let! resps := answers reqs' in
      sret (resp :: resps)
  end.

Lemma handle_page_conn_answers reqs tail : forall fuel out (r r' : R) resps,
  Forall Request_wf reqs -> len tail < PAGE_REQ_HEADER -> (length reqs <= fuel)%nat ->
  answers reqs r = (r', Ok resps) ->
  handle_page_conn tm fuel (concat (Request_encode <$> reqs) ++ tail) (out, r) =
  ((out ++ concat (Response_encode <$> resps), r'), Ok tt).
Proof.
  induction reqs as [| req reqs IH]; intros fuel out r r' resps Hwf Ht Hf Ha.
  { cbn in Ha. injection Ha as <- <-. cbn [fmap list_fmap concat app]. rewrite app_nil_r.
    by destruct fuel; cbn [handle_page_conn]; rewrite taken_exact_short. }
  apply Forall_cons in Hwf as [Hreq Hwf]. destruct fuel as [| fuel]; [cbn in Hf; lia |]. cbn [fmap list_fmap concat].
  destruct (read_request_ok req (concat (Request_encode <$> reqs) ++ tail) Hreq) as (header & body & He & Hh & Hr).
  rewrite He, <- !app_assoc. cbn [handle_page_conn]. rewrite taken_exact_app by done. erewrite sbind_Ok by (by rewrite Hr).
  cbn beta iota. cbn [answers] in Ha. unfold sbind in Ha. destruct (answer tm req r) as [r1 [resp | e |]] eqn:E1; try discriminate.
  destruct (answers reqs r1) as [r2 [resps' | e |]] eqn:E2; try discriminate. cbn in Ha. injection Ha as <- <-.
  erewrite sbind_Ok by (cbn; by rewrite E1). erewrite sbind_Ok by done. cbn beta iota.
  rewrite (IH fuel _ r1 r2 resps'); [| done | done | cbn in Hf; lia | done]. cbn [fmap list_fmap concat]. by rewrite app_assoc.
Qed.

(** A page connection answers its requests one by one and in order.  On any
    stream of well-formed requests, possibly cut inside the next header, the
    server reads exactly those requests, routes each to the tenant and timeline
    it names, writes one reply to each in order, and ends without an error. *)
Theorem page_connection_answers_in_order (reqs : list Request) (tail out : bytes) (r r' : R) resps :
  Forall Request_wf reqs -> len tail < PAGE_REQ_HEADER -> answers reqs r = (r', Ok resps) ->
  handle_page_conn tm (length reqs) (concat (Request_encode <$> reqs) ++ tail) (out, r) =
    ((out ++ concat (Response_encode <$> resps), r'), Ok tt) /\
  length resps = length reqs.
Proof.
  intros Hwf Ht Ha. split; [by apply handle_page_conn_answers |].
  revert r r' resps Ha. clear Hwf. induction reqs as [| req reqs IH]; intros r r' resps Ha; [by injection Ha as _ <- |].
  cbn [answers] in Ha. unfold sbind in Ha. destruct (answer tm req r) as [r1 [resp | e |]]; try discriminate.
  destruct (answers reqs r1) as [r2 [resps' | e |]] eqn:E2; try discriminate. injection Ha as _ <-. cbn. f_equal. by eapply IH.
Qed.
End Serving.

(** ** A compute node reading a branch *)

Section Compute.
Context {R} `{HM : WalRedoManager R, !WalRedoLaws R, !FullReplay R} `{HashOrder}.

(** The reply a page's history calls for. *)
Definition page_reply (res : outcome PageError PageLookup) : Response :=
  match res with
  | Ok (Page p) => PageService.Page p
  | Ok NotFound => PageService.NotFound
  | Err e => PageService.Error_ (text "reconstruction failed: " ++ PageError_display e)
  | Panic => PageService.NotFound
  end.

Lemma page_at_no_panic key (lsn : Lsn) vs (r : R) :
  fr_ready r -> fr_key key -> Forall (fr_version key) vs -> len vs <= fr_limit -> page_at fr_apply key vs <> Panic.
Proof.
  intros Hr Hk Hv Hn E. destruct (fr_replay key lsn vs r Hr Hk Hv Hn) as (r' & E' & _). rewrite E in E'.
  apply (reconstruct_no_panic key lsn vs r); [eapply Forall_impl; [exact Hv | apply fr_version_ok] | by rewrite E'].
Qed.

End Compute.

Definition demo_server : TenantManager := mkTenantManager 2 {[ tid x07 := 0%nat ]} [demo_tenant 4].


(** An unknown tenant, then the size of a relation on the branch. *)
Lemma page_connection_answers_in_order_witness :
  let reqs := [GetRelSize (tid x09) (tid x02) demo_rel 100; GetRelSize (tid x07) (tid x02) demo_rel 100] in
  let resps := [PageService.Error_ (unknown_message (tid x09, tid x02)); PageService.RelSize 1] in
  handle_page_conn demo_server 2 (concat (Request_encode <$> reqs) ++ [x00; x01]) ([], tt) =
    (([] ++ concat (Response_encode <$> resps), tt), Ok tt) /\ length resps = length reqs.
Proof.
  intros reqs resps. apply (page_connection_answers_in_order (R := unit) demo_server reqs [x00; x01] [] tt tt resps).
  - apply Forall_cons. split; [by_compute |]. apply Forall_singleton. by_compute.
  - done.
  - vm_compute; reflexivity.
Defined.

(** Position zero is a position like any other, not the latest one: the page
    written at position 10 does not exist there. *)
Lemma zero_lsn_is_not_latest :
  (answer (R := unit) demo_server (GetPage (tid x07) (tid x01) demo_rel 0 0) tt).2 = Ok PageService.NotFound /\
  (answer (R := unit) demo_server (GetPage (tid x07) (tid x01) demo_rel 0 100) tt).2 <> Ok PageService.NotFound.
Proof. split; vm_compute; [reflexivity | discriminate]. Qed.

(** ** Ingest *)

Definition ingest_frame (m : Modification) : bytes :=
  be_bytes 4 (len (Modification_encode m)) ++ Modification_encode m.

Definition frame_ok (m : Modification) : Prop :=
  Modification_wf m /\ m_block m < u32_max /\ len (Modification_encode m) <= MAX_INGEST_BODY.

Lemma read_modification_ok m rest :
  frame_ok m -> read_modification (be_bytes 4 (len (Modification_encode m))) (Modification_encode m ++ rest) = Ok (m, rest).
Proof.
  intros (Hwf & _ & Hl). unfold read_modification, MAX_INGEST_BODY in *.
  assert (Hp : 0 < len (Modification_encode m)).
  { unfold Modification_encode, write_key. pose proof (len_nonneg (write_version (m_version m))). autorewrite with len. lia. }
  rewrite be_val_u32 by (unfold in_u32; lia). rewrite (proj2 (Z.ltb_lt _ _)), (proj2 (Z.leb_le _ _)) by lia. cbn [andb].
  rewrite taken_exact_app by done. cbn [bind]. rewrite <- (app_nil_r (Modification_encode m)) at 1.
  by rewrite Modification_decode_encode.
Qed.

Lemma Timeline_ingest_ok a (ts : arena_t) t m :
  ts !! a = Some t -> m_block m < u32_max ->
  exists i, ingest [m] (tl_repo t) = Ok i /\ Timeline_ingest a [m] ts = (<[a := mkTimeline (tl_id t) i (tl_ancestor t)]> ts, Ok tt).
Proof.
  intros Ht Hm. destruct (ingest_ok [m] (tl_repo t)) as [i Hi]; [by apply Forall_singleton |]. exists i. split; [done |].
  unfold Timeline_ingest, on_repo, ingest_all. rewrite Ht. by rewrite Hi.
Qed.

Lemma handle_ingest_conn_ok a mods tail : forall fuel out ts t,
  Forall frame_ok mods -> len tail < 4 -> (length mods <= fuel)%nat -> ts !! a = Some t ->
  exists i, ingest mods (tl_repo t) = Ok i /\
    handle_ingest_conn a fuel (concat (ingest_frame <$> mods) ++ tail) (out, ts) =
    ((out ++ replicate (length mods) x00, <[a := mkTimeline (tl_id t) i (tl_ancestor t)]> ts), Ok tt).
Proof.
  induction mods as [| m mods IH]; intros fuel out ts t Hok Htl Hf Ht.
  { exists (tl_repo t). split; [done |]. cbn [fmap list_fmap concat app length replicate]. rewrite app_nil_r.
    rewrite list_insert_id by (rewrite Ht; by destruct t). by destruct fuel; cbn [handle_ingest_conn]; rewrite taken_exact_short. }
  apply Forall_cons in Hok as [Hm Hok]. destruct fuel as [| fuel]; [cbn in Hf; lia |].
  destruct (Timeline_ingest_ok a ts t m Ht) as (i1 & Hi1 & E1); [apply Hm |].
  cbn [fmap list_fmap concat]. unfold ingest_frame at 1. rewrite <- !app_assoc. cbn [handle_ingest_conn].
  rewrite taken_exact_app by (by rewrite len_be_bytes). rewrite read_modification_ok by done. erewrite sbind_Ok by done. cbn beta iota.
  erewrite sbind_Ok by (cbn; by rewrite E1). erewrite sbind_Ok by done. cbn beta iota.
  set (t1 := mkTimeline (tl_id t) i1 (tl_ancestor t)).
  destruct (IH fuel (out ++ [x00]) (<[a := t1]> ts) t1) as (i & Hi & E2); [done | done | cbn in Hf; lia | |].
  { apply list_lookup_insert_eq. by eapply lookup_lt_Some. }
  exists i. split; [exact (eq_trans (ingest_app [m] mods _ _ Hi1) Hi) |]. rewrite E2, list_insert_insert_eq. cbn [length replicate].
  by rewrite <- app_assoc.
Qed.

(** The push endpoint applies and acknowledges every modification.  On any
    stream of well-formed modifications within the size limit, possibly cut
    inside the next length, each is applied to the timeline in order and
    acknowledged with one byte, other timelines are untouched, and the
    connection ends without an error. *)
Theorem ingest_connection_applies_all (a : taddr) (mods : list Modification) (tail out : bytes) (ts : arena_t) (t : Timeline) :
  Forall frame_ok mods -> len tail < 4 -> ts !! a = Some t ->
  exists i, ingest mods (tl_repo t) = Ok i /\
    handle_ingest_conn a (length mods) (concat (ingest_frame <$> mods) ++ tail) (out, ts) =
    ((out ++ replicate (length mods) x00, <[a := mkTimeline (tl_id t) i (tl_ancestor t)]> ts), Ok tt).
Proof. intros Hok Htl Ht. by apply handle_ingest_conn_ok. Qed.

Lemma ingest_connection_applies_all_witness :
  let mods := [mkModification demo_rel 0 25 (Delta [mkByteEdit 1 [x62]]); mkModification demo_rel 1 26 (Delta [mkByteEdit 2 [x63]])] in
  let t := Timeline_root (tid x01) (Repository_new 10) in
  exists i, ingest mods (Repository_new 10) = Ok i /\
    handle_ingest_conn 0 2 (concat (ingest_frame <$> mods) ++ [x00]) ([], [t]) =
    (([] ++ [x00; x00], [mkTimeline (tid x01) i None]), Ok tt).
Proof.
  intros mods t. apply (ingest_connection_applies_all 0 mods [x00] [] [t] t).
  - apply Forall_cons. split; [| apply Forall_singleton]; (split; [| split; vm_compute; congruence]);
      (split; [by_compute |]; split; [by_compute |]; split; [by_compute |]; split; [by_compute |]; apply Forall_singleton; by_compute).
  - done.
  - reflexivity.
Defined.
