(* ===== verification/Control.v ===== *)
(** The line-oriented control endpoint (src/pageserver/src/control.rs) and the
    start-up of the page server's topology (src/pageserver/src/main.rs).  The
    connection is the bytes the client sends before it closes; the object store,
    the catalog format, socket addresses and connecting to them are parameters. *)

From S2P Require Import Prelude.
From S2P Require Import Bytes.
From S2P Require Import BTree.
From S2P Require Import Text.
From S2P Require Import Common.
From S2P Require Import PageVersion.
From S2P Require Import WalRedo.
From S2P Require Import Repository.
From S2P Require Import WalDecode.
From S2P Require Import Timeline.
From S2P Require Import Tenant.
From S2P Require Import TenantManager.
From S2P Require Import ObjStore.
From S2P Require Import Catalog.
From S2P Require Import Offload.
From S2P Require Import WalReceiver.

(** [SocketAddr] and [TcpStream::connect]; a failed connection has an error text. *)
Class Network := {
  SocketAddr : Type;
  addr_from_str : bytes -> option SocketAddr;
  addr_display : SocketAddr -> bytes;
  tcp_connect : SocketAddr -> option bytes
}.

Inductive ControlError := LineIo.

(** [s.parse::<TimelineId>().ok()] of an optional word. *)
Definition parse_id {E} (w : option bytes) : outcome E (option Id) :=
  match w with
  | None => Ok None
  | Some s => match Id_from_str s with Ok id => Ok (Some id) | Err _ => Ok None | Panic => Panic end
  end.

Definition parse_lsn (w : option bytes) : option Lsn := w ≫= parse_u64.

Definition is_word (w : option bytes) (s : string) : bool := bool_decide (w = Some (text s)).

Definition TenantError_display (e : TenantError) : bytes :=
  match e with
  | AlreadyExists id => text "timeline " ++ Id_display id ++ text " already exists"
  | NoSuchParent id => text "parent timeline " ++ Id_display id ++ text " does not exist"
  end.

(** The reply to a topology change. *)
Definition tenant_reply {E A : Type} (m : stateM Tenant TenantError A) (ok_text : bytes) : stateM Tenant E bytes := fun tn =>
  match m tn with
  | (tn', Ok _) => (tn', Ok (text "ok " ++ ok_text))
  | (tn', Err e) => (tn', Ok (text "err " ++ TenantError_display e))
  | (tn', Panic) => (tn', Panic)
  end.

Definition versions_removed_total (stats : list (TimelineId * CompactionStats)) : Z :=
  fold_right (fun s n => versions_removed s.2 + n) 0 stats.

(** ** Commands of one tenant *)

Section Exec.
Context `{HashOrder}.

Definition sorted_ids (ids : list Id) : bytes := join_words (sort_key (fun s : bytes => s) (Id_display <$> ids)).

Definition exec {E : Type} (line : bytes) : stateM Tenant E bytes :=
  let words := split_whitespace line in
  match words !! 0%nat with
  | None => sret (text "err empty command")
  | Some cmd =>
      if bool_decide (cmd = text "create") then
        let! id := slift (parse_id (words !! 1%nat)) in
        match id with
        | Some id => tenant_reply (create_timeline id) (text "created " ++ Id_display id)
        | None => sret (text "err usage: create <timeline-hex>")
        end
      else if bool_decide (cmd = text "branch") then
        let! new := slift (parse_id (words !! 1%nat)) in
        let! parent := slift (parse_id (words !! 2%nat)) in
        let lsn := parse_lsn (words !! 3%nat) in
        match new, parent, lsn with
        | Some n, Some p, Some l =>
            tenant_reply (branch_timeline n p l)
              (text "branched " ++ Id_display n ++ text " from " ++ Id_display p ++ text " @ " ++ fmt_dec l)
        | _, _, _ => sret (text "err usage: branch <new-hex> <parent-hex> <lsn>")
        end
      else if bool_decide (cmd = text "list") then
        let! tn := sget in
        sret (text "ok " ++ sorted_ids (timeline_ids tn))
      else if bool_decide (cmd = text "gc") then
        match parse_lsn (words !! 1%nat) with
        | Some horizon =>
            let! stats := gc horizon in
            sret (text "ok gc @ " ++ fmt_dec horizon ++ text ": " ++ fmt_dec (len stats) ++ text " timelines, " ++
                  fmt_dec (versions_removed_total stats) ++ text " versions removed")
        | None => sret (text "err usage: gc <horizon-lsn>")
        end
      else sret (text "err unknown command '" ++ cmd ++ text "'")
  end.
End Exec.

(** ** The endpoint *)

Section Endpoint.
Context {S : Type} `{ObjectStore S} `{CatalogJson} `{HashOrder} `{Network}.

(** Whether the manager has a catalog, whether [gc] was given the store, and the
    control token. *)
Record ControlConfig := mkControlConfig {
  cc_catalog : bool;
  cc_gc_store : bool;
  cc_token : option bytes
}.

Context (cfg : ControlConfig).

(** The shared state: the tenants, the one object store, and the receivers started. *)
Record Control := mkControl {
  ct_tenants : TenantManager;
  ct_objects : S;
  ct_receivers : list (SocketAddr * gaddr * WalReceiver)
}.

Definition on_tenant {A : Type} (g : gaddr) (m : stateM Tenant ControlError A) : stateM Control ControlError A := fun c =>
  let '(tm, res) := in_tenant g m (ct_tenants c) in (mkControl tm (ct_objects c) (ct_receivers c), res).

Definition on_objects {A : Type} (m : stateM S ControlError A) : stateM Control ControlError A := fun c =>
  let '(s, res) := m (ct_objects c) in (mkControl (ct_tenants c) s (ct_receivers c), res).

Definition gc_command (g : gaddr) (line : bytes) : stateM Control ControlError bytes :=
  match parse_lsn (split_whitespace line !! 1%nat) with
  | None => sret (text "err usage: gc <horizon-lsn>")
  | Some horizon =>
      let! stats := on_tenant g (gc horizon) in
      let! deleted := (if cc_gc_store cfg
                       then on_objects (delete_layers (flat_map (fun s => removed_layer_ids s.2) stats) 0)
                       else sret 0) in
      sret (text "ok gc @ " ++ fmt_dec horizon ++ text ": " ++ fmt_dec (len stats) ++ text " timelines, " ++
            fmt_dec (versions_removed_total stats) ++ text " versions removed, " ++ fmt_dec deleted ++ text " objects deleted")
  end.

Definition receive_command (g : gaddr) (tenant_id : TenantId) (line : bytes) : stateM Control ControlError bytes :=
  let words := split_whitespace line in
  let! timeline := slift (parse_id (words !! 1%nat)) in
  let addr := words !! 2%nat ≫= addr_from_str in
  let start_lsn := parse_lsn (words !! 3%nat) in
  match timeline, addr, start_lsn with
  | Some timeline, Some addr, Some start_lsn =>
      let! found := on_tenant g (fun tn => (tn, Ok (get_timeline tn timeline))) in
      match found with
      | None => sret (text "err unknown timeline " ++ Id_display timeline)
      | Some tl =>
          match tcp_connect addr with
          | None =>
              let receiver := WalReceiver_connect tl (WalReceiverConfig_new tenant_id timeline start_lsn) in
              let! _ := smod (fun c => mkControl (ct_tenants c) (ct_objects c) (ct_receivers c ++ [(addr, g, receiver)])) in
              sret (text "ok receiving " ++ Id_display timeline ++ text " from " ++ addr_display addr ++ text " @ " ++ fmt_dec start_lsn)
          | Some e => sret (text "err connecting to safekeeper: " ++ e)
          end
      end
  | _, _, _ => sret (text "err usage: receive <timeline-hex> <safekeeper-host:port> <start-lsn>")
  end.

(** A connection: its current tenant and whether it is authenticated. *)
Record Session := mkSession {
  se_tenant_id : TenantId;
  se_tenant : gaddr;
  se_authed : bool
}.

Definition persist_control : stateM Control ControlError unit := fun c =>
  if cc_catalog cfg then
    match persist (ct_tenants c) (Some (ct_objects c)) with
    | (Some s, res) => (mkControl (ct_tenants c) s (ct_receivers c), res)
    | (None, res) => (c, res)
    end
  else (c, Ok tt).

(** The line of an unauthenticated connection. *)
Definition auth_line (line : bytes) (s : Session) : Session * bytes :=
  let words := split_whitespace line in
  if is_word (words !! 0%nat) "auth" then
    match words !! 1%nat with
    | Some tok =>
        if bool_decide (cc_token cfg = Some tok)
        then (mkSession (se_tenant_id s) (se_tenant s) true, text "ok authenticated")
        else (s, text "err invalid token")
    | None => (s, text "err invalid token")
    end
  else (s, text "err unauthorized: send 'auth <token>' first").

Definition tenant_line (line : bytes) (s : Session) : stateM Control ControlError (Session * bytes) :=
  let! id := slift (parse_id (split_whitespace line !! 1%nat)) in
  match id with
  | Some id => fun c =>
      let '(tm, g) := get_or_create id (ct_tenants c) in
      (mkControl tm (ct_objects c) (ct_receivers c), Ok (mkSession id g (se_authed s), text "ok tenant " ++ Id_display id))
  | None => sret (s, text "err usage: tenant <tenant-hex>")
  end.

Definition with_session {A : Type} (s : Session) (m : stateM Control ControlError A) : stateM Control ControlError (Session * A) :=
  let! a := m in sret (s, a).

(** One command of an authenticated connection. *)
Definition command_line (line : bytes) (s : Session) : stateM Control ControlError (Session * bytes) :=
  let cmd := split_whitespace line !! 0%nat in
  let! (s, reply) :=
    (if is_word cmd "tenants" then
       let! c := sget in sret (s, text "ok " ++ sorted_ids (tenant_ids (ct_tenants c)))
     else if is_word cmd "tenant" then tenant_line line s
     else if is_word cmd "gc" then with_session s (gc_command (se_tenant s) line)
     else if is_word cmd "receive" then with_session s (receive_command (se_tenant s) (se_tenant_id s) line)
     else with_session s (on_tenant (se_tenant s) (exec line))) in
  let! _ := (if (is_word cmd "create" || is_word cmd "branch" || is_word cmd "tenant") && starts_with (text "ok") reply
             then persist_control else sret tt) in
  sret (s, reply).

Definition handle_line (line : bytes) (s : Session) : stateM Control ControlError (Session * bytes) :=
  if se_authed s then command_line line s
  else let '(s, reply) := auth_line line s in sret (s, reply).

(** [lines.next_line()]: up to a line feed, or what is left at the end; a carriage
    return before the line feed is dropped; text that is not UTF-8 is an error. *)
Definition newline : byte := z2b 10.
Definition strip_cr (l : bytes) : bytes :=
  match rev l with b :: r => if bool_decide (b = z2b 13) then rev r else l | [] => l end.

Definition next_line (input : bytes) : outcome ControlError (option (bytes * bytes)) :=
  match input with
  | [] => Ok None
  | _ =>
      let '(raw, line, rest) := match split_once newline input with
                                | Some (l, r) => (l, strip_cr l, r)
                                | None => (input, input, [])
                                end in
      if utf8_valid raw then Ok (Some (line, rest)) else Err LineIo
  end.

(** The loop, with the replies written so far; every line takes at least one byte. *)
Fixpoint conn_loop (fuel : nat) (input : bytes) (s : Session) : stateM (bytes * Control) ControlError unit := fun oc =>
  match next_line input with
  | Ok None => (oc, Ok tt)
  | Err e => (oc, Err e)
  | Panic => (oc, Panic)
  | Ok (Some (line, rest)) =>
      match fuel with
      | O => (oc, Panic)
      | Datatypes.S fuel' =>
          match handle_line line s oc.2 with
          | (c, Ok (s', reply)) => conn_loop fuel' rest s' (oc.1 ++ reply ++ [newline], c)
          | (c, Err e) => ((oc.1, c), Err e)
          | (c, Panic) => ((oc.1, c), Panic)
          end
      end
  end.

Definition handle_conn (input : bytes) : stateM (bytes * Control) ControlError unit := fun '(out, c) =>
  let '(tm, g) := get_or_create Id_ZERO (ct_tenants c) in
  let s := mkSession Id_ZERO g (match cc_token cfg with None => true | Some _ => false end) in
  conn_loop (length input) input s (out, mkControl tm (ct_objects c) (ct_receivers c)).
End Endpoint.

(** ** Commands and what they do *)

Lemma text_word s : bool_decide (text s <> []) && forallb (fun b => (33 <=? ch b) && (ch b <? 128)) (text s) = true -> word (text s).
Proof.
  intros [H1 H2]%andb_true_iff. split; [by apply bool_decide_eq_true in H1 |]. apply Forall_forall. intros b Hb%list_elem_of_In.
  rewrite forallb_forall in H2. apply H2, andb_true_iff in Hb as [?%Z.leb_le ?%Z.ltb_lt]. by split.
Qed.

Lemma Id_display_word i : Id_wf i -> word (Id_display i).
Proof.
  intros Hi. split; [| apply Id_display_ascii]. intros E. apply (f_equal len) in E. rewrite Id_display_len, Hi in E. done.
Qed.

#[local] Hint Resolve Id_display_word fmt_dec_word : core.

Section Commands.
Context `{HashOrder}.

Lemma parse_id_display {E} i : Id_wf i -> parse_id (E := E) (Some (Id_display i)) = Ok (Some i).
Proof. intros Hi. unfold parse_id. by rewrite Id_parse_print. Qed.

Lemma exec_create {E : Type} id :
  Id_wf id -> exec (E := E) (join_words [text "create"; Id_display id]) =
    tenant_reply (create_timeline id) (text "created " ++ Id_display id).
Proof.
  intros Hid. unfold exec. rewrite split_whitespace_join by (apply Forall_cons; split; [by apply text_word | apply Forall_singleton; auto]).
  cbn [lookup list_lookup]. rewrite bool_decide_true by done. rewrite parse_id_display by done. reflexivity.
Qed.

Lemma exec_branch {E : Type} n p l :
  Id_wf n -> Id_wf p -> in_u64 l -> exec (E := E) (join_words [text "branch"; Id_display n; Id_display p; fmt_dec l]) =
    tenant_reply (branch_timeline n p l) (text "branched " ++ Id_display n ++ text " from " ++ Id_display p ++ text " @ " ++ fmt_dec l).
Proof.
  intros Hn Hp Hl. unfold exec. rewrite split_whitespace_join.
  2: { apply Forall_cons; split; [apply text_word; reflexivity |]. do 2 (apply Forall_cons; split; [auto |]).
       apply Forall_singleton, fmt_dec_word. unfold in_u64 in Hl. lia. }
  cbn [lookup list_lookup]. rewrite (bool_decide_false (_ = text "create")) by done. rewrite bool_decide_true by done.
  rewrite !parse_id_display by done. unfold parse_lsn. cbn [mbind option_bind]. rewrite parse_fmt_dec by done. reflexivity.
Qed.

(** The reply to a change that is refused, and the tenant as it was. *)
Definition refused (tn tn' : Tenant) (reply : bytes) : Prop := tn' = tn /\ starts_with (text "err ") reply = true.

(** The topology commands do what they say.  [branch <new> <parent> <lsn>]
    typed with the printed forms of two identifiers and a position adds exactly
    that branch when the new timeline is absent and the parent present, and
    [create <id>] exactly that root when it is absent, each with an [ok] reply;
    otherwise the tenant is unchanged and the reply is an [err]. *)
Theorem topology_commands_take_effect (tn : Tenant) (n p : TimelineId) (l : Lsn) :
  tenant_wf tn -> Id_wf n -> Id_wf p -> in_u64 l ->
  (exists tn' reply, exec (E := ControlError) (join_words [text "branch"; Id_display n; Id_display p; fmt_dec l]) tn = (tn', Ok reply) /\
     match topo tn n, topo tn p with
     | None, Some _ => starts_with (text "ok branched ") reply = true /\ tenant_wf tn' /\
         forall i, topo tn' i = if decide (i = n) then Some (Some (p, l)) else topo tn i
     | _, _ => refused tn tn' reply
     end) /\
  (exists tn' reply, exec (E := ControlError) (join_words [text "create"; Id_display n]) tn = (tn', Ok reply) /\
     match topo tn n with
     | None => starts_with (text "ok created ") reply = true /\ tenant_wf tn' /\
         forall i, topo tn' i = if decide (i = n) then Some None else topo tn i
     | Some _ => refused tn tn' reply
     end).
Proof.
  intros Hwf Hn Hp Hl. rewrite exec_branch, exec_create by done. unfold tenant_reply.
  pose proof (topo_None tn n (tw_ok _ Hwf)) as Nn. pose proof (topo_None tn p (tw_ok _ Hwf)) as Np. split.
  - destruct (topo tn n) as [x|] eqn:En.
    + unfold branch_timeline. destruct (timelines tn !! n) as [a|] eqn:Et; [| exfalso; pose proof (proj2 Nn eq_refl); congruence].
      by eexists _, _.
    + destruct (topo tn p) as [y|] eqn:Ep.
      * destruct (branch_timeline_topo tn n p l Hwf Hn En) as (tn' & b & -> & Hw & Ht); [by rewrite Ep |]. by eexists _, _.
      * unfold branch_timeline. rewrite (proj1 Nn eq_refl), (proj1 Np eq_refl). by eexists _, _.
  - destruct (topo tn n) as [x|] eqn:En.
    + unfold create_timeline. destruct (timelines tn !! n) as [a|] eqn:Et; [| exfalso; pose proof (proj2 Nn eq_refl); congruence].
      by eexists _, _.
    + destruct (create_timeline_topo tn n Hwf Hn En) as (tn' & b & -> & Hw & Ht). by eexists _, _.
Qed.
End Commands.

Lemma topology_commands_take_effect_witness :
  let tn := (create_timeline (tid x01) (Tenant_new 2)).1 in
  exists tn' reply, exec (E := ControlError) (join_words [text "branch"; Id_display (tid x02); Id_display (tid x01); fmt_dec 20]) tn =
    (tn', Ok reply) /\ starts_with (text "ok branched ") reply = true /\ topo tn' (tid x02) = Some (Some (tid x01, 20)).
Proof.
  intros tn.
  destruct (topology_commands_take_effect tn (tid x02) (tid x01) 20) as [(tn' & reply & E & Hr) _].
  - apply (create_timeline_wf (Tenant_new 2) (tid x01) tn (Ok 0%nat)); [apply tenant_wf_new | done | reflexivity].
  - done.
  - done.
  - by_compute.
  - exists tn', reply. split; [exact E |]. destruct Hr as (Hs & _ & Ht). split; [exact Hs |]. rewrite Ht. reflexivity.
Defined.

(** ** Whatever a client sends, the tenants stay well-formed *)

Lemma parse_id_wf {E} w id : parse_id (E := E) w = Ok (Some id) -> Id_wf id.
Proof.
  unfold parse_id. destruct w as [s|]; [| done]. destruct (Id_from_str s) as [i | |] eqn:Ei; [| done | done].
  intros [= <-]. by eapply Id_from_str_wf.
Qed.

Section Invariant.
Context {S : Type} `{ObjectStore S} `{CatalogJson} `{HashOrder} `{Network} (cfg : ControlConfig).
Implicit Types (c : Control (S := S)) (oc : bytes * Control (S := S)).

Lemma exec_wf {E : Type} line tn : tenant_wf tn -> tenant_wf (exec (E := E) line tn).1.
Proof.
  intros Hwf. unfold exec. destruct (split_whitespace line !! 0%nat) as [cmd|]; [| done].
  case_bool_decide.
  { unfold sbind, slift. destruct (parse_id _) as [[id|] | |] eqn:Ep; try done. apply parse_id_wf in Ep.
    unfold tenant_reply. destruct (create_timeline id tn) as [tn' res] eqn:Ec.
    apply (create_timeline_wf _ _ _ _ Hwf Ep) in Ec. by destruct res. }
  case_bool_decide.
  { unfold sbind, slift. destruct (parse_id (_ !! 1%nat)) as [new | |] eqn:Ep; try done.
    destruct (parse_id (_ !! 2%nat)) as [parent | |]; try done.
    destruct new as [n|]; [| done]. destruct parent as [p|]; [| done]. destruct (parse_lsn _) as [l|]; [| done].
    apply parse_id_wf in Ep.
    unfold tenant_reply. destruct (branch_timeline n p l tn) as [tn' res] eqn:Eb.
    apply (branch_timeline_wf _ _ _ _ _ _ Hwf Ep) in Eb. by destruct res. }
  case_bool_decide; [done |]. case_bool_decide; [| done]. destruct (parse_lsn _) as [h|]; [| done].
  unfold sbind. destruct (gc h tn) as [tn' res] eqn:Eg. apply (gc_wf _ _ _ _ Hwf) in Eg. by destruct res.
Qed.

Lemma on_tenant_wf {A : Type} g (m : stateM Tenant ControlError A) c :
  manager_wf (ct_tenants c) -> (forall tn, tenant_wf tn -> tenant_wf (m tn).1) -> manager_wf (ct_tenants (on_tenant g m c).1).
Proof.
  intros Hwf Hm. unfold on_tenant. destruct (in_tenant g m (ct_tenants c)) as [tm res] eqn:E. cbn.
  apply (in_tenant_wf _ _ _ _ _ Hwf E). auto.
Qed.

Lemma on_objects_tenants {A : Type} (m : stateM S ControlError A) c : ct_tenants (on_objects m c).1 = ct_tenants c.
Proof. unfold on_objects. by destruct (m (ct_objects c)). Qed.

Lemma gc_command_wf g line c : manager_wf (ct_tenants c) -> manager_wf (ct_tenants (gc_command cfg g line c).1).
Proof.
  intros Hwf. unfold gc_command. destruct (parse_lsn _) as [h|]; [| done]. unfold sbind at 1.
  pose proof (on_tenant_wf g (gc h) c Hwf) as Hg. destruct (on_tenant g (gc h) c) as [c1 [stats | e |]]; cbn in *.
  2,3: apply Hg; intros tn Ht; destruct (gc h tn) as [tn' r] eqn:E; by apply (gc_wf _ _ _ _ Ht) in E.
  assert (Hc1 : manager_wf (ct_tenants c1)).
  { apply Hg. intros tn Ht. destruct (gc h tn) as [tn' r] eqn:E. by apply (gc_wf _ _ _ _ Ht) in E. }
  destruct (cc_gc_store cfg); [| done]. unfold sbind. pose proof (on_objects_tenants (delete_layers (flat_map (fun s => removed_layer_ids s.2) stats) 0) c1) as Ho.
  destruct (on_objects _ c1) as [c2 [k | e |]]; cbn in *; by rewrite Ho.
Qed.

Lemma receive_command_wf g id line c : manager_wf (ct_tenants c) -> manager_wf (ct_tenants (receive_command g id line c).1).
Proof.
  intros Hwf. unfold receive_command. unfold sbind at 1, slift. destruct (parse_id _) as [[tl|] | |]; try done.
  destruct (_ ≫= addr_from_str) as [addr|]; [| done]. destruct (parse_lsn _) as [l|]; [| done].
  unfold sbind at 1. pose proof (on_tenant_wf g (fun tn => (tn, Ok (get_timeline tn tl))) c Hwf ltac:(done)) as Hg.
  destruct (on_tenant g _ c) as [c1 [[a|] | e |]]; try exact Hg. by destruct (tcp_connect addr).
Qed.

Lemma persist_control_tenants c : ct_tenants (persist_control cfg c).1 = ct_tenants c.
Proof. unfold persist_control. destruct (cc_catalog cfg); [| done]. by destruct (persist _ _) as [[s|] res]. Qed.

Lemma command_line_wf line s c : manager_wf (ct_tenants c) -> manager_wf (ct_tenants (command_line cfg line s c).1).
Proof.
  intros Hwf. unfold command_line. set (m := if is_word _ "tenants" then _ else _).
  assert (Hm : manager_wf (ct_tenants (m c).1)).
  { unfold m. destruct (is_word _ "tenants"); [done |]. destruct (is_word _ "tenant").
    { unfold tenant_line, sbind, slift. destruct (parse_id _) as [[id|] | |] eqn:Ep; try done. apply parse_id_wf in Ep.
      destruct (get_or_create id (ct_tenants c)) as [tm g] eqn:Eg. by apply (get_or_create_wf id _ _ _ Hwf Ep) in Eg as (? & _). }
    destruct (is_word _ "gc").
    { unfold with_session, sbind. pose proof (gc_command_wf (se_tenant s) line c Hwf) as Hg. by destruct (gc_command _ _ _ c) as [c1 []]. }
    destruct (is_word _ "receive").
    { unfold with_session, sbind. pose proof (receive_command_wf (se_tenant s) (se_tenant_id s) line c Hwf) as Hg.
      by destruct (receive_command _ _ _ c) as [c1 []]. }
    unfold with_session, sbind. pose proof (on_tenant_wf (se_tenant s) (exec line) c Hwf (exec_wf line)) as Hg.
    by destruct (on_tenant _ _ c) as [c1 []]. }
  unfold sbind at 1. destruct (m c) as [c1 [[s1 reply] | e |]]; try exact Hm. cbn in Hm. unfold sbind.
  destruct (_ && _); [| done]. pose proof (persist_control_tenants c1) as Hp.
  destruct (persist_control cfg c1) as [c2 []]; cbn in *; by rewrite Hp.
Qed.

Lemma conn_loop_wf fuel : forall input s oc,
  manager_wf (ct_tenants oc.2) -> manager_wf (ct_tenants (conn_loop cfg fuel input s oc).1.2).
Proof.
  induction fuel as [| fuel IH]; intros input s [out c] Hwf; cbn [conn_loop].
  { by destruct (next_line input) as [[[line rest]|] | |]. }
  destruct (next_line input) as [[[line rest]|] | |]; try done.
  assert (Hl : manager_wf (ct_tenants (handle_line cfg line s c).1)).
  { unfold handle_line. destruct (se_authed s); [by apply command_line_wf |]. by destruct (auth_line cfg line s). }
  cbn [snd]. destruct (handle_line cfg line s c) as [c1 [[s1 reply] | e |]]; [| done | done]. by apply IH.
Qed.

(** C31: the tenants stay well-formed whatever a control client sends: every
    timeline listed exists under its own well-formed identifier, and its parent
    was created before it, after any bytes on a control connection and whatever
    the object store does. *)
Theorem control_keeps_tenants_well_formed (input out : bytes) (c : Control (S := S)) :
  manager_wf (ct_tenants c) -> manager_wf (ct_tenants (handle_conn cfg input (out, c)).1.2).
Proof.
  intros Hwf. unfold handle_conn. destruct (get_or_create Id_ZERO (ct_tenants c)) as [tm g] eqn:Eg.
  apply (get_or_create_wf Id_ZERO _ _ _ Hwf eq_refl) in Eg as (Htm & _). by apply conn_loop_wf.
Qed.
End Invariant.

Definition json_control : ControlConfig := mkControlConfig true true (Some (text "s3cret")).

(** No addresses, hence no receivers. *)
Definition no_network : Network :=
  {| SocketAddr := Empty_set; addr_from_str _ := None; addr_display _ := []; tcp_connect _ := None |}.

Definition empty_control : Control (S := LocalObjectStore) (H2 := no_network) := mkControl (H2 := no_network) (TenantManager_new 2) empty_store [].

Lemma control_keeps_tenants_well_formed_witness :
  let input := text "auth s3cret" ++ [newline] ++ text "create 0101" ++ [newline] in
  manager_wf (ct_tenants (handle_conn (H := LocalStore (fun _ => None)) (H0 := bit_json) (H2 := no_network) json_control input ([], empty_control)).1.2).
Proof.
  intros input. apply (control_keeps_tenants_well_formed (H := LocalStore (fun _ => None)) (H0 := bit_json) (H2 := no_network)).
  apply manager_wf_new.
Defined.

(** ** Authentication *)

(** A line a client can send: UTF-8 without line feed or trailing carriage return. *)
Definition plain_line (l : bytes) : Prop := Forall (fun b => b <> newline) l /\ utf8_valid l = true /\ strip_cr l = l.

Definition wire (ls : list bytes) : bytes := concat ((fun l => l ++ [newline]) <$> ls).

Lemma next_line_wire l ls : plain_line l -> next_line (wire (l :: ls)) = Ok (Some (l, wire ls)).
Proof.
  intros (Hn & Hu & Hs). unfold next_line, wire. cbn [fmap list_fmap concat]. rewrite <- app_assoc. cbn [app].
  destruct (l ++ newline :: _) as [| b r] eqn:E; [by destruct l |]. rewrite <- E, split_once_app by done. by rewrite Hu, Hs.
Qed.

(** The line carries the token. *)
Definition carries (t line : bytes) : bool :=
  is_word (split_whitespace line !! 0%nat) "auth" && bool_decide (split_whitespace line !! 1%nat = Some t).

Section Auth.
Context {S : Type} `{ObjectStore S} `{CatalogJson} `{HashOrder} `{Network} (cfg : ControlConfig) (t : bytes).
Hypothesis cfg_token : cc_token cfg = Some t.
Implicit Types (c : Control (S := S)).

Lemma auth_line_refuses line s :
  carries t line = false -> exists reply, auth_line cfg line s = (s, reply) /\ starts_with (text "err ") reply = true.
Proof.
  unfold auth_line, carries. rewrite cfg_token. destruct (is_word _ "auth"); [| by eexists].
  cbn [andb]. destruct (split_whitespace line !! 1%nat) as [tok|]; [| by eexists]. intros Hne%bool_decide_eq_false.
  rewrite bool_decide_false; [by eexists |]. intros [= ->]. by apply Hne.
Qed.

Lemma conn_loop_refuses ls : forall fuel s out c,
  se_authed s = false -> Forall plain_line ls -> Forall (fun l => carries t l = false) ls -> (length ls <= fuel)%nat ->
  exists replies, conn_loop cfg fuel (wire ls) s (out, c) = ((out ++ wire replies, c), Ok tt) /\
    length replies = length ls /\ Forall (fun r => starts_with (text "err ") r = true) replies.
Proof.
  induction ls as [| l ls IH]; intros fuel s out c Hs Hp Hc Hf.
  { exists []. rewrite app_nil_r. by destruct fuel. }
  apply Forall_cons in Hp as [Hl Hp], Hc as [Hcl Hc]. destruct fuel as [| fuel]; [cbn in Hf; lia |].
  cbn [conn_loop]. rewrite next_line_wire by done. cbn [snd fst]. unfold handle_line. rewrite Hs.
  destruct (auth_line_refuses l s Hcl) as (reply & -> & Hr). unfold sret.
  destruct (IH fuel s (out ++ reply ++ [newline]) c) as (replies & E & Hlen & Hall); [done | done | done | cbn in Hf; lia |].
  exists (reply :: replies). rewrite E. split; [| split; [cbn; lia | by constructor]].
  unfold wire. cbn [fmap list_fmap concat]. by rewrite <- !app_assoc.
Qed.

(** C22: nothing happens before the token.  On a connection of a server with a
    control token, as long as no line carries the token, every line is answered
    with an error and neither tenants (beyond the default one the connection
    opens), objects nor receivers change; the first line with the token
    authenticates it. *)
Theorem control_requires_token (ls : list bytes) (out : bytes) c :
  Forall plain_line ls -> Forall (fun l => carries t l = false) ls ->
  (exists replies, handle_conn cfg (wire ls) (out, c) =
      ((out ++ wire replies, mkControl (get_or_create Id_ZERO (ct_tenants c)).1 (ct_objects c) (ct_receivers c)), Ok tt) /\
    length replies = length ls /\ Forall (fun r => starts_with (text "err ") r = true) replies) /\
  (forall line s, carries t line = true -> se_authed s = false ->
     handle_line cfg line s c = (c, Ok (mkSession (se_tenant_id s) (se_tenant s) true, text "ok authenticated"))).
Proof.
  intros Hp Hc. split.
  - unfold handle_conn. destruct (get_or_create Id_ZERO (ct_tenants c)) as [tm g]. rewrite cfg_token.
    destruct (conn_loop_refuses ls (length (wire ls)) (mkSession Id_ZERO g false) out (mkControl tm (ct_objects c) (ct_receivers c)))
      as (replies & E & Hr); [done | done | done | | by exists replies].
    clear. induction ls as [| l ls IH]; [done |]. unfold wire in *. cbn [fmap list_fmap concat length]. rewrite !length_app. cbn. lia.
  - intros line s Hl Hs. unfold handle_line, auth_line. rewrite Hs. unfold carries in Hl. apply andb_true_iff in Hl as [-> Hl%bool_decide_eq_true].
    rewrite Hl, cfg_token. by rewrite bool_decide_true.
Qed.
End Auth.

Lemma control_requires_token_witness :
  let ls := [text "list"; text "auth wrong"; text "auth"] in
  exists replies, handle_conn (H := LocalStore (fun _ => None)) (H0 := bit_json) (H2 := no_network) json_control (wire ls) ([], empty_control) =
    (([] ++ wire replies, mkControl (H2 := no_network) (get_or_create Id_ZERO (TenantManager_new 2)).1 empty_store []), Ok tt) /\
    length replies = 3%nat /\ Forall (fun r => starts_with (text "err ") r = true) replies.
Proof.
  intros ls. apply (control_requires_token (H := LocalStore (fun _ => None)) (H0 := bit_json) (H2 := no_network) json_control (text "s3cret") eq_refl ls [] empty_control).
  - repeat (apply Forall_cons; split; [split; [| split; reflexivity]; repeat constructor; discriminate |]). constructor.
  - repeat (apply Forall_cons; split; [reflexivity |]). constructor.
Defined.

(** ** Acknowledged changes survive *)

Definition topology_command (line : bytes) : bool :=
  let cmd := split_whitespace line !! 0%nat in is_word cmd "create" || is_word cmd "branch" || is_word cmd "tenant".

Section Durability.
Context {S : Type} `{HS : ObjectStore S, !ObjectStoreLaws S} `{HJ : CatalogJson} `{HO : HashOrder} `{HN : Network} (cfg : ControlConfig).
Hypothesis json_round_trip : forall c, exists bs, to_vec_pretty c = Some bs /\ from_slice bs = Some c.
Hypothesis catalog_key_plain : plain_key CATALOG_KEY.
Hypothesis with_catalog : cc_catalog cfg = true.
Implicit Types (c : Control (S := S)).

Lemma persist_control_saves c c' :
  persist_control cfg c = (c', Ok tt) ->
  ct_tenants c' = ct_tenants c /\ exists res, save (snapshot (ct_tenants c)) (ct_objects c) = (ct_objects c', res).
Proof.
  unfold persist_control, persist. rewrite with_catalog. destruct (save _ _) as [s [[] | e |]]; intros [= <-]; split; eauto.
Qed.

End Durability.


(** ** Start-up *)

(** [main]: restore the topology, make sure of the root tenant and its root
    timeline, and write the catalog. *)
Definition start_tenants {S} `{ObjectStore S} `{CatalogJson} `{HashOrder} (freeze_threshold : Z) : stateM S TenantError TenantManager :=
  fun s =>
  match load_persisted (TenantManager_new freeze_threshold, Some s) with
  | ((tm, Some s1), Ok _) =>
      let '(tm, g) := get_or_create Id_ZERO tm in
      match in_tenant g (fun tn => match get_timeline tn Id_ZERO with
                                   | Some tl => (tn, Ok tl)
                                   | None => create_timeline Id_ZERO tn
                                   end) tm with
      | (tm, Ok _) =>
          match persist (E := TenantError) tm (Some s1) with
          | (Some s2, Ok _) => (s2, Ok tm)
          | (Some s2, Err e) => (s2, Err e)
          | (Some s2, Panic) => (s2, Panic)
          | (None, _) => (s1, Panic)
          end
      | (_, Err e) => (s1, Err e)
      | (_, Panic) => (s1, Panic)
      end
  | ((_, Some s1), Err _) => (s1, Panic)
  | ((_, Some s1), Panic) => (s1, Panic)
  | ((_, None), _) => (s, Panic)
  end.

Definition has_root (tm : TenantManager) : Prop := exists tn, tenant_of tm Id_ZERO = Some tn /\ topo tn Id_ZERO <> None.

Section Startup.
Context {S} `{HS : ObjectStore S, !ObjectStoreLaws S} `{HJ : CatalogJson} `{HO : HashOrder}.
Hypothesis json_round_trip : forall c, exists bs, to_vec_pretty c = Some bs /\ from_slice bs = Some c.
Hypothesis catalog_key_plain : plain_key CATALOG_KEY.

(** With the root present, making sure of it changes nothing. *)
Lemma root_present tm :
  manager_wf tm -> has_root tm ->
  exists g a, get_or_create Id_ZERO tm = (tm, g) /\
    in_tenant g (fun tn => match get_timeline tn Id_ZERO with Some tl => (tn, Ok tl) | None => create_timeline Id_ZERO tn end) tm =
    (tm, Ok a).
Proof.
  intros Hwf (tn & Ht & Hr). pose proof (tenant_of_wf tm Id_ZERO tn Hwf Ht) as Htn. unfold tenant_of in Ht.
  destruct (tm_tenants tm !! Id_ZERO) as [g|] eqn:Eg; [| done]. cbn in Ht.
  destruct (timelines tn !! Id_ZERO) as [a|] eqn:Ea; [| by apply (topo_None _ _ (tw_ok _ Htn)) in Ea]. exists g, a.
  unfold get_or_create, tm_get, in_tenant, get_timeline. rewrite Eg, Ht, Ea. split; [done |]. rewrite list_insert_id by done.
  by destruct tm.
Qed.

(** Restarts keep the topology.  A server started on a store whose catalog it
    can read comes up with exactly the recorded tenants, timelines, parents and
    branch points, and leaves the catalog in the store describing the same
    topology, whether or not writing it again succeeds, ready for the next
    restart. *)
Theorem restart_keeps_topology (tm : TenantManager) (s : S) (t : Z) :
  catalog_holds s tm -> has_root tm -> is_ok (os_get CATALOG_KEY s).2 = true ->
  exists s' tm', start_tenants t s = (s', Ok tm') /\ manager_wf tm' /\ same_topology tm tm' /\ has_root tm' /\
    exists tmx, catalog_holds s' tmx /\ same_topology tm tmx.
Proof.
  intros Hh Hroot Hok. destruct (load_persisted_spec json_round_trip catalog_key_plain tm s t Hh Hok) as (tm' & s1 & E & Hwf & Hsame).
  assert (Hroot' : has_root tm').
  { destruct Hroot as (tn & Ht & Hr). specialize (Hsame Id_ZERO). rewrite Ht in Hsame. inversion Hsame as [? tn' Hb Heq E' |]; subst.
    exists tn'. by rewrite Hb. }
  destruct (root_present tm' Hwf Hroot') as (g & a & Eg & Ea). pose proof (save_spec json_round_trip catalog_key_plain tm' s1 Hwf) as Hs.
  assert (Hh1 : catalog_holds s1 tm).
  { unfold load_persisted in E. pose proof (os_get_law CATALOG_KEY s catalog_key_plain) as Hg. unfold runs in Hg. unfold load in E.
    destruct (os_get CATALOG_KEY s) as [s0 [v | e |]]; cbn in Hok; try done. destruct Hg as [_ Ho].
    destruct Hh as (Hw & bs & Hj & Hb). split; [done |]. exists bs. split; [done |]. rewrite <- Hb, <- Ho.
    destruct (from_slice v) as [doc|]; [destruct (restore doc _) as [x y]; by injection E as _ -> _ | by injection E as _ ->]. }
  assert (Hrefl : same_topology tm tm) by (intros id; destruct (tenant_of tm id); by constructor).
  unfold start_tenants. rewrite E, Eg, Ea. unfold persist. unfold runs in Hs.
  destruct (save (snapshot tm') s1) as [s2 [[] | e |]]; [| | done]; exists s2, tm'; (split; [done |]; split; [done |]; split; [done |]; split; [done |]).
  - by exists tm'.
  - destruct Hs as [Hs | Hs]; [| by exists tm']. exists tm. split; [| done]. destruct Hh1 as (Hw & bs & Hj & Hb).
    split; [done |]. exists bs. by rewrite Hs.
Qed.
End Startup.

Definition root_manager : TenantManager :=
  let '(m, g) := get_or_create Id_ZERO demo_manager in
  (in_tenant g (fun tn => create_timeline Id_ZERO tn) m).1.

Lemma root_manager_wf : manager_wf root_manager.
Proof.
  unfold root_manager. destruct (get_or_create Id_ZERO demo_manager) as [m g] eqn:E.
  destruct (get_or_create_wf Id_ZERO _ m g demo_manager_wf eq_refl E) as (Hm & _).
  destruct (in_tenant g (create_timeline Id_ZERO) m) as [m' r] eqn:Ei. apply (in_tenant_wf _ _ _ _ _ Hm Ei).
  intros tn _ Hw. destruct (create_timeline Id_ZERO tn) as [tn1 r1] eqn:E1. by apply (create_timeline_wf _ Id_ZERO _ _ Hw eq_refl E1).
Qed.

Definition stored_catalog (tm : TenantManager) : LocalObjectStore :=
  mkLocalObjectStore {[ CATALOG_KEY := default [] (@to_vec_pretty bit_json (snapshot tm)) ]} 0.

Lemma stored_catalog_holds fault tm :
  manager_wf tm -> @catalog_holds _ (LocalStore fault) (LocalStoreLaws fault) bit_json _ (stored_catalog tm) tm.
Proof.
  intros Hwf. split; [done |]. eexists. split; [reflexivity |]. apply map_lookup_filter_Some. cbn [fst].
  split; [apply lookup_singleton_eq | apply catalog_key_local].
Qed.

Lemma root_manager_has_root : has_root root_manager.
Proof.
  assert (E : match tenant_of root_manager Id_ZERO with
              | Some tn => match topo tn Id_ZERO with Some _ => true | None => false end
              | None => false
              end = true) by (vm_compute; reflexivity).
  unfold has_root. destruct (tenant_of root_manager Id_ZERO) as [tn |]; [| discriminate]. exists tn. split; [reflexivity |].
  by destruct (topo tn Id_ZERO).
Qed.

Lemma restart_keeps_topology_witness :
  let store := LocalStore (fun _ => None) in
  exists s' tm', @start_tenants _ store bit_json _ 5 (stored_catalog root_manager) = (s', Ok tm') /\ same_topology root_manager tm'.
Proof.
  intros store.
  destruct (@restart_keeps_topology _ store (LocalStoreLaws _) bit_json default_order bit_json_round_trip catalog_key_local
    root_manager (stored_catalog root_manager) 5) as (s' & tm' & E & _ & Hs & _).
  - apply stored_catalog_holds, root_manager_wf.
  - exact root_manager_has_root.
  - vm_compute; reflexivity.
  - exists s', tm'. split; [exact E | exact Hs].
Defined.

(** A single failed read at start-up passes for a first boot: the server comes up
    with the root tenant alone and writes that over the catalog, so that the next
    start, with nothing failing, no longer knows the other tenants. *)
Lemma failed_read_forgets_tenants :
  let fault := fun k : nat => if (k =? 0)%nat then Some 0 else None in
  let r1 := @start_tenants _ (LocalStore fault) bit_json _ 5 (stored_catalog root_manager) in
  let r2 := @start_tenants _ (LocalStore (fun _ => None)) bit_json _ 5 r1.1 in
  is_ok r1.2 = true /\
  match r2.2 with
  | Ok tm => bool_decide (tm_get root_manager (tid x07) <> None) && bool_decide (tm_get tm (tid x07) = None)
  | _ => false
  end = true.
Proof. intros fault r1 r2. split; vm_compute; reflexivity. Qed.
