(* ===== verification/BaseBackup.v ===== *)
(** Seeding a page store from a data directory
    (src/pageserver/src/bin/aethel-basebackup-import.rs): every block of every
    relation file goes to the ingest endpoint as a full page image.  The
    directory is a tree whose files may be unreadable; the connection is a
    parameter, instantiated below by the endpoint itself. *)

From S2P Require Import Prelude Bytes BTree Text Common PageVersion Layer WalRedo Repository WalDecode WalIngest.
From S2P Require Import Timeline Tenant TenantManager ObjStore Offload PageServer.

(** Directory entries are in the order [read_dir] yields them. *)
#[warnings="-register-all"] Inductive fs_node :=
| File (data : option bytes)
| Dir (children : list (bytes * fs_node)).

Definition is_dir (n : fs_node) : bool := match n with Dir _ => true | File _ => false end.

Inductive ImportError :=
| ImportIo
| Rejected (name : bytes) (blk : Z) (ack : Z)
| BadLsn
| UnexpectedArgument (arg : bytes)
| MissingArgument (arg : string).

(** [fs::read(path)] *)
Definition fs_read (n : fs_node) : outcome ImportError bytes :=
  match n with File (Some data) => Ok data | _ => Err ImportIo end.

(** [dir.join(name)], when there is such an entry. *)
Fixpoint child (name : bytes) (children : list (bytes * fs_node)) : option fs_node :=
  match children with
  | [] => None
  | (n, c) :: rest => if bool_decide (n = name) then Some c else child name rest
  end.

Definition GLOBAL_SPC : Z := 1664.
Definition DEFAULT_SPC : Z := 1663.

Definition parse_u32 (s : bytes) : option Z :=
  match from_str_radix 10 u32_max s with Ok z => Some z | _ => None end.

Definition underscore : byte := z2b 95.

Definition parse_relfile (name : bytes) : option (Z * ForkNumber) :=
  let '(num, fork) :=
    match rsplit_once underscore name with
    | Some (n, s) =>
        if bool_decide (s = text "fsm") then (n, Fsm)
        else if bool_decide (s = text "vm") then (n, VisibilityMap)
        else (name, Main)
    | None => (name, Main)
    end in
  rel ← parse_u32 num; Some (rel, fork).

(** [data.chunks(n)] *)
Fixpoint chunks_of (fuel : nat) (n : Z) (data : bytes) : list bytes :=
  match fuel, data with
  | S fuel', _ :: _ => sub data 0 (Z.min n (len data)) :: chunks_of fuel' n (sub data n (len data - n))
  | _, _ => []
  end.

Definition chunks (n : Z) (data : bytes) : list bytes := chunks_of (length data) n data.

(** [page.resize(PAGE_SIZE, 0)] of a chunk *)
Definition pad_page (chunk : bytes) : bytes := chunk ++ replicate (Z.to_nat (PAGE_SIZE - len chunk)) x00.

(** [entries.sort_by_key(|e| e.file_name())] *)
Definition sort_entries (es : list (bytes * fs_node)) : list (bytes * fs_node) := sort_key fst es.

(** The connection to the ingest endpoint. *)
Class AckSocket (P : Type) := {
  send_bytes : bytes -> stateM P ImportError unit;
  recv_ack : stateM P ImportError byte
}.

Section Importing.
Context {P} `{AckSocket P} (lsn : Lsn).

Definition block_image (rel : RelTag) (blk : Z) (chunk : bytes) : Modification :=
  mkModification rel (blk mod 2 ^ 32) lsn (Image (pad_page chunk)).

Definition push_block (name : bytes) (blk : Z) (m : Modification) : stateM P ImportError unit :=
  let body := Modification_encode m in
  let! _ := send_bytes (be_bytes 4 (len body)) in
  let! _ := send_bytes body in
  let! ack := recv_ack in
  if b2z ack =? 0 then sret tt else serr (Rejected name blk (b2z ack)).

(** The blocks of one file from number [blk] on, with the pages counted in [n]. *)
Fixpoint import_blocks (name : bytes) (rel : RelTag) (blk : Z) (cs : list bytes) (n : Z) : stateM P ImportError Z :=
  match cs with
  | [] => sret n
  | c :: cs' =>
      let! _ := push_block name blk (block_image rel blk c) in
      import_blocks name rel (blk + 1) cs' (n + 1)
  end.

Fixpoint import_entries (spc db : Z) (es : list (bytes * fs_node)) (n : Z) : stateM P ImportError Z :=
  match es with
  | [] => sret n
  | (name, node) :: es' =>
      if utf8_valid name then
        match parse_relfile name with
        | None => import_entries spc db es' n
        | Some (rel, fork) =>
            let! data := slift (fs_read node) in
            let! n := import_blocks name (mkRelTag spc db rel fork) 0 (chunks PAGE_SIZE data) n in
            import_entries spc db es' n
        end
      else import_entries spc db es' n
  end.

Definition import_dir (children : list (bytes * fs_node)) (spc db : Z) : stateM P ImportError Z :=
  import_entries spc db (sort_entries children) 0.

(** The database directories below [base]. *)
Fixpoint import_databases (dbs : list (bytes * fs_node)) (total : Z) : stateM P ImportError Z :=
  match dbs with
  | [] => sret total
  | (name, node) :: dbs' =>
      match node, (if utf8_valid name then parse_u32 name else None) with
      | Dir children, Some db =>
          let! n := import_dir children DEFAULT_SPC db in
          import_databases dbs' (total + n)
      | _, _ => import_databases dbs' total
      end
  end.

(** The work of [main] on an open connection. *)
Definition import_pgdata (pgdata : list (bytes * fs_node)) : stateM P ImportError Z :=
  let! total := (match child (text "global") pgdata with
                 | Some (Dir children) => import_dir children GLOBAL_SPC 0
                 | _ => sret 0
                 end) in
  match child (text "base") pgdata with
  | Some (Dir dbs) => import_databases (sort_entries dbs) total
  | _ => sret total
  end.
End Importing.

(** The command line: the directory, the address and the LSN, or nothing for
    [--help]. *)
Definition finish_args (pgdata addr : option bytes) (lsn : Lsn) : outcome ImportError (option (bytes * bytes * Lsn)) :=
  let? pgdata := ok_or pgdata (MissingArgument "--pgdata") in
  let? addr := ok_or addr (MissingArgument "--ingest") in
  Ok (Some (pgdata, addr, lsn)).

Fixpoint parse_args (args : list bytes) (pgdata addr : option bytes) (lsn : Lsn) :
    outcome ImportError (option (bytes * bytes * Lsn)) :=
  match args with
  | [] => finish_args pgdata addr lsn
  | a :: args1 =>
      if bool_decide (a = text "--pgdata") then
        match args1 with v :: args2 => parse_args args2 (Some v) addr lsn | [] => finish_args None addr lsn end
      else if bool_decide (a = text "--ingest") then
        match args1 with v :: args2 => parse_args args2 pgdata (Some v) lsn | [] => finish_args pgdata None lsn end
      else if bool_decide (a = text "--lsn") then
        match args1 with
        | v :: args2 => let? lsn := ok_or (parse_u64 v) BadLsn in parse_args args2 pgdata addr lsn
        | [] => Err BadLsn
        end
      else if bool_decide (a = text "-h") || bool_decide (a = text "--help") then Ok None
      else Err (UnexpectedArgument a)
  end.

(** ** What a directory holds *)

(** The relation files of a directory, in its order. *)
Definition dir_files (spc db : Z) (children : list (bytes * fs_node)) : list (RelTag * fs_node) :=
  omap (fun '(name, node) =>
    if utf8_valid name then '(r, f) ← parse_relfile name; Some (mkRelTag spc db r f, node) else None) children.

Definition database_files (dbs : list (bytes * fs_node)) : list (RelTag * fs_node) :=
  flat_map (fun '(name, node) =>
    match node, (if utf8_valid name then parse_u32 name else None) with
    | Dir children, Some db => dir_files DEFAULT_SPC db children
    | _, _ => []
    end) dbs.

Definition relation_files (pgdata : list (bytes * fs_node)) : list (RelTag * fs_node) :=
  match child (text "global") pgdata with Some (Dir children) => dir_files GLOBAL_SPC 0 children | _ => [] end ++
  match child (text "base") pgdata with Some (Dir dbs) => database_files dbs | _ => [] end.

(** The same files in the order of the import. *)
Definition sorted_databases (dbs : list (bytes * fs_node)) : list (RelTag * fs_node) :=
  flat_map (fun '(name, node) =>
    match node, (if utf8_valid name then parse_u32 name else None) with
    | Dir children, Some db => dir_files DEFAULT_SPC db (sort_entries children)
    | _, _ => []
    end) dbs.

Definition import_order (pgdata : list (bytes * fs_node)) : list (RelTag * fs_node) :=
  match child (text "global") pgdata with Some (Dir children) => dir_files GLOBAL_SPC 0 (sort_entries children) | _ => [] end ++
  match child (text "base") pgdata with Some (Dir dbs) => sorted_databases (sort_entries dbs) | _ => [] end.

Lemma dir_files_sort spc db children : dir_files spc db (sort_entries children) ≡ₚ dir_files spc db children.
Proof. unfold dir_files. apply omap_Permutation, sort_key_perm. Qed.

Lemma import_order_perm pgdata : import_order pgdata ≡ₚ relation_files pgdata.
Proof.
  unfold import_order, relation_files. f_equiv.
  - destruct (child _ pgdata) as [[|]|]; [done | apply dir_files_sort | done].
  - destruct (child _ pgdata) as [[| dbs]|]; [done | | done]. unfold database_files.
    rewrite <- (sort_key_perm (fst : bytes * fs_node -> bytes) dbs) at 2. fold (sort_entries dbs).
    induction (sort_entries dbs) as [| [name node] l IH]; [done |]. cbn [sorted_databases flat_map]. f_equiv; [| apply IH].
    destruct node as [| children]; [done |]. destruct (if utf8_valid name then _ else _); [apply dir_files_sort | done].
Qed.

(** A file whose blocks have 32-bit numbers. *)
Definition importable (f : RelTag * fs_node) : Prop :=
  exists data, fs_read f.2 = Ok data /\ len data <= u32_max * PAGE_SIZE.

(** ** Blocks of a file *)

Lemma sub_drop_rest (l : bytes) n : 0 <= n <= len l -> sub l n (len l - n) = drop (Z.to_nat n) l.
Proof. intros. unfold sub, len in *. apply take_ge. rewrite length_drop. lia. Qed.

Lemma chunks_of_lookup n (k : nat) : forall fuel data, 0 < n -> (length data <= fuel)%nat ->
  chunks_of fuel n data !! k = if Z.of_nat k * n <? len data then Some (sub data (Z.of_nat k * n) n) else None.
Proof.
  induction k as [| k IH]; intros fuel data Hn Hf; (destruct fuel as [| fuel]; [destruct data; [cbn [chunks_of]; rewrite (proj2 (Z.ltb_ge _ _)) by (unfold len; cbn; lia); done | cbn in Hf; lia] |]).
  - destruct data as [| b data]; [done |]. cbn [chunks_of lookup list_lookup]. rewrite Z.mul_0_l. unfold len at 2. cbn [length].
    rewrite (proj2 (Z.ltb_lt _ _)) by lia. f_equal. unfold sub, len. change (Z.to_nat 0) with 0%nat. rewrite !drop_0.
    destruct (Z.le_gt_cases n (Z.of_nat (length (b :: data)))) as [H | H]; [by rewrite Z.min_l by lia |].
    rewrite Z.min_r by lia. rewrite !take_ge by lia. done.
  - destruct data as [| b data]; [cbn [chunks_of]; rewrite (proj2 (Z.ltb_ge _ _)) by (unfold len; cbn; lia); done |].
    cbn [chunks_of lookup list_lookup]. set (d := b :: data) in *.
    destruct (Z.le_gt_cases n (len d)) as [H | H].
    + rewrite sub_drop_rest by lia. rewrite IH; [| done |]; cycle 1.
      { rewrite length_drop. unfold d in *. cbn [length] in *. lia. }
      unfold len. rewrite length_drop. fold (len d). replace (Z.of_nat (length d - Z.to_nat n)) with (len d - n) by (unfold len in *; lia).
      replace (Z.of_nat k * n <? len d - n) with (Z.of_nat (S k) * n <? len d) by (apply eq_iff_eq_true; rewrite !Z.ltb_lt; nia).
      case_test; [| done]. f_equal. unfold sub. rewrite drop_drop. do 2 f_equal. nia.
    + rewrite (proj2 (Z.ltb_ge _ _)) by nia. replace (sub d n (len d - n)) with (@nil byte); [by destruct fuel |].
      unfold sub. rewrite drop_ge by (unfold len in *; lia). by rewrite take_nil.
Qed.

Lemma chunks_lookup data (k : nat) :
  chunks PAGE_SIZE data !! k = if Z.of_nat k * PAGE_SIZE <? len data then Some (sub data (Z.of_nat k * PAGE_SIZE) PAGE_SIZE) else None.
Proof. by apply chunks_of_lookup. Qed.

Lemma len_pad_page c : len c <= PAGE_SIZE -> len (pad_page c) = PAGE_SIZE.
Proof. intros H. unfold pad_page. rewrite len_app, len_replicate. pose proof (len_nonneg c). lia. Qed.

Section Images.
Context (lsn : Lsn).

Fixpoint block_images (rel : RelTag) (blk : Z) (cs : list bytes) : list Modification :=
  match cs with
  | [] => []
  | c :: cs' => block_image lsn rel blk c :: block_images rel (blk + 1) cs'
  end.

Definition file_images (f : RelTag * fs_node) : list Modification :=
  match fs_read f.2 with Ok data => block_images f.1 0 (chunks PAGE_SIZE data) | _ => [] end.

Lemma len_block_images rel cs : forall blk, len (block_images rel blk cs) = len cs.
Proof. induction cs as [| c cs IH]; intros blk; [done |]. cbn [block_images]. by rewrite !len_cons, IH. Qed.

Lemma elem_block_images rel cs m : forall blk,
  m ∈ block_images rel blk cs <-> exists k c, cs !! k = Some c /\ m = block_image lsn rel (blk + Z.of_nat k) c.
Proof.
  induction cs as [| c cs IH]; intros blk; cbn [block_images].
  { split; [intros H; by apply not_elem_of_nil in H | by intros (k & c & H & _)]. }
  rewrite elem_of_cons, IH. split.
  - intros [-> | (k & c' & Hc & ->)]; [exists 0%nat, c; by rewrite Z.add_0_r |].
    exists (S k), c'. split; [done |]. f_equal. lia.
  - intros ([| k] & c' & Hc & ->); [injection Hc as <-; left; by rewrite Z.add_0_r | right]. exists k, c'. split; [done |]. f_equal. lia.
Qed.

(** The image of a block of a file. *)
Lemma elem_file_images f data m :
  fs_read f.2 = Ok data -> len data <= u32_max * PAGE_SIZE ->
  m ∈ file_images f <-> exists b, 0 <= b /\ b * PAGE_SIZE < len data /\
    m = mkModification f.1 b lsn (Image (pad_page (sub data (b * PAGE_SIZE) PAGE_SIZE))).
Proof.
  intros Hd Hl. unfold file_images. rewrite Hd, elem_block_images. unfold u32_max, PAGE_SIZE in Hl. split.
  - intros (k & c & Hc & ->). rewrite chunks_lookup in Hc. destruct (Z.ltb_spec (Z.of_nat k * PAGE_SIZE) (len data)) as [Hk | Hk]; [| done].
    injection Hc as <-. exists (Z.of_nat k). split; [lia |]. split; [done |]. unfold block_image. rewrite Z.add_0_l, Z.mod_small; [done |].
    unfold PAGE_SIZE in Hk. lia.
  - intros (b & Hb & Hk & ->). exists (Z.to_nat b). eexists. rewrite chunks_lookup, Z2Nat.id by done.
    rewrite (proj2 (Z.ltb_lt _ _)) by done. split; [done |]. unfold block_image. rewrite Z.add_0_l, Z.mod_small; [done |].
    unfold PAGE_SIZE in Hk. lia.
Qed.

Lemma file_images_frames f : in_u64 lsn -> RelTag_wf f.1 -> importable f -> Forall frame_ok (file_images f).
Proof.
  intros Hlsn Hrel (data & Hd & Hl). apply Forall_forall. intros m Hm. rewrite elem_file_images in Hm by done.
  destruct Hm as (b & Hb & Hk & ->). assert (Hp : len (pad_page (sub data (b * PAGE_SIZE) PAGE_SIZE)) = PAGE_SIZE).
  { apply len_pad_page, sub_len_le. done. }
  unfold PAGE_SIZE in Hk, Hl. unfold frame_ok, Modification_wf, in_u32. cbn [m_rel m_block m_lsn m_version PageVersion_wf].
  unfold u32_max in *. split; [split; [done |]; split; [lia |]; by split |]. split; [lia |].
  unfold Modification_encode, write_key. cbn [m_rel m_block m_lsn m_version write_version]. autorewrite with len. rewrite Hp.
  unfold PAGE_SIZE, MAX_INGEST_BODY. lia.
Qed.

Lemma block_images_keys rel cs : forall blk, 0 <= blk -> blk + len cs <= u32_max -> NoDup (mod_key <$> block_images rel blk cs).
Proof.
  induction cs as [| c cs IH]; intros blk Hb Hl; cbn [block_images fmap list_fmap]; [constructor |]. rewrite len_cons in Hl.
  pose proof (len_nonneg cs). constructor; [| apply IH; lia]. intros Hin. apply list_elem_of_fmap in Hin as (m & E & Hm).
  apply elem_block_images in Hm as (k & c' & Hc & ->). unfold block_image, mod_key in E. cbn [m_rel m_block m_lsn] in E.
  injection E as E. apply lookup_lt_Some in Hc. unfold len, u32_max in *. rewrite !Z.mod_small in E by lia. lia.
Qed.

Lemma len_chunks data : len data <= u32_max * PAGE_SIZE -> len (chunks PAGE_SIZE data) <= u32_max.
Proof.
  intros Hl. destruct (Z.le_gt_cases (len (chunks PAGE_SIZE data)) u32_max) as [H | H]; [done |]. exfalso.
  assert (Hk : (Z.to_nat u32_max < length (chunks PAGE_SIZE data))%nat) by (unfold len, u32_max in *; lia).
  apply lookup_lt_is_Some_2 in Hk as [c Hc]. rewrite chunks_lookup in Hc. rewrite Z2Nat.id in Hc by (unfold u32_max; lia).
  rewrite (proj2 (Z.ltb_ge _ _)) in Hc by done. done.
Qed.

Lemma file_images_keys fs : NoDup fs.*1 -> Forall importable fs -> NoDup (mod_key <$> flat_map file_images fs).
Proof.
  induction fs as [| f fs IH]; cbn [flat_map fmap list_fmap]; [constructor |]. intros [Hf Hnd]%NoDup_cons [Hi His]%Forall_cons.
  rewrite fmap_app. apply NoDup_app. destruct Hi as (data & Hd & Hl). split; [| split; [| by apply IH]].
  - unfold file_images. rewrite Hd. apply block_images_keys; [lia |]. by apply len_chunks.
  - intros k Hk1 Hk2. apply list_elem_of_fmap in Hk1 as (m1 & -> & H1). apply list_elem_of_fmap in Hk2 as (m2 & E & H2).
    rewrite elem_file_images in H1 by done. destruct H1 as (b1 & _ & _ & ->).
    apply list_elem_of_In, in_flat_map in H2 as (f2 & Hf2 & H2). apply list_elem_of_In in Hf2, H2.
    rewrite Forall_forall in His. destruct (His f2 Hf2) as (d2 & Hd2 & Hl2). rewrite elem_file_images in H2 by done.
    destruct H2 as (b2 & _ & _ & ->). cbn in E. injection E as E _. apply Hf. rewrite E. by apply list_elem_of_fmap_2.
Qed.
End Images.

(** ** Importing through the ingest endpoint

    The connection to the endpoint of the timeline [a]: what was sent so far, and
    how many of the acknowledgements to it were read. *)
Record IngestLink := mkIngestLink {
  il_sent : bytes;
  il_read : nat
}.

Section Endpoint.
Context (a : taddr) (ts0 : arena_t).

Definition served (sent : bytes) : bytes * arena_t := (handle_ingest_conn a (length sent) sent ([], ts0)).1.

#[local] Instance EndpointSocket : AckSocket IngestLink := {|
  send_bytes b := fun l => (mkIngestLink (il_sent l ++ b) (il_read l), Ok tt);
  recv_ack := fun l =>
    match (served (il_sent l)).1 !! il_read l with
    | Some ack => (mkIngestLink (il_sent l) (S (il_read l)), Ok ack)
    | None => (l, Err ImportIo)
    end
|}.

(** The import over this connection, and the timelines it leaves. *)
Definition import_into (lsn : Lsn) (pgdata : list (bytes * fs_node)) : IngestLink * outcome ImportError Z :=
  import_pgdata lsn pgdata (mkIngestLink [] 0).

(** The connection after the modifications [mods]. *)
Definition after_mods (mods : list Modification) : IngestLink :=
  mkIngestLink (concat (ingest_frame <$> mods)) (length mods).

Lemma len_frames (mods : list Modification) : (length mods <= length (concat (ingest_frame <$> mods)))%nat.
Proof.
  induction mods as [| m mods IH]; [done |]. cbn [fmap list_fmap concat length]. rewrite length_app.
  assert (4 <= len (ingest_frame m)).
  { unfold ingest_frame. rewrite len_app, len_be_bytes. pose proof (len_nonneg (Modification_encode m)). lia. }
  unfold len in *. lia.
Qed.

Context (t0 : Timeline) (ts0_a : ts0 !! a = Some t0).

Lemma served_mods mods :
  Forall frame_ok mods -> exists i, ingest mods (tl_repo t0) = Ok i /\
    served (concat (ingest_frame <$> mods)) =
      (replicate (length mods) x00, <[a := mkTimeline (tl_id t0) i (tl_ancestor t0)]> ts0).
Proof using ts0_a.
  intros Hok. destruct (handle_ingest_conn_ok a mods [] (length (concat (ingest_frame <$> mods))) [] ts0 t0) as (i & Hi & E).
  { done. } { done. } { apply len_frames. } { done. }
  exists i. split; [done |]. unfold served. rewrite app_nil_r in E. by rewrite E.
Qed.

Lemma push_block_ok name blk mods m :
  Forall frame_ok mods -> frame_ok m -> push_block name blk m (after_mods mods) = (after_mods (mods ++ [m]), Ok tt).
Proof using ts0_a.
  intros Hms Hm. unfold push_block, sbind. cbn [send_bytes recv_ack EndpointSocket il_sent il_read after_mods].
  assert (E : (concat (ingest_frame <$> mods) ++ be_bytes 4 (len (Modification_encode m))) ++ Modification_encode m =
              concat (ingest_frame <$> mods ++ [m])).
  { rewrite fmap_app, concat_app. cbn [fmap list_fmap concat]. by rewrite app_nil_r, <- app_assoc. }
  rewrite E. destruct (served_mods (mods ++ [m])) as (i & _ & ->); [apply Forall_app; split; [done | by apply Forall_singleton] |].
  cbn [fst]. rewrite length_app. cbn [length]. rewrite replicate_add, lookup_app_r by (rewrite length_replicate; lia).
  rewrite length_replicate, Nat.sub_diag. cbn [replicate lookup list_lookup]. change (b2z x00 =? 0) with true. cbn iota.
  unfold sret, after_mods. rewrite length_app. cbn [length]. do 2 f_equal. lia.
Qed.
Context (lsn : Lsn).

Abbreviation block_images := (block_images lsn).
Abbreviation file_images := (file_images lsn).

Lemma import_blocks_ok name rel cs : forall blk n mods,
  Forall frame_ok mods -> Forall frame_ok (block_images rel blk cs) ->
  import_blocks lsn name rel blk cs n (after_mods mods) = (after_mods (mods ++ block_images rel blk cs), Ok (n + len cs)).
Proof using ts0_a.
  induction cs as [| c cs IH]; intros blk n mods Hms Hcs; cbn [import_blocks block_images].
  { rewrite app_nil_r. unfold sret. f_equal. f_equal. unfold len. cbn. lia. }
  apply Forall_cons in Hcs as [Hc Hcs]. erewrite sbind_Ok by (by apply push_block_ok).
  rewrite IH; [| apply Forall_app; split; [done | by apply Forall_singleton] | done].
  rewrite <- app_assoc, len_cons. cbn [app]. f_equal. f_equal. lia.
Qed.

(** The files [fs], from the connection with [mods] sent, count [n] and all sent. *)
Definition imports (m : stateM IngestLink ImportError Z) (mods : list Modification) (fs : list (RelTag * fs_node)) (n : Z) : Prop :=
  m (after_mods mods) = (after_mods (mods ++ flat_map file_images fs), Ok (n + len (flat_map file_images fs))).

Lemma import_entries_ok spc db es : forall n mods,
  let fs := dir_files spc db es in
  Forall frame_ok mods -> Forall importable fs -> Forall frame_ok (flat_map file_images fs) ->
  imports (import_entries lsn spc db es n) mods fs n.
Proof using ts0_a.
  unfold imports. induction es as [| [name node] es IH]; intros n mods; cbn [import_entries dir_files omap list_omap].
  { intros _ _ _. cbn. unfold sret. rewrite app_nil_r, Z.add_0_r. done. }
  destruct (utf8_valid name); [| apply IH]. destruct (parse_relfile name) as [[r f]|]; [| apply IH]. cbn [mbind option_bind flat_map].
  intros Hms [[data [Hd _]] Hfs]%Forall_cons [Hf Hr]%Forall_app. cbn [snd] in Hd. unfold file_images at 1 3. cbn [fst snd].
  unfold file_images in Hf. cbn [fst snd] in Hf. rewrite Hd in Hf |- *. erewrite sbind_Ok by done.
  erewrite sbind_Ok by (by apply import_blocks_ok). rewrite IH; [| by apply Forall_app | done | done].
  rewrite <- app_assoc, len_app, len_block_images. f_equal. f_equal. unfold dir_files. lia.
Qed.

Lemma import_databases_ok dbs : forall n mods,
  let fs := sorted_databases dbs in
  Forall frame_ok mods -> Forall importable fs -> Forall frame_ok (flat_map file_images fs) ->
  imports (import_databases lsn dbs n) mods fs n.
Proof using ts0_a.
  unfold imports. induction dbs as [| [name node] dbs IH]; intros n mods; cbn [import_databases sorted_databases flat_map].
  { intros _ _ _. cbn. unfold sret. rewrite app_nil_r, Z.add_0_r. done. }
  destruct node as [data | children]; [apply IH |].
  destruct (if utf8_valid name then parse_u32 name else None) as [db|]; [| apply IH].
  rewrite flat_map_app. intros Hms [Hf1 Hf2]%Forall_app [Hm1 Hm2]%Forall_app.
  erewrite sbind_Ok by (by apply import_entries_ok). rewrite IH; [| by apply Forall_app | done | done].
  rewrite <- app_assoc, len_app. f_equal. f_equal. unfold sorted_databases. lia.
Qed.

Lemma import_pgdata_ok pgdata :
  let fs := import_order pgdata in
  Forall importable fs -> Forall frame_ok (flat_map file_images fs) -> imports (import_pgdata lsn pgdata) [] fs 0.
Proof using ts0_a.
  unfold import_order, imports. rewrite flat_map_app. intros [Hf1 Hf2]%Forall_app [Hm1 Hm2]%Forall_app. unfold import_pgdata.
  assert (E1 : imports (match child (text "global") pgdata with
                        | Some (Dir children) => import_dir lsn children GLOBAL_SPC 0 | _ => sret 0 end) []
                 (match child (text "global") pgdata with
                  | Some (Dir children) => dir_files GLOBAL_SPC 0 (sort_entries children) | _ => [] end) 0).
  { destruct (child (text "global") pgdata) as [[data | children]|]; [done | | done]. by apply import_entries_ok. }
  erewrite sbind_Ok by exact E1. cbn [app] in *. rewrite len_app.
  destruct (child (text "base") pgdata) as [[data | dbs]|].
  - unfold sret. cbn [flat_map]. rewrite app_nil_r. f_equal. f_equal. unfold len at 3. cbn [length]. lia.
  - pose proof (import_databases_ok (sort_entries dbs)) as Hd. unfold imports in Hd. rewrite Hd; [| done | done | done].
    by rewrite Z.add_assoc.
  - unfold sret. cbn [flat_map]. rewrite app_nil_r. f_equal. f_equal. unfold len at 3. cbn [length]. lia.
Qed.
End Endpoint.

(** ** Reading what was imported *)

Lemma digit_val_range radix b d : digit_val radix b = Some d -> 0 <= d.
Proof.
  unfold digit_val. cbv zeta. pose proof (b2z_range b) as Hb. fold (ch b) in Hb.
  repeat case_test; intros [= <-]; bool_to_prop; lia.
Qed.

Lemma parse_digits_range radix max s : forall acc z,
  0 <= radix -> 0 <= acc <= max -> parse_digits radix max acc s = Ok z -> 0 <= z <= max.
Proof.
  induction s as [| b s IH]; intros acc z Hr Ha; cbn [parse_digits]; [by intros [= <-] |].
  destruct (digit_val radix b) as [d|] eqn:Ed; [| done]. cbn [ok_or bind]. apply digit_val_range in Ed.
  case_test; [| done]. case_test; [| done]. bool_to_prop. apply IH; [done | nia].
Qed.

Lemma parse_u32_range s z : parse_u32 s = Some z -> in_u32 z.
Proof.
  unfold parse_u32, from_str_radix, in_u32. intros H.
  assert (Hz : 0 <= z <= u32_max); [| unfold u32_max in Hz; lia].
  destruct s as [| b [| c s]]; [done | | case_test];
    (match type of H with match ?p with _ => _ end = _ => destruct p eqn:E; [injection H as -> | done | done] end;
     eapply parse_digits_range in E; [done | lia | unfold u32_max; lia]).
Qed.

Lemma parse_relfile_range name r f : parse_relfile name = Some (r, f) -> in_u32 r.
Proof.
  unfold parse_relfile. destruct (match rsplit_once underscore name with Some _ => _ | None => _ end) as [num fk].
  destruct (parse_u32 num) as [z|] eqn:E; [| done]. intros [= <- _]. by eapply parse_u32_range.
Qed.

Lemma dir_files_wf spc db children f : in_u32 spc -> in_u32 db -> f ∈ dir_files spc db children -> RelTag_wf f.1.
Proof.
  intros Hs Hd Hf. apply list_elem_of_omap in Hf as ([name node] & _ & E). destruct (utf8_valid name); [| done].
  destruct (parse_relfile name) as [[r fk]|] eqn:Er; [| done]. injection E as <-. split; [done |]. split; [done |].
  by eapply parse_relfile_range.
Qed.

Lemma relation_files_wf pgdata f : f ∈ relation_files pgdata -> RelTag_wf f.1.
Proof.
  unfold relation_files. rewrite elem_of_app. intros [Hf | Hf].
  - destruct (child _ pgdata) as [[|]|]; [by apply not_elem_of_nil in Hf | | by apply not_elem_of_nil in Hf].
    eapply dir_files_wf; [| | exact Hf]; by unfold in_u32.
  - destruct (child _ pgdata) as [[| dbs]|]; [by apply not_elem_of_nil in Hf | | by apply not_elem_of_nil in Hf].
    apply list_elem_of_In, in_flat_map in Hf as ([name node] & _ & Hf). apply list_elem_of_In in Hf.
    destruct node as [| children]; [by apply not_elem_of_nil in Hf |].
    destruct (if utf8_valid name then parse_u32 name else None) as [db|] eqn:Edb; [| by apply not_elem_of_nil in Hf].
    destruct (utf8_valid name); [| done]. eapply dir_files_wf; [| by eapply parse_u32_range | exact Hf]. by unfold in_u32.
Qed.

(** What a repository given modifications with distinct keys holds. *)
Lemma spec_ingest_elem mods k v :
  NoDup (mod_key <$> mods) -> In (k, v) (spec_ingest mods []) <-> exists m, m ∈ mods /\ mod_key m = k /\ m_version m = v.
Proof.
  intros Hnd. rewrite <- bt_get_In by by apply spec_ingest_sorted. induction mods as [| m mods IH] using rev_ind.
  { split; [done | intros (m & Hm & _); by apply not_elem_of_nil in Hm]. }
  rewrite fmap_app, NoDup_app in Hnd. destruct Hnd as (Hnd & Hd & _). rewrite spec_ingest_app. cbn [spec_ingest fold_left].
  rewrite bt_get_insert. case_decide as E.
  - subst k. split; [intros [= <-]; exists m; split; [apply elem_of_app; right; by left | done] |].
    intros (m' & Hm' & Ek & <-). apply elem_of_app in Hm' as [Hm' | Hm']; [| apply list_elem_of_singleton in Hm' as ->; done].
    exfalso. apply (Hd (mod_key m)); [rewrite <- Ek; by apply list_elem_of_fmap_2 | by left].
  - rewrite IH by done. split; intros (m' & Hm' & Ek & Ev); exists m'; (split; [| done]); [apply elem_of_app; by left |].
    apply elem_of_app in Hm' as [Hm' | Hm']; [done | apply list_elem_of_singleton in Hm' as ->; done].
Qed.

(** The file's page, or none past its end. *)
Definition file_page (data : bytes) (blk : Z) : PageLookup :=
  if blk * PAGE_SIZE <? len data then Page (pad_page (sub data (blk * PAGE_SIZE) PAGE_SIZE)) else NotFound.

(** The file's size in blocks; a file without blocks leaves no trace. *)
Definition file_blocks (data : bytes) : option Z :=
  if 0 <? len data then Some ((len data - 1) / PAGE_SIZE + 1) else None.

Section Read.
Context (lsn : Lsn) (fs : list (RelTag * fs_node)).
Hypothesis lsn_ok : in_u64 lsn.
Hypothesis fs_nodup : NoDup fs.*1.
Hypothesis fs_importable : Forall importable fs.
Abbreviation mods := (flat_map (file_images lsn) fs).

Lemma importable_data f data : f ∈ fs -> fs_read f.2 = Ok data -> len data <= u32_max * PAGE_SIZE.
Proof using fs_importable.
  intros Hf Hd. rewrite Forall_forall in fs_importable. destruct (fs_importable f Hf) as (d & Hd' & Hl). congruence.
Qed.

(** The modifications of one file. *)
Lemma elem_mods f data m :
  f ∈ fs -> fs_read f.2 = Ok data ->
  m ∈ mods /\ m_rel m = f.1 <-> exists b, 0 <= b /\ b * PAGE_SIZE < len data /\
    m = mkModification f.1 b lsn (Image (pad_page (sub data (b * PAGE_SIZE) PAGE_SIZE))).
Proof using fs_importable fs_nodup.
  intros Hf Hd. pose proof (importable_data f data Hf Hd) as Hl. rewrite <- (elem_file_images lsn f data) by done. split.
  - intros [Hm Er]. apply list_elem_of_In, in_flat_map in Hm as (f2 & Hf2 & Hm). apply list_elem_of_In in Hf2, Hm.
    replace f with f2; [done |]. apply (NoDup_key_inj fst fs); [done .. |]. rewrite <- Er.
    rewrite Forall_forall in fs_importable. destruct (fs_importable f2 Hf2) as (d & Hd' & Hl2).
    rewrite (elem_file_images lsn f2 d) in Hm by done. by destruct Hm as (b & _ & _ & ->).
  - intros Hm. split; [| rewrite (elem_file_images lsn f data) in Hm by done; by destruct Hm as (b & _ & _ & ->)].
    apply list_elem_of_In, in_flat_map. exists f. by rewrite <- !list_elem_of_In.
Qed.

Lemma imported_versions f data blk lsn' :
  f ∈ fs -> fs_read f.2 = Ok data -> 0 <= blk -> lsn <= lsn' ->
  range_versions (mkPageKey f.1 blk) lsn' (spec_ingest mods []) =
    if blk * PAGE_SIZE <? len data then [(lsn, Image (pad_page (sub data (blk * PAGE_SIZE) PAGE_SIZE)))] else [].
Proof using All.
  intros Hf Hd Hb Hl. unfold in_u64 in lsn_ok. apply bt_sorted_eq.
  { by apply range_versions_sorted, spec_ingest_sorted. }
  { by case_test. }
  intros [l v]. rewrite In_range_versions, spec_ingest_elem by by apply file_images_keys. split.
  - intros [(m & Hm & Ek & <-) Hr]. unfold mod_key in Ek. injection Ek as Er Eb El.
    destruct (proj1 (elem_mods f data m Hf Hd) (conj Hm Er)) as (b & Hb' & Hk & ->). cbn [m_block m_lsn m_version] in *. subst b l.
    rewrite (proj2 (Z.ltb_lt _ _)) by done. by left.
  - case_test; [| done]. bool_to_prop. intros [[= <- <-] | []]. split; [| lia].
    eexists. split; [eapply (elem_mods f data); [done .. |]; by eexists |]. done.
Qed.

Lemma imported_size f data lsn' :
  f ∈ fs -> fs_read f.2 = Ok data -> lsn <= lsn' -> high_water f.1 lsn' mods = file_blocks data.
Proof using All.
  intros Hf Hd Hl. assert (Hbs : Forall (fun m => 0 <= m_block m) mods).
  { apply Forall_forall. intros m Hm. apply list_elem_of_In, in_flat_map in Hm as (f2 & Hf2 & Hm). apply list_elem_of_In in Hf2, Hm.
    rewrite Forall_forall in fs_importable. destruct (fs_importable f2 Hf2) as (d & Hd' & Hl2).
    rewrite (elem_file_images lsn f2 d) in Hm by done. by destruct Hm as (b & ? & _ & ->). }
  pose proof (high_water_spec f.1 lsn' mods Hbs) as Hw. unfold file_blocks.
  set (last_block := (len data - 1) / PAGE_SIZE).
  assert (Hlast : 0 < len data -> 0 <= last_block /\ last_block * PAGE_SIZE < len data /\ forall b, b * PAGE_SIZE < len data -> b <= last_block).
  { intros Hp. unfold last_block, PAGE_SIZE. pose proof (Z.div_mod (len data - 1) 8192 ltac:(lia)).
    pose proof (Z.mod_pos_bound (len data - 1) 8192 ltac:(lia)). repeat split; [lia | lia |]. intros b Hb. nia. }
  destruct (Z.ltb_spec 0 (len data)) as [Hp | Hp].
  - destruct (Hlast Hp) as (H1 & H2 & H3).
    assert (Hm : mkModification f.1 last_block lsn (Image (pad_page (sub data (last_block * PAGE_SIZE) PAGE_SIZE))) ∈ mods).
    { apply (elem_mods f data); [done | done |]. by eexists. }
    destruct (high_water f.1 lsn' mods) as [n|]; [| exfalso; by eapply Hw; [exact Hm | split; [done |]]].
    destruct Hw as [(m & Hm' & [Er _] & ->) Hmax]. f_equal.
    specialize (Hmax _ Hm ltac:(by split)). cbn [m_block] in Hmax.
    destruct (proj1 (elem_mods f data m Hf Hd) (conj Hm' Er)) as (b & Hb & Hk & ->). cbn [m_block] in *. specialize (H3 b Hk). lia.
  - destruct (high_water f.1 lsn' mods) as [n|]; [| done]. exfalso. destruct Hw as [(m & Hm & [Er _] & _) _].
    destruct (proj1 (elem_mods f data m Hf Hd) (conj Hm Er)) as (b & Hb & Hk & _). unfold PAGE_SIZE in Hk. lia.
Qed.
End Read.

Lemma same_lsn_ordered (lsn : Lsn) ms : 0 <= lsn -> Forall (fun m => m_lsn m = lsn /\ 0 <= m_block m) ms -> lsn_ordered ms.
Proof.
  intros Hl Hall. split; [eapply Forall_impl; [exact Hall |]; intros m [-> ?]; done |].
  induction Hall as [| m ms [Em _] Hall IH]; constructor; [done |].
  eapply Forall_impl; [exact Hall |]. intros m' [E' _]. cbn beta. lia.
Qed.

(** A repository without earlier writes serves the files given to it. *)
Lemma imported_reads {R} `{HM : WalRedoManager R, !WalRedoLaws R, !FullReplay R} lsn fs thr i f data blk lsn' (r : R) :
  in_u64 lsn -> NoDup fs.*1 -> Forall importable fs -> ingest (flat_map (file_images lsn) fs) (Repository_new thr) = Ok i ->
  f ∈ fs -> fs_read f.2 = Ok data -> 0 <= blk -> lsn <= lsn' -> fr_ready r -> fr_key (mkPageKey f.1 blk) ->
  (exists r', get_page i (mkPageKey f.1 blk) lsn' r = (r', Ok (file_page data blk))) /\
  get_rel_size i f.1 lsn' = file_blocks data.
Proof.
  intros Hlsn Hnd Him Hi Hf Hd Hb Hl Hr Hk. pose proof (file_images_keys lsn fs Hnd Him) as Hkeys. split.
  - pose proof (rep_ingest _ _ [] lsn' i (rep_new thr lsn') Hkeys ltac:(intros m _; apply not_elem_of_nil) Hi) as Hrep.
    unfold get_page, get_page_with_base. rewrite (rep_read _ _ lsn' _ lsn' None r Hrep (Z.le_refl lsn')). cbn [spec_history].
    rewrite (imported_versions lsn fs Hlsn Hnd Him f data) by done. unfold file_page.
    destruct (Z.ltb_spec (blk * PAGE_SIZE) (len data)) as [H | H].
    + destruct (fr_replay (mkPageKey f.1 blk) lsn' [(lsn, Image (pad_page (sub data (blk * PAGE_SIZE) PAGE_SIZE)))] r) as (r' & -> & _);
        [done | done | apply Forall_singleton, fr_image | apply fr_limit_pos |]. exists r'. f_equal.
      unfold page_at. cbn [fold_left history_step snd]. rewrite len_pad_page by (by apply sub_len_le). by rewrite Z.eqb_refl.
    + destruct (fr_replay (mkPageKey f.1 blk) lsn' [] r) as (r' & -> & _); [done | done | constructor | pose proof fr_limit_pos; rewrite len_nil; lia |]. by exists r'.
  - assert (Hord : lsn_ordered (flat_map (file_images lsn) fs)).
    { assert (Hall : Forall (fun m => m_lsn m = lsn /\ 0 <= m_block m) (flat_map (file_images lsn) fs)).
      { apply Forall_forall. intros m Hm. apply list_elem_of_In, in_flat_map in Hm as (f2 & Hf2 & Hm). apply list_elem_of_In in Hf2, Hm.
        rewrite Forall_forall in Him. destruct (Him f2 Hf2) as (d & Hd' & Hl2).
        rewrite (elem_file_images lsn f2 d) in Hm by done. by destruct Hm as (b & ? & _ & ->). }
      unfold in_u64 in Hlsn. apply (same_lsn_ordered lsn); [lia | done]. }
    assert (H0 : sizes_ok (rel_sizes (Repository_new thr)) []) by done.
    pose proof (ingest_sizes_ok _ _ [] i H0 Hord Hi) as Hok. unfold get_rel_size. rewrite (so_sizes _ _ Hok).
    by apply imported_size.
Qed.


(** A directory with one shared and one database relation. *)
Definition demo_pgdata : list (bytes * fs_node) :=
  [(text "PG_VERSION", File (Some [x31; x36]));
   (text "base", Dir [(text "5", Dir [(text "16384_vm", File (Some [])); (text "16384", File (Some [x61; x62]))])]);
   (text "global", Dir [(text "pg_control", File None); (text "1262", File (Some [x63]))])].

