(* ===== verification/Http.v ===== *)
(** What the hand-rolled HTTP endpoints share: the string functions they use, the
    reader of a request head from a socket, and the form of a response
    (src/pageserver/src/httpapi.rs, src/proxy/src/control.rs). *)

From S2P Require Import Prelude Bytes Text PageVersion ObjStore.

(** ** Strings *)

(** [haystack.windows(needle.len()).position(|w| w == needle)], counted from [off] *)
Fixpoint find_from (off : Z) (needle haystack : bytes) : option Z :=
  if starts_with needle haystack then Some off
  else match haystack with [] => None | _ :: h => find_from (off + 1) needle h end.

Definition find_subsequence (haystack needle : bytes) : option Z := find_from 0 needle haystack.

(** [s.split(pat)] for a non-empty pattern, with the piece read so far *)
Fixpoint split_at (fuel : nat) (pat cur s : bytes) : list bytes :=
  match fuel, s with
  | S fuel', b :: s' =>
      if starts_with pat s then cur :: split_at fuel' pat [] (drop (length pat) s)
      else split_at fuel' pat (cur ++ [b]) s'
  | _, _ => [cur]
  end.

Definition split_str (pat s : bytes) : list bytes := split_at (length s) pat [] s.

(** [s.strip_prefix(pat)] *)
Definition strip_prefix (pat s : bytes) : option bytes :=
  if starts_with pat s then Some (drop (length pat) s) else None.

Definition ascii_lower (b : byte) : byte := if (65 <=? ch b) && (ch b <=? 90) then z2b (ch b + 32) else b.

(** [a.eq_ignore_ascii_case(b)] *)
Definition eq_ignore_ascii_case (a b : bytes) : bool := bool_decide (ascii_lower <$> a = ascii_lower <$> b).

(** ** Fields between separators *)

Fixpoint join_char (c : byte) (ls : list bytes) : bytes :=
  match ls with
  | [] => []
  | [l] => l
  | l :: ls' => l ++ c :: join_char c ls'
  end.

Definition free_of (c : byte) (l : bytes) : Prop := Forall (fun b => b <> c) l.

Lemma starts_char c b s : b <> c -> starts_with [c] (b :: s) = false.
Proof. intros Hb. apply bool_decide_eq_false. cbn. intros [= E]. by apply Hb. Qed.

Lemma split_char_at c ls : forall fuel cur l, (free_of c) l -> Forall (free_of c) ls ->
  (length (join_char c (l :: ls)) <= fuel)%nat ->
  split_at fuel [c] cur (join_char c (l :: ls)) = (cur ++ l) :: ls.
Proof.
  induction ls as [| l' ls IHls]; intros fuel cur l Hl Hls Hf.
  - cbn [join_char] in *. revert cur l Hl Hf. induction fuel as [| fuel IH]; intros cur l Hl Hf.
    { destruct l; [by rewrite app_nil_r | cbn in Hf; lia]. }
    destruct l as [| b l]; [by rewrite app_nil_r |]. apply Forall_cons in Hl as [Hb Hl]. cbn [split_at].
    rewrite starts_char by done. rewrite IH; [by rewrite <- app_assoc | done | cbn in Hf; lia].
  - apply Forall_cons in Hls as [Hl' Hls].
    change (join_char c (l :: l' :: ls)) with (l ++ c :: join_char c (l' :: ls)) in *. revert fuel cur Hf.
    induction Hl as [| b l Hb Hl IH]; intros fuel cur Hf; (destruct fuel as [| fuel]; [cbn in Hf; lia |]).
    + cbn [app split_at]. replace (starts_with [c] (c :: join_char c (l' :: ls))) with true by (unfold starts_with; cbn; by rewrite bool_decide_true).
      rewrite app_nil_r. f_equal. apply (IHls fuel [] l' Hl' Hls). cbn [app length] in Hf. lia.
    + cbn [app split_at]. rewrite starts_char by done. rewrite IH; [by rewrite <- app_assoc | cbn [app length] in Hf; lia].
Qed.

Lemma split_char c l ls : Forall (free_of c) (l :: ls) -> split_str [c] (join_char c (l :: ls)) = l :: ls.
Proof. intros [Hl Hls]%Forall_cons. unfold split_str. by rewrite split_char_at. Qed.

Definition CRLF : bytes := [z2b 13; z2b 10].
Definition head_end : bytes := CRLF ++ CRLF.

(** ** Reading

    A socket is what its reads return: some bytes, or [None] for a failed read; a
    read of no bytes, or no further read, is the end of the stream. *)

Abbreviation reads := (list (option bytes)).

Inductive HttpError := HttpIo | Incomplete | HeadTooLarge.

Definition read_some (rs : reads) : outcome HttpError (bytes * reads) :=
  match rs with
  | [] => Ok ([], [])
  | None :: _ => Err HttpIo
  | Some b :: rs' => Ok (b, rs')
  end.

(** Read until the buffer holds the end of the head: its position, the buffer, and
    the reads left.  [None] is the end of the stream. *)
Fixpoint read_head (limit : Z) (buf : bytes) (rs : reads) : outcome HttpError (option Z * bytes * reads) :=
  match find_subsequence buf head_end with
  | Some pos => Ok (Some pos, buf, rs)
  | None =>
      match rs with
      | [] | Some [] :: _ => Ok (None, buf, [])
      | None :: _ => Err HttpIo
      | Some b :: rs' =>
          ensure len (buf ++ b) <? limit else HeadTooLarge in
          read_head limit (buf ++ b) rs'
      end
  end.

(** Read until the body has [n] bytes or the stream ends. *)
Fixpoint read_body (n : Z) (body : bytes) (rs : reads) : outcome HttpError bytes :=
  if len body <? n then
    match rs with
    | [] | Some [] :: _ => Ok body
    | None :: _ => Err HttpIo
    | Some b :: rs' => read_body n (body ++ b) rs'
    end
  else Ok body.

(** ** Responses *)

Definition quoted (s : string) : bytes := z2b 34 :: text s ++ [z2b 34].
Definition healthy : bytes := text "{" ++ quoted "status" ++ text ":" ++ quoted "ok" ++ text "}".

Definition is_success (status : Z) : bool := (200 <=? status) && (status <? 300).

Definition http_response (status : Z) (json : bytes) : bytes :=
  text "HTTP/1.1 " ++ fmt_dec status ++ text (if is_success status then " OK" else " Error") ++ CRLF ++
  text "Content-Type: application/json" ++ CRLF ++ text "Content-Length: " ++ fmt_dec (len json) ++ CRLF ++
  text "Connection: close" ++ head_end ++ json.

(** ** Any division of the stream into reads gives the same request *)

Lemma starts_with_app pat s : starts_with pat (pat ++ s) = true.
Proof. unfold starts_with. by rewrite take_app_length, bool_decide_true. Qed.

Lemma starts_with_inv pat s : starts_with pat s = true -> exists t, s = pat ++ t.
Proof.
  unfold starts_with. intros H%bool_decide_eq_true. exists (drop (length pat) s). rewrite <- H at 1. by rewrite take_drop.
Qed.

(** [head] ends at its first blank line. *)
Definition one_head (head : bytes) : Prop := find_subsequence (head ++ head_end) head_end = Some (len head).

Lemma starts_with_drop needle s t (k : nat) :
  (k + length needle <= length s)%nat -> starts_with needle (drop k (s ++ t)) = starts_with needle (drop k s).
Proof.
  intros H. unfold starts_with. rewrite drop_app_le by lia. by rewrite take_app_le by (rewrite length_drop; lia).
Qed.

Lemma starts_with_length needle s : starts_with needle s = true -> (length needle <= length s)%nat.
Proof. intros [t ->]%starts_with_inv. rewrite length_app. lia. Qed.

Lemma find_from_Some off needle s p :
  find_from off needle s = Some p <->
  exists k, p = off + Z.of_nat k /\ starts_with needle (drop k s) = true /\
    forall j, (j < k)%nat -> starts_with needle (drop j s) = false.
Proof.
  revert off; induction s as [| b s IH]; intros off.
  - cbn [find_from]. destruct (starts_with needle []) eqn:E.
    + split; [intros [= <-]; exists 0%nat; split; [lia |]; split; [done | lia] |].
      intros (k & -> & _ & Hk). destruct k as [| k]; [f_equal; lia |]. specialize (Hk 0%nat ltac:(lia)). by rewrite drop_0 in Hk; congruence.
    + split; [done |]. intros (k & _ & Hs & _). rewrite drop_nil in Hs. congruence.
  - cbn [find_from]. destruct (starts_with needle (b :: s)) eqn:E.
    + split; [intros [= <-]; exists 0%nat; split; [lia |]; split; [done | lia] |].
      intros (k & -> & _ & Hk). destruct k as [| k]; [f_equal; lia |]. specialize (Hk 0%nat ltac:(lia)). rewrite drop_0 in Hk. congruence.
    + rewrite IH. split.
      * intros (k & -> & Hs & Hk). exists (S k). split; [lia |]. split; [done |]. intros [| j] Hj; [done | apply Hk; lia].
      * intros ([| k] & -> & Hs & Hk); [rewrite drop_0 in Hs; congruence |]. exists k. split; [lia |]. split; [done |].
        intros j Hj. apply (Hk (S j)). lia.
Qed.

Lemma find_Some s needle (k : nat) :
  find_subsequence s needle = Some (Z.of_nat k) <->
  starts_with needle (drop k s) = true /\ forall j, (j < k)%nat -> starts_with needle (drop j s) = false.
Proof.
  unfold find_subsequence. rewrite find_from_Some. split.
  - intros (k' & E & H). by replace k with k' by lia.
  - intros H. exists k. by split; [lia |].
Qed.

(** Bytes behind the first occurrence do not matter, and before it is complete there is none. *)
Lemma find_app s t needle (k : nat) :
  find_subsequence s needle = Some (Z.of_nat k) -> find_subsequence (s ++ t) needle = Some (Z.of_nat k).
Proof.
  rewrite !find_Some. intros [Hs Hk]. pose proof (starts_with_length _ _ Hs) as Hl. rewrite length_drop in Hl.
  destruct (Nat.le_gt_cases (k + length needle) (length s)) as [H | H].
  - rewrite starts_with_drop by done. split; [done |]. intros j Hj. rewrite starts_with_drop by lia. by apply Hk.
  - assert (needle = []) as -> by (destruct needle; [done | cbn in *; lia]). split; [done |]. intros j Hj. by apply Hk in Hj.
Qed.

Lemma find_prefix s t needle (k : nat) :
  needle <> [] -> find_subsequence (s ++ t) needle = Some (Z.of_nat k) ->
  find_subsequence s needle = if bool_decide (k + length needle <= length s)%nat then Some (Z.of_nat k) else None.
Proof.
  intros Hne Hf. pose proof (proj1 (find_Some _ _ _) Hf) as [Hs Hk]. case_bool_decide as Hl.
  - apply find_Some. rewrite <- (starts_with_drop needle s t k) by done. split; [done |]. intros j Hj.
    rewrite <- (starts_with_drop needle s t j) by lia. by apply Hk.
  - destruct (find_subsequence s needle) as [p|] eqn:E; [| done]. exfalso.
    assert (0 <= p) as Hp. { unfold find_subsequence in E. apply find_from_Some in E as (j & -> & _). lia. }
    rewrite <- (Z2Nat.id p) in E by done. pose proof (proj1 (find_Some _ _ _) E) as [Hj _]. apply (find_app s t) in E.
    rewrite Hf in E. injection E as E. apply starts_with_length in Hj. rewrite length_drop in Hj.
    destruct needle; [done | cbn [length] in *; lia].
Qed.

Lemma one_head_app head t : one_head head -> find_subsequence (head ++ head_end ++ t) head_end = Some (len head).
Proof. intros H. rewrite app_assoc. by apply find_app. Qed.

(** Reads that end the stream only after all their bytes. *)
Definition delivers (rs : reads) (stream : bytes) : Prop :=
  exists bs, rs = Some <$> bs /\ Forall (fun b => b <> []) bs /\ concat bs = stream.

Lemma delivers_cons b rs stream : delivers (Some b :: rs) stream -> b <> [] /\ exists s, stream = b ++ s /\ delivers rs s.
Proof.
  intros ([| b' bs] & E & Hne & <-); [done |]. injection E as -> ->. apply Forall_cons in Hne as [Hb Hne]. split; [done |].
  exists (concat bs). split; [done |]. by exists bs.
Qed.

Lemma delivers_nil stream : delivers [] stream -> stream = [].
Proof. intros ([| b bs] & E & _ & <-); done. Qed.

Lemma delivers_None rs stream : ~ delivers (None :: rs) stream.
Proof. by intros ([| b bs] & E & _). Qed.

Lemma read_head_ok limit head t rs : forall buf,
  one_head head -> len (head ++ head_end ++ t) < limit -> (exists s, delivers rs s /\ buf ++ s = head ++ head_end ++ t) ->
  exists u rs', read_head limit buf rs = Ok (Some (len head), head ++ head_end ++ u, rs') /\
    exists s, delivers rs' s /\ u ++ s = t.
Proof.
  induction rs as [| r rs IH]; intros buf Hh Hl (s & Hd & E); pose proof (one_head_app head t Hh) as Hf; rewrite <- E in Hf;
    pose proof (find_prefix buf s head_end (length head) ltac:(done) Hf) as Hp; cbn [read_head]; rewrite Hp.
  - case_bool_decide as Hb.
    + apply delivers_nil in Hd as ->. rewrite app_nil_r in E. subst buf. exists t, []. split; [done |]. exists []. split; [by exists [] | apply app_nil_r].
    + apply delivers_nil in Hd as ->. rewrite app_nil_r in E. subst buf. rewrite !length_app in Hb. lia.
  - case_bool_decide as Hb.
    + assert (Eb : buf = head ++ head_end ++ drop (length (head ++ head_end)) buf).
      { rewrite app_assoc in E |- *. rewrite <- (take_drop (length (head ++ head_end)) buf) at 1. f_equal.
        apply (f_equal (take (length (head ++ head_end)))) in E. rewrite take_app_length in E.
        rewrite take_app_le in E by (rewrite length_app; done). done. }
      eexists _, _. split; [f_equal; f_equal; f_equal; exact Eb |]. exists s. split; [done |].
      rewrite Eb in E. rewrite <- !app_assoc in E. by apply app_inv_head, app_inv_head in E.
    + destruct r as [b|]; [| by apply delivers_None in Hd]. apply delivers_cons in Hd as (Hne & s' & -> & Hd).
      destruct b as [| x b]; [done |]. rewrite (proj2 (Z.ltb_lt _ _)); cycle 1.
      { rewrite <- E in Hl. rewrite app_assoc, len_app in Hl. pose proof (len_nonneg s'). lia. }
      apply IH; [done | done |]. exists s'. split; [done |]. by rewrite <- app_assoc.
Qed.

Lemma read_body_ok n rs : forall body s, delivers rs s -> n <= len (body ++ s) ->
  exists u, read_body n body rs = Ok u /\ sub u 0 n = sub (body ++ s) 0 n.
Proof.
  induction rs as [| r rs IH]; intros body s Hd Hn; cbn [read_body].
  - apply delivers_nil in Hd as ->. rewrite app_nil_r in *. case_test; by exists body.
  - case_test.
    + destruct r as [b|]; [| by apply delivers_None in Hd]. apply delivers_cons in Hd as (Hne & s' & -> & Hd).
      destruct b as [| x b]; [done |]. rewrite app_assoc in Hn |- *. by apply IH.
    + exists body. split; [done |]. bool_to_prop. unfold sub, len in *. cbn [Z.to_nat]. rewrite !drop_0.
      by rewrite take_app_le by lia.
Qed.

(** ** Valid UTF-8 *)

Lemma utf8_all_ascii s : forall fuel, Forall (fun b => ch b < 128) s -> utf8_all fuel s = true.
Proof.
  induction s as [| b s IH]; intros [| fuel] Hs; try done. apply Forall_cons in Hs as [Hb Hs]. cbn [utf8_all utf8_scan].
  rewrite (proj2 (Z.ltb_lt _ _)) by done. cbn [andb drop]. by apply IH.
Qed.

Lemma utf8_scan_app a b n : utf8_scan a = (true, n) -> utf8_scan (a ++ b) = (true, n) /\ (1 <= n <= length a)%nat.
Proof.
  destruct a as [| b0 a]; [done |]. cbn [utf8_scan app]. case_test; [intros [= <-]; split; [done | cbn; lia] |].
  destruct (in_byte_range 194 223 b0).
  { destruct a as [| b1 a]; cbn [test_next app]; [done |]. case_test; intros [= <-]. split; [done | cbn; lia]. }
  destruct (in_byte_range 224 239 b0).
  { destruct a as [| b1 a]; cbn [test_next app]; [done |]. case_test; [| done].
    destruct a as [| b2 a]; cbn [test_next app drop]; [done |]. case_test; intros [= <-]. split; [done | cbn; lia]. }
  destruct (in_byte_range 240 244 b0); [| done].
  destruct a as [| b1 a]; cbn [test_next app]; [done |]. case_test; [| done].
  destruct a as [| b2 a]; cbn [test_next app drop]; [done |]. case_test; [| done].
  destruct a as [| b3 a]; cbn [test_next app drop]; [done |]. case_test; intros [= <-]. split; [done | cbn; lia].
Qed.

Lemma utf8_all_app n : forall a b fa fb, (length a <= n)%nat -> (length a <= fa)%nat -> (length (a ++ b) <= fb)%nat ->
  (forall f, (length b <= f)%nat -> utf8_all f b = true) -> utf8_all fa a = true -> utf8_all fb (a ++ b) = true.
Proof.
  induction n as [| n IH]; intros a b fa fb Hn Hfa Hfb Hb Ha.
  { destruct a; [| cbn in Hn; lia]. by apply Hb. }
  destruct a as [| x a]; [by apply Hb |]. destruct fa as [| fa]; [cbn in Hfa; lia |]. destruct fb as [| fb]; [cbn in Hfb; lia |].
  cbn [utf8_all] in Ha. cbn [app utf8_all]. destruct (utf8_scan (x :: a)) as [v k] eqn:Es. apply andb_true_iff in Ha as [-> Ha].
  destruct (utf8_scan_app (x :: a) b k Es) as [Es' Hk]. cbn [app] in Es'. rewrite Es'. cbn [andb].
  change (x :: a ++ b) with ((x :: a) ++ b). rewrite drop_app_le by lia.
  apply (IH _ _ fa); [rewrite length_drop; cbn in *; lia | rewrite length_drop; cbn in *; lia | | done | done].
  rewrite length_app, length_drop in *. cbn in *. lia.
Qed.

Lemma utf8_all_fuel n : forall s f g, (length s <= n)%nat -> (length s <= f)%nat -> (length s <= g)%nat -> utf8_all f s = utf8_all g s.
Proof.
  induction n as [| n IH]; intros s f g Hn Hf Hg.
  { destruct s; [by destruct f, g | cbn in Hn; lia]. }
  destruct s as [| x s]; [by destruct f, g |]. destruct f as [| f]; [cbn in Hf; lia |]. destruct g as [| g]; [cbn in Hg; lia |].
  cbn [utf8_all]. pose proof (utf8_scan_pos x s) as Hp. destruct (utf8_scan (x :: s)) as [v k]. f_equal. cbn [snd] in Hp.
  apply IH; rewrite length_drop; cbn in *; lia.
Qed.

Lemma utf8_valid_app a b : utf8_valid a = true -> utf8_valid b = true -> utf8_valid (a ++ b) = true.
Proof.
  unfold utf8_valid. intros Ha Hb. apply (utf8_all_app (length a) a b (length a)); [done | done | done | | done].
  intros f Hf. by rewrite (utf8_all_fuel (length b) b f (length b)).
Qed.

Lemma utf8_valid_ascii s : Forall (fun b => ch b < 128) s -> utf8_valid s = true.
Proof. apply utf8_all_ascii. Qed.
