(* ===== verification/HttpApi.v ===== *)
(** The HTTP/JSON management endpoint of the page server
    (src/pageserver/src/httpapi.rs), over the state of the control endpoint.  The
    JSON library is a parameter: it reads the request bodies and writes the
    replies. *)

From S2P Require Import Prelude Bytes BTree Text Common PageVersion WalRedo Repository WalDecode Timeline Tenant TenantManager.
From S2P Require Import ObjStore Catalog Offload WalReceiver Control Http.

Record TenantBody := mkTenantBody { tb_id : bytes }.
Record CreateBody := mkCreateBody { cb_id : bytes; cb_tenant : option bytes }.
Record BranchBody := mkBranchBody { bb_timeline : bytes; bb_parent : bytes; bb_lsn : Lsn; bb_tenant : option bytes }.
Record ReceiveBody := mkReceiveBody { rb_timeline : bytes; rb_safekeeper : bytes; rb_start_lsn : Lsn; rb_tenant : option bytes }.
Record GcBody := mkGcBody { gb_horizon_lsn : Lsn; gb_tenant : option bytes }.

(** The documents the endpoint writes. *)
Inductive json_doc :=
| JError (error : bytes)
| JDeleted (id : bytes)
| JCreated (id : bytes)
| JTenants (ids : list bytes)
| JTimelines (ids : list bytes)
| JBranched (branched parent : bytes) (lsn : Lsn)
| JReceiving (timeline from : bytes)
| JGc (horizon_lsn : Lsn) (timelines versions_removed objects_deleted : Z).

(** [serde_json::from_slice] for each body, with the text of its error, and
    [to_string]. *)
Class HttpJson := {
  json_tenant : bytes -> TenantBody + bytes;
  json_create : bytes -> CreateBody + bytes;
  json_branch : bytes -> BranchBody + bytes;
  json_receive : bytes -> ReceiveBody + bytes;
  json_gc : bytes -> GcBody + bytes;
  json_text : json_doc -> bytes
}.

Definition TenantManagerError_display (e : TenantManagerError) : bytes :=
  match e with TenantExists id => text "tenant " ++ Id_display id ++ text " already exists" end.

(** ** Requests *)

Record http_request := mkRequest {
  rq_method : bytes;
  rq_path : bytes;
  rq_authorization : option bytes;
  rq_body : bytes
}.

Definition colon : byte := z2b 58.
Definition question_mark : byte := z2b 63.
Definition HEAD_LIMIT : Z := 2 ^ 20.

(** [v.parse::<usize>().unwrap_or(0)] *)
Definition parse_length (v : bytes) : Z := default 0 (parse_u64 v).

(** The header lines: content length and authorization, the last of each. *)
Definition header_line (acc : Z * option bytes) (l : bytes) : Z * option bytes :=
  match split_once colon l with
  | None => acc
  | Some (k, v) =>
      let k := trim k in let v := trim v in
      if eq_ignore_ascii_case k (text "content-length") then (parse_length v, acc.2)
      else if eq_ignore_ascii_case k (text "authorization") then (acc.1, Some v)
      else acc
  end.

Definition parse_head (head : bytes) : bytes * bytes * (Z * option bytes) :=
  match split_str CRLF (from_utf8_lossy head) with
  | [] => ([], [], (0, None))
  | request_line :: headers =>
      let parts := split_whitespace request_line in
      (default [] (parts !! 0%nat), default [] (parts !! 1%nat), fold_left header_line headers (0, None))
  end.

Definition read_request (rs : reads) : outcome HttpError (option http_request) :=
  let? (pos, buf, rs) := read_head HEAD_LIMIT [] rs in
  match pos with
  | None => match buf with [] => Ok None | _ => Err Incomplete end
  | Some header_end =>
      let '(method, path, (content_length, authorization)) := parse_head (sub buf 0 header_end) in
      let body_start := header_end + len head_end in
      let? body := read_body content_length (sub buf body_start (len buf - body_start)) rs in
      Ok (Some (mkRequest method path authorization (sub body 0 content_length)))
  end.

(** [query.split('&').find_map(|kv| kv.strip_prefix("tenant="))] *)
Definition query_tenant (query : bytes) : option bytes :=
  head (omap (strip_prefix (text "tenant=")) (split_str (text "&") query)).

(** ** Routing *)

Section Routes.
Context {S : Type} `{ObjectStore S} `{CatalogJson} `{HashOrder} `{Network} `{HttpJson} (cfg : ControlConfig).

Abbreviation api := (stateM (Control (S := S)) ControlError).

Definition reply_doc (status : Z) (d : json_doc) : api (Z * bytes) := sret (status, json_text d).
Definition reply_err (status : Z) (msg : bytes) : api (Z * bytes) := reply_doc status (JError msg).
Definition bad_body (e : bytes) : api (Z * bytes) := reply_err 400 (text "invalid body: " ++ e).

Definition on_manager {A : Type} (f : TenantManager -> TenantManager * A) : api A := fun c =>
  let '(tm, a) := f (ct_tenants c) in (mkControl tm (ct_objects c) (ct_receivers c), Ok a).

(** [resolve_tenant], and what is done with the tenant. *)
Definition with_tenant (raw : option bytes) (k : TenantId -> gaddr -> api (Z * bytes)) : api (Z * bytes) :=
  let! id := (match raw with None => sret (Some Id_ZERO) | Some s => slift (parse_id (Some s)) end) in
  match id with
  | None => reply_err 400 (text "tenant must be 32 hex chars")
  | Some id => let! g := on_manager (get_or_create id) in k id g
  end.

Definition sorted_displays (ids : list Id) : list bytes := sort_key (fun s : bytes => s) (Id_display <$> ids).

(** The reply to a topology change of a tenant. *)
Definition tenant_status {A : Type} (m : stateM Tenant TenantError A) (d : json_doc) : stateM Tenant ControlError (Z * bytes) := fun tn =>
  match m tn with
  | (tn', Ok _) => (tn', Ok (201, json_text d))
  | (tn', Err e) => (tn', Ok (409, json_text (JError (TenantError_display e))))
  | (tn', Panic) => (tn', Panic)
  end.

Definition delete_tenant_route (id : bytes) : api (Z * bytes) :=
  let! tid := slift (parse_id (Some id)) in
  match tid with
  | None => reply_err 400 (text "tenant id must be 32 hex chars")
  | Some tid =>
      let! existed := on_manager (tm_remove tid) in
      if existed then reply_doc 200 (JDeleted (Id_display tid))
      else reply_err 404 (text "unknown tenant " ++ Id_display tid)
  end.

Definition create_tenant_route (body : bytes) : api (Z * bytes) :=
  match json_tenant body with
  | inr e => bad_body e
  | inl b =>
      let! id := slift (parse_id (Some (tb_id b))) in
      match id with
      | None => reply_err 400 (text "id must be 32 hex chars")
      | Some id => fun c =>
          match tm_create id (ct_tenants c) with
          | (tm, Ok _) => (mkControl tm (ct_objects c) (ct_receivers c), Ok (201, json_text (JCreated (Id_display id))))
          | (tm, Err e) => (mkControl tm (ct_objects c) (ct_receivers c), Ok (409, json_text (JError (TenantManagerError_display e))))
          | (tm, Panic) => (mkControl tm (ct_objects c) (ct_receivers c), Panic)
          end
      end
  end.

Definition list_timelines_route (query : bytes) : api (Z * bytes) :=
  with_tenant (query_tenant query) (fun _ g =>
    let! ids := on_tenant g (fun tn => (tn, Ok (timeline_ids tn))) in
    reply_doc 200 (JTimelines (sorted_displays ids))).

Definition create_timeline_route (body : bytes) : api (Z * bytes) :=
  match json_create body with
  | inr e => bad_body e
  | inl b =>
      with_tenant (cb_tenant b) (fun _ g =>
        let! id := slift (parse_id (Some (cb_id b))) in
        match id with
        | None => reply_err 400 (text "id must be 32 hex chars")
        | Some id => on_tenant g (tenant_status (create_timeline id) (JCreated (Id_display id)))
        end)
  end.

Definition branch_route (body : bytes) : api (Z * bytes) :=
  match json_branch body with
  | inr e => bad_body e
  | inl b =>
      with_tenant (bb_tenant b) (fun _ g =>
        let! new := slift (parse_id (Some (bb_timeline b))) in
        let! parent := slift (parse_id (Some (bb_parent b))) in
        match new, parent with
        | Some new, Some parent =>
            on_tenant g (tenant_status (branch_timeline new parent (bb_lsn b))
              (JBranched (Id_display new) (Id_display parent) (bb_lsn b)))
        | _, _ => reply_err 400 (text "timeline and parent must be 32 hex chars")
        end)
  end.

Definition receive_route (body : bytes) : api (Z * bytes) :=
  match json_receive body with
  | inr e => bad_body e
  | inl b =>
      with_tenant (rb_tenant b) (fun tenant_id g =>
        let! timeline := slift (parse_id (Some (rb_timeline b))) in
        match timeline with
        | None => reply_err 400 (text "timeline must be 32 hex chars")
        | Some timeline =>
            match addr_from_str (rb_safekeeper b) with
            | None => reply_err 400 (text "safekeeper must be host:port")
            | Some addr =>
                let! found := on_tenant g (fun tn => (tn, Ok (get_timeline tn timeline))) in
                match found with
                | None => reply_err 404 (text "unknown timeline " ++ Id_display timeline)
                | Some tl =>
                    match tcp_connect addr with
                    | None =>
                        let receiver := WalReceiver_connect tl (WalReceiverConfig_new tenant_id timeline (rb_start_lsn b)) in
                        let! _ := smod (fun c => mkControl (ct_tenants c) (ct_objects c) (ct_receivers c ++ [(addr, g, receiver)])) in
                        reply_doc 200 (JReceiving (Id_display timeline) (rb_safekeeper b))
                    | Some e => reply_err 502 (text "connecting to safekeeper: " ++ e)
                    end
                end
            end
        end)
  end.

Definition gc_route (body : bytes) : api (Z * bytes) :=
  match json_gc body with
  | inr e => bad_body e
  | inl b =>
      with_tenant (gb_tenant b) (fun _ g =>
        let! stats := on_tenant g (gc (gb_horizon_lsn b)) in
        let! deleted := (if cc_gc_store cfg
                         then on_objects (delete_layers (flat_map (fun s => removed_layer_ids s.2) stats) 0)
                         else sret 0) in
        reply_doc 200 (JGc (gb_horizon_lsn b) (len stats) (versions_removed_total stats) deleted))
  end.

Definition route (method path query body : bytes) : api (Z * bytes) :=
  let matches m p := bool_decide (method = text m) && bool_decide (path = text p) in
  match (if bool_decide (method = text "DELETE") then strip_prefix (text "/v1/tenants/") path else None) with
  | Some id => delete_tenant_route id
  | None =>
      if matches "GET" "/healthz" then sret (200, healthy)
      else if matches "GET" "/v1/tenants" then
        let! c := sget in reply_doc 200 (JTenants (sorted_displays (tenant_ids (ct_tenants c))))
      else if matches "POST" "/v1/tenants" then create_tenant_route body
      else if matches "GET" "/v1/timelines" then list_timelines_route query
      else if matches "POST" "/v1/timelines" then create_timeline_route body
      else if matches "POST" "/v1/branches" then branch_route body
      else if matches "POST" "/v1/timelines/receive" then receive_route body
      else if matches "POST" "/v1/gc" then gc_route body
      else reply_err 404 (text "not found")
  end.

(** ** One connection: one request *)

Definition bearer (token : bytes) : bytes := text "Bearer " ++ token.

Definition split_query (raw_path : bytes) : bytes * bytes := default (raw_path, []) (split_once question_mark raw_path).

(** The token the request has to show, if any. *)
Definition expected_token (path : bytes) : option bytes :=
  if bool_decide (path = text "/healthz") then None else cc_token cfg.

Definition respond (rq : http_request) : api (Z * bytes) :=
  let '(path, query) := split_query (rq_path rq) in
  match expected_token path with
  | Some expected =>
      if bool_decide (rq_authorization rq = Some (bearer expected))
      then route (rq_method rq) path query (rq_body rq)
      else reply_err 401 (text "missing or invalid bearer token")
  | None => route (rq_method rq) path query (rq_body rq)
  end.

Definition serve_request (rq : http_request) : api bytes :=
  let! (status, json) := respond rq in
  let! _ := (if (status =? 201) || (bool_decide (rq_method rq = text "DELETE") && is_success status)
             then persist_control cfg else sret tt) in
  sret (http_response status json).

(** The bytes written, if any. *)
Definition handle (rs : reads) (c : Control) : Control * outcome HttpError bytes :=
  match read_request rs with
  | Ok None => (c, Ok [])
  | Err e => (c, Err e)
  | Panic => (c, Panic)
  | Ok (Some rq) =>
      match serve_request rq c with
      | (c', Ok out) => (c', Ok out)
      | (c', Err LineIo) => (c', Err HttpIo)
      | (c', Panic) => (c', Panic)
      end
  end.
End Routes.

(** ** Reading a request *)

Definition CR : byte := z2b 13.

(** Lines joined by line ends. *)
Fixpoint join_crlf (ls : list bytes) : bytes :=
  match ls with
  | [] => []
  | [l] => l
  | l :: ls' => l ++ CRLF ++ join_crlf ls'
  end.

Lemma join_crlf_cons l l' ls : join_crlf (l :: l' :: ls) = l ++ CRLF ++ join_crlf (l' :: ls).
Proof. done. Qed.

Definition plain (l : bytes) : Prop := l <> [] /\ Forall (fun b => b <> CR /\ ch b < 128) l.

Lemma starts_crlf b s : b <> CR -> starts_with CRLF (b :: s) = false.
Proof. intros Hb. apply bool_decide_eq_false. cbn. intros [= E _]. by apply Hb. Qed.

Lemma split_at_last fuel l : forall cur, Forall (fun b => b <> CR /\ ch b < 128) l -> (length l <= fuel)%nat ->
  split_at fuel CRLF cur l = [cur ++ l].
Proof.
  revert l; induction fuel as [| fuel IH]; intros l cur Hl Hf; [by destruct l; [rewrite app_nil_r | cbn in Hf; lia] |].
  destruct l as [| b l]; [by rewrite app_nil_r |]. apply Forall_cons in Hl as [[Hb _] Hl]. cbn [split_at].
  rewrite starts_crlf by done. rewrite IH; [by rewrite <- app_assoc | done | cbn in Hf; lia].
Qed.

Lemma split_at_line l rest : forall fuel cur, Forall (fun b => b <> CR /\ ch b < 128) l -> (length (l ++ CRLF ++ rest) <= fuel)%nat ->
  exists fuel', (length rest <= fuel')%nat /\ split_at fuel CRLF cur (l ++ CRLF ++ rest) = (cur ++ l) :: split_at fuel' CRLF [] rest.
Proof.
  induction l as [| b l IH]; intros fuel cur Hl Hf; (destruct fuel as [| fuel]; [cbn in Hf; lia |]).
  - exists fuel. cbn in Hf. split; [lia |]. cbn [app split_at CRLF].
    change (z2b 13 :: z2b 10 :: rest) with (CRLF ++ rest). rewrite starts_with_app, app_nil_r. done.
  - apply Forall_cons in Hl as [[Hb _] Hl]. cbn [app split_at]. rewrite starts_crlf by done.
    destruct (IH fuel (cur ++ [b]) Hl) as (f & Hf' & E); [cbn [app length] in Hf; lia |]. exists f. split; [done |].
    cbn [app] in E. rewrite E, <- app_assoc. done.
Qed.

Lemma split_at_join ls : forall fuel, ls <> [] -> Forall plain ls -> (length (join_crlf ls) <= fuel)%nat ->
  split_at fuel CRLF [] (join_crlf ls) = ls.
Proof.
  induction ls as [| l ls IH]; intros fuel Hne Hp Hf; [done |]. apply Forall_cons in Hp as [[_ Hl] Hp].
  destruct ls as [| l' ls]; [by apply (split_at_last fuel l []) |]. rewrite join_crlf_cons in Hf |- *.
  destruct (split_at_line l (join_crlf (l' :: ls)) fuel [] Hl Hf) as (f & Hf' & E). rewrite E. cbn [app]. f_equal. by apply IH.
Qed.

Lemma join_crlf_ascii ls : Forall plain ls -> Forall (fun b => ch b < 128) (join_crlf ls).
Proof.
  induction 1 as [| l ls [_ Hl] Hp IH]; [constructor |].
  assert (Hl' : Forall (fun b => ch b < 128) l) by (eapply Forall_impl; [exact Hl |]; intros b [_ ?]; done).
  destruct ls as [| l' ls]; [done |]. cbn [join_crlf]. apply Forall_app. split; [done |]. apply Forall_app. split; [| done].
  repeat constructor; vm_compute; reflexivity.
Qed.

Lemma find_skip l t : forall off, Forall (fun b => b <> CR /\ ch b < 128) l ->
  find_from off head_end (l ++ t) = find_from (off + len l) head_end t.
Proof.
  intros off Hl. revert off. induction Hl as [| b l [Hb _] Hl IH]; intros off; [cbn [app]; by rewrite len_nil, Z.add_0_r |].
  cbn [app find_from]. replace (starts_with head_end (b :: l ++ t)) with false.
  - rewrite IH, len_cons. f_equal. lia.
  - symmetry. apply bool_decide_eq_false. cbn. intros [= E _]. by apply Hb.
Qed.

Lemma find_crlf off x u : x <> CR -> find_from off head_end (CRLF ++ x :: u) = find_from (off + 2) head_end (x :: u).
Proof.
  intros Hx. cbn [app CRLF]. change (find_from off head_end (z2b 13 :: z2b 10 :: x :: u)) with
    (if starts_with head_end (z2b 13 :: z2b 10 :: x :: u) then Some off
     else if starts_with head_end (z2b 10 :: x :: u) then Some (off + 1) else find_from (off + 1 + 1) head_end (x :: u)).
  replace (starts_with head_end (z2b 10 :: x :: u)) with false by reflexivity. replace (off + 1 + 1) with (off + 2) by lia.
  replace (starts_with head_end (z2b 13 :: z2b 10 :: x :: u)) with false; [done |].
  symmetry. apply bool_decide_eq_false. cbn. intros [= E _]. by apply Hx.
Qed.

(** The blank line is the first one: lines are not empty. *)
Lemma join_crlf_head ls : ls <> [] -> Forall plain ls -> one_head (join_crlf ls).
Proof.
  intros Hne Hp. unfold one_head. rewrite <- (Z.add_0_l (len _)). unfold find_subsequence. generalize 0 as off.
  induction Hp as [| l ls [Hln Hl] Hp IH]; [done |]. clear Hne.
  intros off. destruct ls as [| l' ls].
  - cbn [join_crlf]. rewrite find_skip by done. reflexivity.
  - rewrite join_crlf_cons, <- !app_assoc, find_skip by done. apply Forall_cons in Hp as [[Hln' Hl'] Hp].
    destruct l' as [| x l']; [done |]. apply Forall_cons in Hl' as [[Hx _] Hl'].
    assert (Ex : exists u, join_crlf ((x :: l') :: ls) ++ head_end = x :: u) by (destruct ls; cbn [join_crlf app]; eauto).
    specialize (IH ltac:(done) (off + len l + 2)). destruct Ex as [u Eu]. rewrite Eu in IH |- *.
    rewrite find_crlf, IH by done. rewrite !len_app. replace (len CRLF) with 2 by reflexivity. f_equal. lia.
Qed.

(** A header field: a name without a colon, and a value without white space around it. *)
Definition trimmed (v : bytes) : Prop :=
  match v with [] => True | b :: _ => printable b end /\ match rev v with [] => True | b :: _ => printable b end.

Definition header_ok (h : bytes * bytes) : Prop :=
  word h.1 /\ Forall (fun b => b <> colon) h.1 /\ trimmed h.2 /\ Forall (fun b => b <> CR /\ ch b < 128) h.2.

Definition header_text (h : bytes * bytes) : bytes := h.1 ++ colon :: space :: h.2.

(** The last field of that name, whatever its case. *)
Definition find_header (name : string) (hs : list (bytes * bytes)) : option bytes :=
  fold_left (fun acc h => if eq_ignore_ascii_case h.1 (text name) then Some h.2 else acc) hs None.

Definition content_length (hs : list (bytes * bytes)) : Z :=
  match find_header "content-length" hs with Some v => parse_length v | None => 0 end.

Lemma trim_space v : trimmed v -> trim (space :: v) = v.
Proof.
  intros [Hf Hl]. unfold trim. cbn [length strip_while]. replace (ws_prefix (space :: v)) with (Some v) by reflexivity.
  rewrite (strip_while_None _ ws_prefix) by (destruct v; [done | by apply ws_prefix_printable]).
  rewrite strip_while_None by (destruct (rev v); [done | by apply ws_suffix_printable]). apply rev_involutive.
Qed.

Lemma header_line_text h acc :
  header_ok h -> header_line acc (header_text h) =
    (if eq_ignore_ascii_case h.1 (text "content-length") then (parse_length h.2, acc.2)
     else if eq_ignore_ascii_case h.1 (text "authorization") then (acc.1, Some h.2) else acc).
Proof.
  intros ([_ Hk] & Hc & Hv & _). unfold header_line, header_text. rewrite split_once_app by done.
  by rewrite trim_printable, trim_space.
Qed.

Lemma header_lines hs :
  Forall header_ok hs ->
  fold_left header_line (header_text <$> hs) (0, None) = (content_length hs, find_header "authorization" hs).
Proof.
  unfold content_length, find_header.
  assert (Hg : forall c a, Forall header_ok hs ->
    fold_left header_line (header_text <$> hs) (match c with Some v => parse_length v | None => 0 end, a) =
    (match fold_left (fun acc h => if eq_ignore_ascii_case h.1 (text "content-length") then Some h.2 else acc) hs c with
     | Some v => parse_length v | None => 0 end,
     fold_left (fun acc h => if eq_ignore_ascii_case h.1 (text "authorization") then Some h.2 else acc) hs a)).
  { induction hs as [| h hs IH]; intros c a Hhs; [done |]. apply Forall_cons in Hhs as [Hh Hhs]. cbn [fmap list_fmap fold_left].
    rewrite header_line_text by done. cbn [fst snd].
    destruct (eq_ignore_ascii_case h.1 (text "content-length")) eqn:Ec.
    - replace (eq_ignore_ascii_case h.1 (text "authorization")) with false; [apply (IH (Some h.2) a Hhs) |].
      unfold eq_ignore_ascii_case in *. apply bool_decide_eq_true in Ec. symmetry. apply bool_decide_eq_false. rewrite Ec. discriminate.
    - destruct (eq_ignore_ascii_case h.1 (text "authorization")); [apply (IH c (Some h.2) Hhs) | apply (IH c a Hhs)]. }
  apply (Hg None None).
Qed.

Definition http_head (method path version : bytes) (hs : list (bytes * bytes)) : bytes :=
  join_crlf (join_words [method; path; version] :: (header_text <$> hs)).

Lemma printable_plain b : printable b -> b <> CR /\ ch b < 128.
Proof. unfold printable. intros Hb. split; [| lia]. intros ->. change (ch CR) with 13 in Hb. lia. Qed.

Lemma header_text_plain h : header_ok h -> plain (header_text h).
Proof.
  intros ([_ Hk] & _ & _ & Hv). split; [by intros [_ ?]%app_eq_nil |]. apply Forall_app. split.
  - eapply Forall_impl; [exact Hk | apply printable_plain].
  - do 2 (apply Forall_cons; split; [split; [discriminate | vm_compute; reflexivity] |]). exact Hv.
Qed.

Lemma join_words_plain ws : ws <> [] -> Forall word ws -> plain (join_words ws).
Proof.
  intros Hne Hw. split.
  - destruct Hw as [| w ws [Hwn _] _]; [done |]. destruct ws; cbn [join_words]; destruct w; done.
  - clear Hne. induction Hw as [| w ws [_ Hw] Hws IH]; [constructor |].
    assert (Hp : Forall (fun b => b <> CR /\ ch b < 128) w).
    { eapply Forall_impl; [exact Hw | apply printable_plain]. }
    destruct ws as [| w' ws]; [done |]. cbn [join_words] in *. apply Forall_app. split; [done |]. apply Forall_cons.
    split; [split; [discriminate | vm_compute; reflexivity] |]. exact IH.
Qed.

Lemma parse_http_head method path version hs :
  Forall word [method; path; version] -> Forall header_ok hs ->
  parse_head (http_head method path version hs) = (method, path, (content_length hs, find_header "authorization" hs)).
Proof.
  intros Hw Hh. assert (Hp : Forall plain (join_words [method; path; version] :: (header_text <$> hs))).
  { apply Forall_cons. split; [by apply join_words_plain |]. apply Forall_fmap. eapply Forall_impl; [exact Hh | apply header_text_plain]. }
  unfold parse_head, http_head. rewrite from_utf8_lossy_valid by (by apply utf8_all_ascii, join_crlf_ascii).
  unfold split_str. rewrite split_at_join by done. rewrite split_whitespace_join by done. cbn [lookup list_lookup default].
  by rewrite header_lines.
Qed.

(** A request is read the same however the network divides it.  For any
    request line, any header fields and a body of the declared length, sent in any
    sequence of non-empty reads within the size limit, the server sees exactly
    that method, path, authorization and body. *)
Theorem http_request_any_division method path version hs body rs :
  Forall word [method; path; version] -> Forall header_ok hs -> content_length hs = len body ->
  len (http_head method path version hs ++ head_end ++ body) < HEAD_LIMIT ->
  delivers rs (http_head method path version hs ++ head_end ++ body) ->
  read_request rs = Ok (Some (mkRequest method path (find_header "authorization" hs) body)).
Proof.
  intros Hw Hh Hc Hl Hd. unfold read_request.
  assert (Hone : one_head (http_head method path version hs)).
  { apply join_crlf_head; [done |]. apply Forall_cons. split; [by apply join_words_plain |]. apply Forall_fmap.
    eapply Forall_impl; [exact Hh | apply header_text_plain]. }
  destruct (read_head_ok HEAD_LIMIT _ body rs [] Hone Hl) as (u & rs' & -> & s & Hs & <-); [by eexists |].
  cbn [bind]. set (head := http_head method path version hs) in *. rewrite sub_app_exact by done. unfold head at 1.
  rewrite parse_http_head by done. rewrite app_assoc.
  assert (Eu : sub ((head ++ head_end) ++ u) (len head + len head_end) (len ((head ++ head_end) ++ u) - (len head + len head_end)) = u).
  { rewrite sub_app_ge by (rewrite len_app; lia). rewrite !len_app. replace (len head + len head_end - _) with 0 by lia.
    apply sub_full. lia. }
  rewrite Eu. destruct (read_body_ok (content_length hs) rs' u s Hs) as (b & -> & E); [lia |]. cbn [bind]. rewrite E.
  by rewrite sub_full.
Qed.

Lemma http_request_any_division_witness :
  read_request (Some <$> [text "POST /v1/gc HT"; text "TP/1.1" ++ [CR]; z2b 10 :: text "Content-Length: 2" ++ [CR; z2b 10; CR];
                          [z2b 10; x7b]; [x7d]]) =
  Ok (Some (mkRequest (text "POST") (text "/v1/gc") None [x7b; x7d])).
Proof.
  assert (Hw : forall s, bool_decide (text s <> []) && forallb (fun b => (33 <=? ch b) && (ch b <? 128)) (text s) = true -> word (text s))
    by exact text_word.
  apply (http_request_any_division (text "POST") (text "/v1/gc") (text "HTTP/1.1") [(text "Content-Length", text "2")] [x7b; x7d]).
  - repeat (apply Forall_cons; split; [apply Hw; reflexivity |]). constructor.
  - apply Forall_singleton. split; [apply Hw; reflexivity |]. split; [repeat constructor; discriminate |]. split; [split; by_compute |].
    repeat constructor; discriminate.
  - vm_compute; reflexivity.
  - vm_compute; reflexivity.
  - eexists. split; [reflexivity |]. split; [repeat constructor; discriminate | vm_compute; reflexivity].
Defined.

(** ** Nothing without the token *)

Section Token.
Context {S : Type} `{ObjectStore S} `{CatalogJson} `{HashOrder} `{Network} `{HttpJson} (cfg : ControlConfig) (t : bytes).
Hypothesis cfg_token : cc_token cfg = Some t.
Implicit Types (c : Control (S := S)).

(** The status of a request without the token. *)
Definition refused_status (rq : http_request) : Z :=
  if bool_decide ((split_query (rq_path rq)).1 = text "/healthz")
  then (if bool_decide (rq_method rq = text "GET") then 200 else 404) else 401.

Lemma health_route method query body c :
  exists json, route cfg method (text "/healthz") query body c =
    (c, Ok (if bool_decide (method = text "GET") then 200 else 404, json)).
Proof.
  unfold route. replace (if bool_decide (method = text "DELETE") then strip_prefix (text "/v1/tenants/") (text "/healthz") else None)
    with (@None bytes) by (by case_bool_decide).
  rewrite (bool_decide_true (text "/healthz" = text "/healthz")) by done.
  rewrite !(bool_decide_false (text "/healthz" = _)) by done. rewrite !andb_false_r, andb_true_r.
  case_bool_decide; by eexists.
Qed.

(** C23: a request without the token does nothing.  On a server with a control
    token, whatever bytes arrive in whatever division, a request that does not
    carry the token as its bearer authorization changes neither tenants, objects
    nor receivers; it is answered 401, except for the health check. *)
Theorem http_requires_token rs c :
  (forall rq, read_request rs = Ok (Some rq) -> rq_authorization rq <> Some (bearer t)) ->
  (handle cfg rs c).1 = c /\
  forall rq, read_request rs = Ok (Some rq) -> exists json, (handle cfg rs c).2 = Ok (http_response (refused_status rq) json).
Proof using cfg_token.
  intros Hauth. unfold handle. destruct (read_request rs) as [[rq|] | |]; [| done ..].
  assert (E : exists json, respond cfg rq c = (c, Ok (refused_status rq, json))).
  { unfold respond, expected_token, refused_status. destruct (split_query (rq_path rq)) as [path query]. cbn [fst].
    case_bool_decide as Hp; [subst path; apply health_route |]. rewrite cfg_token, bool_decide_false by by apply Hauth. by eexists. }
  destruct E as [json E].
  assert (Es : serve_request cfg rq c = (c, Ok (http_response (refused_status rq) json))).
  { unfold serve_request. unfold sbind at 1. rewrite E. cbv beta iota.
    replace ((refused_status rq =? 201) || (bool_decide (rq_method rq = text "DELETE") && is_success (refused_status rq))) with false; [done |].
    unfold refused_status. case_bool_decide; [| by rewrite andb_false_r]. case_bool_decide as Hm; [| by rewrite andb_false_r].
    rewrite Hm. reflexivity. }
  rewrite Es. split; [done |]. intros rq' [= <-]. by exists json.
Qed.
End Token.

(** A document format for examples: words. *)
#[local] Instance word_json : HttpJson := {|
  json_tenant b := match split_whitespace b with [id] => inl (mkTenantBody id) | _ => inr (text "shape") end;
  json_create b :=
    match split_whitespace b with
    | [id] => inl (mkCreateBody id None)
    | [id; te] => inl (mkCreateBody id (Some te))
    | _ => inr (text "shape")
    end;
  json_branch b :=
    match split_whitespace b with
    | [n; p; l] => match parse_u64 l with Some l => inl (mkBranchBody n p l None) | None => inr (text "lsn") end
    | [n; p; l; te] => match parse_u64 l with Some l => inl (mkBranchBody n p l (Some te)) | None => inr (text "lsn") end
    | _ => inr (text "shape")
    end;
  json_receive b := inr (text "shape");
  json_gc b := inr (text "shape");
  json_text d := match d with JCreated id => id | JError e => e | _ => [] end
|}.

Lemma http_requires_token_witness :
  let store := LocalStore (fun _ => None) in
  let rs := Some <$> [text "DELETE /v1/tenants/" ++ Id_display (tid x07) ++ text " HTTP/1.1" ++ head_end] in
  (handle (H := store) (H0 := bit_json) (H2 := no_network) json_control rs empty_control).1 = empty_control /\
  exists json, (handle (H := store) (H0 := bit_json) (H2 := no_network) json_control rs empty_control).2 = Ok (http_response 401 json).
Proof.
  intros store rs.
  assert (Hr : read_request rs = Ok (Some (mkRequest (text "DELETE") (text "/v1/tenants/" ++ Id_display (tid x07)) None [])))
    by (vm_compute; reflexivity).
  destruct (http_requires_token (H := store) (H0 := bit_json) (H2 := no_network) json_control (text "s3cret") eq_refl rs empty_control) as [H1 H2].
  - intros rq E. rewrite Hr in E. injection E as <-. discriminate.
  - split; [exact H1 |]. destruct (H2 _ Hr) as [json Hj]. exists json. rewrite Hj. reflexivity.
Defined.

(** ** The two management endpoints agree *)

Section Agree.
Context {S : Type} `{ObjectStore S} `{CatalogJson} `{HashOrder} `{Network} `{HttpJson} (cfg : ControlConfig).
Implicit Types (c : Control (S := S)).

(** A command of a control connection after [tenant <id>]. *)
Definition control_command (te : TenantId) (line : bytes) (s : Session) : stateM (Control (S := S)) ControlError bytes :=
  let! (s, _) := tenant_line (join_words [text "tenant"; Id_display te]) s in
  on_tenant (se_tenant s) (exec line).

(** The same outcome: the same state, and both report success or both do not. *)
Definition same_effect (http : Control (S := S) * outcome ControlError (Z * bytes)) (line : Control (S := S) * outcome ControlError bytes) : Prop :=
  http.1 = line.1 /\
  match http.2, line.2 with
  | Ok (status, _), Ok reply => (status =? 201) = starts_with (text "ok ") reply
  | Panic, Panic => True
  | _, _ => False
  end.

Lemma on_tenant_same {A : Type} g (m : stateM Tenant TenantError A) d ok_text c :
  same_effect (on_tenant g (tenant_status m d) c) (on_tenant g (tenant_reply m ok_text) c).
Proof.
  unfold on_tenant, in_tenant, tenant_status, tenant_reply. destruct (tm_arena (ct_tenants c) !! g) as [tn|]; [| done].
  destruct (m tn) as [tn' [x | e |]]; split; [done | symmetry; apply starts_with_app | done | reflexivity | done | done].
Qed.

Lemma tenant_line_ok te s c :
  Id_wf te -> exists reply, tenant_line (join_words [text "tenant"; Id_display te]) s c =
    let '(tm, g) := get_or_create te (ct_tenants c) in
    (mkControl tm (ct_objects c) (ct_receivers c), Ok (mkSession te g (se_authed s), reply)).
Proof.
  intros Ht. unfold tenant_line. rewrite split_whitespace_join.
  - cbn [lookup list_lookup]. unfold sbind, slift. rewrite parse_id_display by done.
    destruct (get_or_create te (ct_tenants c)). by eexists.
  - apply Forall_cons. split; [by apply text_word |]. apply Forall_singleton. by apply Id_display_word.
Qed.

Definition named_tenant (raw : option bytes) (te : TenantId) : Prop :=
  (raw = None /\ te = Id_ZERO) \/ raw = Some (Id_display te).

Lemma with_tenant_ok raw te k c :
  Id_wf te -> named_tenant raw te ->
  with_tenant raw k c = let '(tm, g) := get_or_create te (ct_tenants c) in k te g (mkControl tm (ct_objects c) (ct_receivers c)).
Proof.
  intros Ht Hraw. assert (E : (match raw return stateM (Control (S := S)) ControlError (option Id) with
                                 | None => sret (Some Id_ZERO) | Some s => slift (parse_id (Some s)) end) c = (c, Ok (Some te)))
    by (destruct Hraw as [[-> ->] | ->]; [done | unfold slift; by rewrite parse_id_display]).
  unfold with_tenant. erewrite sbind_Ok by exact E. unfold sbind, on_manager. by destruct (get_or_create te (ct_tenants c)).
Qed.

End Agree.


(** ** Well-formedness and durability *)

Section Durable.
Context {S : Type} `{HS : ObjectStore S} `{HJ : CatalogJson} `{HO : HashOrder} `{HN : Network} `{HW : HttpJson} (cfg : ControlConfig).
Implicit Types (c : Control (S := S)).

(** Requests that leave the tenants well-formed. *)
Definition keeps_wf {A : Type} (m : stateM (Control (S := S)) ControlError A) : Prop :=
  forall c, manager_wf (ct_tenants c) -> manager_wf (ct_tenants (m c).1).

Lemma keeps_ret {A : Type} (a : A) : keeps_wf (sret a).
Proof. by intros c Hc. Qed.

Lemma keeps_lift {A : Type} (o : outcome ControlError A) : keeps_wf (slift o).
Proof. intros c Hc. unfold slift. by destruct o. Qed.

Lemma keeps_bind {A B : Type} (m : stateM (Control (S := S)) ControlError A) (k : A -> stateM (Control (S := S)) ControlError B) :
  keeps_wf m -> (forall a, keeps_wf (k a)) -> keeps_wf (sbind m k).
Proof.
  intros Hm Hk c Hc. unfold sbind. pose proof (Hm c Hc) as H. destruct (m c) as [c1 [a | e |]]; [by apply Hk | done | done].
Qed.

Lemma keeps_tenant {A : Type} g (m : stateM Tenant ControlError A) :
  (forall tn, tenant_wf tn -> tenant_wf (m tn).1) -> keeps_wf (on_tenant g m).
Proof. intros Hm c Hc. by apply on_tenant_wf. Qed.

Lemma keeps_objects {A : Type} (m : stateM S ControlError A) : keeps_wf (on_objects m).
Proof. intros c Hc. by rewrite on_objects_tenants. Qed.

Lemma keeps_lift_id {A : Type} (w : option bytes) (k : option Id -> stateM (Control (S := S)) ControlError A) :
  keeps_wf (k None) -> (forall id, Id_wf id -> keeps_wf (k (Some id))) -> keeps_wf (sbind (slift (parse_id w)) k).
Proof.
  intros Hn Hs c Hc. unfold sbind, slift. destruct (parse_id w) as [[id|] | |] eqn:E; [| by apply Hn | done | done].
  apply parse_id_wf in E. by apply Hs.
Qed.

Lemma keeps_get_or_create id : Id_wf id -> keeps_wf (on_manager (get_or_create id)).
Proof.
  intros Hid c Hc. unfold on_manager. destruct (get_or_create id (ct_tenants c)) as [tm g] eqn:E. cbn.
  by apply (get_or_create_wf id _ _ _ Hc Hid) in E as (? & _).
Qed.

Lemma keeps_with_tenant raw k : (forall id g, keeps_wf (k id g)) -> keeps_wf (with_tenant raw k).
Proof.
  intros Hk. unfold with_tenant. destruct raw as [s|].
  - apply keeps_lift_id; [apply keeps_ret |]. intros id Hid. apply keeps_bind; [by apply keeps_get_or_create | auto].
  - intros c Hc. apply (keeps_bind (on_manager (get_or_create Id_ZERO))); [by apply keeps_get_or_create | auto | done].
Qed.

Lemma keeps_remove id : keeps_wf (on_manager (tm_remove id)).
Proof.
  intros c [Ht Hi Hd]. cbn. split; cbn [tm_arena tm_tenants].
  - done.
  - intros id' a Ha. apply lookup_delete_Some in Ha as [_ Ha]. by apply Hi.
  - intros id1 id2 a H1 H2. apply lookup_delete_Some in H1 as [_ H1], H2 as [_ H2]. by eapply Hd.
Qed.

Lemma tenant_status_wf {A : Type} (m : stateM Tenant TenantError A) d tn :
  (forall tn' res, m tn = (tn', res) -> tenant_wf tn') -> tenant_wf (tenant_status m d tn).1.
Proof. intros Hm. unfold tenant_status. destruct (m tn) as [tn' res] eqn:E. specialize (Hm _ _ eq_refl). by destruct res. Qed.

Lemma gc_keeps_wf h tn : tenant_wf tn -> tenant_wf (gc (E := ControlError) h tn).1.
Proof. intros Ht. destruct (gc h tn) as [tn' r] eqn:E. by apply (gc_wf _ _ _ _ Ht) in E. Qed.

Lemma delete_tenant_keeps id : keeps_wf (delete_tenant_route id).
Proof.
  apply keeps_lift_id; [apply keeps_ret |]. intros tid _. apply keeps_bind; [apply keeps_remove |]. intros []; apply keeps_ret.
Qed.

Lemma create_tenant_keeps body : keeps_wf (create_tenant_route body).
Proof.
  unfold create_tenant_route. destruct (json_tenant body) as [b | e]; [| apply keeps_ret].
  apply keeps_lift_id; [apply keeps_ret |]. intros id Hid c Hc. unfold tm_create.
  destruct (tm_tenants (ct_tenants c) !! id) eqn:E; [done |]. by apply manager_wf_add.
Qed.

Lemma route_keeps method path query body : keeps_wf (route cfg method path query body).
Proof.
  unfold route. destruct (if bool_decide _ then _ else _) as [id|]; [apply delete_tenant_keeps |].
  case_test; [apply keeps_ret |]. case_test; [by intros c Hc |]. case_test; [apply create_tenant_keeps |].
  case_test. { apply keeps_with_tenant. intros _ g. apply keeps_bind; [by apply keeps_tenant | intros; apply keeps_ret]. }
  case_test.
  { unfold create_timeline_route. destruct (json_create body) as [b | e]; [| apply keeps_ret]. apply keeps_with_tenant. intros _ g.
    apply keeps_lift_id; [apply keeps_ret |]. intros id Hid. apply keeps_tenant. intros tn Ht. apply tenant_status_wf.
    intros tn' res. by apply create_timeline_wf. }
  case_test.
  { unfold branch_route. destruct (json_branch body) as [b | e]; [| apply keeps_ret]. apply keeps_with_tenant. intros _ g.
    apply keeps_lift_id.
    - apply keeps_bind; [apply keeps_lift |]. intros parent. apply keeps_ret.
    - intros new Hnew. apply keeps_bind; [apply keeps_lift |]. intros [parent|]; [| apply keeps_ret]. apply keeps_tenant. intros tn Ht.
      apply tenant_status_wf. intros tn' res. by apply branch_timeline_wf. }
  case_test.
  { unfold receive_route. destruct (json_receive body) as [b | e]; [| apply keeps_ret]. apply keeps_with_tenant. intros te g.
    apply keeps_lift_id; [apply keeps_ret |]. intros tl _. destruct (addr_from_str _) as [addr|]; [| apply keeps_ret].
    apply keeps_bind; [by apply keeps_tenant |]. intros [a|]; [| apply keeps_ret]. destruct (tcp_connect addr); [apply keeps_ret |].
    apply keeps_bind; [by intros c Hc | intros; apply keeps_ret]. }
  case_test; [| apply keeps_ret].
  unfold gc_route. destruct (json_gc body) as [b | e]; [| apply keeps_ret]. apply keeps_with_tenant. intros _ g.
  apply keeps_bind; [apply keeps_tenant; intros tn; apply gc_keeps_wf |]. intros stats. apply keeps_bind; [| intros; apply keeps_ret].
  destruct (cc_gc_store cfg); [apply keeps_objects | apply keeps_ret].
Qed.

Lemma respond_keeps rq : keeps_wf (respond cfg rq).
Proof.
  unfold respond. destruct (split_query (rq_path rq)) as [path query]. destruct (expected_token cfg path); [| apply route_keeps].
  case_test; [apply route_keeps | apply keeps_ret].
Qed.

(** Whatever bytes a client sends, the tenants stay well-formed. *)
Theorem http_keeps_tenants_well_formed rs c : manager_wf (ct_tenants c) -> manager_wf (ct_tenants (handle cfg rs c).1).
Proof.
  intros Hwf. unfold handle. destruct (read_request rs) as [[rq|] | |]; [| done ..].
  assert (Hs : manager_wf (ct_tenants (serve_request cfg rq c).1)).
  { revert c Hwf. change (keeps_wf (serve_request cfg rq)). apply keeps_bind; [apply respond_keeps |]. intros [status json].
    apply keeps_bind; [| intros; apply keeps_ret]. case_test; [| apply keeps_ret]. intros c Hc. by rewrite persist_control_tenants. }
  by destruct (serve_request cfg rq c) as [c' [out | [] |]].
Qed.

(** The topology changed: a creation or a deletion. *)
Definition topology_status (rq : http_request) (status : Z) : bool :=
  (status =? 201) || (bool_decide (rq_method rq = text "DELETE") && is_success status).

Context `{!ObjectStoreLaws S}.
Hypothesis json_round_trip : forall doc, exists bs, to_vec_pretty doc = Some bs /\ from_slice bs = Some doc.
Hypothesis catalog_key_plain : plain_key CATALOG_KEY.
Hypothesis with_catalog : cc_catalog cfg = true.

(** A topology change acknowledged over HTTP survives a restart.  When a
    request is answered 201, or a deletion succeeds, the catalog with the new
    topology was written before the response; unless that write failed (which is
    only logged), a server started on the same object store has exactly the
    tenants, timelines, parents and branch points that the response acknowledged,
    without the tenants it reported deleted. *)
Theorem http_topology_survives_restart rq c c1 status json c' out t :
  manager_wf (ct_tenants c) -> respond cfg rq c = (c1, Ok (status, json)) -> topology_status rq status = true ->
  serve_request cfg rq c = (c', Ok out) ->
  out = http_response status json /\ ct_tenants c' = ct_tenants c1 /\
  exists res, save (snapshot (ct_tenants c')) (ct_objects c1) = (ct_objects c', res) /\
    (res = Ok tt -> is_ok (os_get CATALOG_KEY (ct_objects c')).2 = true ->
     exists tm' o', load_persisted (TenantManager_new t, Some (ct_objects c')) = ((tm', Some o'), Ok tt) /\
       manager_wf tm' /\ same_topology (ct_tenants c') tm').
Proof using json_round_trip catalog_key_plain with_catalog.
  intros Hwf Er Hs E. pose proof (respond_keeps rq c Hwf) as Hwf1. rewrite Er in Hwf1. cbn [fst] in Hwf1.
  unfold serve_request, sbind in E. rewrite Er in E. cbv beta iota in E. unfold topology_status in Hs. rewrite Hs in E.
  destruct (persist_control cfg c1) as [c2 [[] | e |]] eqn:Ep; [| discriminate ..]. injection E as <- <-. split; [done |].
  apply (persist_control_saves cfg with_catalog) in Ep as [Et (res & Es)]. split; [done |]. exists res. rewrite Et. split; [done |].
  intros -> Hget. pose proof (save_spec json_round_trip catalog_key_plain (ct_tenants c1) (ct_objects c1) Hwf1) as Hsv.
  unfold runs in Hsv. rewrite Es in Hsv. by apply load_persisted_spec.
Qed.
End Durable.

Lemma http_topology_survives_restart_witness :
  let store := LocalStore (fun _ => None) in
  let rq := mkRequest (text "POST") (text "/v1/tenants") (Some (bearer (text "s3cret"))) (Id_display (tid x07)) in
  let r := serve_request (H := store) (H0 := bit_json) (H2 := no_network) json_control rq empty_control in
  exists tm' o', @load_persisted _ store bit_json (TenantManager_new 5, Some (ct_objects r.1)) = ((tm', Some o'), Ok tt) /\
    same_topology (ct_tenants r.1) tm'.
Proof.
  intros store rq r. set (r1 := respond (H := store) (H2 := no_network) json_control rq empty_control).
  assert (E1 : r1.2 = Ok (201, Id_display (tid x07))) by (vm_compute; reflexivity).
  assert (Er : r.2 = Ok (http_response 201 (Id_display (tid x07)))) by (vm_compute; reflexivity).
  destruct (@http_topology_survives_restart _ store bit_json default_order no_network word_json json_control (LocalStoreLaws _)
    bit_json_round_trip catalog_key_local eq_refl rq empty_control r1.1 201 (Id_display (tid x07)) r.1
    (http_response 201 (Id_display (tid x07))) 5) as (_ & _ & res & Es & H).
  - exact (manager_wf_new 2).
  - exact (pair_first r1 _ E1).
  - vm_compute; reflexivity.
  - exact (pair_first r _ Er).
  - destruct H as (tm' & o' & E & _ & Hs); [| vm_compute; reflexivity | exists tm', o'; split; [exact E | exact Hs]].
    assert (Hok : is_ok (@save _ store bit_json (snapshot (ct_tenants r.1)) (ct_objects r1.1)).2 = true)
      by exact (local_put_accepts _ _ _ catalog_key_local).
    rewrite Es in Hok. destruct res as [[] | |]; [reflexivity | discriminate Hok | discriminate Hok].
Defined.
