(* ===== verification/PageMetrics.v ===== *)
(** What the page server counts (src/pageserver/src/metrics.rs and its uses in
    server.rs, repository.rs, tenant.rs, offload.rs, control.rs and httpapi.rs).

    The metrics belong to the process while the operations that count are those of
    a repository, a tenant or a connection; each is run here beside the process's
    log of calls. *)

From S2P Require Import Prelude Bytes Text Metrics Common PageVersion Layer PageService WalRedo Repository WalDecode WalIngest Timeline Tenant TenantManager ObjStore Catalog Offload PageServer Control Http HttpApi.

(** An operation, and the calls it makes once it has its result. *)
Definition counting {S E A : Type} (calls : outcome E A -> S -> list metric_call) (m : stateM S E A)
  : stateM (S * list metric_call) E A :=
  fun '(s, log) => let '(s', r) := m s in ((s', calls r s' ++ log), r).

Definition on_ok {E A : Type} (c : metric_call) (r : outcome E A) : list metric_call := match r with Ok _ => [c] | _ => [] end.

(** *** tenant.rs *)

Definition timelines_call (tn : Tenant) : metric_call := SetTo TIMELINES [] (as_signed64 (Z.of_nat (size (timelines tn)))).

Definition metered_create (id : TimelineId) : stateM (Tenant * list metric_call) TenantError taddr :=
  counting (fun r tn => on_ok (timelines_call tn) r) (create_timeline id).

Definition metered_branch (new_id parent_id : TimelineId) (ancestor_lsn : Lsn) : stateM (Tenant * list metric_call) TenantError taddr :=
  counting (fun r tn => on_ok (timelines_call tn) r) (branch_timeline new_id parent_id ancestor_lsn).

(** *** repository.rs *)

Definition metered_record `{Decompressors} (lsn : Lsn) (record : bytes) : stateM (Inner * list metric_call) WalDecodeError unit :=
  counting (fun r _ => on_ok (Inc WAL_RECORDS []) r) (ingest_record lsn record).

(** With no layer there is nothing to do. *)
Definition metered_compact (gc_horizon : Lsn) : stateM (Inner * list metric_call) Empty_set CompactionStats := fun '(i, log) =>
  let '(i', stats) := compact gc_horizon i in
  ((i', match layers i with [] => log | _ => IncBy GC_VERSIONS_REMOVED [] (versions_removed stats) :: log end), Ok stats).

(** *** server.rs *)

Section Pages.
Context {R} `{WalRedoManager R} (tm : TenantManager).

(** A request for a page of a timeline there is. *)
Definition page_wanted (req : Request) : bool :=
  match req, PageServer.route tm (request_ids req) with GetPage _ _ _ _ _, Some _ => true | _, _ => false end.

Definition metered_answer (req : Request) : stateM (R * list metric_call) ConnError Response := fun '(r, log) =>
  let log := if page_wanted req then Inc GET_PAGE [] :: log else log in
  let '(r', res) := answer tm req r in ((r', log), res).

Fixpoint metered_answers (reqs : list Request) : stateM (R * list metric_call) ConnError (list Response) :=
  match reqs with
  | [] => sret []
  | req :: reqs' => let! resp := metered_answer req in let! more := metered_answers reqs' in sret (resp :: more)
  end.
End Pages.

(** *** offload.rs *)

Section Store.
Context {S} `{ObjectStore S} {E : Type}.

Fixpoint metered_offload_loop (pending : list Layer) (n : Z) : stateM ((Inner * S) * list metric_call) E Z := fun '((i, s), log) =>
  match pending with
  | [] => (((i, s), log), Ok n)
  | layer :: pending' =>
      match os_put (layer_key (layer_id layer)) (Layer_serialize layer) s with
      | (s', Ok _) =>
          metered_offload_loop pending' (n + 1) ((mark_uploaded (layer_id layer) i, s'), Inc LAYERS_OFFLOADED [] :: log)
      | (s', Err _) => metered_offload_loop pending' n ((i, s'), log)
      | (s', Panic) => (((i, s'), log), Panic)
      end
  end.

Definition metered_offload : stateM ((Inner * S) * list metric_call) E Z := fun '((i, s), log) =>
  metered_offload_loop (pending_offload i) 0 ((i, s), log).
End Store.

(** *** control.rs and httpapi.rs *)

Definition metered_auth_line (cfg : ControlConfig) (line : bytes) (st : Session * list metric_call) : (Session * list metric_call) * bytes :=
  let '(s', reply) := auth_line cfg line st.1 in
  ((s', if se_authed s' then st.2 else Inc CONTROL_AUTH_FAILURES [] :: st.2), reply).

(** The bearer token is looked at before the request is. *)
Definition bearer_calls (cfg : ControlConfig) (rq : http_request) : list metric_call :=
  match expected_token cfg (split_query (rq_path rq)).1 with
  | Some expected => if bool_decide (rq_authorization rq = Some (bearer expected)) then [] else [Inc CONTROL_AUTH_FAILURES []]
  | None => []
  end.

(** ** What the numbers are *)

(** Counting changes nothing else. *)
Lemma counting_erases {S E A : Type} calls (m : stateM S E A) s log :
  let '((s', _), r) := counting calls m (s, log) in m s = (s', r).
Proof. unfold counting. by destruct (m s) as [s' r]. Qed.

Lemma offload_erases {S} `{ObjectStore S} {E : Type} pending : forall n i s log,
  let '((is', log'), r) := metered_offload_loop (E := E) pending n ((i, s), log) in
  offload_loop pending n (i, s) = (is', r) /\
  (forall n', r = Ok n' -> tally LAYERS_OFFLOADED [] log' = tally LAYERS_OFFLOADED [] log + (n' - n)).
Proof.
  induction pending as [| l pending IH]; intros n i s log; cbn [metered_offload_loop offload_loop].
  - split; [done |]. intros n' [= <-]. lia.
  - destruct (os_put _ _ s) as [s' [u | e |]].
    + specialize (IH (n + 1) (mark_uploaded (layer_id l) i) s' (Inc LAYERS_OFFLOADED [] :: log)).
      destruct (metered_offload_loop _ _ _) as [[is' log'] r]. destruct IH as [E1 E2]. split; [done |]. intros n' Hn.
      rewrite (E2 n' Hn). cbn [tally target effect]. rewrite decide_True by done. lia.
    + by apply IH.
    + done.
Qed.

(** A pass counts the layers it reports as uploaded. *)
Lemma offload_is_counted {S} `{ObjectStore S} {E : Type} i s log is' log' n :
  metered_offload (E := E) ((i, s), log) = ((is', log'), Ok n) ->
  offload_pending (E := E) (i, s) = (is', Ok n) /\ tally LAYERS_OFFLOADED [] log' = tally LAYERS_OFFLOADED [] log + n.
Proof.
  unfold metered_offload, offload_pending. pose proof (offload_erases (E := E) (pending_offload i) 0 i s log) as H1. intros E1. rewrite E1 in H1.
  destruct H1 as [H1 H2]. split; [done |]. rewrite (H2 n eq_refl). lia.
Qed.

(** A collection counts the versions it removed, and never a negative number. *)
Lemma compaction_is_counted h i log :
  let '((i', log'), r) := metered_compact h (i, log) in
  compact h i = (i', match r with Ok st => st | Err e => match e with end | Panic => CompactionStats_default end) /\
  forall st, r = Ok st -> tally GC_VERSIONS_REMOVED [] log' = tally GC_VERSIONS_REMOVED [] log + versions_removed st.
Proof.
  unfold metered_compact. destruct (compact h i) as [i' st] eqn:Ec. split; [done |]. intros st' [= <-].
  destruct (layers i) eqn:El.
  - unfold compact in Ec. rewrite El in Ec. injection Ec as <- <-. change (versions_removed CompactionStats_default) with 0. lia.
  - cbn [tally target effect]. by rewrite decide_True.
Qed.

(** The requests answered without a panic are counted: those for a page of a known
    timeline, found or not. *)
Lemma pages_are_counted {R} `{WalRedoManager R} tm reqs : forall r log r' log' resps,
  metered_answers tm reqs (r, log) = ((r', log'), Ok resps) ->
  tally GET_PAGE [] log' = tally GET_PAGE [] log + len (List.filter (page_wanted tm) reqs).
Proof.
  induction reqs as [| req reqs IH]; intros r log r' log' resps; cbn [metered_answers].
  - intros [= _ <- _]. cbn [List.filter]. rewrite len_nil. lia.
  - unfold sbind at 1, metered_answer at 1. destruct (answer tm req r) as [r1 [resp | e |]]; [| done | done].
    unfold sbind. destruct (metered_answers tm reqs _) as [[r2 log2] [more | e |]] eqn:E2; [| done | done].
    intros [= _ <- _]. rewrite (IH _ _ _ _ _ E2). cbn [List.filter]. destruct (page_wanted tm req); [| done].
    cbn [tally target effect]. rewrite decide_True by done. rewrite len_cons. lia.
Qed.

(** The gauge of timelines, on a server with one tenant: after any creations and
    branchings it is the number of timelines. *)
Inductive timeline_op := CreateOp (id : TimelineId) | BranchOp (new_id parent_id : TimelineId) (ancestor_lsn : Lsn).

Definition run_op (op : timeline_op) (st : Tenant * list metric_call) : Tenant * list metric_call :=
  match op with
  | CreateOp id => (metered_create id st).1
  | BranchOp new_id parent_id lsn => (metered_branch new_id parent_id lsn st).1
  end.

Lemma one_tenant_gauge ops threshold :
  let '(tn, log) := fold_left (fun st op => run_op op st) ops (Tenant_new threshold, []) in
  Z.of_nat (size (timelines tn)) < 2 ^ 63 -> tally TIMELINES [] log = Z.of_nat (size (timelines tn)).
Proof.
  set (ok := fun st : Tenant * list metric_call => tally TIMELINES [] st.2 = as_signed64 (Z.of_nat (size (timelines st.1)))).
  assert (Hop : forall op st, ok st -> ok (run_op op st)).
  { intros op [tn log] Hst. unfold ok, run_op, metered_create, metered_branch, counting, create_timeline, branch_timeline in *.
    assert (Hset : forall tn' log', ok (tn', timelines_call tn' :: log')).
    { intros tn' log'. unfold ok, timelines_call. cbn [fst snd tally target effect]. by rewrite decide_True. }
    destruct op as [id | id parent lsn]; destruct (timelines tn !! id); try exact Hst; [apply Hset |].
    destruct (timelines tn !! parent); [apply Hset | exact Hst]. }
  assert (H0 : ok (Tenant_new threshold, [])) by (vm_compute; reflexivity). revert H0.
  generalize (Tenant_new threshold, @nil metric_call). induction ops as [| op ops IH]; intros st Hst; cbn [fold_left].
  - destruct st as [tn log]. intros Hn. unfold ok, as_signed64 in Hst. cbn [fst snd] in Hst. rewrite Hst, Z.mod_small; lia.
  - by apply IH, Hop.
Qed.

(** But the gauge is the process's and the number the tenant's: a timeline created
    for one tenant overwrites the number of another's. *)
Lemma gauge_forgets_other_tenants :
  let '(a, log) := fold_left (fun st op => run_op op st) [CreateOp (replicate 16 x01); CreateOp (replicate 16 x02)] (Tenant_new 10, []) in
  let '(b, log) := run_op (CreateOp (replicate 16 x03)) (Tenant_new 10, log) in
  size (timelines a) = 2%nat /\ size (timelines b) = 1%nat /\ tally TIMELINES [] log = 1.
Proof. vm_compute. done. Qed.

(** A connection of the text protocol that is not let in is a failure, whether or
    not it showed a token. *)
Lemma refused_line_is_counted cfg line s log :
  se_authed s = false ->
  let '((s', log'), _) := metered_auth_line cfg line (s, log) in
  tally CONTROL_AUTH_FAILURES [] log' = tally CONTROL_AUTH_FAILURES [] log + (if se_authed s' then 0 else 1).
Proof.
  intros Hs. unfold metered_auth_line. destruct (auth_line cfg line (s, log).1) as [s' reply]. destruct (se_authed s'); cbn [snd]; [lia |].
  cbn [tally target effect]. by rewrite decide_True.
Qed.

(** Over HTTP a counted failure is an answer of 401 that changed nothing, and a
    request that is not counted is handed to its route. *)
Section Bearer.
Context {S : Type} `{ObjectStore S} `{CatalogJson} `{HashOrder} `{Network} `{HttpJson} (cfg : ControlConfig).

Lemma refused_request_is_counted rq (c : Control (S := S)) :
  bearer_calls cfg rq = [Inc CONTROL_AUTH_FAILURES []] /\
    respond cfg rq c = reply_err 401 (text "missing or invalid bearer token") c \/
  bearer_calls cfg rq = [] /\
    respond cfg rq c = HttpApi.route cfg (rq_method rq) (split_query (rq_path rq)).1 (split_query (rq_path rq)).2 (rq_body rq) c.
Proof using.
  unfold bearer_calls, respond. destruct (split_query (rq_path rq)) as [path query]. cbn [fst snd].
  destruct (expected_token cfg path) as [tok |]; [| by right].
  case_bool_decide; [right | left]; (split; [done |]); [by rewrite bool_decide_true | by rewrite bool_decide_false].
Qed.
End Bearer.

(** ** The calls fit *)

Definition ps_call (c : metric_call) : Prop := (target c).1 ∈ pageserver_statics /\ fits c = true.

Lemma page_calls_fit tn n :
  0 <= n ->
  Forall ps_call [timelines_call tn; Inc WAL_RECORDS []; IncBy GC_VERSIONS_REMOVED [] n; Inc GET_PAGE []; Inc LAYERS_OFFLOADED []; Inc CONTROL_AUTH_FAILURES []].
Proof.
  intros Hn. repeat (apply Forall_cons; split); try done; (split; [apply (bool_decide_eq_true_1 _); vm_compute; reflexivity |]); try (vm_compute; reflexivity).
  unfold fits. cbn. by apply Z.leb_le.
Qed.
