(* ===== verification/Exposition.v ===== *)
(** The metrics endpoint every service serves (src/common/src/metrics.rs): a request
    is read once and ignored, and answered with the registry in the text format.
    Tracing, which a service sets up before that (src/common/src/telemetry.rs), is
    at the end. *)

From S2P Require Import Prelude Bytes Text Metrics Common Control Http HttpApi.

Section Endpoint.
Context {R : Type} `{Prometheus R}.

(** Whatever the encoder has written. *)
Definition render (r : R) : bytes := prom_encode r.

Definition exposition (body : bytes) : bytes :=
  text "HTTP/1.1 200 OK" ++ CRLF ++ text "Content-Type: text/plain; version=0.0.4" ++ CRLF ++
  text "Content-Length: " ++ fmt_dec (len body) ++ CRLF ++ text "Connection: close" ++ head_end ++ body.

(** [handle], of a socket with these reads, while the registry is [r]. *)
Definition scrape (rs : reads) (r : R) : outcome HttpError bytes :=
  let? _ := read_some rs in
  Ok (exposition (render r)).

(** A connection that could not be accepted is skipped; the others are answered,
    each on its own. *)
Inductive incoming := AcceptFailed | Accepted (rs : reads) (r : R).

Fixpoint serve_metrics (l : list incoming) : list (outcome HttpError bytes) :=
  match l with
  | [] => []
  | AcceptFailed :: l' => serve_metrics l'
  | Accepted rs r :: l' => scrape rs r :: serve_metrics l'
  end.

Definition exposition_fields (body : bytes) : list (bytes * bytes) :=
  [(text "Content-Type", text "text/plain; version=0.0.4"); (text "Content-Length", fmt_dec (len body)); (text "Connection", text "close")].

Lemma exposition_head body :
  exposition body = http_head (text "HTTP/1.1") (text "200") (text "OK") (exposition_fields body) ++ head_end ++ body.
Proof using. unfold exposition, http_head. cbn -[fmt_dec head_end len]. rewrite <- !app_assoc. done. Qed.

(** A word is a field's value. *)
Lemma word_value v : word v -> trimmed v /\ Forall (fun b => b <> CR /\ ch b < 128) v.
Proof using.
  intros [Hne Hv]. split; [| eapply Forall_impl; [exact Hv | apply printable_plain]]. split.
  - destruct v; [done |]. by apply Forall_cons in Hv as [? _].
  - apply Forall_rev in Hv. destruct (rev v) as [| b l]; [done |]. by apply Forall_cons in Hv as [? _].
Qed.

Lemma exposition_fields_ok body : Forall header_ok (exposition_fields body).
Proof using.
  assert (Hc : forall s, bool_decide (text s <> []) && forallb (fun b => (33 <=? ch b) && (ch b <? 128)) (text s) = true -> word (text s)) by exact text_word.
  apply Forall_cons; split; [| apply Forall_cons; split; [| apply Forall_singleton]];
    (split; [apply Hc; reflexivity | split; [repeat constructor; discriminate |]]); cbn [snd].
  - split; [split; by_compute | repeat constructor; discriminate].
  - apply word_value, fmt_dec_word, len_nonneg.
  - apply word_value, Hc. reflexivity.
Qed.

Lemma exposition_length body : len body <= u64_max -> content_length (exposition_fields body) = len body.
Proof using.
  intros Hb. assert (E : find_header "content-length" (exposition_fields body) = Some (fmt_dec (len body))) by (unfold find_header; cbn -[fmt_dec]; done).
  unfold content_length. rewrite E. unfold parse_length. rewrite parse_fmt_dec; [done |]. pose proof (len_nonneg body). unfold in_u64, u64_max in *. lia.
Qed.

(** Every scrape is answered with the metrics.  Whatever a client sends, unless the
    read itself fails, it gets an answer, and however that answer is divided by the
    network a reader of it finds the status 200 and a body that is exactly the
    rendered registry. *)
Theorem scrapes_get_the_registry (rs : reads) (r : R) :
  is_ok (read_some rs) = true ->
  exists out, scrape rs r = Ok out /\
    forall rs', delivers rs' out -> len out < HEAD_LIMIT ->
      read_request rs' = Ok (Some (mkRequest (text "HTTP/1.1") (text "200") None (render r))).
Proof using.
  intros Hr. exists (exposition (render r)). unfold scrape. destruct (read_some rs); [| done | done]. split; [done |].
  intros rs' Hd Hl. rewrite exposition_head in Hd, Hl.
  apply (http_request_any_division (text "HTTP/1.1") (text "200") (text "OK") (exposition_fields (render r)) (render r) rs'); [| apply exposition_fields_ok | | done | done].
  - repeat (apply Forall_cons; split; [apply text_word; reflexivity |]). constructor.
  - apply exposition_length. rewrite !len_app in Hl. unfold HEAD_LIMIT in Hl.
    pose proof (len_nonneg (http_head (text "HTTP/1.1") (text "200") (text "OK") (exposition_fields (render r)))).
    pose proof (len_nonneg head_end). unfold u64_max. lia.
Qed.
End Endpoint.

Lemma scrapes_get_the_registry_witness :
  let r := mkSmall {[m_name WAKES]} {[(m_name WAKES, []) := 3]} in
  exists out, scrape [Some (text "GET /metrics HTTP/1.1")] r = Ok out /\
    read_request [Some out] = Ok (Some (mkRequest (text "HTTP/1.1") (text "200") None (text "aethel_proxy_wakes_total 3" ++ [z2b 10]))).
Proof.
  intros r. destruct (scrapes_get_the_registry [Some (text "GET /metrics HTTP/1.1")] r eq_refl) as (out & E & Hd). exists out. split; [exact E |].
  injection E as <-. etransitivity; [apply Hd |].
  - eexists [_]. split; [reflexivity |]. split; [| vm_compute; reflexivity]. apply Forall_singleton. discriminate.
  - vm_compute; reflexivity.
  - vm_compute; reflexivity.
Defined.

(** ** Tracing (src/common/src/telemetry.rs) *)

Section Telemetry.
(** The crates' filters, of which [parse_filter] reads one from a variable's value,
    and the exporter built for an endpoint, which can fail. *)
Context {Filter Exporter : Type} (parse_filter : bytes -> option Filter) (filter_of : bytes -> Filter) (build_exporter : bytes -> option Exporter).

Definition default_filter (RUST_LOG : option bytes) : Filter := from_option id (filter_of (text "info")) (RUST_LOG ≫= parse_filter).

Inductive subscriber := Fmt (f : Filter) | FmtOtlp (f : Filter) (service_name : bytes) (e : Exporter).

(** The process's subscriber: a second installation panics. *)
Definition install (sub : subscriber) : stateM (option subscriber) unit unit :=
  let! current := sget in
  match current with
  | None => smod (fun _ => Some sub)
  | Some _ => spanic
  end.

Definition init_fmt_only (RUST_LOG : option bytes) : stateM (option subscriber) unit unit := install (Fmt (default_filter RUST_LOG)).

(** [otlp::init]: whether the exporter could be built. *)
Definition otlp_init (RUST_LOG : option bytes) (service_name endpoint : bytes) : stateM (option subscriber) unit bool :=
  match build_exporter endpoint with
  | None => sret false
  | Some e => let! _ := install (FmtOtlp (default_filter RUST_LOG) service_name e) in sret true
  end.

(** [otlp]: built with the feature. *)
Definition telemetry_init (otlp : bool) (RUST_LOG OTEL_EXPORTER_OTLP_ENDPOINT : option bytes) (service_name : bytes) : stateM (option subscriber) unit unit :=
  let! exporting := match OTEL_EXPORTER_OTLP_ENDPOINT with
                    | Some endpoint => if otlp then otlp_init RUST_LOG service_name endpoint else sret false
                    | None => sret false
                    end in
  if exporting then sret tt else init_fmt_only RUST_LOG.

(** A process that starts has one subscriber, with the filter of its environment: an
    exporter that cannot be built leaves the logging of a build without it. *)
Lemma telemetry_always_logs otlp log endpoint name :
  exists sub, telemetry_init otlp log endpoint name None = (Some sub, Ok tt) /\
    sub = match endpoint with
          | Some ep => if otlp then match build_exporter ep with Some e => FmtOtlp (default_filter log) name e | None => Fmt (default_filter log) end
                       else Fmt (default_filter log)
          | None => Fmt (default_filter log)
          end.
Proof. eexists. split; [| reflexivity]. unfold telemetry_init, otlp_init. destruct endpoint as [ep |]; [destruct otlp; [destruct (build_exporter ep) |] |]; reflexivity. Qed.
End Telemetry.
