(* ===== verification/ProxyProtocol.v ===== *)
(** The first packet of a PostgreSQL connection and the messages the proxy
    answers with (src/proxy/src/protocol.rs). *)

From S2P Require Import Prelude Bytes Text PageVersion.

(** ** 32-bit signed integers *)

Definition in_i32 (z : Z) : Prop := - 2 ^ 31 <= z < 2 ^ 31.
Definition to_i32 (z : Z) : Z := if z <? 2 ^ 31 then z else z - 2 ^ 32.

(** [z as usize] of an [i32]: sign extension, then reinterpretation *)
Definition as_usize (z : Z) : Z := z mod 2 ^ 64.

(** [i32::from_be_bytes] *)
Definition i32_of (b : bytes) : Z := to_i32 (be_val b).

(** [z.to_be_bytes()] of an [i32] *)
Definition i32_bytes (z : Z) : bytes := be_bytes 4 z.

Definition SSL_REQUEST_CODE : Z := 80877103.
Definition GSS_REQUEST_CODE : Z := 80877104.
Definition CANCEL_REQUEST_CODE : Z := 80877102.
Definition PROTOCOL_V3 : Z := 196608.
Definition MAX_STARTUP_LEN : Z := 65536.
Definition MIN_STARTUP_LEN : Z := 8.

Inductive ProtocolError :=
| BadLength (n : Z)
| LengthMismatch (declared got : Z)
| UnterminatedParameters
| InvalidUtf8.

Record StartupMessage := mkStartupMessage {
  protocol : Z;
  parameters : gmap bytes bytes;
  raw : bytes
}.

Inductive FirstMessage :=
| Startup (s : StartupMessage)
| SslRequest
| GssEncRequest
| CancelRequest (process_id secret_key : Z).

Definition tenant (s : StartupMessage) : option bytes :=
  match parameters s !! text "database" with
  | Some d => Some d
  | None => parameters s !! text "user"
  end.

Definition read_i32 {E} (buf : bytes) (off : Z) : outcome E Z :=
  let? s := slice buf off (off + 4) in Ok (i32_of s).

Definition NUL : byte := x00.

Definition take_cstr (body : bytes) : outcome ProtocolError (bytes * bytes) :=
  match split_once NUL body with
  | None => Err UnterminatedParameters
  | Some (s, rest) => ensure utf8_valid s else InvalidUtf8 in Ok (s, rest)
  end.

(** Every round takes at least two bytes, so [length body] rounds are enough. *)
Fixpoint parse_params (fuel : nat) (body : bytes) (params : gmap bytes bytes) : outcome ProtocolError (gmap bytes bytes) :=
  match body with
  | [] => Err UnterminatedParameters
  | b :: _ =>
      if decide (b = NUL) then Ok params
      else
        match fuel with
        | O => Panic
        | S fuel' =>
            let? (key, body) := take_cstr body in
            let? (value, body) := take_cstr body in
            parse_params fuel' body (<[key := value]> params)
        end
  end.

Definition parse_parameters (body : bytes) : outcome ProtocolError (gmap bytes bytes) :=
  parse_params (length body) body ∅.

Definition parse_first_message (packet : bytes) : outcome ProtocolError FirstMessage :=
  ensure MIN_STARTUP_LEN <=? len packet else BadLength (len packet) in
  let? declared := read_i32 packet 0 in
  let declared := as_usize declared in
  ensure (MIN_STARTUP_LEN <=? declared) && (declared <=? MAX_STARTUP_LEN) else BadLength declared in
  ensure declared =? len packet else LengthMismatch declared (len packet) in
  let? code := read_i32 packet 4 in
  if code =? SSL_REQUEST_CODE then Ok SslRequest
  else if code =? GSS_REQUEST_CODE then Ok GssEncRequest
  else if code =? CANCEL_REQUEST_CODE then
    ensure 16 <=? len packet else BadLength (len packet) in
    let? process_id := read_i32 packet 8 in
    let? secret_key := read_i32 packet 12 in
    Ok (CancelRequest process_id secret_key)
  else
    let? body := slice packet 8 (len packet) in
    let? parameters := parse_parameters body in
    Ok (Startup (mkStartupMessage code parameters packet)).

(** ** Messages to the client and to the backend *)

Definition error_field (tag : byte) (field : bytes) : bytes := tag :: field ++ [NUL].

Definition error_response (severity code message : bytes) : bytes :=
  let body := error_field x53 severity ++ error_field x56 severity ++ error_field x43 code ++ error_field x4d message ++ [NUL] in
  x45 :: i32_bytes (len body + 4) ++ body.

Definition cancel_request_bytes (process_id secret_key : Z) : bytes :=
  i32_bytes 16 ++ i32_bytes CANCEL_REQUEST_CODE ++ i32_bytes process_id ++ i32_bytes secret_key.

(** ** What a client sends *)

Definition param_bytes (kv : bytes * bytes) : bytes := kv.1 ++ NUL :: kv.2 ++ [NUL].

Definition startup_body (params : list (bytes * bytes)) : bytes := concat (param_bytes <$> params) ++ [NUL].

Definition startup_packet (version : Z) (params : list (bytes * bytes)) : bytes :=
  i32_bytes (8 + len (startup_body params)) ++ i32_bytes version ++ startup_body params.

Definition text_ok (s : bytes) : Prop := Forall (fun b => b <> NUL) s /\ utf8_valid s = true.
Definition param_ok (kv : bytes * bytes) : Prop := kv.1 <> [] /\ text_ok kv.1 /\ text_ok kv.2.

(** The parameters as a map: of two with the same name the later counts. *)
Definition params_map (params : list (bytes * bytes)) (m : gmap bytes bytes) : gmap bytes bytes :=
  fold_left (fun m kv => <[kv.1 := kv.2]> m) params m.

(** ** Lemmas *)

Lemma len_i32_bytes z : len (i32_bytes z) = 4.
Proof. apply len_be_bytes. Qed.

Lemma i32_of_bytes z : in_i32 z -> i32_of (i32_bytes z) = z.
Proof.
  unfold in_i32, i32_of, i32_bytes, to_i32. intros Hz. rewrite be_val_be_bytes. change (256 ^ Z.of_nat 4) with (2 ^ 32).
  destruct (Z.le_gt_cases 0 z) as [H | H].
  - rewrite Z.mod_small by lia. rewrite (proj2 (Z.ltb_lt _ _)) by lia. done.
  - rewrite (Z.mod_eq z (2 ^ 32)) by lia. replace (z / 2 ^ 32) with (-1) by (apply (Z.div_unique z _ _ (z + 2 ^ 32)); lia).
    rewrite (proj2 (Z.ltb_ge _ _)) by lia. lia.
Qed.

Lemma read_i32_at {E} pre z post off :
  in_i32 z -> off = len pre -> read_i32 (E := E) (pre ++ i32_bytes z ++ post) off = Ok z.
Proof.
  intros Hz ->. unfold read_i32. rewrite slice_skip by lia. rewrite Z.sub_diag.
  replace (len pre + 4 - len pre) with 4 by lia. rewrite slice_here; [| done | by rewrite len_i32_bytes]. cbn [bind]. by rewrite i32_of_bytes.
Qed.

Lemma take_cstr_app s rest : text_ok s -> take_cstr (s ++ NUL :: rest) = Ok (s, rest).
Proof. intros [Hn Hu]. unfold take_cstr. rewrite split_once_app by done. by rewrite Hu. Qed.

Lemma parse_params_ok params rest : forall fuel m, Forall param_ok params -> (length params <= fuel)%nat ->
  parse_params fuel (concat (param_bytes <$> params) ++ NUL :: rest) m = Ok (params_map params m).
Proof.
  induction params as [| [k v] params IH]; intros fuel m Hp Hf; [by destruct fuel |].
  apply Forall_cons in Hp as [(Hk & Htk & Htv) Hp]. destruct fuel as [| fuel]; [cbn in Hf; lia |]. cbn [fst snd] in *.
  cbn [fmap list_fmap concat]. unfold param_bytes at 1. cbn [fst snd].
  replace (((k ++ NUL :: v ++ [NUL]) ++ concat (param_bytes <$> params)) ++ NUL :: rest)
    with (k ++ NUL :: v ++ NUL :: concat (param_bytes <$> params) ++ NUL :: rest) by (rewrite <- !app_assoc; cbn; by rewrite <- !app_assoc).
  destruct k as [| b k]; [done |]. cbn [app parse_params]. rewrite decide_False by (by destruct Htk as [[? ?]%Forall_cons _]).
  change (b :: k ++ NUL :: v ++ NUL :: concat (param_bytes <$> params) ++ NUL :: rest)
    with ((b :: k) ++ NUL :: (v ++ NUL :: concat (param_bytes <$> params) ++ NUL :: rest)).
  rewrite take_cstr_app by done. cbn [bind]. rewrite take_cstr_app by done. cbn [bind]. apply IH; [done | cbn in Hf; lia].
Qed.

Lemma len_params params : (length params <= length (concat (param_bytes <$> params)))%nat.
Proof.
  induction params as [| kv params IH]; [done |]. cbn [fmap list_fmap concat length]. rewrite length_app. unfold param_bytes at 1.
  rewrite length_app. cbn [length]. lia.
Qed.

(** ** No packet makes the parser panic *)

Lemma split_once_length c s l r : split_once c s = Some (l, r) -> (length r < length s)%nat.
Proof.
  revert l; induction s as [| b s IH]; intros l; [done |]. cbn [split_once]. case_decide; [intros [= _ <-]; cbn; lia |].
  destruct (split_once c s) as [[l' r']|]; [| done]. intros [= _ <-]. specialize (IH _ eq_refl). cbn. lia.
Qed.

Lemma take_cstr_shape body : take_cstr body <> Panic /\ forall s rest, take_cstr body = Ok (s, rest) -> (length rest < length body)%nat.
Proof.
  unfold take_cstr. destruct (split_once NUL body) as [[s rest]|] eqn:E; [| done]. case_test; [| done].
  split; [done |]. intros s' rest' [= <- <-]. by eapply split_once_length.
Qed.

Lemma parse_params_no_panic fuel : forall body m, (length body <= fuel)%nat -> parse_params fuel body m <> Panic.
Proof.
  induction fuel as [| fuel IH]; intros [| b body] m Hf; cbn [parse_params]; try done; [cbn in Hf; lia |].
  case_decide; [done |]. destruct (take_cstr_shape (b :: body)) as [Hn Hs].
  destruct (take_cstr (b :: body)) as [[k rest] | |]; [| done | done]. specialize (Hs _ _ eq_refl). cbn [bind].
  destruct (take_cstr_shape rest) as [Hn' Hs']. destruct (take_cstr rest) as [[v rest'] | |]; [| done | done].
  specialize (Hs' _ _ eq_refl). cbn [bind]. apply IH. cbn in Hf, Hs. lia.
Qed.

Lemma read_i32_room {E} buf off : 0 <= off -> off + 4 <= len buf -> exists z, read_i32 (E := E) buf off = Ok z.
Proof.
  intros H0 H4. unfold read_i32, slice. rewrite !(proj2 (Z.leb_le _ _)) by lia. cbn [andb bind]. by eexists.
Qed.

Lemma parse_first_message_no_panic packet : parse_first_message packet <> Panic.
Proof.
  unfold parse_first_message, MIN_STARTUP_LEN. case_test; [| done]. bool_to_prop.
  destruct (read_i32_room (E := ProtocolError) packet 0) as [d ->]; [lia | lia |]. cbn [bind]. do 2 (case_test; [| done]).
  destruct (read_i32_room (E := ProtocolError) packet 4) as [c ->]; [lia | lia |]. cbn [bind]. do 2 (case_test; [done |]). case_test.
  - case_test; [| done]. bool_to_prop. destruct (read_i32_room (E := ProtocolError) packet 8) as [x ->]; [lia | lia |]. cbn [bind].
    destruct (read_i32_room (E := ProtocolError) packet 12) as [y ->]; [lia | lia |]. done.
  - unfold slice. rewrite !(proj2 (Z.leb_le _ _)) by lia. cbn [andb bind].
    pose proof (parse_params_no_panic _ (sub packet 8 (len packet - 8)) ∅ (le_n _)) as Hp. unfold parse_parameters.
    by destruct (parse_params _ _ _).
Qed.

(** The first packet is understood.  A startup packet with any protocol version
    other than the request codes and any well-formed parameters, within the size
    limit, parses to that version and those parameters and keeps its bytes for
    replay, and its tenant is its database or else its user; a cancel request
    parses to its key, whatever its sign; the negotiation requests are recognised;
    and no packet whatsoever makes the parser panic. *)
Theorem first_packet_is_understood :
  (forall version params, in_i32 version -> version ∉ [SSL_REQUEST_CODE; GSS_REQUEST_CODE; CANCEL_REQUEST_CODE] ->
     Forall param_ok params -> len (startup_packet version params) <= MAX_STARTUP_LEN ->
     let s := mkStartupMessage version (params_map params ∅) (startup_packet version params) in
     parse_first_message (startup_packet version params) = Ok (Startup s) /\
     tenant s = match params_map params ∅ !! text "database" with Some d => Some d | None => params_map params ∅ !! text "user" end) /\
  (forall pid key, in_i32 pid -> in_i32 key -> parse_first_message (cancel_request_bytes pid key) = Ok (CancelRequest pid key)) /\
  parse_first_message (i32_bytes 8 ++ i32_bytes SSL_REQUEST_CODE) = Ok SslRequest /\
  parse_first_message (i32_bytes 8 ++ i32_bytes GSS_REQUEST_CODE) = Ok GssEncRequest /\
  (forall packet, parse_first_message packet <> Panic).
Proof.
  split; [| split; [| split; [vm_compute; reflexivity | split; [vm_compute; reflexivity | exact parse_first_message_no_panic]]]].
  - intros version params Hv Hc Hp Hl. cbv zeta. split; [| done].
    set (p := startup_packet version params) in *. assert (Hlen : len p = 8 + len (startup_body params)).
    { unfold p, startup_packet. rewrite !len_app, !len_i32_bytes. lia. }
    pose proof (len_nonneg (startup_body params)) as Hb. unfold MAX_STARTUP_LEN in Hl.
    assert (Hd : read_i32 (E := ProtocolError) p 0 = Ok (len p)).
    { rewrite Hlen. apply (read_i32_at []); [unfold in_i32; lia | done]. }
    assert (Hcode : read_i32 (E := ProtocolError) p 4 = Ok version).
    { apply (read_i32_at (i32_bytes (8 + len (startup_body params)))); [done | by rewrite len_i32_bytes]. }
    unfold parse_first_message, MIN_STARTUP_LEN, MAX_STARTUP_LEN. rewrite (proj2 (Z.leb_le 8 (len p))) by lia. rewrite Hd. cbn [bind].
    unfold as_usize. rewrite Z.mod_small by lia. rewrite !(proj2 (Z.leb_le _ _)) by lia. rewrite Z.eqb_refl, Hcode. cbn [andb bind].
    repeat (rewrite not_elem_of_cons in Hc; let H := fresh in destruct Hc as [H Hc]; apply Z.eqb_neq in H; rewrite H).
    assert (Es : slice (E := ProtocolError) p 8 (len p) = Ok (startup_body params)).
    { unfold p, startup_packet. rewrite app_assoc. rewrite slice_skip by (rewrite len_app, !len_i32_bytes; lia).
      rewrite !len_app, !len_i32_bytes. apply slice_last; lia. }
    rewrite Es. cbn [bind]. unfold parse_parameters, startup_body. rewrite parse_params_ok; [done | done |].
    rewrite length_app. pose proof (len_params params). lia.
  - intros pid key Hp Hk. unfold cancel_request_bytes.
    set (c := CANCEL_REQUEST_CODE). assert (Hc : in_i32 c) by by_compute.
    set (p := i32_bytes 16 ++ i32_bytes c ++ i32_bytes pid ++ i32_bytes key).
    assert (Hlen : len p = 16) by (unfold p; rewrite !len_app, !len_i32_bytes; lia).
    assert (H0 : read_i32 (E := ProtocolError) p 0 = Ok 16) by (apply (read_i32_at []); [by_compute | done]).
    assert (H4 : read_i32 (E := ProtocolError) p 4 = Ok c) by (apply (read_i32_at (i32_bytes 16)); [done | by rewrite len_i32_bytes]).
    assert (H8 : read_i32 (E := ProtocolError) p 8 = Ok pid).
    { unfold p. rewrite app_assoc. apply read_i32_at; [done | by rewrite len_app, !len_i32_bytes]. }
    assert (H12 : read_i32 (E := ProtocolError) p 12 = Ok key).
    { unfold p. rewrite <- (app_nil_r (i32_bytes key)), !app_assoc, <- (app_assoc _ _ []).
      apply read_i32_at; [done | by rewrite !len_app, !len_i32_bytes]. }
    unfold parse_first_message. rewrite Hlen, H0. cbn [bind]. rewrite H4. cbn [bind]. rewrite H8, H12. reflexivity.
Qed.

Lemma first_packet_is_understood_witness :
  parse_first_message (startup_packet PROTOCOL_V3 [(text "user", text "alice"); (text "database", text "shop")]) =
    Ok (Startup (mkStartupMessage PROTOCOL_V3 (params_map [(text "user", text "alice"); (text "database", text "shop")] ∅)
      (startup_packet PROTOCOL_V3 [(text "user", text "alice"); (text "database", text "shop")]))) /\
  parse_first_message (cancel_request_bytes (-12345) 67890) = Ok (CancelRequest (-12345) 67890).
Proof.
  destruct first_packet_is_understood as (Hs & Hc & _). split.
  - apply Hs.
    + by_compute.
    + apply (bool_decide_unpack _). vm_compute. exact I.
    + repeat (apply Forall_cons; split; [split; [discriminate |]; split; (split; [repeat constructor; discriminate | reflexivity]) |]). constructor.
    + by_compute.
  - apply Hc; by_compute.
Defined.

(** A cancel request with more bytes than its two numbers is accepted; the
    comment at the length test says it has exactly those. *)
Lemma long_cancel_request_accepted :
  parse_first_message (i32_bytes 17 ++ i32_bytes CANCEL_REQUEST_CODE ++ i32_bytes 7 ++ i32_bytes 9 ++ [xff]) = Ok (CancelRequest 7 9).
Proof. vm_compute. reflexivity. Qed.
