(* ===== verification/Cancel.v ===== *)
(** Routing of cancel requests (src/proxy/src/cancel.rs): the registry of session
    keys, and the scanner that finds a session's key in the bytes its backend
    sends, in whatever chunks they arrive. *)

From S2P Require Import Prelude Bytes Text ProxyProtocol.

Abbreviation CancelKey := (Z * Z)%type.

(** ** The registry *)

Abbreviation CancelRegistry := (gmap CancelKey bytes).

Definition CancelRegistry_new : CancelRegistry := ∅.
Definition cancel_insert (key : CancelKey) (backend : bytes) (m : CancelRegistry) : CancelRegistry := <[key := backend]> m.
Definition cancel_remove (key : CancelKey) (m : CancelRegistry) : CancelRegistry := delete key m.
Definition cancel_lookup (key : CancelKey) (m : CancelRegistry) : option bytes := m !! key.
Definition cancel_len (m : CancelRegistry) : Z := Z.of_nat (size m).

(** ** The scanner *)

Definition MSG_BACKEND_KEY_DATA : byte := x4b.
Definition MSG_READY_FOR_QUERY : byte := x5a.
Definition BACKEND_KEY_DATA_LEN : Z := 12.
Definition SCAN_CAP : Z := 16 * 1024.

Record KeyScanner := mkKeyScanner {
  ks_buf : bytes;
  ks_done : bool
}.

Definition KeyScanner_new : KeyScanner := mkKeyScanner [] false.

(** How the loop over the buffer ends. *)
Inductive scan_end :=
| Found (key : CancelKey)
| GiveUp
| Consumed (off : Z).

(** Every round takes a whole message, at least five bytes. *)
Fixpoint scan (fuel : nat) (buf : bytes) (off : Z) : outcome Empty_set scan_end :=
  if 5 <=? len buf - off then
    match fuel with
    | O => Panic
    | S fuel' =>
        let? typ := index buf off in
        let? n := slice buf (off + 1) (off + 5) in
        let n := i32_of n in
        if n <? 4 then Ok GiveUp
        else if len buf - off - 1 <? n then Ok (Consumed off)
        else if bool_decide (typ = MSG_BACKEND_KEY_DATA) && (n =? BACKEND_KEY_DATA_LEN) then
          let? pid := slice buf (off + 5) (off + 9) in
          let? secret := slice buf (off + 9) (off + 13) in
          Ok (Found (i32_of pid, i32_of secret))
        else if bool_decide (typ = MSG_READY_FOR_QUERY) then Ok GiveUp
        else scan fuel' buf (off + (1 + n))
    end
  else Ok (Consumed off).

Definition push (chunk : bytes) : stateM KeyScanner Empty_set (option CancelKey) := fun s =>
  if ks_done s then (s, Ok None)
  else
    let buf := ks_buf s ++ chunk in
    match scan (length buf) buf 0 with
    | Ok (Found key) => (mkKeyScanner buf true, Ok (Some key))
    | Ok GiveUp => (mkKeyScanner buf true, Ok None)
    | Ok (Consumed off) =>
        let buf := sub buf off (len buf - off) in
        (mkKeyScanner buf (SCAN_CAP <? len buf), Ok None)
    | Err e => (mkKeyScanner buf false, Err e)
    | Panic => (mkKeyScanner buf false, Panic)
    end.

(** What the scanner reports on a sequence of chunks. *)
Fixpoint push_all (chunks : list bytes) : stateM KeyScanner Empty_set (list (option CancelKey)) :=
  match chunks with
  | [] => sret []
  | c :: cs => let! r := push c in let! rs := push_all cs in sret (r :: rs)
  end.

(** ** Backend messages *)

Record backend_msg := mkMsg {
  bm_type : byte;
  bm_body : bytes
}.

Definition msg_bytes (m : backend_msg) : bytes := bm_type m :: i32_bytes (4 + len (bm_body m)) ++ bm_body m.

Definition key_msg (key : CancelKey) : backend_msg := mkMsg MSG_BACKEND_KEY_DATA (i32_bytes key.1 ++ i32_bytes key.2).

(** Messages that come before the key: no key, not ready, and small enough to be
    buffered in part. *)
Definition before_key (m : backend_msg) : Prop :=
  bm_type m <> MSG_READY_FOR_QUERY /\ (bm_type m = MSG_BACKEND_KEY_DATA -> len (bm_body m) <> 8) /\ 4 + len (bm_body m) <= SCAN_CAP.

Lemma len_msg_bytes m : len (msg_bytes m) = 5 + len (bm_body m).
Proof. unfold msg_bytes. rewrite len_cons, len_app, len_i32_bytes. lia. Qed.

(** The header of a message at the position of the scan. *)
Lemma scan_header {E} pre t n post :
  index (E := E) (pre ++ t :: i32_bytes n ++ post) (len pre) = Ok t /\
  slice (E := E) (pre ++ t :: i32_bytes n ++ post) (len pre + 1) (len pre + 5) = Ok (i32_bytes n).
Proof.
  split.
  - unfold index. rewrite get_app_r by lia. by rewrite Z.sub_diag.
  - rewrite cons_middle, app_assoc. rewrite slice_skip by (rewrite len_app; unfold len at 2; cbn; lia).
    rewrite len_app. apply slice_here; rewrite ?len_i32_bytes; unfold len at 3; cbn [length]; lia.
Qed.

Definition msg_ok (m : backend_msg) : Prop := in_i32 (4 + len (bm_body m)).

Lemma before_key_ok m : before_key m -> msg_ok m.
Proof. unfold before_key, SCAN_CAP, msg_ok, in_i32. pose proof (len_nonneg (bm_body m)). lia. Qed.

(** Pass over a message before the key. *)
Lemma scan_pass fuel pre m post :
  before_key m -> scan (S fuel) (pre ++ msg_bytes m ++ post) (len pre) = scan fuel (pre ++ msg_bytes m ++ post) (len (pre ++ msg_bytes m)).
Proof.
  intros Hm. pose proof (before_key_ok m Hm) as Hok. destruct Hm as (Hz & Hk & Hc). pose proof (len_nonneg (bm_body m)).
  pose proof (len_nonneg post). assert (Hl : len (pre ++ msg_bytes m ++ post) = len pre + (5 + len (bm_body m)) + len post)
    by (rewrite !len_app, len_msg_bytes; lia).
  assert (Eb : pre ++ msg_bytes m ++ post = pre ++ bm_type m :: i32_bytes (4 + len (bm_body m)) ++ bm_body m ++ post)
    by (unfold msg_bytes; cbn [app]; by rewrite <- app_assoc).
  destruct (scan_header (E := Empty_set) pre (bm_type m) (4 + len (bm_body m)) (bm_body m ++ post)) as [H1 H2]. rewrite <- Eb in H1, H2.
  cbn [scan]. rewrite (proj2 (Z.leb_le _ _)) by lia. rewrite H1, H2. cbn [bind]. rewrite i32_of_bytes by done.
  rewrite (proj2 (Z.ltb_ge _ _)) by lia. rewrite (proj2 (Z.ltb_ge _ _)) by lia.
  replace (bool_decide (bm_type m = MSG_BACKEND_KEY_DATA) && (4 + len (bm_body m) =? BACKEND_KEY_DATA_LEN)) with false.
  - rewrite bool_decide_false by done. rewrite len_app, len_msg_bytes. f_equal. lia.
  - symmetry. apply andb_false_iff. case_bool_decide as Ht; [right | by left]. apply Z.eqb_neq. unfold BACKEND_KEY_DATA_LEN.
    specialize (Hk Ht). lia.
Qed.

(** The key message ends the scan. *)
Lemma scan_found fuel pre key post :
  in_i32 key.1 -> in_i32 key.2 -> scan (S fuel) (pre ++ msg_bytes (key_msg key) ++ post) (len pre) = Ok (Found key).
Proof.
  intros H1 H2. unfold msg_bytes, key_msg. cbn [bm_type bm_body]. set (b := i32_bytes key.1 ++ i32_bytes key.2).
  assert (Hb : len b = 8) by (unfold b; rewrite len_app, !len_i32_bytes; done). rewrite Hb. change (4 + 8) with 12.
  assert (Eb : pre ++ (MSG_BACKEND_KEY_DATA :: i32_bytes 12 ++ b) ++ post = pre ++ MSG_BACKEND_KEY_DATA :: i32_bytes 12 ++ b ++ post)
    by (cbn [app]; by rewrite <- app_assoc).
  destruct (scan_header (E := Empty_set) pre MSG_BACKEND_KEY_DATA 12 (b ++ post)) as [Ht Hn]. rewrite Eb. cbn [scan].
  assert (Hl : len (pre ++ MSG_BACKEND_KEY_DATA :: i32_bytes 12 ++ b ++ post) = len pre + 13 + len post)
    by (rewrite len_app, len_cons, !len_app, len_i32_bytes, Hb; lia).
  pose proof (len_nonneg post). rewrite Hl. rewrite (proj2 (Z.leb_le _ _)) by lia. rewrite Ht, Hn. cbn [bind].
  replace (i32_of (i32_bytes 12)) with 12 by (symmetry; apply i32_of_bytes; by_compute). change (12 <? 4) with false. cbn iota.
  rewrite (proj2 (Z.ltb_ge _ _)) by lia. rewrite bool_decide_true by done. change (12 =? BACKEND_KEY_DATA_LEN) with true. cbn [andb].
  assert (E2 : pre ++ MSG_BACKEND_KEY_DATA :: i32_bytes 12 ++ b ++ post =
               (pre ++ [MSG_BACKEND_KEY_DATA] ++ i32_bytes 12) ++ i32_bytes key.1 ++ i32_bytes key.2 ++ post)
    by (unfold b; rewrite <- !app_assoc; cbn; by rewrite <- ?app_assoc).
  assert (Hp : len (pre ++ [MSG_BACKEND_KEY_DATA] ++ i32_bytes 12) = len pre + 5) by (rewrite !len_app, len_i32_bytes; unfold len at 2; cbn; lia).
  rewrite E2. rewrite slice_skip by lia. rewrite slice_here by (rewrite ?len_i32_bytes; lia). cbn [bind].
  rewrite slice_skip by lia. rewrite slice_skip by (rewrite len_i32_bytes; lia). rewrite slice_here by (rewrite ?len_i32_bytes; lia). cbn [bind].
  rewrite !i32_of_bytes by done. by destruct key.
Qed.

(** A message of which only a part has arrived is waited for. *)
Lemma scan_wait fuel pre m (k : nat) :
  msg_ok m -> Z.of_nat k < len (msg_bytes m) -> (k <= fuel)%nat ->
  scan fuel (pre ++ take k (msg_bytes m)) (len pre) = Ok (Consumed (len pre)).
Proof.
  intros Hok Hk Hf. rewrite len_msg_bytes in Hk. pose proof (len_nonneg (bm_body m)).
  assert (Hl : len (pre ++ take k (msg_bytes m)) - len pre = Z.of_nat k).
  { rewrite len_app. unfold len at 2. rewrite length_take. pose proof (len_msg_bytes m) as Hm. unfold len in Hm at 1. lia. }
  destruct fuel as [| fuel]; cbn [scan]; rewrite Hl; (case_test; [| done]); bool_to_prop; [lia |].
  assert (Et : take k (msg_bytes m) = bm_type m :: i32_bytes (4 + len (bm_body m)) ++ take (k - 5) (bm_body m)).
  { unfold msg_bytes. replace k with (S (4 + (k - 5)))%nat by lia. cbn [take]. f_equal.
    rewrite take_app. replace (length (i32_bytes (4 + len (bm_body m)))) with 4%nat; [| symmetry; apply length_be_bytes].
    rewrite take_ge by (unfold i32_bytes; rewrite length_be_bytes; lia). f_equal. }
  rewrite Et. destruct (scan_header (E := Empty_set) pre (bm_type m) (4 + len (bm_body m)) (take (k - 5) (bm_body m))) as [H1 H2].
  rewrite H1, H2. cbn [bind]. rewrite i32_of_bytes by done. rewrite (proj2 (Z.ltb_ge _ _)) by lia. by rewrite (proj2 (Z.ltb_lt _ _)) by lia.
Qed.

Abbreviation all_bytes ms := (concat (msg_bytes <$> ms)).

Lemma len_all_bytes ms : (5 * length ms <= length (all_bytes ms))%nat.
Proof.
  induction ms as [| m ms IH]; [done |]. cbn [fmap list_fmap concat length]. rewrite length_app.
  pose proof (len_msg_bytes m). pose proof (len_nonneg (bm_body m)). unfold len in *. lia.
Qed.

Lemma scan_run ms : forall fuel pre tail, Forall before_key ms -> (length ms <= fuel)%nat ->
  scan fuel (pre ++ all_bytes ms ++ tail) (len pre) = scan (fuel - length ms) (pre ++ all_bytes ms ++ tail) (len (pre ++ all_bytes ms)).
Proof.
  induction ms as [| m ms IH]; intros fuel pre tail Hms Hf.
  { cbn [fmap list_fmap concat length]. by rewrite app_nil_r, Nat.sub_0_r. }
  apply Forall_cons in Hms as [Hm Hms]. destruct fuel as [| fuel]; [cbn in Hf; lia |]. cbn [fmap list_fmap concat length] in *.
  rewrite <- !app_assoc, scan_pass by done. rewrite (app_assoc pre (msg_bytes m) (all_bytes ms ++ tail)), IH by (done || lia).
  cbn [Nat.sub]. by rewrite <- !app_assoc.
Qed.

(** A proper prefix of some messages: whole ones, and part of the next. *)
Lemma prefix_of_messages ms : forall buf r,
  buf ++ r = all_bytes ms -> len buf < len (all_bytes ms) ->
  exists ms1 m ms2 (k : nat), ms = ms1 ++ m :: ms2 /\ buf = all_bytes ms1 ++ take k (msg_bytes m) /\ Z.of_nat k < len (msg_bytes m).
Proof.
  induction ms as [| m ms IH]; intros buf r E Hl; [cbn in Hl; pose proof (len_nonneg buf); unfold len at 2 in Hl; cbn in Hl; lia |].
  cbn [fmap list_fmap concat] in *. destruct (Z.lt_ge_cases (len buf) (len (msg_bytes m))) as [H | H].
  - exists [], m, ms, (length buf). split; [done |]. split; [| unfold len in *; lia]. cbn [fmap list_fmap concat app].
    apply (f_equal (take (length buf))) in E. rewrite take_app_length in E. rewrite E at 1. by rewrite take_app_le by (unfold len in *; lia).
  - assert (Eb : buf = msg_bytes m ++ drop (length (msg_bytes m)) buf).
    { rewrite <- (take_drop (length (msg_bytes m)) buf) at 1. f_equal. apply (f_equal (take (length (msg_bytes m)))) in E.
      rewrite take_app_length in E. by rewrite take_app_le in E by (unfold len in *; lia). }
    rewrite Eb, <- app_assoc in E. apply app_inv_head in E. rewrite Eb, !len_app in Hl.
    destruct (IH _ _ E) as (ms1 & m' & ms2 & k & -> & Ed & Hk); [lia |].
    exists (m :: ms1), m', ms2, k. split; [done |]. split; [| done]. rewrite Eb, Ed. cbn [fmap list_fmap concat]. by rewrite <- app_assoc.
Qed.

Lemma snoc_split {A} (l : list A) x l1 y l2 : l ++ [x] = l1 ++ y :: l2 -> exists l', l = l1 ++ l' /\ l' ++ [x] = y :: l2.
Proof.
  revert l; induction l1 as [| z l1 IH]; intros l E; [by exists l |]. destruct l as [| z' l]; [by destruct l1 |].
  cbn in E. injection E as -> E. destruct (IH l E) as (l' & -> & El). by exists l'.
Qed.

Section Stream.
Context (key : CancelKey) (rest : bytes).
Hypothesis key_ok : in_i32 key.1 /\ in_i32 key.2.

(** The scanner waits for the messages [ms] and the key, of which it holds the first bytes. *)
Definition waiting_for (ms : list backend_msg) (unread : bytes) (s : KeyScanner) : Prop :=
  Forall before_key ms /\ ks_done s = false /\ ks_buf s ++ unread = all_bytes (ms ++ [key_msg key]) ++ rest /\
  len (ks_buf s) < len (all_bytes (ms ++ [key_msg key])).

Lemma push_found ms c unread s :
  waiting_for ms (c ++ unread) s -> len (all_bytes (ms ++ [key_msg key])) <= len (ks_buf s ++ c) ->
  exists s', push c s = (s', Ok (Some key)) /\ ks_done s' = true.
Proof using key_ok.
  intros (Hms & Hd & E & _) Hl. set (A := all_bytes (ms ++ [key_msg key])) in *.
  assert (Eb : ks_buf s ++ c = A ++ drop (length A) (ks_buf s ++ c)).
  { rewrite <- (take_drop (length A) (ks_buf s ++ c)) at 1. f_equal. rewrite app_assoc in E.
    apply (f_equal (take (length A))) in E. rewrite take_app_length in E. by rewrite take_app_le in E by (unfold len in *; lia). }
  unfold push. rewrite Hd. set (buf := ks_buf s ++ c) in *.
  assert (Hs : scan (length buf) buf 0 = Ok (Found key)).
  { set (D := drop (length A) buf) in *. clearbody D. rewrite Eb at 2. unfold A. rewrite fmap_app, concat_app, <- app_assoc. cbn [fmap list_fmap concat]. rewrite app_nil_r.
    pose proof (len_all_bytes ms) as Hlen.
    assert (Hf : (length ms + 1 <= length buf)%nat).
    { unfold A in Hl. rewrite fmap_app, concat_app, len_app in Hl. cbn [fmap list_fmap concat] in Hl. rewrite app_nil_r, len_msg_bytes in Hl.
      pose proof (len_nonneg (bm_body (key_msg key))). unfold len in *. lia. }
    pose proof (scan_run ms (length buf) [] (msg_bytes (key_msg key) ++ D) Hms ltac:(lia)) as Hr.
    cbn [app] in Hr. rewrite len_nil in Hr. rewrite Hr. replace (length buf - length ms)%nat with (S (length buf - length ms - 1)) by lia.
    apply scan_found; apply key_ok. }
  rewrite Hs. by eexists.
Qed.

Lemma push_waits ms c unread s :
  waiting_for ms (c ++ unread) s -> len (ks_buf s ++ c) < len (all_bytes (ms ++ [key_msg key])) ->
  exists s' ms', push c s = (s', Ok None) /\ waiting_for ms' unread s' /\
    len (ks_buf s') - len (all_bytes (ms' ++ [key_msg key])) = len (ks_buf s ++ c) - len (all_bytes (ms ++ [key_msg key])).
Proof using key_ok.
  intros (Hms & Hd & E & _) Hl. set (buf := ks_buf s ++ c) in *. rewrite app_assoc in E. fold buf in E.
  assert (Ep : buf ++ drop (length buf) (all_bytes (ms ++ [key_msg key])) = all_bytes (ms ++ [key_msg key])).
  { rewrite <- (take_drop (length buf) (all_bytes (ms ++ [key_msg key]))) at 2. f_equal.
    apply (f_equal (take (length buf))) in E. rewrite take_app_length, take_app_le in E by (unfold len in *; lia). done. }
  destruct (prefix_of_messages _ _ _ Ep Hl) as (ms1 & m & ms2 & k & Em & Eb & Hk).
  destruct (snoc_split _ _ _ _ _ Em) as (ms' & -> & Em'). apply Forall_app in Hms as [Hms1 Hms'].
  assert (Hm : 4 + len (bm_body m) <= SCAN_CAP).
  { destruct ms' as [| m' ms']; cbn [app] in Em'; injection Em' as <- _; [by_compute |]. apply Forall_cons in Hms' as [(_ & _ & ?) _]. done. }
  assert (Hok : msg_ok m) by (unfold msg_ok, in_i32, SCAN_CAP in *; pose proof (len_nonneg (bm_body m)); lia).
  assert (Hs : scan (length buf) buf 0 = Ok (Consumed (len (all_bytes ms1)))).
  { pose proof (len_all_bytes ms1) as Hlen. assert (Hb : (length (all_bytes ms1) + length (take k (msg_bytes m)) = length buf)%nat) by (rewrite Eb, length_app; lia).
    rewrite length_take in Hb. pose proof (scan_run ms1 (length buf) [] (take k (msg_bytes m)) Hms1 ltac:(lia)) as Hr. cbn [app] in Hr.
    rewrite <- Eb, len_nil in Hr. rewrite Hr, Eb at 1. rewrite Eb at 1. apply scan_wait; [done | done |].
    rewrite length_app, length_take. unfold len in Hk. lia. }
  unfold push. rewrite Hd. fold buf. rewrite Hs.
  assert (Er : sub buf (len (all_bytes ms1)) (len buf - len (all_bytes ms1)) = take k (msg_bytes m)).
  { rewrite Eb. rewrite sub_app_ge, Z.sub_diag by lia. apply sub_full. rewrite len_app. lia. }
  rewrite Er. rewrite len_msg_bytes in Hk.
  assert (Hq : len (take k (msg_bytes m)) = Z.of_nat k).
  { unfold len. rewrite length_take. pose proof (len_msg_bytes m) as Hl'. unfold len in Hl' at 1. lia. }
  rewrite Hq, (proj2 (Z.ltb_ge _ _)) by lia. eexists _, ms'. split; [done |]. cbn [ks_buf ks_done].
  assert (Ea : all_bytes ((ms1 ++ ms') ++ [key_msg key]) = all_bytes ms1 ++ all_bytes (ms' ++ [key_msg key]))
    by (by rewrite <- app_assoc, fmap_app, concat_app).
  split; [split; [done |]; split; [done |]; split |].
  - rewrite Ea, Eb, <- !app_assoc in E. by apply app_inv_head in E.
  - cbn [ks_buf]. rewrite Hq, Em'. cbn [fmap list_fmap concat]. rewrite len_app, len_msg_bytes. pose proof (len_nonneg (all_bytes ms2)). lia.
  - rewrite Ea, Eb, !len_app. lia.
Qed.

Lemma push_done cs : forall s, ks_done s = true -> exists s', push_all cs s = (s', Ok (replicate (length cs) None)).
Proof using.
  induction cs as [| c cs IH]; intros s Hs; [by eexists |]. destruct (IH s Hs) as [s' E]. exists s'. cbn [push_all].
  unfold sbind, push. by rewrite Hs, E.
Qed.

Lemma push_all_finds cs1 c cs2 : forall ms s,
  waiting_for ms (concat (cs1 ++ c :: cs2)) s ->
  len (ks_buf s ++ concat cs1) < len (all_bytes (ms ++ [key_msg key])) <= len (ks_buf s ++ concat cs1 ++ c) ->
  exists s', push_all (cs1 ++ c :: cs2) s = (s', Ok (replicate (length cs1) None ++ Some key :: replicate (length cs2) None)).
Proof using key_ok.
  induction cs1 as [| c1 cs1 IH]; intros ms s Hw Hl; cbn [app concat] in *.
  - destruct (push_found ms c (concat cs2) s Hw ltac:(lia)) as (s1 & E1 & Hd). destruct (push_done cs2 s1 Hd) as [s2 E2].
    exists s2. cbn [push_all]. unfold sbind. by rewrite E1, E2.
  - rewrite <- app_assoc in Hl. destruct (push_waits ms c1 (concat (cs1 ++ c :: cs2)) s Hw) as (s1 & ms1 & E1 & Hw1 & El).
    { rewrite !len_app in *. pose proof (len_nonneg (concat cs1)). lia. }
    destruct (IH ms1 s1 Hw1) as [s2 E2]; [rewrite !len_app in *; lia |]. exists s2. cbn [push_all]. unfold sbind. by rewrite E1, E2.
Qed.
End Stream.

(** A session's key is found however the backend's bytes are divided.  Before
    its first ready message the backend sends any messages of bounded size and then
    its key, followed by anything; whatever the chunks, the scanner reports
    nothing until the chunk that completes the key message, reports exactly that
    key with it, and nothing afterwards. *)
Theorem scanner_finds_key pre key rest cs1 c cs2 :
  Forall before_key pre -> in_i32 key.1 -> in_i32 key.2 ->
  concat (cs1 ++ c :: cs2) = all_bytes (pre ++ [key_msg key]) ++ rest ->
  len (concat cs1) < len (all_bytes (pre ++ [key_msg key])) <= len (concat cs1 ++ c) ->
  exists s', push_all (cs1 ++ c :: cs2) KeyScanner_new = (s', Ok (replicate (length cs1) None ++ Some key :: replicate (length cs2) None)).
Proof.
  intros Hp H1 H2 E Hl. apply (push_all_finds key rest (conj H1 H2) cs1 c cs2 pre); [| exact Hl].
  split; [done |]. split; [done |]. split; [exact E |]. cbn [KeyScanner_new ks_buf]. rewrite len_nil. pose proof (len_nonneg (concat cs1)). lia.
Qed.

Lemma scanner_finds_key_witness :
  exists s', push_all [[x52; x00]; [x00; x00; x08; x00; x00; x00; x00; x4b; x00]; [x00; x00; x0c; xff; xff; xff; xff; x00; x00; x00; x07; x5a]; [x00]]
    KeyScanner_new = (s', Ok [None; None; Some (-1, 7); None]).
Proof.
  apply (scanner_finds_key [mkMsg x52 [x00; x00; x00; x00]] (-1, 7) [x5a; x00]
    [[x52; x00]; [x00; x00; x08; x00; x00; x00; x00; x4b; x00]] [x00; x00; x0c; xff; xff; xff; xff; x00; x00; x00; x07; x5a] [[x00]]).
  - apply Forall_singleton. split; [discriminate |]. split; [discriminate | by_compute].
  - by_compute.
  - by_compute.
  - vm_compute; reflexivity.
  - by_compute.
Defined.
