(* ===== verification/Dialogue.v ===== *)
(** Programs that talk over a stream: an [async] function over
    [AsyncRead + AsyncWrite] is a tree of its writes and exact reads.  A write may
    fail, and a read meets the end of the stream before it has its bytes. *)

From S2P Require Import Prelude Bytes.

Inductive dialogue (A : Type) : Type :=
| Return (a : A)
| Write (b : bytes) (k : bool -> dialogue A)
| ReadExact (n : Z) (k : option bytes -> dialogue A).
Arguments Return {A} a.
Arguments Write {A} b k.
Arguments ReadExact {A} n k.

Fixpoint dbind {A B} (m : dialogue A) (f : A -> dialogue B) : dialogue B :=
  match m with
  | Return a => f a
  | Write b k => Write b (fun ok => dbind (k ok) f)
  | ReadExact n k => ReadExact n (fun r => dbind (k r) f)
  end.

(** [?] on the result of a step. *)
Definition dtry {E A B} (m : dialogue (outcome E A)) (f : A -> dialogue (outcome E B)) : dialogue (outcome E B) :=
  dbind m (fun r => match r with Ok a => f a | Err e => Return (Err e) | Panic => Return Panic end).

(** A step that does not use the stream. *)
Definition dlift {E A B} (m : outcome E A) (f : A -> dialogue (outcome E B)) : dialogue (outcome E B) :=
  match m with Ok a => f a | Err e => Return (Err e) | Panic => Return Panic end.

Notation "'let~' x := m 'in' k" := (dtry m (fun x => k)) (at level 10, x pattern, m at level 100, k at level 200).
Notation "'let=' x := m 'in' k" := (dlift m (fun x => k)) (at level 10, x pattern, m at level 100, k at level 200).

(** ** With a peer whose bytes are known

    The writes succeed and the reads see the peer's bytes: what is written, the
    result, and what is left to read. *)
Fixpoint drun {A} (d : dialogue A) (input : bytes) : bytes * A * bytes :=
  match d with
  | Return a => ([], a, input)
  | Write b k => let '(out, a, rest) := drun (k true) input in (b ++ out, a, rest)
  | ReadExact n k =>
      if n <=? len input then drun (k (Some (sub input 0 n))) (sub input n (len input - n))
      else drun (k None) []
  end.

(** ** With another program

    Each has the bytes the other wrote and it has not read.  The first one runs
    until it waits; a program that returned has closed its end. *)
Fixpoint talk {A B} (fuel : nat) (d1 : dialogue A) (q1 : bytes) (d2 : dialogue B) (q2 : bytes) : option (A * B) :=
  match fuel with
  | O => None
  | S fuel' =>
      match d1 with
      | Write b k => talk fuel' (k true) q1 d2 (q2 ++ b)
      | Return a =>
          match d2 with
          | Return b => Some (a, b)
          | Write b k => talk fuel' d1 q1 (k true) q2
          | ReadExact n k =>
              if n <=? len q2 then talk fuel' d1 q1 (k (Some (sub q2 0 n))) (sub q2 n (len q2 - n))
              else talk fuel' d1 q1 (k None) []
          end
      | ReadExact n1 k1 =>
          if n1 <=? len q1 then talk fuel' (k1 (Some (sub q1 0 n1))) (sub q1 n1 (len q1 - n1)) d2 q2
          else
            match d2 with
            | Return b => talk fuel' (k1 None) [] d2 q2
            | Write b k => talk fuel' d1 (q1 ++ b) (k true) q2
            | ReadExact n k =>
                if n <=? len q2 then talk fuel' d1 q1 (k (Some (sub q2 0 n))) (sub q2 n (len q2 - n))
                else None
            end
      end
  end.

(** The exchange ends with these results. *)
Definition exchanges {A B} (d1 : dialogue A) (q1 : bytes) (d2 : dialogue B) (q2 : bytes) (r : A * B) : Prop :=
  exists fuel, talk fuel d1 q1 d2 q2 = Some r.

Section Steps.
Context {A B : Type}.


Lemma exchange_end (a : A) q1 (b : B) q2 : exchanges (Return a) q1 (Return b) q2 (a, b).
Proof. by exists 1%nat. Qed.

Lemma exchange_write1 b k q1 d2 q2 r : exchanges (k true) q1 (d2 : dialogue B) (q2 ++ b) r -> exchanges (Write b k : dialogue A) q1 d2 q2 r.
Proof. intros [n H]. by exists (S n). Qed.

Lemma exchange_read1 x k q1 (d2 : dialogue B) q2 r n :
  n = len x -> exchanges (k (Some x)) q1 d2 q2 r -> exchanges (ReadExact n k : dialogue A) (x ++ q1) d2 q2 r.
Proof.
  intros -> [m H]. exists (S m). cbn [talk]. pose proof (len_nonneg q1). rewrite (proj2 (Z.leb_le _ _)) by (rewrite len_app; lia).
  rewrite sub_app_exact by done. rewrite sub_app_ge by lia. rewrite Z.sub_diag, sub_full by (rewrite len_app; lia). done.
Qed.

(** While the first waits for more than it has, the second goes on. *)
Definition waits (d1 : dialogue A) (q1 : bytes) : Prop :=
  match d1 with ReadExact n _ => len q1 < n | Return _ => True | Write _ _ => False end.

Lemma exchange_write2 (d1 : dialogue A) n k q1 (b : bytes) k2 q2 r :
  d1 = ReadExact n k -> len q1 < n -> exchanges d1 (q1 ++ b) (k2 true) q2 r -> exchanges d1 q1 (Write b k2 : dialogue B) q2 r.
Proof. intros -> Hn [m H]. exists (S m). cbn [talk]. by rewrite (proj2 (Z.leb_gt _ _)). Qed.

Lemma exchange_read2 (d1 : dialogue A) q1 x k2 q2 r n :
  waits d1 q1 -> n = len x -> exchanges d1 q1 (k2 (Some x)) q2 r -> exchanges d1 q1 (ReadExact n k2 : dialogue B) (x ++ q2) r.
Proof.
  intros Hw -> [m H]. exists (S m). pose proof (len_nonneg q2).
  assert (E1 : (len x <=? len (x ++ q2)) = true) by (apply Z.leb_le; rewrite len_app; lia).
  assert (E2 : sub (x ++ q2) 0 (len x) = x) by by rewrite sub_app_exact.
  assert (E3 : sub (x ++ q2) (len x) (len (x ++ q2) - len x) = q2).
  { rewrite sub_app_ge by lia. rewrite Z.sub_diag. apply sub_full. rewrite len_app. lia. }
  destruct d1 as [a | b k | n k]; cbn [talk waits] in *; [| done |]; rewrite ?E1, ?E2, ?E3; [done |].
  by rewrite (proj2 (Z.leb_gt _ _)).
Qed.

(** After the first returned, writes of the second are lost and do not matter. *)
Lemma exchange_write2_end (a : A) q1 b k2 q2 r :
  exchanges (Return a) q1 (k2 true) q2 r -> exchanges (Return a) q1 (Write b k2 : dialogue B) q2 r.
Proof. intros [m H]. by exists (S m). Qed.
End Steps.

(** ** Programs that give up when the stream does *)

Section Strict.
Context {E : Type}.

Definition fails {A} (d : dialogue (outcome E A)) : Prop := exists r, d = Return r /\ is_ok r = false.

Fixpoint strict {A} (d : dialogue (outcome E A)) : Prop :=
  match d with
  | Return _ => True
  | Write b k => fails (k false) /\ strict (k true)
  | ReadExact n k => fails (k None) /\ forall b, strict (k (Some b))
  end.

Lemma fails_try {A B} (d : dialogue (outcome E A)) (f : A -> dialogue (outcome E B)) : fails d -> fails (dtry d f).
Proof. intros (r & -> & Hr). destruct r as [a | e |]; [done | |]; by eexists. Qed.

Lemma strict_try {A B} (d : dialogue (outcome E A)) (f : A -> dialogue (outcome E B)) :
  strict d -> (forall a, strict (f a)) -> strict (dtry d f).
Proof.
  intros Hd Hf. induction d as [[a | e |] | b k IH | n k IH]; cbn [strict dtry dbind] in *; [apply Hf | done | done | |].
  - split; [apply (fails_try (k false) f), Hd | apply (IH true), Hd].
  - split; [apply (fails_try (k None) f), Hd | intros b; apply (IH (Some b)), Hd].
Qed.

Lemma strict_lift {A B} (m : outcome E A) (f : A -> dialogue (outcome E B)) : (forall a, strict (f a)) -> strict (dlift m f).
Proof. intros Hf. destruct m as [a | e |]; cbn; [apply Hf | done | done]. Qed.
End Strict.
