(* ===== verification/Scram.v ===== *)
(** Proxy-side SCRAM-SHA-256 authentication (src/proxy/src/scram.rs): both ends of
    the exchange as programs over a stream.  The hash, its keyed form and base64
    are third-party code and parameters; the random nonces are arguments. *)

From S2P Require Import Prelude Bytes Text PageVersion ObjStore Http ProxyProtocol Dialogue.

Inductive ScramError :=
| ScramIo
| ScramProtocol (msg : string)
| AuthFailed.

(** [sha2], [hmac] and [base64]. *)
Class Crypto := {
  sha256 : bytes -> bytes;
  hmac : bytes -> bytes -> bytes;
  b64_encode : bytes -> bytes;
  b64_decode : bytes -> option bytes
}.

(** Their documented behaviour: digests of 32 bytes, and an encoding into the
    base64 alphabet (letters, digits, plus, slash, equals sign) that decodes back. *)
Definition b64_char (b : byte) : bool :=
  let z := ch b in
  ((65 <=? z) && (z <=? 90)) || ((97 <=? z) && (z <=? 122)) || ((47 <=? z) && (z <=? 57)) || (z =? 43) || (z =? 61).

Class CryptoLaws `{Crypto} := {
  sha256_len d : len (sha256 d) = 32;
  hmac_len k d : len (hmac k d) = 32;
  b64_round_trip d : b64_decode (b64_encode d) = Some d;
  b64_alphabet d : Forall (fun b => b64_char b = true) (b64_encode d);
  b64_len d : len (b64_encode d) = (len d + 2) / 3 * 4
}.

Record ScramSecret := mkScramSecret {
  iterations : Z;
  salt : bytes;
  stored_key : bytes;
  server_key : bytes
}.

Definition xor_bytes (a b : bytes) : bytes := zip_with (fun x y => z2b (Z.lxor (b2z x) (b2z y))) a b.

Definition comma : byte := z2b 44.

(** [msg.split(',').find_map(|kv| kv.strip_prefix("<key>="))] *)
Definition field (msg : bytes) (key : string) : option bytes :=
  head (omap (strip_prefix (text key ++ text "=")) (split_str [comma] msg)).

(** [s.rsplit_once(pat)] for a string pattern: the parts around its last occurrence *)
Definition rsplit_once_str (pat s : bytes) : option (bytes * bytes) :=
  match find_subsequence (rev s) (rev pat) with
  | Some k => Some (rev (drop (Z.to_nat k + length pat) (rev s)), rev (take (Z.to_nat k) (rev s)))
  | None => None
  end.

Definition protocol_err {A} (msg : string) : outcome ScramError A := Err (ScramProtocol msg).

Definition parse_sasl_initial (body : bytes) : outcome ScramError bytes :=
  let? (mechanism, rest) := ok_or (split_once NUL body) (ScramProtocol "no mechanism") in
  ensure bool_decide (mechanism = text "SCRAM-SHA-256") else ScramProtocol "unsupported SASL mechanism" in
  ensure 4 <=? len rest else ScramProtocol "truncated SASLInitialResponse" in
  let data_len := i32_of (sub rest 0 4) in
  let data := sub rest 4 (len rest - 4) in
  ensure (0 <=? data_len) && (data_len =? len data) else ScramProtocol "bad SASL data length" in
  ensure utf8_valid data else ScramProtocol "bad utf8" in
  Ok data.

Definition strip_gs2_header (client_first : bytes) : outcome ScramError bytes :=
  match split_once comma client_first with
  | Some (_, rest) =>
      match split_once comma rest with
      | Some (_, bare) => Ok bare
      | None => protocol_err "bad gs2 header"
      end
  | None => protocol_err "bad gs2 header"
  end.

(** The header itself is not looked at. *)
Lemma gs2_header_unchecked : strip_gs2_header (text "p=tls-unique,,n=u,r=x") = Ok (text "n=u,r=x").
Proof. vm_compute; reflexivity. Qed.

(** ** Messages *)

Definition write_message (m : bytes) : dialogue (outcome ScramError unit) :=
  Write m (fun ok => Return (if ok : bool then Ok tt else Err ScramIo)).

Definition write_p_message (body : bytes) : dialogue (outcome ScramError unit) :=
  write_message (x70 :: i32_bytes (4 + len body) ++ body).

Definition write_auth_message (subtype : Z) (body : bytes) : dialogue (outcome ScramError unit) :=
  write_message (x52 :: i32_bytes (4 + 4 + len body) ++ i32_bytes subtype ++ body).

Definition read_exact (n : Z) : dialogue (outcome ScramError bytes) :=
  ReadExact n (fun r => Return (ok_or r ScramIo)).

Definition read_message : dialogue (outcome ScramError (byte * bytes)) :=
  let~ tag := read_exact 1 in
  let~ len_buf := read_exact 4 in
  let n := i32_of len_buf in
  if (4 <=? n) && (n <=? 2 ^ 20) then
    let~ body := read_exact (n - 4) in
    Return (let? t := index tag 0 in Ok (t, body))
  else Return (protocol_err "message length out of range").

Section Exchange.
Context `{Crypto}.

(** [Hi]: one block of PBKDF2 *)
Fixpoint hi_rounds (n : nat) (password u result : bytes) : bytes :=
  match n with
  | O => result
  | S n' => let u := hmac password u in hi_rounds n' password u (xor_bytes result u)
  end.

Definition hi (password salt : bytes) (iterations : Z) : bytes :=
  let u := hmac password (salt ++ be_bytes 4 1) in
  hi_rounds (Z.to_nat (iterations - 1)) password u u.

Definition from_password (password salt : bytes) (iterations : Z) : ScramSecret :=
  let salted := hi password salt iterations in
  let client_key := hmac salted (text "Client Key") in
  mkScramSecret iterations salt (sha256 client_key) (hmac salted (text "Server Key")).

(** [make_nonce] on the 18 random bytes drawn *)
Definition make_nonce (random : bytes) : bytes := b64_encode random.

Definition auth_message_of (bare server_first without_proof : bytes) : bytes :=
  bare ++ [comma] ++ server_first ++ [comma] ++ without_proof.

Definition server_first_of (nonce : bytes) (secret : ScramSecret) : bytes :=
  text "r=" ++ nonce ++ text ",s=" ++ b64_encode (salt secret) ++ text ",i=" ++ fmt_dec (iterations secret).

(** The check of the client's final message: its authenticated text when the proof holds. *)
Definition verify_final (secret : ScramSecret) (bare nonce body : bytes) : outcome ScramError bytes :=
  ensure utf8_valid body else ScramProtocol "bad utf8" in
  let? proof_b64 := ok_or (field body "p") (ScramProtocol "no client proof") in
  let? final_nonce := ok_or (field body "r") (ScramProtocol "no nonce") in
  ensure bool_decide (final_nonce = nonce) else ScramProtocol "nonce mismatch" in
  let? (without_proof, _) := ok_or (rsplit_once_str (text ",p=") body) (ScramProtocol "no proof field") in
  let auth_message := auth_message_of bare (server_first_of nonce secret) without_proof in
  let client_signature := hmac (stored_key secret) auth_message in
  let? proof := ok_or (b64_decode proof_b64) (ScramProtocol "bad proof base64") in
  ensure len proof =? 32 else ScramProtocol "bad proof length" in
  ensure bool_decide (sha256 (xor_bytes proof client_signature) = stored_key secret) else AuthFailed in
  Ok auth_message.

Definition authenticate (random : bytes) (secret : ScramSecret) : dialogue (outcome ScramError unit) :=
  let~ _ := write_auth_message 10 (text "SCRAM-SHA-256" ++ [NUL; NUL]) in
  let~ (tag, body) := read_message in
  if negb (bool_decide (tag = x70)) then Return (protocol_err "expected SASLInitialResponse") else
  let= client_first := parse_sasl_initial body in
  let= bare := strip_gs2_header client_first in
  let= client_nonce := ok_or (field bare "r") (ScramProtocol "no client nonce") in
  let combined_nonce := client_nonce ++ make_nonce random in
  let~ _ := write_auth_message 11 (server_first_of combined_nonce secret) in
  let~ (tag, body) := read_message in
  if negb (bool_decide (tag = x70)) then Return (protocol_err "expected SASLResponse") else
  let= auth_message := verify_final secret bare combined_nonce body in
  let server_signature := hmac (server_key secret) auth_message in
  write_auth_message 12 (text "v=" ++ b64_encode server_signature).

(** [body.get(4..).unwrap_or_default()] as text *)
Definition auth_text (body : bytes) : outcome ScramError bytes :=
  let t := default [] (get_range body 4 (len body)) in
  ensure utf8_valid t else ScramProtocol "bad utf8" in Ok t.

Definition parse_iterations (s : bytes) : option Z :=
  match from_str_radix 10 u32_max s with Ok z => Some z | _ => None end.

Definition client_final_of (nonce : bytes) : bytes := text "c=biws,r=" ++ nonce.

Definition client_authenticate (random user password : bytes) : dialogue (outcome ScramError unit) :=
  let~ (tag, body) := read_message in
  if negb (bool_decide (tag = x52)) || negb (bool_decide (get_range body 0 4 = Some (i32_bytes 10)))
  then Return (protocol_err "expected AuthenticationSASL") else
  let bare := text "n=" ++ user ++ text ",r=" ++ make_nonce random in
  let client_first := text "n,," ++ bare in
  let~ _ := write_p_message (text "SCRAM-SHA-256" ++ [NUL] ++ i32_bytes (len client_first) ++ client_first) in
  let~ (_, body) := read_message in
  let= server_first := auth_text body in
  let= nonce := ok_or (field server_first "r") (ScramProtocol "no nonce") in
  let= salt_text := ok_or (field server_first "s") (ScramProtocol "no salt") in
  let= salt := ok_or (b64_decode salt_text) (ScramProtocol "bad salt") in
  let= iterations := ok_or (field server_first "i" ≫= parse_iterations) (ScramProtocol "no iterations") in
  let salted := hi password salt iterations in
  let client_key := hmac salted (text "Client Key") in
  let stored_key := sha256 client_key in
  let without_proof := client_final_of nonce in
  let auth_message := auth_message_of bare server_first without_proof in
  let proof := xor_bytes client_key (hmac stored_key auth_message) in
  let~ _ := write_p_message (without_proof ++ text ",p=" ++ b64_encode proof) in
  let~ (_, body) := read_message in
  let= server_final := auth_text body in
  let= v := ok_or (field server_final "v") (ScramProtocol "no server signature") in
  let server_key := hmac salted (text "Server Key") in
  Return (ensure bool_decide (v = b64_encode (hmac server_key auth_message)) else AuthFailed in Ok tt).
End Exchange.

(** ** Text fields *)

Abbreviation join_commas := (join_char comma).

Abbreviation no_comma := (free_of comma).

Lemma split_commas l ls : Forall no_comma (l :: ls) -> split_str [comma] (join_commas (l :: ls)) = l :: ls.
Proof. apply split_char. Qed.

Lemma strip_prefix_app p s : strip_prefix p (p ++ s) = Some s.
Proof. unfold strip_prefix. by rewrite starts_with_app, drop_app_length. Qed.

(** The last [,p=] is the one before text without commas. *)
Lemma rsplit_proof a b : no_comma b -> rsplit_once_str (text ",p=") (a ++ text ",p=" ++ b) = Some (a, b).
Proof.
  intros Hb. unfold rsplit_once_str. set (pat := text ",p=").
  assert (Er : rev (a ++ pat ++ b) = rev b ++ rev pat ++ rev a) by (by rewrite !rev_app_distr, <- app_assoc).
  assert (Ef : find_subsequence (rev (a ++ pat ++ b)) (rev pat) = Some (Z.of_nat (length (rev b)))).
  { rewrite Er. apply find_Some. split.
    - rewrite drop_app_length. apply starts_with_app.
    - intros j Hj. destruct (starts_with (rev pat) (drop j (rev b ++ rev pat ++ rev a))) eqn:E; [| done]. exfalso.
      apply starts_with_inv in E as [u E]. apply (f_equal (lookup 2%nat)) in E. rewrite lookup_drop in E.
      change ((rev pat ++ u) !! 2%nat) with (Some comma) in E.
      destruct (Nat.lt_ge_cases (j + 2) (length (rev b))) as [H | H].
      + rewrite lookup_app_l in E by done. apply Forall_rev in Hb. eapply Forall_lookup_1 in Hb; [| exact E]. done.
      + rewrite lookup_app_r in E by done. destruct (j + 2 - length (rev b))%nat as [| [| n]] eqn:En; [discriminate E | discriminate E | lia]. }
  rewrite Ef, Er, Nat2Z.id. f_equal. f_equal.
  - replace (length pat) with (length (rev pat)) by (by rewrite length_rev). rewrite app_assoc, <- length_app, drop_app_length. apply rev_involutive.
  - rewrite take_app_length. apply rev_involutive.
Qed.

Lemma byte_lxor_bound x y : 0 <= x < 256 -> 0 <= y < 256 -> Z.lxor x y < 256.
Proof.
  intros Hx Hy. destruct (Z.eq_dec (Z.lxor x y) 0) as [-> | Hn]; [lia |].
  assert (0 <= Z.lxor x y) by (apply Z.lxor_nonneg; lia). apply Z.log2_lt_cancel. change (Z.log2 256) with 8.
  eapply Z.le_lt_trans; [apply Z.log2_lxor; lia |].
  assert (Hl : forall z, 0 <= z < 256 -> Z.log2 z < 8).
  { intros z Hz. destruct (Z.eq_dec z 0) as [-> | Hz0]; [done |]. apply Z.log2_lt_pow2; lia. }
  apply Z.max_lub_lt; auto.
Qed.

Lemma xor_bytes_back a b : len a = len b -> xor_bytes (xor_bytes a b) b = a.
Proof.
  unfold xor_bytes, len. revert b. induction a as [| x a IH]; intros [| y b] H; try done. cbn in H |- *. f_equal; [| apply IH; lia].
  assert (Hx : b2z (z2b (Z.lxor (b2z x) (b2z y))) = Z.lxor (b2z x) (b2z y)).
  { rewrite b2z_z2b. apply Z.mod_small. pose proof (b2z_range x). pose proof (b2z_range y).
    split; [apply Z.lxor_nonneg; lia |]. apply byte_lxor_bound; lia. }
  rewrite Hx, Z.lxor_assoc, Z.lxor_nilpotent, Z.lxor_0_r. apply z2b_b2z.
Qed.


(** ** What acceptance means *)

Lemma drun_bind {A B} (m : dialogue A) (f : A -> dialogue B) input :
  drun (dbind m f) input =
  let '(o1, a, r1) := drun m input in let '(o2, b, r2) := drun (f a) r1 in (o1 ++ o2, b, r2).
Proof.
  revert input; induction m as [a | b k IH | n k IH]; intros input; cbn [dbind drun].
  - by destruct (drun (f a) input) as [[o b] r].
  - rewrite IH. destruct (drun (k true) input) as [[o1 a] r1]. destruct (drun (f a) r1) as [[o2 b'] r2]. by rewrite app_assoc.
  - destruct (n <=? len input); apply IH.
Qed.

(** The result of a program on a peer's bytes. *)
Definition result {A} (d : dialogue A) (input : bytes) : A := (drun d input).1.2.

Lemma dtry_Ok {E A B} (m : dialogue (outcome E A)) (f : A -> dialogue (outcome E B)) input b :
  result (dtry m f) input = Ok b -> exists o a r, drun m input = (o, Ok a, r) /\ result (f a) r = Ok b.
Proof.
  unfold result, dtry. rewrite drun_bind. destruct (drun m input) as [[o [a | e |]] r]; [| done | done].
  destruct (drun (f a) r) as [[o2 b'] r2] eqn:E2. cbn. intros ->. exists o, a, r. rewrite E2. done.
Qed.

Lemma dtry_write {B} m (f : unit -> dialogue (outcome ScramError B)) input :
  result (dtry (write_message m) f) input = result (f tt) input.
Proof. unfold result, dtry. rewrite drun_bind. cbn. by destruct (drun (f tt) input) as [[o b] r]. Qed.

Lemma dlift_Ok {E A B} (m : outcome E A) (f : A -> dialogue (outcome E B)) input b :
  result (dlift m f) input = Ok b -> exists a, m = Ok a /\ result (f a) input = Ok b.
Proof. unfold dlift. destruct m as [a | e |]; [| done | done]. by exists a. Qed.

(** A framed client message at the head of the input. *)
Definition frame (tag : byte) (body : bytes) : bytes := tag :: i32_bytes (4 + len body) ++ body.

Lemma read_split (input : bytes) n :
  0 <= n <= len input -> exists x y, input = x ++ y /\ len x = n /\ sub input 0 n = x /\ sub input n (len input - n) = y.
Proof.
  intros Hn. exists (sub input 0 n), (sub input n (len input - n)). split; [| split; [apply sub_len; lia | done]].
  rewrite <- (sub_full input (len input)) at 1 by done. replace (len input) with (n + (len input - n)) at 1 by lia.
  by rewrite sub_app_split by lia.
Qed.

Lemma i32_bytes_of b : len b = 4 -> 0 <= i32_of b -> i32_bytes (i32_of b) = b.
Proof.
  unfold i32_of, to_i32, i32_bytes. intros Hl H0. pose proof (be_val_range b) as Hr. rewrite Hl in Hr. change (256 ^ 4) with (2 ^ 32) in Hr.
  destruct (Z.ltb_spec (be_val b) (2 ^ 31)); [| lia]. apply be_bytes_be_val. unfold len in Hl. lia.
Qed.

Lemma read_message_inv input o tag body r : drun read_message input = (o, Ok (tag, body), r) -> input = frame tag body ++ r.
Proof.
  unfold read_message, dtry, read_exact. cbn [dbind drun]. destruct (Z.leb_spec 1 (len input)) as [H1 | H1]; [| done].
  destruct (read_split input 1 ltac:(lia)) as (x & y & -> & Hx & -> & ->). cbn [ok_or dbind drun].
  destruct (Z.leb_spec 4 (len y)) as [H4 | H4]; [| done].
  destruct (read_split y 4 ltac:(lia)) as (l & z & -> & Hl & -> & ->). cbn [ok_or dbind].
  destruct ((4 <=? i32_of l) && (i32_of l <=? 2 ^ 20)) eqn:En; [| done]. bool_to_prop. cbn [dbind drun].
  destruct (Z.leb_spec (i32_of l - 4) (len z)) as [Hb | Hb]; [| done].
  destruct (read_split z (i32_of l - 4) ltac:(lia)) as (b & w & -> & Hbl & -> & ->). cbn [ok_or dbind drun].
  destruct x as [| t [| t' x]]; [done | | rewrite !len_cons in Hx; pose proof (len_nonneg x); lia].
  intros [= _ <- <- <-]. unfold frame. rewrite Hbl. replace (4 + (i32_of l - 4)) with (i32_of l) by lia.
  rewrite i32_bytes_of by (done || lia). cbn [app]. by rewrite <- app_assoc.
Qed.

Section Soundness.
Context `{HC : Crypto}.

(** A proof under the stored key for the given nonce. *)
Definition valid_proof (secret : ScramSecret) (bare nonce body : bytes) : Prop :=
  field body "r" = Some nonce /\
  exists proof_b64 proof without_proof tail,
    field body "p" = Some proof_b64 /\ b64_decode proof_b64 = Some proof /\ len proof = 32 /\
    rsplit_once_str (text ",p=") body = Some (without_proof, tail) /\
    sha256 (xor_bytes proof (hmac (stored_key secret) (auth_message_of bare (server_first_of nonce secret) without_proof))) = stored_key secret.

Lemma verify_final_inv secret bare nonce body m : verify_final secret bare nonce body = Ok m -> valid_proof secret bare nonce body.
Proof.
  unfold verify_final. case_test; [| done]. destruct (field body "p") as [p|] eqn:Ep; [| done]. cbn [ok_or bind].
  destruct (field body "r") as [r|] eqn:Er; [| done]. cbn [ok_or bind]. case_bool_decide as Hr; [| done]. subst r.
  destruct (rsplit_once_str (text ",p=") body) as [[w t]|] eqn:Es; [| done]. cbn [ok_or bind].
  destruct (b64_decode p) as [proof|] eqn:Ed; [| done]. cbn [ok_or bind]. case_test; [| done]. bool_to_prop.
  case_bool_decide as Hs; [| done]. intros _. split; [done |]. by exists p, proof, w, t.
Qed.

(** The two messages the server read, and what it found in them. *)
Lemma authenticate_inv random secret input :
  result (authenticate random secret) input = Ok tt ->
  exists o initial r client_first bare client_nonce o' body r',
    drun read_message input = (o, Ok (x70, initial), r) /\ drun read_message r = (o', Ok (x70, body), r') /\
    parse_sasl_initial initial = Ok client_first /\ strip_gs2_header client_first = Ok bare /\ field bare "r" = Some client_nonce /\
    valid_proof secret bare (client_nonce ++ make_nonce random) body.
Proof.
  unfold authenticate, write_auth_message. rewrite dtry_write. intros (o & [tag initial] & r & Er & H)%dtry_Ok.
  case_bool_decide as Ht; [| done]. subst tag. cbn [negb] in H.
  apply dlift_Ok in H as (cf & Hcf & H). apply dlift_Ok in H as (bare & Hb & H). apply dlift_Ok in H as (cn & Hcn & H).
  rewrite dtry_write in H. apply dtry_Ok in H as (o' & [tag' body] & r' & Er' & H).
  case_bool_decide as Ht'; [| done]. subst tag'. cbn [negb] in H. apply dlift_Ok in H as (m & Hv%verify_final_inv & _).
  destruct (field bare "r") as [n|] eqn:En; [| done]. injection Hcn as ->.
  by exists o, initial, r, cf, bare, cn, o', body, r'.
Qed.

(** C17: only a fresh proof is accepted.  Whatever a client sends, the proxy accepts
    it only if its two messages carry the server's nonce of this session and a
    proof from which, together with the signature over this very exchange, a
    preimage of the stored key is obtained; and the bytes of an accepted session
    are accepted in no session with another nonce, so a recording cannot be
    replayed. *)
Theorem scram_accepts_only_fresh_proofs `{!CryptoLaws} random secret input :
  result (authenticate random secret) input = Ok tt ->
  (exists initial client_first bare client_nonce body rest,
     input = frame x70 initial ++ frame x70 body ++ rest /\ parse_sasl_initial initial = Ok client_first /\
     strip_gs2_header client_first = Ok bare /\ field bare "r" = Some client_nonce /\
     valid_proof secret bare (client_nonce ++ make_nonce random) body) /\
  (forall random', random' <> random -> result (authenticate random' secret) input <> Ok tt).
Proof.
  intros (o & initial & r & cf & bare & cn & o' & body & r' & E1 & E2 & Hcf & Hb & Hcn & Hv)%authenticate_inv. split.
  - exists initial, cf, bare, cn, body, r'. apply read_message_inv in E1 as ->. by apply read_message_inv in E2 as ->.
  - intros random' Hne (o2 & initial2 & r2 & cf2 & bare2 & cn2 & o2' & body2 & r2' & F1 & F2 & Hcf2 & Hb2 & Hcn2 & Hv2)%authenticate_inv.
    assert (r2 = r /\ initial2 = initial) as [-> ->] by (by rewrite E1 in F1; injection F1 as _ -> ->).
    assert (body2 = body) as -> by (by rewrite E2 in F2; injection F2 as _ -> _).
    assert (cn2 = cn) as -> by congruence. apply Hne.
    destruct Hv as [Hr _], Hv2 as [Hr2 _]. rewrite Hr in Hr2. injection Hr2 as En. apply app_inv_head in En.
    apply (f_equal b64_decode) in En. unfold make_nonce in En. rewrite !b64_round_trip in En. by injection En.
Qed.
End Soundness.

(** The server gives up when a read or a write fails. *)
Lemma strict_read_exact n : strict (read_exact n).
Proof. split; [by eexists | done]. Qed.

Lemma strict_write m : strict (write_message m).
Proof. split; [by eexists | done]. Qed.

Lemma strict_read_message : strict read_message.
Proof.
  apply strict_try; [apply strict_read_exact |]. intros tag. apply strict_try; [apply strict_read_exact |]. intros n. cbv zeta.
  case_test; [| done]. apply strict_try; [apply strict_read_exact | done].
Qed.

Lemma strict_authenticate `{Crypto} random secret : strict (authenticate random secret).
Proof.
  unfold authenticate, write_auth_message. apply strict_try; [apply strict_write |]. intros _.
  apply strict_try; [apply strict_read_message |]. intros [tag body]. destruct (negb _); [done |].
  apply strict_lift. intros cf. apply strict_lift. intros bare. apply strict_lift. intros cn. cbv zeta.
  apply strict_try; [apply strict_write |]. intros _. apply strict_try; [apply strict_read_message |]. intros [tag' body'].
  destruct (negb _); [done |]. apply strict_lift. intros m. apply strict_write.
Qed.

(** ** The two ends together *)

Section Steps.
Context {A B : Type}.

Lemma exchange_send1 {X} b (f : unit -> dialogue (outcome ScramError X)) q1 (d2 : dialogue B) q2 r :
  exchanges (f tt) q1 d2 (q2 ++ b) r -> exchanges (dtry (write_message b) f) q1 d2 q2 r.
Proof. intros [n H]. by exists (S n). Qed.

Lemma exchange_get1 {X} tag body (f : byte * bytes -> dialogue (outcome ScramError X)) q1 (d2 : dialogue B) q2 r :
  4 + len body <= 2 ^ 20 -> exchanges (f (tag, body)) q1 d2 q2 r -> exchanges (dtry read_message f) (frame tag body ++ q1) d2 q2 r.
Proof.
  intros Hl H. pose proof (len_nonneg body). unfold frame. cbn [app]. rewrite <- app_assoc.
  unfold dtry, read_message, read_exact. cbn [dbind]. apply (exchange_read1 [tag]); [done |]. cbn [ok_or dbind]. apply exchange_read1; [by rewrite len_i32_bytes |]. cbn [ok_or dbind].
  rewrite i32_of_bytes by (unfold in_i32; lia). rewrite !(proj2 (Z.leb_le _ _)) by lia. cbn [andb].
  apply exchange_read1; [lia |]. exact H.
Qed.

Lemma exchange_get2 {X} tag body (f : byte * bytes -> dialogue (outcome ScramError X)) (d1 : dialogue A) q1 q2 r :
  waits d1 q1 -> 4 + len body <= 2 ^ 20 -> exchanges d1 q1 (f (tag, body)) q2 r ->
  exchanges d1 q1 (dtry read_message f) (frame tag body ++ q2) r.
Proof.
  intros Hw Hl H. pose proof (len_nonneg body). unfold frame. cbn [app]. rewrite <- app_assoc.
  unfold dtry, read_message, read_exact. cbn [dbind]. apply (exchange_read2 _ _ [tag]); [done | done |]. cbn [ok_or dbind]. apply exchange_read2; [done | by rewrite len_i32_bytes |]. cbn [ok_or dbind].
  rewrite i32_of_bytes by (unfold in_i32; lia). rewrite !(proj2 (Z.leb_le _ _)) by lia. cbn [andb].
  apply exchange_read2; [done | lia |]. exact H.
Qed.

(** The first waits for a message while the second sends one. *)
Lemma exchange_send2 {X Y} b (g : byte * bytes -> dialogue (outcome ScramError Y)) (f : unit -> dialogue (outcome ScramError X)) q2 r :
  exchanges (dtry read_message g) b (f tt) q2 r -> exchanges (dtry read_message g) [] (dtry (write_message b) f) q2 r.
Proof. intros H. eapply exchange_write2; [reflexivity | done |]. exact H. Qed.
End Steps.

Section Texts.
Context `{HC : Crypto, !CryptoLaws}.

Lemma b64_char_plain b : b64_char b = true -> b <> comma /\ ch b < 128.
Proof.
  unfold b64_char. cbv zeta. intros Hz. assert (Hb : ch b <> 44 /\ ch b < 128).
  { repeat match goal with H : (_ || _) = true |- _ => apply orb_true_iff in H; destruct H as [H | H] end; bool_to_prop; lia. }
  split; [| lia]. intros ->. by destruct Hb as [Hb _].
Qed.

Lemma b64_no_comma d : no_comma (b64_encode d).
Proof. eapply Forall_impl; [apply b64_alphabet |]. intros b Hb. by apply b64_char_plain. Qed.

Lemma b64_ascii d : Forall (fun b => ch b < 128) (b64_encode d).
Proof. eapply Forall_impl; [apply b64_alphabet |]. intros b Hb. by apply b64_char_plain. Qed.

Lemma fmt_dec_plain z : 0 <= z -> no_comma (fmt_dec z) /\ Forall (fun b => ch b < 128) (fmt_dec z).
Proof.
  intros Hz. pose proof (fmt_dec_digits z Hz) as Hd.
  split; (eapply Forall_impl; [exact Hd |]); intros b (d & Hr & ->); destruct (digit_lower_plain d ltac:(lia)) as (_ & _ & Hp); [| lia].
  intros E. apply (f_equal (digit_val 16)) in E. rewrite digit_val_lower in E by lia. done.
Qed.

Lemma parse_iterations_dec z : in_u32 z -> parse_iterations (fmt_dec z) = Some z.
Proof.
  unfold in_u32. intros Hz. unfold parse_iterations. pose proof (fmt_dec_digits z ltac:(lia)) as Hd.
  assert (Hp : parse_digits 10 u32_max 0 (fmt_dec z) = Ok z).
  { apply parse_to_radix; [lia | apply digit_val_decimal | | unfold u32_max; lia | done]. split; [lia |].
    eapply Z.lt_trans; [apply Hz | done]. }
  assert (Hne : fmt_dec z <> []) by by apply to_radix_nonempty.
  destruct Hd as [| b s (d & Hr & ->) _]; [done |]. rewrite from_str_radix_digits; [by rewrite Hp |].
  by destruct (digit_lower_plain d ltac:(lia)).
Qed.

Lemma closed_ascii s : forallb (fun b => ch b <? 128) s = true -> Forall (fun b => ch b < 128) s.
Proof using. intros Hs. apply Forall_forall. intros b Hb%list_elem_of_In. rewrite forallb_forall in Hs. by apply Hs, Z.ltb_lt in Hb. Qed.

Lemma closed_no_comma s : forallb (fun b => negb (ch b =? 44)) s = true -> no_comma s.
Proof using.
  intros Hs. apply Forall_forall. intros b Hb%list_elem_of_In. rewrite forallb_forall in Hs. apply Hs, negb_true_iff, Z.eqb_neq in Hb.
  by intros ->.
Qed.

Lemma field_join key l ls :
  Forall no_comma (l :: ls) -> field (join_commas (l :: ls)) key = head (omap (strip_prefix (text key ++ text "=")) (l :: ls)).
Proof using. intros Hl. unfold field. by rewrite split_commas. Qed.
End Texts.

#[local] Hint Resolve b64_no_comma b64_ascii : core.

(** Pieces of a message: fixed text, base64 and decimal numbers. *)
Ltac pieces :=
  repeat (first [apply Forall_cons; split | apply Forall_app; split | apply Forall_nil_2]);
  first [done | apply b64_no_comma | apply b64_ascii | by apply closed_no_comma | by apply closed_ascii | by apply fmt_dec_plain].

Section Handshake.
Context `{HC : Crypto, !CryptoLaws} (user password salt_bytes : bytes) (rounds : Z) (crand srand : bytes).
Hypothesis user_ok : no_comma user /\ utf8_valid user = true.
Hypothesis rounds_ok : in_u32 rounds.
Hypothesis sizes_ok : len user <= 2 ^ 16 /\ len salt_bytes <= 2 ^ 16 /\ len crand = 18 /\ len srand = 18.

Let secret := from_password password salt_bytes rounds.
Let nonce := make_nonce crand ++ make_nonce srand.
Let bare := text "n=" ++ user ++ text ",r=" ++ make_nonce crand.
Let server_first := server_first_of nonce secret.
Let salted := hi password salt_bytes rounds.
Let client_key := hmac salted (text "Client Key").
Let without_proof := client_final_of nonce.
Let auth_message := auth_message_of bare server_first without_proof.
Let proof := xor_bytes client_key (hmac (sha256 client_key) auth_message).
Let client_final := without_proof ++ text ",p=" ++ b64_encode proof.

Lemma bare_nonce : field bare "r" = Some (make_nonce crand).
Proof using All.
  replace bare with (join_commas [text "n=" ++ user; text "r=" ++ make_nonce crand]) by (unfold bare; cbn [join_commas]; by rewrite <- app_assoc).
  rewrite field_join by (unfold make_nonce; destruct user_ok; repeat (apply Forall_cons; split); pieces).
  cbn [omap list_omap]. rewrite strip_prefix_app. reflexivity.
Qed.

Lemma nonce_no_comma : no_comma nonce.
Proof using All. unfold nonce, make_nonce. pieces. Qed.

Lemma server_fields :
  field server_first "r" = Some nonce /\ field server_first "s" = Some (b64_encode salt_bytes) /\ field server_first "i" = Some (fmt_dec rounds).
Proof using All.
  replace server_first with (join_commas [text "r=" ++ nonce; text "s=" ++ b64_encode salt_bytes; text "i=" ++ fmt_dec rounds]).
  - pose proof nonce_no_comma as Hn. assert (0 <= rounds) by (unfold in_u32 in rounds_ok; lia).
    rewrite !field_join by (repeat (apply Forall_cons; split); pieces).
    cbn [omap list_omap]. rewrite !strip_prefix_app. split; [reflexivity |]. split; reflexivity.
  - unfold server_first, server_first_of. cbn [join_commas]. rewrite <- !app_assoc. reflexivity.
Qed.

Lemma final_fields : field client_final "p" = Some (b64_encode proof) /\ field client_final "r" = Some nonce.
Proof using All.
  replace client_final with (join_commas [text "c=biws"; text "r=" ++ nonce; text "p=" ++ b64_encode proof]).
  - pose proof nonce_no_comma as Hn. rewrite !field_join by (repeat (apply Forall_cons; split); pieces).
    cbn [omap list_omap]. rewrite !strip_prefix_app. split; reflexivity.
  - unfold client_final, without_proof, client_final_of. cbn [join_commas]. rewrite <- !app_assoc. reflexivity.
Qed.

Lemma client_final_ascii : Forall (fun b => ch b < 128) client_final.
Proof using All. unfold client_final, without_proof, client_final_of, nonce, make_nonce. pieces. Qed.

Lemma server_first_ascii : Forall (fun b => ch b < 128) server_first.
Proof using All.
  assert (0 <= rounds) by (unfold in_u32 in rounds_ok; lia). unfold server_first, server_first_of, nonce, make_nonce. cbn [iterations salt secret from_password].
  pieces.
Qed.

Lemma verify_honest : verify_final secret bare nonce client_final = Ok auth_message.
Proof using All.
  destruct final_fields as [Hp Hr]. unfold verify_final. rewrite utf8_valid_ascii by apply client_final_ascii.
  rewrite Hp, Hr. cbn [ok_or bind]. rewrite bool_decide_true by done. unfold client_final at 1. rewrite rsplit_proof by apply b64_no_comma.
  cbn [ok_or bind]. fold server_first. fold auth_message. rewrite b64_round_trip. cbn [ok_or bind].
  assert (Hl : len client_key = len (hmac (sha256 client_key) auth_message)) by (unfold client_key; by rewrite !hmac_len).
  assert (Hx : len proof = 32).
  { unfold proof, xor_bytes, len. rewrite length_zip_with. pose proof (hmac_len salted (text "Client Key")) as H1. fold client_key in H1.
    unfold len in *. lia. }
  rewrite Hx. change (32 =? 32) with true. cbn iota. change (stored_key secret) with (sha256 client_key).
  unfold proof. rewrite xor_bytes_back by done. by rewrite bool_decide_true.
Qed.

Lemma parse_initial :
  parse_sasl_initial (text "SCRAM-SHA-256" ++ [NUL] ++ i32_bytes (len (text "n,," ++ bare)) ++ text "n,," ++ bare) = Ok (text "n,," ++ bare).
Proof using All.
  set (cf := text "n,," ++ bare). unfold parse_sasl_initial. cbn [app]. rewrite split_once_app by (repeat constructor; discriminate).
  cbn [ok_or bind]. rewrite bool_decide_true by done. pose proof (len_nonneg cf).
  rewrite (proj2 (Z.leb_le _ _)) by (rewrite len_app, len_i32_bytes; lia). rewrite sub_app_exact by (by rewrite len_i32_bytes).
  assert (Hs : sub (i32_bytes (len cf) ++ cf) 4 (len (i32_bytes (len cf) ++ cf) - 4) = cf).
  { rewrite sub_app_ge by (rewrite len_i32_bytes; lia). rewrite len_app, !len_i32_bytes. apply sub_full. lia. }
  rewrite Hs. assert (Hc : len cf <= 2 ^ 17).
  { unfold cf, bare, make_nonce. rewrite !len_app, b64_len. destruct sizes_ok as (Hu & _ & -> & _). change ((18 + 2) / 3 * 4) with 24.
    unfold len at 1 2 4. cbn [length text]. vm_compute (Z.of_nat _). lia. }
  rewrite i32_of_bytes by (unfold in_i32; lia). rewrite (proj2 (Z.leb_le _ _)) by lia. rewrite Z.eqb_refl. cbn [andb].
  replace (utf8_valid cf) with true; [done |]. symmetry. unfold cf, bare. destruct user_ok as [_ Hu].
  apply utf8_valid_app; [reflexivity |]. apply utf8_valid_app; [reflexivity |]. apply utf8_valid_app; [done |].
  apply utf8_valid_app; [reflexivity |]. apply utf8_valid_ascii, b64_ascii.
Qed.

Lemma auth_text_ok z t : Forall (fun b => ch b < 128) t -> auth_text (i32_bytes z ++ t) = Ok t.
Proof using.
  intros Ht. unfold auth_text. rewrite get_range_ok by (rewrite ?len_app, ?len_i32_bytes; pose proof (len_nonneg t); lia). cbn [default].
  rewrite sub_app_ge by (rewrite len_i32_bytes; lia). rewrite len_app, len_i32_bytes, sub_full by lia. by rewrite utf8_valid_ascii.
Qed.

Lemma auth_frame z body : x52 :: i32_bytes (4 + 4 + len body) ++ i32_bytes z ++ body = frame x52 (i32_bytes z ++ body) ++ [].
Proof using. unfold frame. rewrite app_nil_r, len_app, len_i32_bytes, Z.add_assoc. done. Qed.

Lemma p_frame body : x70 :: i32_bytes (4 + len body) ++ body = frame x70 body ++ [].
Proof using. unfold frame. by rewrite app_nil_r. Qed.

(** The messages are within the limit of a message. *)
Lemma message_sizes :
  4 + len (text "SCRAM-SHA-256" ++ [NUL] ++ i32_bytes (len (text "n,," ++ bare)) ++ text "n,," ++ bare) <= 2 ^ 20 /\
  4 + len (i32_bytes 11 ++ server_first) <= 2 ^ 20 /\ 4 + len client_final <= 2 ^ 20.
Proof using All.
  destruct sizes_ok as (Hu & Hs & Hc & Hr). assert (Hn : len nonce = 48).
  { unfold nonce, make_nonce. rewrite len_app, !b64_len, Hc, Hr. reflexivity. }
  assert (Hb : len (b64_encode salt_bytes) <= 2 ^ 17 + 4).
  { rewrite b64_len. assert ((len salt_bytes + 2) / 3 <= 2 ^ 15) by (apply Z.div_le_upper_bound; lia). lia. }
  assert (Hp : len (b64_encode proof) <= 44).
  { rewrite b64_len. assert (len proof <= 32).
    { unfold proof, xor_bytes, len. rewrite length_zip_with. pose proof (hmac_len salted (text "Client Key")) as H1. fold client_key in H1.
      unfold len in *. lia. }
    assert (Hd : (len proof + 2) / 3 <= 34 / 3) by (apply Z.div_le_mono; lia). change (34 / 3) with 11 in Hd. lia. }
  assert (Hf : len (fmt_dec rounds) <= 20) by apply len_to_radix.
  assert (Hcn : len (make_nonce crand) = 24) by (unfold make_nonce; by rewrite b64_len, Hc).
  repeat split.
  - unfold bare. rewrite !len_app, len_i32_bytes, Hcn. unfold len at 1 2 3 4 6. cbn [length text]. vm_compute (Z.of_nat _). lia.
  - unfold server_first, server_first_of. cbn [salt iterations secret from_password]. rewrite !len_app, len_i32_bytes, Hn.
    unfold len at 1 2 4. vm_compute (Z.of_nat (length (text _))). lia.
  - unfold client_final, without_proof, client_final_of. rewrite !len_app, Hn. unfold len at 1 2. vm_compute (Z.of_nat (length (text _))). lia.
Qed.

(** C18: the right password gets in.  A client with a user name without commas and
    the password the proxy's verifier was derived from, with any salt and
    iteration count and whatever nonces the two draw, completes the exchange: both
    ends terminate, the proxy accepts the client and the client accepts the
    proxy's signature. *)
Theorem scram_handshake_succeeds :
  exchanges (client_authenticate crand user password) [] (authenticate srand secret) [] (Ok tt, Ok tt).
Proof using All.
  destruct message_sizes as (S1 & S2 & S3). destruct server_fields as (F1 & F2 & F3).
  unfold client_authenticate, authenticate, write_auth_message, write_p_message. rewrite auth_frame.
  apply exchange_send2, exchange_get1; [by_compute |]. rewrite bool_decide_true by done.
  change (get_range (i32_bytes 10 ++ text "SCRAM-SHA-256" ++ [NUL; NUL]) 0 4) with (Some (i32_bytes 10)). rewrite bool_decide_true by done.
  cbn [negb orb]. fold bare. set (initial := text "SCRAM-SHA-256" ++ _) in *. rewrite p_frame. apply exchange_send1. cbn [app].
  apply exchange_get2; [done | done |]. rewrite bool_decide_true by done. cbn [negb]. unfold initial. rewrite parse_initial. cbn [dlift].
  replace (strip_gs2_header (text "n,," ++ bare)) with (Ok (E := ScramError) bare) by reflexivity. cbn [dlift]. rewrite bare_nonce. cbn [ok_or dlift].
  fold nonce. fold server_first. rewrite auth_frame. apply exchange_send2, exchange_get1; [done |].
  rewrite auth_text_ok by apply server_first_ascii. cbn [dlift]. rewrite F1, F2, F3. cbn [ok_or dlift]. rewrite b64_round_trip. cbn [ok_or dlift mbind option_bind].
  rewrite parse_iterations_dec by done. cbn [ok_or dlift]. fold salted. fold client_key. fold without_proof. fold auth_message. fold proof.
  fold client_final. rewrite p_frame. apply exchange_send1. cbn [app]. apply exchange_get2; [done | done |].
  rewrite bool_decide_true by done. cbn [negb]. rewrite verify_honest. cbn [dlift].
  change (server_key secret) with (hmac salted (text "Server Key")). set (sig := hmac (hmac salted (text "Server Key")) auth_message).
  rewrite auth_frame. eapply exchange_write2; [reflexivity | done |]. cbn [app]. apply exchange_get1.
  - rewrite !len_app, len_i32_bytes, b64_len. unfold sig. rewrite hmac_len. by_compute.
  - rewrite auth_text_ok by pieces. cbn [dlift].
    replace (field (text "v=" ++ b64_encode sig) "v") with (Some (b64_encode sig)).
    + cbn [ok_or dlift]. rewrite bool_decide_true by done. apply exchange_end.
    + change (text "v=" ++ b64_encode sig) with (join_commas [text "v=" ++ b64_encode sig]). rewrite field_join by pieces.
      cbn [omap list_omap]. by rewrite strip_prefix_app.
Qed.
End Handshake.

(** ** An instance

    Base64 itself, and a digest that only has the right length. *)

Definition b64_digit (v : Z) : byte :=
  z2b (if v <? 26 then 65 + v else if v <? 52 then 71 + v else if v <? 62 then v - 4 else if v =? 62 then 43 else 47).

Definition b64_value (b : byte) : option Z :=
  let z := ch b in
  if (65 <=? z) && (z <=? 90) then Some (z - 65)
  else if (97 <=? z) && (z <=? 122) then Some (z - 71)
  else if (48 <=? z) && (z <=? 57) then Some (z + 4)
  else if z =? 43 then Some 62 else if z =? 47 then Some 63 else None.

Definition pad_char : byte := z2b 61.

Definition sextets (n : Z) : list byte :=
  [b64_digit (n / 262144); b64_digit (n / 4096 mod 64); b64_digit (n / 64 mod 64); b64_digit (n mod 64)].

Fixpoint base64 (d : bytes) : bytes :=
  match d with
  | x :: y :: z :: r => sextets (b2z x * 65536 + b2z y * 256 + b2z z) ++ base64 r
  | [x; y] => take 3 (sextets (b2z x * 65536 + b2z y * 256)) ++ [pad_char]
  | [x] => take 2 (sextets (b2z x * 65536)) ++ [pad_char; pad_char]
  | [] => []
  end.

Fixpoint base64_decode (s : bytes) : option bytes :=
  match s with
  | [] => Some []
  | a :: b :: c :: d :: r =>
      va ← b64_value a; vb ← b64_value b;
      if decide (c = pad_char) then Some [z2b (va * 4 + vb / 16)]
      else
        vc ← b64_value c;
        if decide (d = pad_char) then Some [z2b (va * 4 + vb / 16); z2b (vb mod 16 * 16 + vc / 4)]
        else
          vd ← b64_value d; rest ← base64_decode r;
          Some (z2b (va * 4 + vb / 16) :: z2b (vb mod 16 * 16 + vc / 4) :: z2b (vc mod 4 * 64 + vd) :: rest)
  | _ => None
  end.

Lemma b64_digit_ok v : 0 <= v < 64 -> b64_value (b64_digit v) = Some v /\ b64_digit v <> pad_char /\ b64_char (b64_digit v) = true.
Proof.
  revert v. apply (forall_below _ 64). intros i Hi. do 64 (destruct i as [| i]; [vm_compute; repeat split; discriminate |]). exfalso. lia.
Qed.

(** The four digits of a 24-bit number, and the bytes they stand for. *)
Lemma sextet_ranges n : 0 <= n < 16777216 -> 0 <= n / 262144 < 64 /\ 0 <= n / 4096 mod 64 < 64 /\ 0 <= n / 64 mod 64 < 64 /\ 0 <= n mod 64 < 64.
Proof. intros Hn. Z.to_euclidean_division_equations. lia. Qed.

Lemma z2b_is x z : z = b2z x -> z2b z = x.
Proof. intros ->. apply z2b_b2z. Qed.

Lemma base64_round_trip d : base64_decode (base64 d) = Some d.
Proof.
  cut (forall n d, (length d <= n)%nat -> base64_decode (base64 d) = Some d); [intros Hc; by apply (Hc (length d)) |].
  clear d. induction n as [| n IH]; intros d Hd; [by destruct d; [| cbn in Hd; lia] |].
  destruct d as [| x [| y [| z d]]]; [done | | |]; pose proof (b2z_range x) as Hx.
  - cbn [base64 sextets take app base64_decode]. destruct (sextet_ranges (b2z x * 65536) ltac:(lia)) as (R1 & R2 & _ & _).
    destruct (b64_digit_ok _ R1) as (-> & _ & _). destruct (b64_digit_ok _ R2) as (-> & _ & _). cbn [mbind option_bind].
    rewrite decide_True by done. do 2 f_equal. apply z2b_is. clear. Z.to_euclidean_division_equations. lia.
  - pose proof (b2z_range y) as Hy. cbn [base64 sextets take app base64_decode].
    destruct (sextet_ranges (b2z x * 65536 + b2z y * 256) ltac:(lia)) as (R1 & R2 & R3 & _).
    destruct (b64_digit_ok _ R1) as (-> & _ & _). destruct (b64_digit_ok _ R2) as (-> & _ & _).
    destruct (b64_digit_ok _ R3) as (-> & Hp & _). cbn [mbind option_bind]. rewrite decide_False by done. rewrite decide_True by done.
    f_equal. f_equal; [| f_equal]; apply z2b_is; clear - Hx Hy; Z.to_euclidean_division_equations; lia.
  - pose proof (b2z_range y) as Hy. pose proof (b2z_range z) as Hz. cbn [base64 sextets take app base64_decode].
    set (m := b2z x * 65536 + b2z y * 256 + b2z z). destruct (sextet_ranges m ltac:(lia)) as (R1 & R2 & R3 & R4).
    destruct (b64_digit_ok _ R1) as (-> & _ & _). destruct (b64_digit_ok _ R2) as (-> & _ & _).
    destruct (b64_digit_ok _ R3) as (-> & Hp & _). destruct (b64_digit_ok _ R4) as (-> & Hq & _). cbn [mbind option_bind].
    rewrite !decide_False by done. rewrite IH by (cbn in Hd; lia). cbn [mbind option_bind]. f_equal.
    f_equal; [| f_equal; [| f_equal]]; try apply z2b_is; unfold m; clear - Hx Hy Hz; Z.to_euclidean_division_equations; lia.
Qed.

Lemma base64_shape d : Forall (fun b => b64_char b = true) (base64 d) /\ len (base64 d) = (len d + 2) / 3 * 4.
Proof.
  cut (forall n d, (length d <= n)%nat -> Forall (fun b => b64_char b = true) (base64 d) /\ len (base64 d) = (len d + 2) / 3 * 4);
    [intros Hc; by apply (Hc (length d)) |].
  assert (Hs : forall m, 0 <= m < 16777216 -> Forall (fun b => b64_char b = true) (sextets m)).
  { intros m Hm. destruct (sextet_ranges m Hm) as (R1 & R2 & R3 & R4). unfold sextets.
    repeat (apply Forall_cons; split; [by apply b64_digit_ok |]). constructor. }
  clear d. induction n as [| n IH]; intros d Hd; [destruct d; [by split | cbn in Hd; lia] |].
  destruct d as [| x [| y [| z d]]]; [by split | | |]; pose proof (b2z_range x) as Hx; cbn [base64].
  - split; [| done]. apply Forall_app. split; [by apply Forall_take, Hs; lia | by repeat constructor].
  - pose proof (b2z_range y) as Hy. split; [| done]. apply Forall_app. split; [by apply Forall_take, Hs; lia | by repeat constructor].
  - pose proof (b2z_range y) as Hy. pose proof (b2z_range z) as Hz. destruct (IH d) as [IH1 IH2]; [cbn in Hd; lia |]. split.
    + apply Forall_app. split; [apply Hs; lia | done].
    + rewrite len_app, IH2, !len_cons. change (len (sextets _)) with 4.
      replace (1 + (1 + (1 + len d)) + 2) with (len d + 2 + 1 * 3) by lia. rewrite Z.div_add by lia. lia.
Qed.

Definition toy_digest (d : bytes) : bytes := take 32 (d ++ replicate 32 x00).

Lemma len_toy_digest d : len (toy_digest d) = 32.
Proof. unfold toy_digest, len. rewrite length_take, length_app, length_replicate. lia. Qed.

#[local] Instance toy_crypto : Crypto := {|
  sha256 := toy_digest;
  hmac k d := toy_digest (d ++ k);
  b64_encode := base64;
  b64_decode := base64_decode
|}.

#[local] Instance toy_laws : CryptoLaws.
Proof.
  split; intros; cbn [sha256 hmac b64_encode b64_decode toy_crypto];
    [apply len_toy_digest | apply len_toy_digest | apply base64_round_trip | apply base64_shape | apply base64_shape].
Qed.

Lemma scram_handshake_succeeds_witness :
  exchanges (client_authenticate (replicate 18 x01) (text "tester") (text "s3cret")) []
    (authenticate (replicate 18 x02) (from_password (text "s3cret") (text "a-pinch-of-salt") 3)) [] (Ok tt, Ok tt).
Proof.
  apply scram_handshake_succeeds.
  - split; [apply closed_no_comma; reflexivity | reflexivity].
  - by_compute.
  - by_compute.
Defined.

(** A client's bytes in a session with the server nonce of eighteen twos. *)
Definition recorded_session : bytes :=
  let secret := from_password (text "s3cret") (text "a-pinch-of-salt") 3 in
  let bare := text "n=tester,r=" ++ make_nonce (replicate 18 x01) in
  let nonce := make_nonce (replicate 18 x01) ++ make_nonce (replicate 18 x02) in
  let client_key := hmac (hi (text "s3cret") (text "a-pinch-of-salt") 3) (text "Client Key") in
  let auth_message := auth_message_of bare (server_first_of nonce secret) (client_final_of nonce) in
  frame x70 (text "SCRAM-SHA-256" ++ [NUL] ++ i32_bytes (len (text "n,," ++ bare)) ++ text "n,," ++ bare) ++
  frame x70 (client_final_of nonce ++ text ",p=" ++ b64_encode (xor_bytes client_key (hmac (sha256 client_key) auth_message))).

Lemma scram_accepts_only_fresh_proofs_witness :
  let secret := from_password (text "s3cret") (text "a-pinch-of-salt") 3 in
  result (authenticate (replicate 18 x02) secret) recorded_session = Ok tt /\
  result (authenticate (replicate 18 x03) secret) recorded_session <> Ok tt.
Proof.
  intros secret. assert (H : result (authenticate (replicate 18 x02) secret) recorded_session = Ok tt) by (vm_compute; reflexivity).
  split; [exact H |]. destruct (scram_accepts_only_fresh_proofs (replicate 18 x02) secret recorded_session H) as [_ Hr].
  apply Hr. discriminate.
Defined.
