(* ===== verification/Compute.v ===== *)
(** The proxy's view of the tenants' compute nodes (src/proxy/src/tenant.rs), and
    the tasks that share it: the idle reaper and the warmer (src/proxy/src/idle.rs)
    and the compute-control endpoint (src/proxy/src/control.rs), with the activators
    they call and the readiness probe (src/proxy/src/activator.rs).

    An [Arc<TenantState>] is an address in a heap, so a task keeps the state it
    looked up although the name may be registered anew.  A task is a tree of atomic
    steps on the shared state and of awaited questions to the outside; tasks
    interleave between any two of them. *)

From S2P Require Import Prelude Bytes BTree Text Metrics Common PageVersion ObjStore Http Dialogue Scram Cancel.

Abbreviation saddr := nat.

(** ** Tenant state *)

Record TenantState := mkTenantState {
  backend : bytes;
  running : bool;
  active_conns : Z;
  last_active : Z;
  scram : option ScramSecret;
  pinned_timeline : option bytes;
  keep_warm : bool
}.

Definition TenantState_new (backend : bytes) (running : bool) (now : Z) : TenantState :=
  mkTenantState backend running 0 now None None false.

Definition with_scram (backend : bytes) (running : bool) (secret : ScramSecret) (now : Z) : TenantState :=
  mkTenantState backend running 0 now (Some secret) None false.

Definition set_running (b : bool) (t : TenantState) : TenantState :=
  mkTenantState (backend t) b (active_conns t) (last_active t) (scram t) (pinned_timeline t) (keep_warm t).

Definition set_pinned_timeline (tl : option bytes) (t : TenantState) : TenantState :=
  mkTenantState (backend t) (running t) (active_conns t) (last_active t) (scram t) tl (keep_warm t).

Definition set_keep_warm (b : bool) (t : TenantState) : TenantState :=
  mkTenantState (backend t) (running t) (active_conns t) (last_active t) (scram t) (pinned_timeline t) b.

Definition touch (now : Z) (t : TenantState) : TenantState :=
  mkTenantState (backend t) (running t) (active_conns t) now (scram t) (pinned_timeline t) (keep_warm t).

(** [fetch_add] and [fetch_sub] on a 64-bit counter wrap around. *)
Definition add_conns (d : Z) (t : TenantState) : TenantState :=
  mkTenantState (backend t) (running t) ((active_conns t + d) mod 2 ^ 64) (last_active t) (scram t) (pinned_timeline t) (keep_warm t).

Definition idle_for (now : Z) (t : TenantState) : Z := Z.max 0 (now - last_active t).

(** ** Shared state *)

Record Shared := mkShared {
  sh_heap : list TenantState;
  sh_registry : gmap bytes saddr;
  sh_cancels : CancelRegistry;
  sh_now : Z;
  sh_metrics : list metric_call
}.

Definition registry_get (name : bytes) (s : Shared) : option saddr := sh_registry s !! name.

(** [register]: a new state under the name, whatever was there. *)
Definition registry_register (name : bytes) (t : TenantState) (s : Shared) : Shared :=
  mkShared (sh_heap s ++ [t]) (<[name := length (sh_heap s)]> (sh_registry s)) (sh_cancels s) (sh_now s) (sh_metrics s).

Definition registry_remove (name : bytes) (s : Shared) : Shared * bool :=
  (mkShared (sh_heap s) (delete name (sh_registry s)) (sh_cancels s) (sh_now s) (sh_metrics s), bool_decide (is_Some (sh_registry s !! name))).

Definition registry_len (s : Shared) : Z := Z.of_nat (size (sh_registry s)).

(** [Registry::from_iter] *)
Definition registry_from (entries : list (bytes * TenantState)) (now : Z) : Shared :=
  fold_left (fun s e => registry_register e.1 e.2 s) entries (mkShared [] ∅ ∅ now []).

(** A tenant on the command line: [name=host:port]. *)
Definition parse_tenant (spec : bytes) (now : Z) : option (bytes * TenantState) :=
  '(name, addr) ← split_once (z2b 61) spec;
  if contains (text ":") addr then Some (name, TenantState_new addr false now) else None.

(** [iter().map(..)] over the hash map; any order is a permutation. *)
Class NameOrder := {
  name_order : gmap bytes saddr -> list (bytes * saddr);
  name_order_perm m : name_order m ≡ₚ map_to_list m
}.

Definition update (a : saddr) (f : TenantState -> TenantState) (s : Shared) : Shared :=
  mkShared (alter f a (sh_heap s)) (sh_registry s) (sh_cancels s) (sh_now s) (sh_metrics s).

Definition on_cancels (f : CancelRegistry -> CancelRegistry) (s : Shared) : Shared :=
  mkShared (sh_heap s) (sh_registry s) (f (sh_cancels s)) (sh_now s) (sh_metrics s).

Definition on_metrics (c : metric_call) (s : Shared) : Shared :=
  mkShared (sh_heap s) (sh_registry s) (sh_cancels s) (sh_now s) (c :: sh_metrics s).

(** ** Tasks

    What a task awaits: the activator, the network and the two peers of a
    connection.  The activator answers [None] for success, or the text of its
    error. *)

Inductive read_result := Got (b : bytes) | Eof | Broken.

Inductive ask : Type -> Type :=
| Start (tenant : bytes) (timeline : option bytes) : ask (option bytes)
| Stop (tenant : bytes) : ask (option bytes)
| Probe (addr : bytes) : ask (nat -> bool * Z)
| Connect (addr : bytes) : ask bool
| SendBackend (addr b : bytes) : ask bool
| ReadBackend (addr : bytes) : ask read_result
| CopyClient (addr : bytes) : ask bool
| ReadClient (n : Z) : ask read_result
| SendClient (b : bytes) : ask bool
| Handshake : ask bool.

Inductive task (A : Type) : Type :=
| Done (a : A)
| Step {X : Type} (f : Shared -> Shared * X) (k : X -> task A)
| Await {X : Type} (q : ask X) (k : X -> task A).
Arguments Done {A} a.
Arguments Step {A X} f k.
Arguments Await {A X} q k.

Fixpoint tbind {A B} (m : task A) (f : A -> task B) : task B :=
  match m with
  | Done a => f a
  | Step g k => Step g (fun x => tbind (k x) f)
  | Await q k => Await q (fun x => tbind (k x) f)
  end.

Notation "'do' x := m 'in' k" := (tbind m (fun x => k)) (at level 10, x pattern, m at level 100, k at level 200).

Definition atomically {X} (f : Shared -> Shared * X) : task X := Step f Done.
Definition await {X} (q : ask X) : task X := Await q Done.

Definition observe {X} (f : Shared -> X) : task X := atomically (fun s => (s, f s)).
Definition modify (f : Shared -> Shared) : task unit := atomically (fun s => (f s, tt)).

(** A field of the state at an address; addresses are never freed. *)
Definition read_state {X} (d : X) (f : Shared -> TenantState -> X) (a : saddr) : task X :=
  observe (fun s => match sh_heap s !! a with Some t => f s t | None => d end).

Definition is_running (a : saddr) : task bool := read_state false (fun _ => running) a.
Definition is_kept_warm (a : saddr) : task bool := read_state false (fun _ => keep_warm) a.
Definition conns (a : saddr) : task Z := read_state 0 (fun _ => active_conns) a.
Definition pin_of (a : saddr) : task (option bytes) := read_state None (fun _ => pinned_timeline) a.

(** A call on a metric. *)
Definition meter (c : metric_call) : task unit := modify (on_metrics c).

Definition set_compute_up (database : bytes) (up : bool) : task unit := meter (compute_up_call database up).

Definition touch_now (a : saddr) : task unit := modify (fun s => update a (touch (sh_now s)) s).

Definition connection_started (a : saddr) : task unit :=
  do _ := modify (update a (add_conns 1)) in touch_now a.

Definition connection_finished (a : saddr) : task unit :=
  do _ := modify (update a (add_conns (-1))) in touch_now a.

(** Four separate loads; [&&] stops at the first that fails. *)
Definition is_reapable (idle_threshold : Z) (a : saddr) : task bool :=
  do up := is_running a in
  if negb up then Done false else
  do warm := is_kept_warm a in
  if warm : bool then Done false else
  do n := conns a in
  if negb (n =? 0) then Done false else
  do idle := read_state 0 (fun s t => idle_for (sh_now s) t) a in
  Done (idle_threshold <=? idle).

(** ** Activators *)

(** [l.join(sep)] *)
Fixpoint join_with (sep : bytes) (l : list bytes) : bytes :=
  match l with
  | [] => []
  | [w] => w
  | w :: l' => w ++ sep ++ join_with sep l'
  end.

(** [s.replace(pat, by)] *)
Definition replace_all (pat sub_ s : bytes) : bytes := join_with sub_ (split_str pat s).

(** The command line the command activator hands to [sh -c]. *)
Definition render_command (template tenant : bytes) (timeline : option bytes) : bytes :=
  replace_all (text "{timeline}") (default [] timeline) (replace_all (text "{tenant}") tenant template).

(** The tenant's name, which a control request supplies, becomes part of the
    command as it is. *)
Lemma tenant_name_is_not_quoted :
  render_command (text "wake {tenant}") (text "a;reboot") None = text "wake a;reboot".
Proof. vm_compute; reflexivity. Qed.

Record CommandActivator := mkCommandActivator {
  start_template : bytes;
  stop_template : bytes
}.

(** The shell is the outside; it reports whether the command succeeded. *)
Definition command_start (c : CommandActivator) (sh : bytes -> bool) (tenant : bytes) (timeline : option bytes) : bool :=
  sh (render_command (start_template c) tenant timeline).

Definition command_stop (c : CommandActivator) (sh : bytes -> bool) (tenant : bytes) : bool :=
  sh (render_command (stop_template c) tenant None).

Definition noop_start (tenant : bytes) (timeline : option bytes) : bool := true.
Definition noop_stop (tenant : bytes) : bool := true.

Inductive ActivatorKind := ByCommand (c : CommandActivator) | Noop.

Definition command_or_noop (start stop : option bytes) : option ActivatorKind :=
  match start, stop with
  | Some s, Some t => Some (ByCommand (mkCommandActivator s t))
  | None, None => Some Noop
  | _, _ => None
  end.

(** The Kubernetes API, in the two merge patches the activator sends: they set a
    deployment's replicas, and set or (with a null) remove its timeline
    annotation. *)
Class KubeApi (C : Type) := {
  patch_scale : bytes -> Z -> C -> option C;
  patch_annotation : bytes -> option bytes -> C -> option C;
  replicas_of : bytes -> C -> option Z;
  annotation_of : bytes -> C -> option bytes;
  patch_scale_spec name n c c' : patch_scale name n c = Some c' ->
    replicas_of name c' = Some n /\ (forall m, annotation_of m c' = annotation_of m c);
  patch_annotation_spec name v c c' : patch_annotation name v c = Some c' ->
    annotation_of name c' = v /\ (forall m, replicas_of m c' = replicas_of m c)
}.

Definition render_name (template tenant : bytes) : bytes := replace_all (text "{tenant}") tenant template.

Section Kube.
Context {C} `{KubeApi C} (template : bytes).

Definition kube_scale (tenant : bytes) (replicas : Z) (c : C) : option C := patch_scale (render_name template tenant) replicas c.

Definition kube_pin_timeline (tenant : bytes) (timeline : option bytes) (c : C) : option C :=
  patch_annotation (render_name template tenant) timeline c.

Definition kube_start (tenant : bytes) (timeline : option bytes) (c : C) : option C :=
  match timeline with
  | Some _ => c ← kube_pin_timeline tenant timeline c; kube_scale tenant 1 c
  | None => kube_scale tenant 1 c
  end.

Definition kube_stop (tenant : bytes) (c : C) : option C := kube_scale tenant 0 c.

(** A start scales the tenant's deployment up, pinned to the timeline it is given. *)
Lemma kube_start_pins tenant tl c c' :
  kube_start tenant (Some tl) c = Some c' ->
  replicas_of (render_name template tenant) c' = Some 1 /\ annotation_of (render_name template tenant) c' = Some tl.
Proof using.
  unfold kube_start, kube_pin_timeline, kube_scale. intros (c1 & E1 & E2)%bind_Some.
  apply patch_annotation_spec in E1 as [E1 _]. apply patch_scale_spec in E2 as [E2 E3]. by rewrite E3.
Qed.

(** But a start without one leaves the annotation as it was: after an unpin the
    compute still comes up on the timeline of the last pin. *)
Lemma kube_unpin_keeps_annotation tenant c c1 c2 :
  kube_stop tenant c = Some c1 -> kube_start tenant None c1 = Some c2 ->
  annotation_of (render_name template tenant) c2 = annotation_of (render_name template tenant) c.
Proof using. intros [_ E1]%patch_scale_spec [_ E2]%patch_scale_spec. by rewrite E2, E1. Qed.
End Kube.

(** [wait_until_ready]: attempt [k] succeeds or not and takes some time; the
    attempts made and the time elapsed. *)
Inductive ProbeError := NotReady (attempts : nat) (elapsed : Z).

Fixpoint probe_loop (fuel : nat) (attempt : nat -> bool * Z) (budget interval : Z) (k : nat) (elapsed : Z) : outcome ProbeError Z :=
  match fuel with
  | O => Panic
  | S fuel' =>
      let '(ok, d) := attempt k in
      let elapsed := elapsed + d in
      if ok : bool then Ok elapsed
      else if budget <=? elapsed then Err (NotReady (S k) elapsed)
      else probe_loop fuel' attempt budget interval (S k) (elapsed + interval)
  end.

(** Every failed attempt but the last is followed by a pause.  The clock counts
    nanoseconds, so a round that takes time takes at least one. *)
Definition wait_until_ready (attempt : nat -> bool * Z) (budget interval : Z) : outcome ProbeError Z :=
  probe_loop (Z.to_nat (budget / Z.max 1 interval) + 2) attempt budget interval 0 0.

(** ** The reaper and the warmer *)

Section Idle.
Context `{NameOrder}.

(** [into_iter().filter(..).collect()] *)
Fixpoint filter_tenants (p : saddr -> task bool) (l : list (bytes * saddr)) : task (list (bytes * saddr)) :=
  match l with
  | [] => Done []
  | (name, a) :: l' =>
      do keep := p a in
      do rest := filter_tenants p l' in
      Done (if keep : bool then (name, a) :: rest else rest)
  end.

Definition tenants : task (list (bytes * saddr)) := observe (fun s => name_order (sh_registry s)).

Fixpoint reap_all (idle_after : Z) (reapable : list (bytes * saddr)) : task unit :=
  match reapable with
  | [] => Done tt
  | (name, a) :: rest =>
      do still := is_reapable idle_after a in
      if still : bool then
        do stopped := await (Stop name) in
        do _ := (match stopped with
                 | None =>
                     do _ := modify (update a (set_running false)) in
                     do _ := set_compute_up name false in
                     meter (Inc IDLE_REAPS [])
                 | Some _ => Done tt
                 end) in
        reap_all idle_after rest
      else reap_all idle_after rest
  end.

Definition reap_once (idle_after : Z) : task unit :=
  do all := tenants in
  do reapable := filter_tenants (is_reapable idle_after) all in
  reap_all idle_after reapable.

Definition is_cold (a : saddr) : task bool :=
  do warm := is_kept_warm a in
  if negb warm then Done false else
  do up := is_running a in
  Done (negb up).

Fixpoint warm_all (cold : list (bytes * saddr)) : task unit :=
  match cold with
  | [] => Done tt
  | (name, a) :: rest =>
      do up := is_running a in
      do warm := (if up : bool then Done true else is_kept_warm a) in
      if up || negb warm then warm_all rest
      else
        do pin := pin_of a in
        do started := await (Start name pin) in
        do _ := (match started with
                 | None =>
                     do _ := modify (update a (set_running true)) in
                     do _ := touch_now a in
                     set_compute_up name true
                 | Some _ => Done tt
                 end) in
        warm_all rest
  end.

Definition warm_once : task unit :=
  do all := tenants in
  do cold := filter_tenants is_cold all in
  warm_all cold.

(** The loop of [run], for any number of ticks. *)
Fixpoint reaper_run (ticks : nat) (idle_after : Z) : task unit :=
  match ticks with
  | O => Done tt
  | S ticks' => do _ := reap_once idle_after in do _ := warm_once in reaper_run ticks' idle_after
  end.
End Idle.

(** ** The compute-control endpoint *)

Definition json_bool (b : bool) : bytes := text (if b then "true" else "false").

(** Quotes and backslashes are escaped. *)
Definition json_str (s : bytes) : bytes :=
  z2b 34 :: flat_map (fun b => if decide (b = z2b 34) then [z2b 92; z2b 34] else if decide (b = z2b 92) then [z2b 92; z2b 92] else [b]) s ++ [z2b 34].

(** An object with these members, in order. *)
Definition json_object (members : list (string * bytes)) : bytes :=
  text "{" ++ join_with (text ",") ((fun '(k, v) => quoted k ++ text ":" ++ v) <$> members) ++ text "}".

Definition unknown_tenant (name : bytes) : Z * bytes :=
  (404, text "{" ++ quoted "error" ++ text ":" ++ [z2b 34] ++ text "unknown tenant " ++ name ++ [z2b 34] ++ text "}").

Section ControlApi.
Context `{NameOrder} (debug_str : bytes -> bytes) (tmpl : bytes).

Fixpoint tenant_items (l : list (bytes * saddr)) : task (list bytes) :=
  match l with
  | [] => Done []
  | (name, a) :: l' =>
      do up := is_running a in
      do n := conns a in
      do warm := is_kept_warm a in
      do rest := tenant_items l' in
      Done (json_object [("tenant", json_str name); ("running", json_bool up);
                         ("connections", fmt_dec n); ("keepWarm", json_bool warm)] :: rest)
  end.

Definition list_tenants : task bytes :=
  do all := tenants in
  do items := tenant_items all in
  Done (json_object [("tenants", text "[" ++ join_with (text ",") (sort_key (fun b : bytes => b) items) ++ text "]")]).

Definition register (name : bytes) : task (Z * bytes) :=
  let addr := replace_all (text "{tenant}") name tmpl in
  if contains (text ":") addr then
    do _ := modify (fun s => registry_register name (TenantState_new addr false (sh_now s)) s) in
    Done (200, json_object [("tenant", json_str name); ("backend", json_str addr)])
  else Done (400, json_object [("error", json_str (text "backend " ++ debug_str addr ++ text " is not host:port"))]).

Definition deregister (name : bytes) : task (Z * bytes) :=
  do removed := atomically (registry_remove name) in
  Done (200, json_object [("tenant", json_str name); ("removed", json_bool removed)]).

Definition set_compute (name : bytes) (start : bool) : task (Z * bytes) :=
  do state := observe (registry_get name) in
  match state with
  | None => Done (unknown_tenant name)
  | Some a =>
      do result := (if start then do pin := pin_of a in await (Start name pin) else await (Stop name)) in
      match result with
      | None =>
          do _ := modify (update a (set_running start)) in
          do _ := set_compute_up name start in
          do _ := (if start then touch_now a else Done tt) in
          Done (200, json_object [("tenant", json_str name); ("running", json_bool start)])
      | Some e => Done (502, json_object [("error", json_str e)])
      end
  end.

Definition set_pin (name : bytes) (timeline : option bytes) : task (Z * bytes) :=
  do state := observe (registry_get name) in
  match state with
  | None => Done (unknown_tenant name)
  | Some a =>
      do _ := modify (update a (set_pinned_timeline timeline)) in
      do _ := await (Stop name) in
      do _ := modify (update a (set_running false)) in
      do _ := set_compute_up name false in
      Done (200, json_object [("tenant", json_str name); ("pinned", match timeline with Some tl => json_str tl | None => text "null" end)])
  end.

Definition change_keep_warm (name : bytes) (on : bool) : task (Z * bytes) :=
  do state := observe (registry_get name) in
  match state with
  | None => Done (unknown_tenant name)
  | Some a =>
      do _ := modify (update a (set_keep_warm on)) in
      do up := (if on then is_running a else Done true) in
      let reply := (200, json_object [("tenant", json_str name); ("keepWarm", json_bool on)]) in
      if up : bool then Done reply
      else
        do pin := pin_of a in
        do started := await (Start name pin) in
        match started with
        | None =>
            do _ := modify (update a (set_running true)) in
            do _ := touch_now a in
            do _ := set_compute_up name true in
            Done reply
        | Some e => Done (502, json_object [("error", json_str e)])
        end
  end.

Definition slash_char : byte := z2b 47.

(** [path.trim_matches('/').split('/').filter(|s| !s.is_empty())] *)
Definition segments (path : bytes) : list bytes := List.filter (fun s => bool_decide (s <> [])) (split_str [slash_char] path).

Definition route_control (method path : bytes) : task (Z * bytes) :=
  let is_get := bool_decide (method = text "GET") in
  let is_post := bool_decide (method = text "POST") in
  let is_delete := bool_decide (method = text "DELETE") in
  let is_seg (s : bytes) (w : string) := bool_decide (s = text w) in
  let not_found := Done (404, text "{" ++ quoted "error" ++ text ":" ++ quoted "not found" ++ text "}") in
  match segments path with
  | [s0] =>
      if is_get && is_seg s0 "healthz" then Done (200, healthy)
      else if is_get && is_seg s0 "tenants" then do items := list_tenants in Done (200, items)
      else not_found
  | [s0; name] =>
      if is_post && is_seg s0 "tenants" then register name
      else if is_delete && is_seg s0 "tenants" then deregister name
      else not_found
  | [s0; name; action] =>
      if is_post && is_seg s0 "tenants" then
        if is_seg action "start" || is_seg action "stop" then set_compute name (is_seg action "start")
        else if is_seg action "unpin" then set_pin name None
        else if is_seg action "keepwarm" || is_seg action "nokeepwarm" then change_keep_warm name (is_seg action "keepwarm")
        else not_found
      else not_found
  | s0 :: name :: action :: tl :: _ =>
      if is_post && is_seg s0 "tenants" && is_seg action "pin" then set_pin name (Some tl) else not_found
  | [] => not_found
  end.

(** [text.lines().next()] *)
Definition first_line (s : bytes) : bytes :=
  match split_once (z2b 10) s with
  | Some (l, _) => match rev l with b :: r => if decide (b = z2b 13) then rev r else l | [] => l end
  | None => s
  end.

Definition CONTROL_LIMIT : Z := 8192.

(** One request per connection; nothing is answered when the stream ends early.
    The request is read before any shared state is. *)
Definition handle_control (rs : reads) : task (outcome HttpError bool) :=
  match read_head CONTROL_LIMIT [] rs with
  | Ok (Some _, buf, _) =>
      let parts := split_whitespace (first_line (from_utf8_lossy buf)) in
      do (status, body) := route_control (default [] (parts !! 0%nat)) (default [] (parts !! 1%nat)) in
      do sent := await (SendClient (http_response status body)) in
      Done (Ok sent)
  | Ok (None, _, _) => Done (Ok true)
  | Err e => Done (Err e)
  | Panic => Done Panic
  end.
End ControlApi.

(** ** The readiness probe ends *)

(** The time before attempt [k], all earlier ones having failed. *)
Fixpoint waited (attempt : nat -> bool * Z) (interval : Z) (k : nat) : Z :=
  match k with
  | O => 0
  | S k' => waited attempt interval k' + (attempt k').2 + interval
  end.

Section Probe.
Context (attempt : nat -> bool * Z) (budget interval : Z).
Hypothesis pause_ok : 0 <= interval.
Hypothesis time_passes : forall k, 0 <= (attempt k).2 /\ 0 < (attempt k).2 + interval.

(** Attempt [n] is the last: the earlier ones failed within the budget. *)
Definition last_attempt (k n : nat) : Prop :=
  (k <= n)%nat /\
  (forall i, (k <= i < n)%nat -> (attempt i).1 = false /\ waited attempt interval i + (attempt i).2 < budget) /\
  ((attempt n).1 = false -> budget <= waited attempt interval n + (attempt n).2).

Definition probe_result (n : nat) : outcome ProbeError Z :=
  let e := waited attempt interval n + (attempt n).2 in
  if (attempt n).1 then Ok e else Err (NotReady (S n) e).

Lemma probe_loop_ends fuel : forall k,
  budget - waited attempt interval k <= Z.of_nat fuel * Z.max 1 interval ->
  exists n, last_attempt k n /\ (n < k + S fuel)%nat /\
    probe_loop (S fuel) attempt budget interval k (waited attempt interval k) = probe_result n.
Proof using pause_ok time_passes.
  induction fuel as [| fuel IH]; intros k Hk; cbn [probe_loop]; unfold probe_result;
    pose proof (time_passes k) as Ht; destruct (attempt k) as [ok d] eqn:Ek; cbn [fst snd] in Ht.
  - exists k. rewrite Ek. cbn [fst snd]. split; [| split; [lia |]].
    + split; [lia |]. rewrite Ek. cbn [fst snd]. split; intros; lia.
    + destruct ok; [done |]. by rewrite (proj2 (Z.leb_le _ _)) by lia.
  - destruct ok.
    { exists k. rewrite Ek. cbn [fst snd]. split; [| split; [lia | done]]. split; [lia |]. rewrite Ek. split; [intros; lia | done]. }
    cbv zeta. case_test; bool_to_prop.
    { exists k. rewrite Ek. cbn [fst snd]. split; [| split; [lia | done]]. split; [lia |]. rewrite Ek. split; intros; cbn; lia. }
    destruct (IH (S k)) as (n & (Hn & He & Hl) & Hf & E); [cbn [waited]; rewrite Ek; cbn [snd]; lia |].
    exists n. split; [| split; [lia |]]; [split; [lia |]; split; [| done] |].
    + intros i Hi. destruct (decide (i = k)) as [-> |]; [rewrite Ek; cbn; lia | apply He; lia].
    + cbn [waited] in E. rewrite Ek in E. cbn [snd] in E. exact E.
Qed.

(** C33: the readiness probe answers.  When time passes with every attempt and pause,
    the probe makes at most budget/interval + 2 attempts; every one but the last
    failed, and failed before the budget was used up; a success is reported with
    the time it took, and failure only when the budget is used up. *)
Theorem probe_is_bounded :
  exists n, last_attempt 0 n /\ Z.of_nat n < Z.max 0 (budget / Z.max 1 interval) + 2 /\
    wait_until_ready attempt budget interval = probe_result n.
Proof using pause_ok time_passes.
  unfold wait_until_ready. set (step := Z.max 1 interval). assert (0 < step) by (unfold step; lia).
  destruct (probe_loop_ends (Z.to_nat (budget / step) + 1) 0) as (n & Hn & Hf & E).
  { cbn [waited]. fold step. pose proof (Z.mul_succ_div_gt budget step ltac:(lia)). nia. }
  exists n. split; [done |]. split; [lia |]. rewrite <- E. cbn [waited]. f_equal. lia.
Qed.
End Probe.

Lemma probe_is_bounded_witness :
  let attempt k := if decide (k = 7%nat) then (true, 3) else (false, 2) in
  wait_until_ready attempt 100 10 = Ok 87 /\ wait_until_ready attempt 70 10 = Err (NotReady 7 74).
Proof.
  intros attempt.
  assert (H : forall k, 0 <= (attempt k).2 /\ 0 < (attempt k).2 + 10) by (intros k; unfold attempt; destruct (decide _); cbn; lia).
  split.
  - destruct (probe_is_bounded attempt 100 10 ltac:(lia) H) as (n & (_ & He & Hl) & Hn & E). rewrite E.
    assert (n = 7%nat) as ->; [| vm_compute; reflexivity].
    destruct (Nat.lt_trichotomy n 7) as [Hlt | [-> | Hgt]]; [| done |].
    + exfalso. do 7 (destruct n as [| n]; [by vm_compute in Hl; apply Hl |]). lia.
    + destruct (He 7%nat ltac:(lia)) as [H7 _]. by vm_compute in H7.
  - by vm_compute.
Defined.
