(* ===== verification/Schedule.v ===== *)
(** How the proxy's tasks run: every interleaving of their atomic steps, and the
    traces one task has among the others.  A small program logic tracks the
    connection guard a task holds, and gives the invariant of the connection
    gauges of src/proxy/src/tenant.rs. *)

From S2P Require Import Prelude Bytes Text Metrics Cancel Compute.

(** ** What never changes

    A state keeps its backend and its verifier, addresses stay valid and the clock
    does not go back. *)

Definition gauge (s : Shared) (a : saddr) : Z := match sh_heap s !! a with Some t => active_conns t | None => 0 end.

Definition shared_ok (s : Shared) : Prop :=
  (forall name a, sh_registry s !! name = Some a -> (a < length (sh_heap s))%nat) /\
  (forall a, 0 <= gauge s a < 2 ^ 64).

Definition evolves (s s' : Shared) : Prop :=
  (forall a t, sh_heap s !! a = Some t -> exists t', sh_heap s' !! a = Some t' /\ backend t' = backend t /\ scram t' = scram t) /\
  sh_now s <= sh_now s' /\ (shared_ok s -> shared_ok s').

#[export] Instance evolves_preorder : PreOrder evolves.
Proof.
  split.
  - intros s. split; [| by split]. intros a t Ha. by exists t.
  - intros s1 s2 s3 (H1 & N1 & O1) (H2 & N2 & O2). split; [| split; [lia | tauto]].
    intros a t Ha. destruct (H1 a t Ha) as (t2 & Ha2 & Eb & Es). destruct (H2 a t2 Ha2) as (t3 & Ha3 & Eb3 & Es3).
    exists t3. by rewrite Eb3, Es3.
Qed.

Lemma evolves_length s s' : evolves s s' -> (length (sh_heap s) <= length (sh_heap s'))%nat.
Proof.
  intros [H _]. destruct (length (sh_heap s)) as [| n] eqn:E; [lia |].
  destruct (lookup_lt_is_Some_2 (sh_heap s) n) as [t Ht]; [lia |]. destruct (H n t Ht) as (t' & Ht' & _).
  apply lookup_lt_Some in Ht'. lia.
Qed.

Lemma evolves_lookup s s' a t : evolves s s' -> sh_heap s !! a = Some t -> exists t', sh_heap s' !! a = Some t' /\ scram t' = scram t.
Proof. intros [H1 _] Ha. destruct (H1 a t Ha) as (t' & ? & _ & ?). by exists t'. Qed.

(** ** Answers

    What the outside can answer: a read of [n] bytes gives [n] bytes, a read from
    the backend gives some, at most the buffer's size; attempts take time. *)

Definition BACKEND_BUF : Z := 16 * 1024.

Definition valid_answer {X} (q : ask X) : X -> Prop :=
  match q in ask X return X -> Prop with
  | ReadClient n => fun r => match r with Got b => len b = n | _ => 0 < n end
  | ReadBackend _ => fun r => match r with Got b => 0 < len b <= BACKEND_BUF | _ => True end
  | Probe _ => fun attempt => forall k, 0 <= (attempt k).2
  | _ => fun _ => True
  end.

(** ** Traces of one task *)

Inductive event :=
| Stepped (s s' : Shared)
| Woke (tenant : bytes) (timeline : option bytes) (failed : option bytes)
| Stopped (tenant : bytes) (failed : option bytes)
| Probed (addr : bytes)
| Dialed (addr : bytes) (ok : bool)
| ToBackend (addr b : bytes) (ok : bool)
| FromBackend (addr : bytes) (r : read_result)
| Copied (addr : bytes) (ok : bool)
| FromClient (r : read_result)
| ToClient (b : bytes) (ok : bool)
| Shook (ok : bool).

Definition event_of {X} (q : ask X) : X -> event :=
  match q in ask X return X -> event with
  | Start n tl => Woke n tl
  | Stop n => Stopped n
  | Probe a => fun _ => Probed a
  | Connect a => Dialed a
  | SendBackend a b => ToBackend a b
  | ReadBackend a => FromBackend a
  | CopyClient a => Copied a
  | ReadClient _ => FromClient
  | SendClient b => ToClient b
  | Handshake => Shook
  end.

(** The events a task may bring about, the others' steps in between. *)
Fixpoint emits {A} (p : task A) (s : Shared) (tr : list event) : Prop :=
  match tr with
  | [] => True
  | e :: tr' =>
      match p with
      | Done _ => False
      | Step f k => exists s1, evolves s s1 /\ e = Stepped s1 (f s1).1 /\ emits (k (f s1).2) (f s1).1 tr'
      | Await q k => exists x, valid_answer q x /\ e = event_of q x /\ emits (k x) s tr'
      end
  end.

(** The task has ended, with this result. *)
Fixpoint ends {A} (p : task A) (s : Shared) (tr : list event) (s' : Shared) (a : A) : Prop :=
  match p with
  | Done b => tr = [] /\ s' = s /\ a = b
  | Step f k =>
      match tr with
      | [] => False
      | e :: tr' => exists s1, evolves s s1 /\ e = Stepped s1 (f s1).1 /\ ends (k (f s1).2) (f s1).1 tr' s' a
      end
  | Await q k =>
      match tr with
      | [] => False
      | e :: tr' => exists x, valid_answer q x /\ e = event_of q x /\ ends (k x) s tr' s' a
      end
  end.

Lemma emits_bind {A B} (m : task A) (f : A -> task B) : forall s tr,
  emits (tbind m f) s tr ->
  emits m s tr \/ (exists tr1 tr2 s' a, tr = tr1 ++ tr2 /\ ends m s tr1 s' a /\ emits (f a) s' tr2).
Proof.
  induction m as [a | X g k IH | X q k IH]; intros s tr H.
  - right. by exists [], tr, s, a.
  - destruct tr as [| e tr]; [by left |]. destruct H as (s1 & Hs & -> & [H | (tr1 & tr2 & s' & a & -> & He & H)]%IH).
    + left. by exists s1.
    + right. exists (Stepped s1 (g s1).1 :: tr1), tr2, s', a. split; [done |]. split; [| done]. by exists s1.
  - destruct tr as [| e tr]; [by left |]. destruct H as (x & Hx & -> & [H | (tr1 & tr2 & s' & a & -> & He & H)]%IH).
    + left. by exists x.
    + right. exists (event_of q x :: tr1), tr2, s', a. split; [done |]. split; [| done]. by exists x.
Qed.

Lemma ends_bind {A B} (m : task A) (f : A -> task B) : forall s tr s' b,
  ends (tbind m f) s tr s' b -> exists tr1 tr2 s1 a, tr = tr1 ++ tr2 /\ ends m s tr1 s1 a /\ ends (f a) s1 tr2 s' b.
Proof.
  induction m as [a | X g k IH | X q k IH]; intros s tr s' b H.
  - by exists [], tr, s, a.
  - destruct tr as [| e tr]; [done |]. destruct H as (s1 & Hs & -> & (tr1 & tr2 & s2 & a & -> & He & H)%IH).
    exists (Stepped s1 (g s1).1 :: tr1), tr2, s2, a. split; [done |]. split; [| done]. by exists s1.
  - destruct tr as [| e tr]; [done |]. destruct H as (x & Hx & -> & (tr1 & tr2 & s2 & a & -> & He & H)%IH).
    exists (event_of q x :: tr1), tr2, s2, a. split; [done |]. split; [| done]. by exists x.
Qed.

(** ** Events a task never brings about *)

Fixpoint never {A} (bad : event -> Prop) (p : task A) : Prop :=
  match p with
  | Done _ => True
  | Step f k => (forall s, ~ bad (Stepped s (f s).1)) /\ forall x, never bad (k x)
  | Await q k => (forall x, ~ bad (event_of q x)) /\ forall x, never bad (k x)
  end.

Lemma never_bind {A B} bad (m : task A) (f : A -> task B) : never bad m -> (forall a, never bad (f a)) -> never bad (tbind m f).
Proof. induction m as [a | X g k IH | X q k IH]; cbn; [auto | |]; intros [H1 H2] Hf; (split; [done |]); intros x; by apply IH. Qed.

Lemma never_emits {A} bad (p : task A) : never bad p -> forall s tr, emits p s tr -> Forall (fun e => ~ bad e) tr.
Proof.
  induction p as [a | X g k IH | X q k IH]; intros H s [| e tr] E; try done.
  - destruct H as [H1 H2], E as (s1 & _ & -> & E). apply Forall_cons. split; [apply H1 | by eapply IH].
  - destruct H as [H1 H2], E as (x & _ & -> & E). apply Forall_cons. split; [apply H1 | by eapply IH].
Qed.

Lemma never_ends {A} bad (p : task A) : never bad p -> forall s tr s' a, ends p s tr s' a -> Forall (fun e => ~ bad e) tr.
Proof.
  induction p as [a | X g k IH | X q k IH]; intros H s tr s' b E.
  - by destruct E as (-> & _).
  - destruct tr as [| e tr]; [done |]. destruct H as [H1 H2], E as (s1 & _ & -> & E). apply Forall_cons. split; [apply H1 | by eapply IH].
  - destruct tr as [| e tr]; [done |]. destruct H as [H1 H2], E as (x & _ & -> & E). apply Forall_cons. split; [apply H1 | by eapply IH].
Qed.

(** A bad event at the end of a sequence comes from its second part. *)
Lemma emits_bind_bad {A B} bad (m : task A) (f : A -> task B) s tr e :
  never bad m -> bad e -> emits (tbind m f) s (tr ++ [e]) ->
  exists tr1 tr2 s' a, tr = tr1 ++ tr2 /\ ends m s tr1 s' a /\ emits (f a) s' (tr2 ++ [e]).
Proof.
  intros Hn Hb [H | (tr1 & tr2 & s' & a & E & H1 & H2)]%emits_bind.
  - apply (never_emits _ _ Hn), Forall_app in H as [_ H]. apply Forall_cons_1 in H as [H _]. contradiction.
  - destruct tr2 as [| e' tr2 _] using rev_ind.
    + rewrite app_nil_r in E. subst tr1. apply (never_ends _ _ Hn), Forall_app in H1 as [_ H1]. apply Forall_cons_1 in H1 as [H1 _]. contradiction.
    + rewrite app_assoc in E. apply app_inj_tail in E as [-> ->]. by exists tr1, tr2, s', a.
Qed.

Lemma never_last {A} bad (p : task A) s tr e : never bad p -> bad e -> ~ emits p s (tr ++ [e]).
Proof. intros Hn Hb [_ H]%(never_emits _ _ Hn)%Forall_app. apply Forall_cons_1 in H as [H _]. contradiction. Qed.

Lemma ends_emits {A} (p : task A) : forall s tr s' a, ends p s tr s' a -> emits p s tr.
Proof.
  induction p as [b | X g k IH | X q k IH]; intros s tr s' a H.
  - by destruct H as (-> & _).
  - destruct tr as [| e tr]; [done |]. destruct H as (s1 & Hs & -> & H). exists s1. split; [done |]. split; [done |]. by eapply IH.
  - destruct tr as [| e tr]; [done |]. destruct H as (x & Hx & -> & H). exists x. split; [done |]. split; [done |]. by eapply IH.
Qed.

Lemma emits_take {A} (p : task A) : forall s tr n, emits p s tr -> emits p s (take n tr).
Proof.
  induction p as [a | X g k IH | X q k IH]; intros s [| e tr] [| n] H; try done.
  - destruct H as (s1 & Hs & -> & H). exists s1. split; [done |]. split; [done |]. by apply IH.
  - destruct H as (x & Hx & -> & H). exists x. split; [done |]. split; [done |]. by apply IH.
Qed.

(** And from its first part when the second has none. *)
Lemma emits_bind_first {A B} bad (m : task A) (f : A -> task B) s tr e :
  (forall a, never bad (f a)) -> bad e -> emits (tbind m f) s (tr ++ [e]) -> emits m s (tr ++ [e]).
Proof.
  intros Hn Hb [H | (tr1 & tr2 & s' & a & E & H1 & H2)]%emits_bind; [done |].
  destruct tr2 as [| e' tr2 _] using rev_ind.
  - rewrite app_nil_r in E. rewrite E. by eapply ends_emits.
  - rewrite app_assoc in E. apply app_inj_tail in E as [_ <-]. apply (never_emits _ _ (Hn a)), Forall_app in H2 as [_ H2].
    apply Forall_cons_1 in H2 as [H2 _]. contradiction.
Qed.

(** Atomic parts. *)
Lemma ends_observe {X} (f : Shared -> X) s tr s' x :
  ends (observe f) s tr s' x -> evolves s s' /\ tr = [Stepped s' s'] /\ x = f s'.
Proof. destruct tr as [| e tr]; [done |]. intros (s1 & Hs & -> & -> & -> & ->). done. Qed.

Lemma ends_await {X} (q : ask X) s tr s' x : ends (await q) s tr s' x -> s' = s /\ tr = [event_of q x] /\ valid_answer q x.
Proof. destruct tr as [| e tr]; [done |]. intros (y & Hy & -> & -> & -> & ->). done. Qed.

Lemma emits_done {A} (a : A) s tr e : ~ emits (Done a) s (tr ++ [e]).
Proof. destruct tr; cbn; tauto. Qed.

(** The bytes read from the client. *)
Fixpoint received (tr : list event) : bytes :=
  match tr with
  | [] => []
  | FromClient (Got b) :: tr' => b ++ received tr'
  | _ :: tr' => received tr'
  end.

Lemma received_app tr1 tr2 : received (tr1 ++ tr2) = received tr1 ++ received tr2.
Proof.
  induction tr1 as [| e tr1 IH]; [done |]. cbn [app received]. destruct e as [| | | | | | | | [b | |] | |]; rewrite ?IH, ?app_assoc; done.
Qed.

(** ** Playing a task alone

    Against given answers; the play stops when they run out or do not fit. *)

Inductive answer :=
| Replies (failed : option bytes)
| Reads (r : read_result)
| Succeeds (ok : bool)
| Attempts (ok : bool) (took : N).

Definition give {X} (q : ask X) (x : answer) : option X :=
  match q in ask X return option X with
  | Start _ _ => match x with Replies e => Some e | _ => None end
  | Stop _ => match x with Replies e => Some e | _ => None end
  | Probe _ => match x with Attempts ok d => Some (fun _ => (ok, Z.of_N d)) | _ => None end
  | ReadBackend _ =>
      match x with
      | Reads r => match r with Got b => if (0 <? len b) && (len b <=? BACKEND_BUF) then Some r else None | _ => Some r end
      | _ => None
      end
  | ReadClient n =>
      match x with
      | Reads r => match r with Got b => if len b =? n then Some r else None | _ => if 0 <? n then Some r else None end
      | _ => None
      end
  | Connect _ => match x with Succeeds ok => Some ok | _ => None end
  | SendBackend _ _ => match x with Succeeds ok => Some ok | _ => None end
  | CopyClient _ => match x with Succeeds ok => Some ok | _ => None end
  | SendClient _ => match x with Succeeds ok => Some ok | _ => None end
  | Handshake => match x with Succeeds ok => Some ok | _ => None end
  end.

Fixpoint play {A} (p : task A) (s : Shared) (xs : list answer) : list event :=
  match p with
  | Done _ => []
  | Step f k => Stepped s (f s).1 :: play (k (f s).2) (f s).1 xs
  | Await q k =>
      match xs with
      | [] => []
      | x :: xs' => match give q x with Some y => event_of q y :: play (k y) s xs' | None => [] end
      end
  end.

(** The state and the result when the task ends. *)
Fixpoint finish {A} (p : task A) (s : Shared) (xs : list answer) : option (Shared * A) :=
  match p with
  | Done a => Some (s, a)
  | Step f k => finish (k (f s).2) (f s).1 xs
  | Await q k =>
      match xs with
      | [] => None
      | x :: xs' => y ← give q x; finish (k y) s xs'
      end
  end.

Lemma give_valid {X} (q : ask X) x y : give q x = Some y -> valid_answer q y.
Proof.
  destruct q; destruct x as [e | r | ok | ok d]; cbn; try done; intros Hy; repeat case_match; simplify_eq; bool_to_prop; try done; try lia.
  intros _. cbn. lia.
Qed.

Lemma play_emits {A} (p : task A) : forall s xs, emits p s (play p s xs).
Proof.
  induction p as [a | X f k IH | X q k IH]; intros s xs; cbn [play]; [done | |].
  - exists s. split; [reflexivity |]. split; [done |]. apply IH.
  - destruct xs as [| x xs]; [done |]. destruct (give q x) as [y |] eqn:E; [| done].
    exists y. split; [by eapply give_valid |]. split; [done |]. apply IH.
Qed.

(** ** The guard a task holds

    A connection's guard adds one to the gauge of its tenant when it is made and
    takes one away when it is dropped.  [safe n g p Q]: while there are at least
    [n] states, the task [p], which holds the guard [g], takes only steps that
    move the gauges as the guards it makes and drops require. *)

Definition held (g : option saddr) (a : saddr) : Z := if decide (g = Some a) then 1 else 0.

Definition moves (g g' : option saddr) (s s' : Shared) : Prop :=
  (forall a, gauge s' a = (gauge s a + held g' a - held g a) mod 2 ^ 64) /\
  (forall a, g' = Some a -> (a < length (sh_heap s'))%nat).

Fixpoint safe {A} (n : nat) (g : option saddr) (p : task A) (Q : nat -> option saddr -> A -> Prop) : Prop :=
  match p with
  | Done a => Q n g a
  | Step f k => forall s, shared_ok s -> (n <= length (sh_heap s))%nat ->
      evolves s (f s).1 /\ exists g', moves g g' s (f s).1 /\ safe (length (sh_heap (f s).1)) g' (k (f s).2) Q
  | Await q k => forall x, valid_answer q x -> safe n g (k x) Q
  end.

Lemma safe_mono {A} (p : task A) (Q Q' : nat -> option saddr -> A -> Prop) : forall n n' g,
  (forall m m' h a, (m <= m')%nat -> Q m h a -> Q' m' h a) -> (n <= n')%nat -> safe n g p Q -> safe n' g p Q'.
Proof.
  induction p as [a | X f k IH | X q k IH]; intros n n' g HQ Hn H; cbn [safe] in *.
  - by eapply HQ.
  - intros s Hs Hl. destruct (H s Hs ltac:(lia)) as (He & g' & Hm & Hk). split; [done |]. exists g'. split; [done |].
    by eapply IH.
  - intros x Hx. by eapply IH, H.
Qed.

Lemma safe_bind {A B} (m : task A) (f : A -> task B) (Q : nat -> option saddr -> B -> Prop) : forall n g,
  safe n g m (fun n' g' a => safe n' g' (f a) Q) -> safe n g (tbind m f) Q.
Proof.
  induction m as [a | X h k IH | X q k IH]; intros n g H; cbn [safe tbind] in *; [done | |].
  - intros s Hs Hl. destruct (H s Hs Hl) as (He & g' & Hm & Hk). split; [done |]. exists g'. split; [done |]. by apply IH.
  - intros x Hx. by apply IH, H.
Qed.

(** Most tasks leave the gauges alone. *)
Definition quiet {X} (f : Shared -> Shared * X) : Prop :=
  forall s, shared_ok s -> evolves s (f s).1 /\ forall a, gauge (f s).1 a = gauge s a.

Fixpoint calm {A} (p : task A) : Prop :=
  match p with
  | Done _ => True
  | Step f k => quiet f /\ forall x, calm (k x)
  | Await q k => forall x, calm (k x)
  end.

Lemma calm_bind {A B} (m : task A) (f : A -> task B) : calm m -> (forall a, calm (f a)) -> calm (tbind m f).
Proof.
  induction m as [a | X g k IH | X q k IH]; cbn; [auto | |].
  - intros [H1 H2] Hf. split; [done |]. intros x. by apply IH.
  - intros H Hf x. by apply IH.
Qed.

Lemma held_range g a : 0 <= held g a <= 1.
Proof. unfold held. case_decide; lia. Qed.

Lemma calm_safe {A} (p : task A) (Q : nat -> option saddr -> A -> Prop) : forall n g,
  calm p -> (forall a, g = Some a -> (a < n)%nat) -> (forall n' a, (n <= n')%nat -> Q n' g a) -> safe n g p Q.
Proof.
  induction p as [a | X f k IH | X q k IH]; intros n g Hc Hg HQ; cbn [safe calm] in *.
  - by apply HQ.
  - intros s Hs Hl. destruct Hc as [Hq Hc]. destruct (Hq s Hs) as [He Hga]. split; [done |]. pose proof (evolves_length _ _ He).
    exists g. split; [| apply IH; [done | |]].
    + split; [| intros a Ha; specialize (Hg a Ha); lia]. intros a. rewrite Hga. replace (gauge s a + held g a - held g a) with (gauge s a) by lia.
      symmetry. apply Z.mod_small, Hs.
    + intros a Ha. specialize (Hg a Ha). lia.
    + intros n' a Hn. apply HQ. lia.
  - intros x Hx. by apply IH.
Qed.

(** ** The steps of the proxy *)

Lemma gauge_update s a f b : gauge (update a f s) b =
  if decide (a = b) then match sh_heap s !! b with Some t => active_conns (f t) | None => 0 end else gauge s b.
Proof.
  unfold gauge, update. cbn [sh_heap]. case_decide as E; [subst b; rewrite list_lookup_alter_eq | by rewrite list_lookup_alter_ne].
  by destruct (sh_heap s !! a).
Qed.

Lemma update_evolves a f s :
  (forall t, backend (f t) = backend t /\ scram (f t) = scram t) ->
  (forall t, 0 <= active_conns t < 2 ^ 64 -> 0 <= active_conns (f t) < 2 ^ 64) -> evolves s (update a f s).
Proof.
  intros Hf Hr. split; [| split].
  - intros b t Ht. unfold update. cbn [sh_heap]. destruct (decide (a = b)) as [-> | Hne].
    + exists (f t). rewrite list_lookup_alter_eq, Ht. split; [done |]. apply Hf.
    + exists t. by rewrite list_lookup_alter_ne.
  - cbn. lia.
  - intros [H1 H2]. split; [intros name b Hb; unfold update; cbn [sh_heap]; rewrite length_alter; by eapply H1 |].
    intros b. rewrite gauge_update. case_decide; [| done]. subst b. specialize (H2 a). unfold gauge in H2.
    destruct (sh_heap s !! a); [by apply Hr | lia].
Qed.

Lemma quiet_observe {X} (f : Shared -> X) : quiet (fun s => (s, f s)).
Proof. intros s _. split; [reflexivity | done]. Qed.

(** [f] keeps the backend, the verifier and the gauge. *)
Definition lifecycle (f : TenantState -> TenantState) : Prop :=
  forall t, backend (f t) = backend t /\ scram (f t) = scram t /\ active_conns (f t) = active_conns t.

Lemma quiet_update a f : (forall s, lifecycle (f s)) -> quiet (fun s => (update a (f s) s, tt)).
Proof.
  intros Hf s _. cbn [fst]. split.
  - apply update_evolves; intros t; destruct (Hf s t) as (Eb & Es & Ec); [done |]. by rewrite Ec.
  - intros b. rewrite gauge_update. case_decide; [| done]. subst b. unfold gauge. destruct (sh_heap s !! a); [| done]. apply Hf.
Qed.

Lemma quiet_cancels f : quiet (fun s => (on_cancels f s, tt)).
Proof. intros s _. split; [| done]. split; [| split; [cbn; lia | done]]. intros a t Ha. by exists t. Qed.

Lemma metrics_evolve c s : evolves s (on_metrics c s).
Proof. split; [| split; [cbn; lia | done]]. intros a t Ha. by exists t. Qed.

Lemma quiet_meter c : quiet (fun s => (on_metrics c s, tt)).
Proof. intros s _. split; [apply metrics_evolve | done]. Qed.

Lemma quiet_remove name : quiet (registry_remove name).
Proof.
  intros s _. split; [| done]. split; [| split; [cbn; lia |]].
  - intros a t Ha. by exists t.
  - intros [H1 H2]. split; [| done]. intros m a Hm. cbn in *. apply lookup_delete_Some in Hm as [_ Hm]. by eapply H1.
Qed.

Lemma quiet_register name f : (forall s, active_conns (f s) = 0) -> quiet (fun s => (registry_register name (f s) s, tt)).
Proof.
  intros Hf s _. cbn [fst].
  assert (Hg : forall a, gauge (registry_register name (f s) s) a = gauge s a).
  { intros a. unfold gauge, registry_register. cbn [sh_heap]. destruct (decide (a < length (sh_heap s))%nat).
    - by rewrite lookup_app_l.
    - rewrite lookup_app_r by lia. rewrite (lookup_ge_None_2 (sh_heap s) a) by lia.
      destruct (a - length (sh_heap s))%nat as [| m]; cbn; [apply Hf | done]. }
  split; [| done]. split; [| split; [cbn; lia |]].
  - intros a t Ha. exists t. split; [| done]. by apply lookup_app_l_Some.
  - intros [H1 H2]. split; [| intros a; by rewrite Hg]. intros m a Hm. cbn in *. rewrite length_app. cbn.
    apply lookup_insert_Some in Hm as [[_ <-] | [_ Hm]]; [lia |]. specialize (H1 m a Hm). lia.
Qed.

Lemma calm_observe {X} (f : Shared -> X) : calm (observe f).
Proof. split; [apply quiet_observe | done]. Qed.

Lemma calm_update a f : (forall t, backend (f t) = backend t /\ scram (f t) = scram t /\ active_conns (f t) = active_conns t) -> calm (modify (update a f)).
Proof. intros Hf. split; [by apply (quiet_update a (fun _ => f)) | done]. Qed.

Lemma calm_touch a : calm (touch_now a).
Proof. split; [by apply (quiet_update a (fun s => touch (sh_now s))) | done]. Qed.

Lemma calm_cancels f : calm (modify (on_cancels f)).
Proof. split; [apply quiet_cancels | done]. Qed.

Lemma calm_meter c : calm (meter c).
Proof. split; [apply quiet_meter | done]. Qed.

Lemma calm_compute_up name b : calm (set_compute_up name b).
Proof. apply calm_meter. Qed.

Lemma calm_await {X} (q : ask X) : calm (await q).
Proof. done. Qed.

Lemma calm_read {X} d (f : Shared -> TenantState -> X) a : calm (read_state d f a).
Proof. apply calm_observe. Qed.

Create HintDb calm.
#[export] Hint Resolve calm_observe calm_touch calm_cancels calm_meter calm_compute_up calm_await calm_read : calm.
#[export] Hint Extern 1 (calm (modify (update _ _))) => (apply calm_update; done) : calm.
#[export] Hint Extern 1 (calm (Done _)) => exact I : calm.

(** Go through a task up to its atomic parts. *)
Ltac calm_task :=
  repeat first
    [ solve [eauto with calm]
    | apply calm_bind; [| intros ?]
    | match goal with |- calm (match ?x with _ => _ end) => destruct x end ].

Lemma ends_meter c s tr s' x : ends (meter c) s tr s' x -> evolves s s' /\ exists s1, tr = [Stepped s1 s'].
Proof.
  destruct tr as [| e tr]; [done |]. intros (s1 & Hs & -> & -> & -> & _). split; [| by exists s1]. etrans; [exact Hs | apply metrics_evolve].
Qed.

Section Calm.
Context `{NameOrder}.

Lemma calm_is_reapable idle a : calm (is_reapable idle a).
Proof using. unfold is_reapable, is_running, is_kept_warm, conns. calm_task. Qed.

Lemma calm_is_cold a : calm (is_cold a).
Proof using. unfold is_cold, is_running, is_kept_warm. calm_task. Qed.

Lemma calm_filter p l : (forall a, calm (p a)) -> calm (filter_tenants p l).
Proof using. intros Hp. induction l as [| [name a] l IH]; cbn [filter_tenants]; calm_task. Qed.

Lemma calm_reap_once idle : calm (reap_once idle).
Proof using.
  unfold reap_once, tenants. calm_task; [apply calm_filter, calm_is_reapable |]. rename a0 into l.
  induction l as [| [name b] l IH]; cbn [reap_all]; [done |]. apply calm_bind; [apply calm_is_reapable |]. intros still. calm_task.
Qed.

Lemma calm_warm_once : calm warm_once.
Proof using.
  unfold warm_once, tenants. calm_task; [apply calm_filter, calm_is_cold |]. rename a0 into l.
  induction l as [| [name b] l IH]; cbn [warm_all]; unfold is_running, is_kept_warm, pin_of; calm_task.
Qed.

Lemma calm_reaper_run ticks idle : calm (reaper_run ticks idle).
Proof using.
  induction ticks as [| ticks IH]; cbn [reaper_run]; [done |].
  apply calm_bind; [apply calm_reap_once |]. intros _. apply calm_bind; [apply calm_warm_once | done].
Qed.

Lemma calm_tenant_items l : calm (tenant_items l).
Proof using. induction l as [| [name a] l IH]; cbn [tenant_items]; unfold is_running, is_kept_warm, conns; calm_task. Qed.

Lemma calm_register dbg tmpl name : calm (register dbg tmpl name).
Proof using.
  unfold register. calm_task. split; [| done]. by apply (quiet_register name (fun s => TenantState_new _ false (sh_now s))).
Qed.

Lemma calm_route dbg tmpl method path : calm (route_control dbg tmpl method path).
Proof using.
  assert (calm list_tenants) by (unfold list_tenants, tenants; calm_task; apply calm_tenant_items).
  assert (forall name, calm (deregister name)) by (intros name; unfold deregister; calm_task; split; [apply quiet_remove | done]).
  assert (forall name b, calm (set_compute name b)) by (intros name b; unfold set_compute, pin_of; calm_task).
  assert (forall name tl, calm (set_pin name tl)) by (intros name tl; unfold set_pin; calm_task).
  assert (forall name b, calm (change_keep_warm name b)) by (intros name b; unfold change_keep_warm, is_running, pin_of; calm_task).
  pose proof (calm_register dbg tmpl). unfold route_control. calm_task.
Qed.

Lemma calm_handle_control dbg tmpl rs : calm (handle_control dbg tmpl rs).
Proof using. unfold handle_control. pose proof (calm_route dbg tmpl). calm_task. Qed.
End Calm.

(** ** The guard's two ends *)

Lemma add_conns_step a d g g' s :
  shared_ok s -> (a < length (sh_heap s))%nat -> (forall b, held g' b - held g b = if decide (a = b) then d else 0) ->
  (forall b, g' = Some b -> b = a) ->
  evolves s (update a (add_conns d) s) /\ moves g g' s (update a (add_conns d) s).
Proof.
  intros Hs Ha Hd Hg. split.
  - apply update_evolves; [done |]. intros t _. apply Z.mod_pos_bound. lia.
  - split.
    + intros b. rewrite gauge_update. replace (gauge s b + held g' b - held g b) with (gauge s b + (if decide (a = b) then d else 0)) by (rewrite <- Hd; lia).
      case_decide as E; [subst b |].
      * unfold gauge. destruct (lookup_lt_is_Some_2 (sh_heap s) a Ha) as [t ->]. done.
      * rewrite Z.add_0_r. symmetry. apply Z.mod_small, Hs.
    + intros b ->. unfold update. cbn [sh_heap]. rewrite length_alter. by rewrite (Hg b).
Qed.

Lemma safe_started n a (Q : nat -> option saddr -> unit -> Prop) :
  (a < n)%nat -> (forall n', (n <= n')%nat -> Q n' (Some a) tt) -> safe n None (connection_started a) Q.
Proof.
  intros Ha HQ. apply safe_bind. intros s Hs Hl. cbn [fst snd].
  destruct (add_conns_step a 1 None (Some a) s Hs ltac:(lia)) as [He Hm];
    [intros b; unfold held; repeat case_decide; simplify_eq; lia | congruence |].
  pose proof (evolves_length _ _ He). split; [exact He |]. exists (Some a). split; [exact Hm |].
  apply (calm_safe (touch_now a)); [apply calm_touch | intros b [= <-]; lia |]. intros n1 [] Hn. apply HQ. lia.
Qed.

Lemma safe_finished n a (Q : nat -> option saddr -> unit -> Prop) :
  (a < n)%nat -> (forall n', (n <= n')%nat -> Q n' None tt) -> safe n (Some a) (connection_finished a) Q.
Proof.
  intros Ha HQ. apply safe_bind. intros s Hs Hl. cbn [fst snd].
  destruct (add_conns_step a (-1) (Some a) None s Hs ltac:(lia)) as [He Hm];
    [intros b; unfold held; repeat case_decide; simplify_eq; lia | done |].
  pose proof (evolves_length _ _ He). split; [exact He |]. exists None. split; [exact Hm |].
  apply (calm_safe (touch_now a)); [apply calm_touch | done |]. intros n1 [] Hn. apply HQ. lia.
Qed.

Lemma ends_evolves {A} (p : task A) : forall s tr s' a, calm p -> shared_ok s -> ends p s tr s' a -> evolves s s' /\ shared_ok s'.
Proof.
  induction p as [b | X f k IH | X q k IH]; intros s tr s' a Hc Hs H; cbn [ends calm] in *.
  - destruct H as (_ & -> & _). split; [reflexivity | done].
  - destruct tr as [| e tr]; [done |]. destruct H as (s1 & He & _ & H), Hc as [Hq Hc].
    assert (Hs1 : shared_ok s1) by by apply He. destruct (Hq s1 Hs1) as [He1 _].
    destruct (IH _ _ _ _ _ (Hc _) (proj2 (proj2 He1) Hs1) H) as [He2 Hs2]. split; [| done]. by etrans; [| etrans].
  - destruct tr as [| e tr]; [done |]. destruct H as (x & _ & _ & H). by eapply IH.
Qed.

(** ** Every interleaving *)

Abbreviation config := (Shared * list (task unit))%type.

Definition later (d : Z) (s : Shared) : Shared := mkShared (sh_heap s) (sh_registry s) (sh_cancels s) (sh_now s + d) (sh_metrics s).

Section System.
Context (program : task unit -> Prop).

Inductive sys_step : config -> config -> Prop :=
| run_step s ts i X (f : Shared -> Shared * X) k :
    ts !! i = Some (Step f k) -> sys_step (s, ts) ((f s).1, <[i := k (f s).2]> ts)
| run_await s ts i X (q : ask X) k x :
    ts !! i = Some (Await q k) -> valid_answer q x -> sys_step (s, ts) (s, <[i := k x]> ts)
| run_spawn s ts p : program p -> sys_step (s, ts) (s, ts ++ [p])
| run_clock s ts d : 0 <= d -> sys_step (s, ts) (later d s, ts).

(** A schedule: a task takes its step, gets an answer, or the clock goes on. *)
Inductive move := Go (i : nat) | Answer (i : nat) (x : answer) | Tick (d : N).

Definition make_move (m : move) (c : config) : option config :=
  match m with
  | Go i =>
      match c.2 !! i with
      | Some (Step f k) => let '(s', x) := f c.1 in Some (s', <[i := k x]> c.2)
      | _ => None
      end
  | Answer i x =>
      match c.2 !! i with
      | Some (Await q k) => y ← give q x; Some (c.1, <[i := k y]> c.2)
      | _ => None
      end
  | Tick d => Some (later (Z.of_N d) c.1, c.2)
  end.

Fixpoint make_moves (ms : list move) (c : config) : option config :=
  match ms with
  | [] => Some c
  | m :: ms' => c' ← make_move m c; make_moves ms' c'
  end.

Lemma make_move_step m c c' : make_move m c = Some c' -> sys_step c c'.
Proof using.
  destruct c as [s ts], m as [i | i x | d]; cbn [make_move fst snd].
  - destruct (ts !! i) as [[a | X f k | X q k] |] eqn:Ei; [done | | done | done]. destruct (f s) as [s' x] eqn:Ef. intros [= <-].
    pose proof (run_step s ts i X f k Ei) as Hr. by rewrite Ef in Hr.
  - destruct (ts !! i) as [[a | X f k | X q k] |] eqn:Ei; [done | done | | done].
    intros (y & Hy & [= <-])%bind_Some. apply (run_await s ts i X q k y Ei). by eapply give_valid.
  - intros [= <-]. apply run_clock. lia.
Qed.

Lemma make_moves_reach ms : forall c c', make_moves ms c = Some c' -> rtc sys_step c c'.
Proof using.
  induction ms as [| m ms IH]; intros c c' E; cbn [make_moves] in E; [by injection E as -> |].
  apply bind_Some in E as (c1 & E1 & E2). eapply rtc_l; [by eapply make_move_step | by apply IH].
Qed.

(** The number of guards on a state. *)
Fixpoint guards_on (a : saddr) (gs : list (option saddr)) : Z :=
  match gs with
  | [] => 0
  | g :: gs' => held g a + guards_on a gs'
  end.

(** A task that holds the guard [g] and drops it before it ends. *)
Definition holding (n : nat) (g : option saddr) (p : task unit) : Prop := safe n g p (fun _ g' _ => g' = None).

Definition guards_ok (s : Shared) (ts : list (task unit)) (gs : list (option saddr)) : Prop :=
  Forall2 (holding (length (sh_heap s))) gs ts /\
  (forall a, (a < length (sh_heap s))%nat -> gauge s a = guards_on a gs mod 2 ^ 64) /\
  (forall a, Some a ∈ gs -> (a < length (sh_heap s))%nat).

Definition sys_inv (c : config) : Prop := shared_ok c.1 /\ exists gs, guards_ok c.1 c.2 gs.

Lemma guards_on_insert gs i g g' a : gs !! i = Some g -> guards_on a (<[i := g']> gs) = guards_on a gs + held g' a - held g a.
Proof using.
  revert i; induction gs as [| h gs IH]; intros i E; [done |]. destruct i as [| i]; [cbn in *; injection E as ->; lia |].
  change (<[S i := g']> (h :: gs)) with (h :: <[i := g']> gs). cbn [guards_on]. rewrite (IH i E). lia.
Qed.

Lemma guards_on_app a gs gs' : guards_on a (gs ++ gs') = guards_on a gs + guards_on a gs'.
Proof using. induction gs as [| g gs IH]; cbn; lia. Qed.

Lemma guards_on_absent a gs : Some a ∉ gs -> guards_on a gs = 0.
Proof using.
  induction gs as [| g gs IH]; [done |]. intros [Hg Hgs]%not_elem_of_cons. cbn. rewrite IH by done. unfold held.
  rewrite decide_False by congruence. done.
Qed.

Lemma guards_on_range a gs : 0 <= guards_on a gs <= Z.of_nat (length gs).
Proof using. induction gs as [| g gs IH]; cbn [guards_on length]; [lia |]. pose proof (held_range g a). lia. Qed.

Lemma guards_on_none a gs : guards_on a gs = 0 -> Some a ∉ gs.
Proof using.
  induction gs as [| g gs IH]; intros H0; [apply not_elem_of_nil |]. cbn in H0.
  pose proof (held_range g a). pose proof (guards_on_range a gs). apply not_elem_of_cons. split; [| apply IH; lia].
  intros <-. unfold held in H0. rewrite decide_True in H0 by done. lia.
Qed.

Lemma holding_mono n n' g p : (n <= n')%nat -> holding n g p -> holding n' g p.
Proof using. intros Hn. by apply safe_mono. Qed.

Lemma step_keeps_guards s ts gs i X (f : Shared -> Shared * X) k :
  shared_ok s -> guards_ok s ts gs -> ts !! i = Some (Step f k) ->
  shared_ok (f s).1 /\ exists gs', guards_ok (f s).1 (<[i := k (f s).2]> ts) gs'.
Proof using.
  intros Hs (Hh & Hg & Hv) Hi. destruct (Forall2_lookup_r _ _ _ _ _ Hh Hi) as (g & Eg & Hp).
  destruct (Hp s Hs ltac:(lia)) as (He & g' & [Hm Hm'] & Hk). pose proof (evolves_length _ _ He) as Hl. split; [by apply He |].
  exists (<[i := g']> gs). split; [| split].
  - apply Forall2_insert; [| exact Hk]. eapply Forall2_impl; [exact Hh |]. intros h p. by apply holding_mono.
  - intros a Ha. rewrite Hm, (guards_on_insert gs i g) by done. destruct (decide (a < length (sh_heap s))%nat) as [Ha' |].
    + rewrite Hg by done. rewrite <- !Z.add_sub_assoc. apply Zplus_mod_idemp_l.
    + assert (Hno : Some a ∉ gs) by (intros Hin; specialize (Hv a Hin); lia). rewrite (guards_on_absent a gs Hno).
      unfold gauge. by rewrite lookup_ge_None_2 by lia.
  - intros a [j Hj]%list_elem_of_lookup. apply list_lookup_insert_Some in Hj as [(_ & -> & _) | [_ Hj]]; [by apply Hm' |].
    apply list_elem_of_lookup_2 in Hj. specialize (Hv a Hj). lia.
Qed.

Hypothesis program_safe : forall p, program p -> holding 0 None p.

Lemma sys_step_inv c c' : sys_step c c' -> sys_inv c -> sys_inv c'.
Proof using program_safe.
  intros Hstep [Hs [gs Hgs]]. destruct Hstep as [s ts i X f k Hi | s ts i X q k x Hi Hx | s ts p Hp | s ts d Hd]; unfold sys_inv in *; cbn [fst snd] in *.
  - by eapply step_keeps_guards.
  - destruct Hgs as (Hh & Hg). destruct (Forall2_lookup_r _ _ _ _ _ Hh Hi) as (g & Eg & Hp). split; [done |].
    exists gs. split; [| done]. rewrite <- (list_insert_id gs i g Eg). apply Forall2_insert; [done |]. by apply Hp.
  - destruct Hgs as (Hh & Hg & Hv). split; [done |]. exists (gs ++ [None]). split; [| split].
    + apply Forall2_app; [done |]. apply Forall2_cons. split; [| done]. eapply holding_mono; [| by apply program_safe]. lia.
    + intros a Ha. rewrite guards_on_app. cbn. unfold held. rewrite decide_False by done. rewrite Hg by done. f_equal. lia.
    + intros a [Ha | Ha%list_elem_of_singleton]%elem_of_app; [by apply Hv | done].
  - split; [exact Hs |]. by exists gs.
Qed.

Lemma sys_reach_inv c c' : rtc sys_step c c' -> sys_inv c -> sys_inv c'.
Proof using program_safe. induction 1 as [| c1 c2 c3 H1 H2 IH]; [done |]. intros Hc. by eapply IH, sys_step_inv. Qed.

(** The proxy starts with the tenants of its command line and no connection. *)
Lemma registry_from_inv entries now :
  Forall (fun e => active_conns e.2 = 0) entries -> sys_inv (registry_from entries now, []).
Proof using.
  unfold registry_from. intros He.
  assert (Hgen : forall s, (shared_ok s /\ forall a, gauge s a = 0) ->
    let s' := fold_left (fun s e => registry_register e.1 e.2 s) entries s in shared_ok s' /\ forall a, gauge s' a = 0).
  { induction entries as [| e es IH]; intros s [Hs H0]; [done |]. apply Forall_cons in He as [Hz He]. cbn [fold_left].
    destruct (quiet_register e.1 (fun _ => e.2) (fun _ => Hz) s Hs) as [(_ & _ & Hev) Hg]. apply (IH He). split; [by apply Hev |].
    intros a. by rewrite Hg. }
  destruct (Hgen (mkShared [] ∅ ∅ now [])) as [Hs H0].
  { split; [split |]; [intros name a Ha; cbn [sh_registry] in Ha; by rewrite lookup_empty in Ha | done | done]. }
  split; [exact Hs |]. exists []. split; [by apply Forall2_nil |]. split; [intros a _; by rewrite H0 |]. intros a Ha. by apply elem_of_nil in Ha.
Qed.
End System.
