(* ===== verification/Reaper.v ===== *)
(** When the idle reaper stops a tenant's compute (src/proxy/src/idle.rs), in every
    run among the other tasks. *)

From S2P Require Import Prelude Bytes Text PageVersion Cancel Compute Schedule.

Section Reaper.
Context `{NameOrder}.

Definition is_stopped (e : event) : Prop := match e with Stopped _ _ => True | _ => False end.

(** The four loads of [is_reapable]: running, not kept warm, no connection, idle. *)
Definition found_reapable (idle : Z) (a : saddr) (tr : list event) : Prop :=
  exists s1 s2 s3 s4 t1 t2 t3 t4, tr = [Stepped s1 s1; Stepped s2 s2; Stepped s3 s3; Stepped s4 s4] /\
    sh_heap s1 !! a = Some t1 /\ running t1 = true /\ sh_heap s2 !! a = Some t2 /\ keep_warm t2 = false /\
    sh_heap s3 !! a = Some t3 /\ active_conns t3 = 0 /\ sh_heap s4 !! a = Some t4 /\ idle <= idle_for (sh_now s4) t4.

Lemma ends_is_reapable idle a s tr s' : ends (is_reapable idle a) s tr s' true -> found_reapable idle a tr.
Proof using.
  intros (tr1 & tr2 & s1 & up & -> & (_ & -> & Eup)%ends_observe & H1)%ends_bind.
  destruct (sh_heap s1 !! a) as [t1 |] eqn:E1; [| by subst up; destruct H1 as (_ & _ & ?)].
  destruct up; [cbn [negb] in H1 | by destruct H1 as (_ & _ & ?)].
  apply ends_bind in H1 as (tr3 & tr4 & s2 & warm & -> & (He2 & -> & Ew)%ends_observe & H1).
  destruct (evolves_lookup _ _ _ _ He2 E1) as (t2 & E2 & _). rewrite E2 in Ew. destruct warm; [by destruct H1 as (_ & _ & ?) |].
  apply ends_bind in H1 as (tr5 & tr6 & s3 & n & -> & (He3 & -> & En)%ends_observe & H1).
  destruct (evolves_lookup _ _ _ _ He3 E2) as (t3 & E3 & _). rewrite E3 in En.
  destruct (n =? 0) eqn:E0; [cbn [negb] in H1 | by destruct H1 as (_ & _ & ?)]. apply Z.eqb_eq in E0.
  apply ends_bind in H1 as (tr7 & tr8 & s4 & d & -> & (He4 & -> & Ed)%ends_observe & H1).
  destruct (evolves_lookup _ _ _ _ He4 E3) as (t4 & E4 & _). rewrite E4 in Ed. destruct H1 as (-> & _ & Hi).
  symmetry in Hi. apply Z.leb_le in Hi. exists s1, s2, s3, s4, t1, t2, t3, t4. repeat (split; [congruence || done |]). by subst d.
Qed.

Lemma ends_filter q l : forall s tr s' l', ends (filter_tenants q l) s tr s' l' -> forall e, e ∈ l' -> e ∈ l.
Proof using.
  induction l as [| [name a] l IH]; intros s tr s' l' He e Hin; cbn [filter_tenants] in He.
  - by destruct He as (_ & _ & ->).
  - apply ends_bind in He as (tr1 & tr2 & s1 & keep & -> & _ & He). apply ends_bind in He as (tr3 & tr4 & s2 & rest & -> & Hr & He).
    destruct He as (_ & _ & ->). specialize (IH _ _ _ _ Hr e). apply elem_of_cons.
    destruct keep; [apply elem_of_cons in Hin as [-> | Hin]; [by left |] |]; right; by apply IH.
Qed.

Ltac never_steps :=
  repeat first
    [ exact I
    | solve [auto]
    | apply never_bind; [| intros ?]
    | match goal with |- never _ (match ?x with _ => _ end) => destruct x end
    | split; [solve [intros ? Hbad; exact Hbad] | intros ?] ].

Lemma never_reapable idle a : never is_stopped (is_reapable idle a).
Proof using. unfold is_reapable, is_running, is_kept_warm, conns. never_steps. Qed.

Lemma never_filter bad q l : (forall a, never bad (q a)) -> never bad (filter_tenants q l).
Proof using. intros Hq. induction l as [| [name a] l IH]; cbn [filter_tenants]; never_steps. Qed.

Lemma reap_all_stops idle l : forall s tr n failed,
  emits (reap_all idle l) s (tr ++ [Stopped n failed]) ->
  exists a tr1 tr2, (n, a) ∈ l /\ tr = tr1 ++ tr2 /\ found_reapable idle a tr2.
Proof using.
  induction l as [| [name a] l IH]; intros s tr n failed He; cbn [reap_all] in He; [by apply emits_done in He |].
  apply (emits_bind_bad is_stopped) in He as (tr1 & tr2 & s1 & still & -> & H1 & He); [| apply never_reapable | done].
  assert (Hlater : forall s tr, emits (reap_all idle l) s (tr ++ [Stopped n failed]) ->
    forall pre, exists b q1 q2, (n, b) ∈ (name, a) :: l /\ pre ++ tr = q1 ++ q2 /\ found_reapable idle b q2).
  { intros s2 tr' H2 pre. apply IH in H2 as (b & q1 & q2 & Hb & -> & Hq). exists b, (pre ++ q1), q2.
    split; [by apply elem_of_cons; right |]. by rewrite app_assoc. }
  destruct still; [| by apply (Hlater s1)]. apply ends_is_reapable in H1. destruct tr2 as [| e tr2].
  - destruct He as (x & _ & [= -> _] & _). exists a, [], tr1. split; [apply elem_of_cons; by left |]. by rewrite app_nil_r.
  - destruct He as (x & _ & -> & He). cbn [tbind] in He.
    apply (emits_bind_bad is_stopped) in He as (tr3 & tr4 & s2 & ? & -> & _ & He); [| destruct x; never_steps | done].
    rewrite (app_assoc tr1 (_ :: tr3) tr4 : tr1 ++ event_of _ x :: tr3 ++ tr4 = _). by apply (Hlater s2).
Qed.

(** C25: the reaper stops only what is idle.  In every run of a reaper pass among the
    other tasks, the activator is asked to stop a tenant only if the tenant was in
    the registry when the pass began and the pass's last four loads, right before
    the request, found its compute running, not kept warm, without connections,
    and idle for the threshold. *)
Theorem reaper_stops_only_idle idle s tr n failed :
  emits (reap_once idle) s (tr ++ [Stopped n failed]) ->
  exists s0 a tr1 tr2, tr = Stepped s0 s0 :: tr1 ++ tr2 /\ sh_registry s0 !! n = Some a /\ found_reapable idle a tr2.
Proof using.
  intros He. apply (emits_bind_bad is_stopped) in He as (tr1 & tr2 & s1 & all & -> & (_ & -> & ->)%ends_observe & He); [| never_steps | done].
  apply (emits_bind_bad is_stopped) in He as (tr3 & tr4 & s2 & l & -> & Hl & He); [| apply never_filter, never_reapable | done].
  apply reap_all_stops in He as (a & q1 & q2 & Ha & -> & Hf). exists s1, a, (tr3 ++ q1), q2.
  split; [cbn; by rewrite app_assoc |]. split; [| done]. apply (ends_filter _ _ _ _ _ _ Hl) in Ha. rewrite name_order_perm in Ha.
  by apply elem_of_map_to_list in Ha.
Qed.
End Reaper.

(** The hash map listed in the order of its keys. *)
#[export] Instance key_order : NameOrder := {| name_order := map_to_list; name_order_perm m := reflexivity _ |}.

Definition idle_minute : Z := 60 * 10 ^ 9.
Definition idle_tenant : Shared := later (2 * idle_minute) (registry_from [(text "shop", TenantState_new (text "h:1") true 0)] 0).

Definition idle_pass : list event := play (reap_once idle_minute) idle_tenant [Replies None].

Lemma reaper_stops_only_idle_witness :
  emits (reap_once idle_minute) idle_tenant (take 9 idle_pass ++ [Stopped (text "shop") None]) /\
  exists s0 a tr1 tr2, take 9 idle_pass = Stepped s0 s0 :: tr1 ++ tr2 /\ sh_registry s0 !! text "shop" = Some a /\ found_reapable idle_minute a tr2.
Proof.
  assert (E : idle_pass !! 9%nat = Some (Stopped (text "shop") None)) by (vm_compute; reflexivity).
  assert (He : emits (reap_once idle_minute) idle_tenant (take 9 idle_pass ++ [Stopped (text "shop") None])).
  { rewrite <- (take_S_r idle_pass 9 _ E). apply emits_take, play_emits. }
  split; [exact He |]. exact (reaper_stops_only_idle idle_minute idle_tenant _ (text "shop") None He).
Defined.
