(* ===== verification/Proxy.v ===== *)
(** The proxy's data path (src/proxy/src/proxy.rs): a client's connection as a task
    from its first packet to the end of the splice, among all the other
    connections, the reaper and the control requests.

    The negotiation and the splice go on as long as the peers do; they are given a
    number of rounds, and when it is used up the connection ends as after a failed
    read, which can happen at any time, so every finite run of the code is a run
    with enough rounds and every run here is one of the code. *)

From S2P Require Import Prelude Bytes Text Metrics PageVersion ObjStore Http ProxyProtocol Cancel Dialogue Scram Compute Schedule Reaper.

Inductive ProxyError :=
| ReadingLength
| LengthOutOfRange (declared : Z)
| ReadingBody
| BadStartup (e : ProtocolError)
| ClientGone
| TlsFailed
| ActivatorFailed (e : bytes)
| ComputeNotReady
| BackendUnreachable (addr : bytes)
| BackendGone
| SpliceBroken.

Record Proxy := mkProxy {
  budget : Z;
  interval : Z;
  tls : bool
}.

Definition HealthConfig_interval : Z := 10 * 10 ^ 6.
Definition Proxy_default : Proxy := mkProxy (500 * 10 ^ 6) HealthConfig_interval false.

(** [?] *)
Definition ttry {E A B} (m : task (outcome E A)) (f : A -> task (outcome E B)) : task (outcome E B) :=
  tbind m (fun r => match r with Ok a => f a | Err e => Done (Err e) | Panic => Done Panic end).

Notation "'do?' x := m 'in' k" := (ttry m (fun x => k)) (at level 10, x pattern, m at level 100, k at level 200).

Definition expect {E} (ok : bool) (e : E) : outcome E unit := if ok then Ok tt else Err e.

(** A dialogue over the client's stream. *)
Fixpoint converse {A} (d : dialogue A) : task A :=
  match d with
  | Return a => Done a
  | Write b k => Await (SendClient b) (fun ok => converse (k ok))
  | ReadExact n k => Await (ReadClient n) (fun r => converse (k (match r with Got b => Some b | _ => None end)))
  end.

(** An end of the stream instead of the length is no error. *)
Definition read_raw_message : task (outcome ProxyError (option bytes)) :=
  do r := await (ReadClient 4) in
  match r with
  | Eof => Done (Ok None)
  | Broken => Done (Err ReadingLength)
  | Got len_buf =>
      let declared := as_usize (i32_of len_buf) in
      if (MIN_STARTUP_LEN <=? declared) && (declared <=? MAX_STARTUP_LEN) then
        do r := await (ReadClient (declared - 4)) in
        match r with
        | Got body => Done (Ok (Some (len_buf ++ body)))
        | _ => Done (Err ReadingBody)
        end
      else Done (Err (LengthOutOfRange declared))
  end.

Definition first_message (raw : bytes) : outcome ProxyError FirstMessage :=
  match parse_first_message raw with Ok m => Ok m | Err e => Err (BadStartup e) | Panic => Panic end.

Definition send_client (b : bytes) : task (outcome ProxyError unit) :=
  do ok := await (SendClient b) in Done (expect ok ClientGone).

Definition route_cancel (process_id secret_key : Z) : task (outcome ProxyError unit) :=
  do owner := observe (fun s => cancel_lookup (process_id, secret_key) (sh_cancels s)) in
  match owner with
  | None => do _ := meter (Inc CANCELS_UNKNOWN []) in Done (Ok tt)
  | Some backend_addr =>
      do ok := await (Connect backend_addr) in
      if ok : bool then
        do sent := await (SendBackend backend_addr (cancel_request_bytes process_id secret_key)) in
        do _ := (if sent : bool then meter (Inc CANCELS_ROUTED []) else Done tt) in
        Done (Ok tt)
      else Done (Ok tt)
  end.

Definition reject (sqlstate message : bytes) : task unit :=
  do _ := await (SendClient (error_response (text "FATAL") sqlstate message)) in Done tt.

Definition ensure_awake (p : Proxy) (tenant : bytes) (state : saddr) (addr : bytes) : task (outcome ProxyError unit) :=
  do up := is_running state in
  do? _ := (if up : bool then Done (Ok tt)
            else
              do _ := meter (Inc WAKES []) in
              do _ := meter (Inc DB_WAKES [tenant]) in
              do pin := pin_of state in
              do started := await (Start tenant pin) in
              Done (match started with None => Ok tt | Some e => Err (ActivatorFailed e) end)) in
  do attempt := await (Probe addr) in
  match wait_until_ready attempt (budget p) (interval p) with
  | Ok _ =>
      do _ := modify (update state (set_running true)) in
      do _ := set_compute_up tenant true in
      Done (Ok tt)
  | _ => Done (Err ComputeNotReady)
  end.

(** Backend to client.  A read or a write here also ends in failure when the other
    direction fails, as [try_join!] then drops this one. *)
Fixpoint copy_to_client (fuel : nat) (addr : bytes) (scanner : KeyScanner) (captured : option CancelKey) :
    task (outcome ProxyError (option CancelKey)) :=
  match fuel with
  | O => Done (Err SpliceBroken)
  | S fuel' =>
      do r := await (ReadBackend addr) in
      match r with
      | Broken => Done (Err SpliceBroken)
      | Eof => Done (Ok captured)
      | Got chunk =>
          match (if ks_done scanner then (scanner, Ok None) else push chunk scanner) with
          | (scanner, Ok found) =>
              do _ := (match found with
                       | Some key => modify (on_cancels (cancel_insert key addr))
                       | None => Done tt
                       end) in
              do? _ := send_client chunk in
              copy_to_client fuel' addr scanner (match found with Some key => Some key | None => captured end)
          | _ => Done Panic
          end
      end
  end.

(** The client to backend direction is a plain copy by the runtime. *)
Definition splice_capturing_cancel_key (fuel : nat) (addr : bytes) : task (outcome ProxyError unit) :=
  do? captured := copy_to_client fuel addr KeyScanner_new None in
  do copied := await (CopyClient addr) in
  do? _ := Done (expect copied SpliceBroken) in
  do _ := (match captured with
           | Some key => modify (on_cancels (cancel_remove key))
           | None => Done tt
           end) in
  Done (Ok tt).

(** [ConnGuard::new] and its [drop]. *)
Definition guard_new (state : saddr) (database : bytes) : task unit :=
  do _ := connection_started state in
  do _ := meter (Inc ACTIVE_CONNECTIONS []) in
  meter (Inc DB_ACTIVE [database]).

Definition guard_drop (state : saddr) (database : bytes) : task unit :=
  do _ := connection_finished state in
  do _ := meter (Dec ACTIVE_CONNECTIONS []) in
  meter (Dec DB_ACTIVE [database]).

(** The guard lives as long as the splice, however it ends. *)
Definition guarded {A} (state : saddr) (database : bytes) (m : task A) : task A :=
  do _ := guard_new state database in
  do r := m in
  do _ := guard_drop state database in
  Done r.

Section Serve.
Context `{Crypto} (p : Proxy) (fuel : nat) (random : bytes).

(** [match startup]: read it over the negotiated stream.  [None] when there is
    nothing more to do. *)
Fixpoint read_startup (rounds : nat) : task (outcome ProxyError (option StartupMessage)) :=
  match rounds with
  | O => Done (Err ReadingLength)
  | S rounds' =>
      do? raw := read_raw_message in
      match raw with
      | None => Done (Ok None)
      | Some raw =>
          do? first := Done (first_message raw) in
          match first with
          | Startup s => Done (Ok (Some s))
          | SslRequest | GssEncRequest => do? _ := send_client (text "N") in read_startup rounds'
          | CancelRequest pid key => do? _ := route_cancel pid key in Done (Ok None)
          end
      end
  end.

Definition static_of {X} (f : TenantState -> X) (d : X) (state : saddr) : task X := read_state d (fun _ => f) state.

(** After authentication: wake, connect, replay the startup packet, splice. *)
Definition serve_tenant (startup : StartupMessage) (tenant_name : bytes) (state : saddr) : task (outcome ProxyError unit) :=
  do backend_addr := static_of backend [] state in
  do? _ := ensure_awake p tenant_name state backend_addr in
  do ok := await (Connect backend_addr) in
  do? _ := Done (expect ok (BackendUnreachable backend_addr)) in
  do ok := await (SendBackend backend_addr (raw startup)) in
  do? _ := Done (expect ok BackendGone) in
  do _ := meter (Inc DB_CONNECTIONS [tenant_name]) in
  guarded state tenant_name (splice_capturing_cancel_key fuel backend_addr).

Definition serve_startup (startup : StartupMessage) : task (outcome ProxyError unit) :=
  match tenant startup with
  | None => do _ := reject (text "3D000") (text "no database or user specified") in Done (Ok tt)
  | Some tenant_name =>
      do state := observe (registry_get tenant_name) in
      match state with
      | None => do _ := reject (text "3D000") (text "unknown tenant " ++ [z2b 34] ++ tenant_name ++ [z2b 34]) in Done (Ok tt)
      | Some state =>
          do verifier := static_of scram None state in
          do auth := (match verifier with
                      | Some secret => converse (authenticate random secret)
                      | None => Done (Ok tt)
                      end) in
          match auth with
          | Ok _ => serve_tenant startup tenant_name state
          | Err _ =>
              do _ := meter (Inc AUTH_FAILURES []) in
              do _ := reject (text "28P01") (text "password authentication failed") in Done (Ok tt)
          | Panic => Done Panic
          end
      end
  end.

Definition serve_over (startup : option StartupMessage) : task (outcome ProxyError unit) :=
  do? startup := (match startup with Some s => Done (Ok (Some s)) | None => read_startup fuel end) in
  match startup with
  | Some s => serve_startup s
  | None => Done (Ok tt)
  end.

Definition serve_client : task (outcome ProxyError unit) :=
  do? raw := read_raw_message in
  match raw with
  | None => Done (Ok tt)
  | Some raw =>
      do? first := Done (first_message raw) in
      match first with
      | Startup s => serve_over (Some s)
      | SslRequest =>
          if tls p then
            do? _ := send_client (text "S") in
            do ok := await Handshake in
            do? _ := Done (expect ok TlsFailed) in
            serve_over None
          else do? _ := send_client (text "N") in serve_over None
      | GssEncRequest => do? _ := send_client (text "N") in serve_over None
      | CancelRequest pid key => route_cancel pid key
      end
  end.

(** Errors of a connection are logged. *)
Definition handle_connection : task unit := do _ := serve_client in Done tt.

(** [serve], for one socket it accepts. *)
Definition serve : task unit := do _ := meter (Inc CONNECTIONS []) in handle_connection.
End Serve.

(** ** What the proxy runs *)

Section Program.
Context `{Crypto} `{NameOrder} (debug_str : bytes -> bytes) (tmpl : bytes).

Inductive program : task unit -> Prop :=
| runs_connection p fuel random : program (serve p fuel random)
| runs_control rs : program (do _ := handle_control debug_str tmpl rs in Done tt)
| runs_reaper ticks idle_after : program (reaper_run ticks idle_after).

(** ** The gauges are exact *)

Lemma calm_then {A B} (m : task A) (f : A -> task B) (Q : nat -> option saddr -> B -> Prop) n :
  calm m -> (forall n' a, (n <= n')%nat -> safe n' None (f a) Q) -> safe n None (tbind m f) Q.
Proof using. intros Hm Hf. apply safe_bind, calm_safe; [done | done |]. intros n' a Hn. by apply Hf. Qed.

Lemma safe_lookup {B} name (f : option saddr -> task B) (Q : nat -> option saddr -> B -> Prop) n :
  (forall n' r, (forall a, r = Some a -> (a < n')%nat) -> safe n' None (f r) Q) -> safe n None (tbind (observe (registry_get name)) f) Q.
Proof using.
  intros Hf. apply safe_bind. intros s Hs Hl. cbn [fst snd]. split; [reflexivity |]. exists None. split.
  - split; [| done]. intros a. replace (gauge s a + held None a - held None a) with (gauge s a) by lia. symmetry. apply Z.mod_small, Hs.
  - apply Hf. intros a Ha. by eapply Hs.
Qed.

Lemma calm_ttry {E A B} (m : task (outcome E A)) (f : A -> task (outcome E B)) : calm m -> (forall a, calm (f a)) -> calm (ttry m f).
Proof using. intros Hm Hf. apply calm_bind; [done |]. intros [a | e |]; [apply Hf | done | done]. Qed.

Lemma calm_converse {A} (d : dialogue A) : calm (converse d).
Proof using. induction d; cbn; done. Qed.

#[local] Hint Resolve calm_converse : calm.

Ltac calm_tried := repeat first [ apply calm_ttry; [| intros ?] | progress calm_task ].

Lemma calm_send b : calm (send_client b).
Proof using. unfold send_client. calm_task. Qed.

Lemma calm_read_raw : calm read_raw_message.
Proof using. unfold read_raw_message. cbv zeta. calm_task. Qed.

Lemma calm_route_cancel pid key : calm (route_cancel pid key).
Proof using. unfold route_cancel. calm_task. Qed.

#[local] Hint Resolve calm_send calm_read_raw calm_route_cancel : calm.

Lemma calm_reject code msg : calm (reject code msg).
Proof using. unfold reject. calm_task. Qed.

#[local] Hint Resolve calm_reject : calm.

Lemma calm_read_startup rounds : calm (read_startup rounds).
Proof using. induction rounds as [| n IH]; cbn [read_startup]; calm_tried. Qed.

Lemma calm_ensure_awake p name a addr : calm (ensure_awake p name a addr).
Proof using. unfold ensure_awake, is_running, pin_of. calm_tried. Qed.

Lemma calm_copy fuel addr : forall sc captured, calm (copy_to_client fuel addr sc captured).
Proof using.
  induction fuel as [| n IH]; intros sc captured; cbn [copy_to_client]; [done |]. calm_tried; destruct (if ks_done sc then _ else _) as [sc' [found | |]]; calm_tried.
Qed.

Lemma calm_splice fuel addr : calm (splice_capturing_cancel_key fuel addr).
Proof using. unfold splice_capturing_cancel_key. apply calm_ttry; [apply calm_copy |]. intros captured. calm_tried. Qed.

(** From here on the task may hold a guard on an address below [n]. *)
Definition no_guard {A} (_ : nat) (g : option saddr) (_ : A) : Prop := g = None.

Lemma safe_calm {A} (m : task A) n : calm m -> safe n None m no_guard.
Proof using. intros Hm. by apply calm_safe. Qed.

Lemma safe_ttry {E A B} (m : task (outcome E A)) (f : A -> task (outcome E B)) n :
  calm m -> (forall n' a, (n <= n')%nat -> safe n' None (f a) no_guard) -> safe n None (ttry m f) no_guard.
Proof using. intros Hm Hf. apply calm_then; [done |]. intros n' [a | e |] Hn; [by apply Hf | done | done]. Qed.

Lemma safe_guarded {A} a db (m : task A) n : (a < n)%nat -> calm m -> safe n None (guarded a db m) no_guard.
Proof using.
  intros Ha Hm. unfold guarded, guard_new, guard_drop. apply safe_bind, safe_bind, safe_started; [done |]. intros n1 H1.
  apply calm_safe; [calm_task | intros b [= <-]; lia |]. intros n2 _ H2.
  apply safe_bind, calm_safe; [done | intros b [= <-]; lia |]. intros n3 r H3.
  apply safe_bind, safe_bind, safe_finished; [lia |]. intros n4 H4. by apply calm_safe; [calm_task | |].
Qed.

Lemma safe_serve_tenant p fuel startup name a n : (a < n)%nat -> safe n None (serve_tenant p fuel startup name a) no_guard.
Proof using.
  intros Ha. unfold serve_tenant, static_of. apply calm_then; [apply calm_read |]. intros n1 addr H1.
  apply safe_ttry; [apply calm_ensure_awake |]. intros n2 _ H2.
  apply calm_then; [done |]. intros n3 ok H3. apply safe_ttry; [done |]. intros n4 _ H4.
  apply calm_then; [done |]. intros n5 ok' H5. apply safe_ttry; [done |]. intros n6 _ H6.
  apply calm_then; [apply calm_meter |]. intros n7 _ H7. apply safe_guarded; [lia | apply calm_splice].
Qed.

Lemma safe_serve_startup p fuel random startup n : safe n None (serve_startup p fuel random startup) no_guard.
Proof using.
  unfold serve_startup. destruct (tenant startup) as [name |]; [| apply safe_calm; calm_tried].
  apply safe_lookup. intros n1 [a |] Ha; [| apply safe_calm; calm_tried]. unfold static_of.
  apply calm_then; [apply calm_read |]. intros n2 v H2. apply calm_then; [destruct v; calm_tried |]. intros n3 [[] | e |] H3.
  - apply safe_serve_tenant. specialize (Ha a eq_refl). lia.
  - apply safe_calm; calm_tried.
  - done.
Qed.

Lemma safe_serve_over p fuel random startup n : safe n None (serve_over p fuel random startup) no_guard.
Proof using.
  unfold serve_over. apply safe_ttry; [destruct startup; [done | apply calm_read_startup] |].
  intros n1 [s |] H1; [apply safe_serve_startup | done].
Qed.

Lemma safe_connection p fuel random : holding 0 None (serve p fuel random).
Proof using.
  unfold holding, serve. apply calm_then; [apply calm_meter |]. intros n0 _ _. unfold handle_connection. apply safe_bind. eapply (safe_mono _ no_guard); [by intros m m' h a _ -> | reflexivity |].
  unfold serve_client. apply safe_ttry; [apply calm_read_raw |]. intros n1 [raw |] H1; [| done].
  apply safe_ttry; [done |]. intros n2 first H2. pose proof safe_serve_over as Hs.
  destruct first as [s | | | pid key]; [done | destruct (tls p) | |].
  - apply safe_ttry; [apply calm_send |]. intros n3 _ H3. apply calm_then; [done |]. intros n4 ok H4. by apply safe_ttry.
  - apply safe_ttry; [apply calm_send | done].
  - apply safe_ttry; [apply calm_send | done].
  - apply safe_calm, calm_route_cancel.
Qed.

Lemma program_holding p : program p -> holding 0 None p.
Proof using.
  intros [q fuel random | rs | ticks idle]; [apply safe_connection | |]; (apply calm_safe; [| done | done]).
  - apply calm_bind; [apply calm_handle_control | done].
  - apply calm_reaper_run.
Qed.

Definition starts (entries : list (bytes * TenantState)) (now : Z) : config := (registry_from entries now, []).

End Program.

(** ** Who wakes compute *)

Definition is_woke (e : event) : Prop := match e with Woke _ _ _ => True | _ => False end.

(** Go through a task up to its atomic parts. *)
Ltac never_task :=
  repeat first
    [ exact I
    | solve [auto with never]
    | apply never_bind; [| intros ?]
    | match goal with |- never _ (match ?x with _ => _ end) => destruct x end
    | split; [solve [intros ? Hbad; exact Hbad] | intros ?] ].

Create HintDb never.

Lemma never_ttry {E A B} bad (m : task (outcome E A)) (f : A -> task (outcome E B)) :
  never bad m -> (forall a, never bad (f a)) -> never bad (ttry m f).
Proof. intros Hm Hf. apply never_bind; [done |]. intros [a | e |]; [apply Hf | done | done]. Qed.

Lemma emits_ttry_bad {E A B} bad (m : task (outcome E A)) (f : A -> task (outcome E B)) s tr e :
  never bad m -> bad e -> emits (ttry m f) s (tr ++ [e]) ->
  exists tr1 tr2 s' a, tr = tr1 ++ tr2 /\ ends m s tr1 s' (Ok a) /\ emits (f a) s' (tr2 ++ [e]).
Proof.
  intros Hn Hb H. destruct (emits_bind_bad _ _ _ _ _ _ Hn Hb H) as (tr1 & tr2 & s' & r & -> & H1 & H2).
  destruct r as [a | x |]; [by exists tr1, tr2, s', a | by apply emits_done in H2 | by apply emits_done in H2].
Qed.

Lemma ends_ttry {E A B} (m : task (outcome E A)) (f : A -> task (outcome E B)) s tr s' b :
  ends (ttry m f) s tr s' (Ok b) ->
  exists tr1 tr2 s1 a, tr = tr1 ++ tr2 /\ ends m s tr1 s1 (Ok a) /\ ends (f a) s1 tr2 s' (Ok b).
Proof.
  intros (tr1 & tr2 & s1 & r & -> & H1 & H2)%ends_bind.
  destruct r as [a | x |]; [by exists tr1, tr2, s1, a | by destruct H2 as (_ & _ & ?) | by destruct H2 as (_ & _ & ?)].
Qed.

Lemma never_converse {A} (d : dialogue A) : never is_woke (converse d).
Proof. induction d; cbn; never_task. Qed.

Lemma never_send b : never is_woke (send_client b).
Proof. unfold send_client. never_task. Qed.

Lemma never_read_raw : never is_woke read_raw_message.
Proof. unfold read_raw_message. cbv zeta. never_task. Qed.

Lemma never_route_cancel pid key : never is_woke (route_cancel pid key).
Proof. unfold route_cancel. never_task. Qed.

Lemma never_reject code msg : never is_woke (reject code msg).
Proof. unfold reject. never_task. Qed.

#[local] Hint Resolve never_converse never_send never_read_raw never_route_cancel never_reject : never.

Ltac never_tried := repeat first [ apply never_ttry; [| intros ?] | progress never_task ].

Lemma never_read_startup rounds : never is_woke (read_startup rounds).
Proof. induction rounds as [| n IH]; cbn [read_startup]; never_tried. Qed.

Lemma never_splice fuel addr : never is_woke (splice_capturing_cancel_key fuel addr).
Proof.
  unfold splice_capturing_cancel_key. apply never_ttry; [| intros captured; never_tried].
  generalize KeyScanner_new (@None CancelKey). induction fuel as [| n IH]; intros sc captured; cbn [copy_to_client]; [done |].
  never_tried; destruct (if ks_done sc then _ else _) as [sc' [found | |]]; never_tried.
Qed.

(** What a conversation that went well received. *)
Lemma ends_converse {E A} (d : dialogue (outcome E A)) : forall s tr s' a,
  strict d -> ends (converse d) s tr s' (Ok a) -> s' = s /\ forall rest, exists out, drun d (received tr ++ rest) = (out, Ok a, rest).
Proof.
  induction d as [r | b k IH | n k IH]; intros s tr s' a Hd H; cbn [converse ends strict] in *.
  - destruct H as (-> & -> & <-). split; [done |]. intros rest. by eexists.
  - destruct tr as [| e tr]; [done |]. destruct Hd as [Hf Hk], H as (ok & _ & -> & H). cbn [event_of received].
    destruct ok; [| destruct Hf as (r & Er & Hr); rewrite Er in H; destruct H as (_ & _ & <-); done].
    destruct (IH true _ _ _ _ Hk H) as [-> Hd]. split; [done |]. intros rest. cbn [drun].
    destruct (Hd rest) as [out ->]. by eexists.
  - destruct tr as [| e tr]; [done |]. destruct Hd as [Hf Hk], H as (r & Hv & -> & H). cbn [event_of received valid_answer] in *.
    destruct r as [b | |]; [| destruct Hf as (r & Er & Hr); rewrite Er in H; destruct H as (_ & _ & <-); done ..].
    destruct (IH (Some b) _ _ _ _ (Hk b) H) as [-> Hd]. split; [done |]. intros rest. rewrite <- app_assoc. cbn [drun]. subst n.
    pose proof (len_nonneg (received tr ++ rest)). rewrite (proj2 (Z.leb_le _ _)) by (rewrite len_app; lia).
    rewrite sub_app_exact by done. rewrite sub_app_ge by lia. rewrite Z.sub_diag, sub_full by (rewrite len_app; lia). apply Hd.
Qed.

Lemma ends_read_raw s tr s' raw : ends read_raw_message s tr s' (Ok (Some raw)) -> s' = s /\ received tr = raw.
Proof.
  unfold read_raw_message. cbv zeta. intros (tr1 & tr2 & s1 & r & -> & (-> & -> & _)%ends_await & H)%ends_bind.
  destruct r as [lb | |]; [| by destruct H as (_ & _ & ?) ..].
  destruct (_ && _); [| by destruct H as (_ & _ & ?)].
  apply ends_bind in H as (tr3 & tr4 & s2 & r & -> & (-> & -> & _)%ends_await & H).
  destruct r as [b | |]; [| by destruct H as (_ & _ & ?) ..].
  destruct H as (-> & -> & [= ->]). split; [done |]. cbn. by rewrite !app_nil_r.
Qed.
(** The last packet of these bytes is the startup packet [m]. *)
Definition sent_startup (b : bytes) (m : StartupMessage) : Prop :=
  exists pre packet, b = pre ++ packet /\ parse_first_message packet = Ok (Startup m).

Lemma first_message_Ok raw m : first_message raw = Ok m -> parse_first_message raw = Ok m.
Proof. unfold first_message. destruct (parse_first_message raw); congruence. Qed.

Lemma sent_startup_more pre b m : sent_startup b m -> sent_startup (pre ++ b) m.
Proof. intros (p1 & p2 & -> & H). exists (pre ++ p1), p2. by rewrite app_assoc. Qed.

Lemma ends_first {E A} (r : outcome E A) s tr s' a : ends (Done r) s tr s' (Ok a) -> tr = [] /\ s' = s /\ r = Ok a.
Proof. by intros (-> & -> & <-). Qed.

Lemma ends_read_startup rounds : forall s tr s' m,
  ends (read_startup rounds) s tr s' (Ok (Some m)) -> sent_startup (received tr) m.
Proof.
  induction rounds as [| n IH]; intros s tr s' m H; cbn [read_startup] in H; [by destruct H as (_ & _ & ?) |].
  apply ends_ttry in H as (tr1 & tr2 & s1 & [raw |] & -> & H1 & H); [| by destruct H as (_ & _ & ?)].
  apply ends_read_raw in H1 as [-> H1]. rewrite received_app, H1.
  apply ends_ttry in H as (tr3 & tr4 & s2 & first & -> & (-> & -> & Hf%first_message_Ok)%ends_first & H). cbn [app].
  destruct first as [m' | | | pid key].
  - apply ends_first in H as (-> & -> & [= <-]). exists [], raw. by rewrite app_nil_r.
  - apply ends_ttry in H as (tr5 & tr6 & s3 & ? & -> & _ & H%IH). apply sent_startup_more. rewrite received_app. by apply sent_startup_more.
  - apply ends_ttry in H as (tr5 & tr6 & s3 & ? & -> & _ & H%IH). apply sent_startup_more. rewrite received_app. by apply sent_startup_more.
  - apply ends_ttry in H as (tr5 & tr6 & s3 & ? & -> & _ & H). by apply ends_first in H as (_ & _ & ?).
Qed.

Section Waking.
Context `{Crypto} (p : Proxy) (fuel : nat) (random : bytes).

(** The tenant's compute was seen down, and this was its pin. *)
Definition asleep_with_pin (a : saddr) (tl : option bytes) (tr : list event) : Prop :=
  exists s1 s2 t1 t2, Stepped s1 s1 ∈ tr /\ Stepped s2 s2 ∈ tr /\
    sh_heap s1 !! a = Some t1 /\ running t1 = false /\ sh_heap s2 !! a = Some t2 /\ pinned_timeline t2 = tl.

Lemma ensure_awake_wakes name a addr s t tr n tl failed :
  sh_heap s !! a = Some t -> emits (ensure_awake p name a addr) s (tr ++ [Woke n tl failed]) -> n = name /\ asleep_with_pin a tl tr.
Proof using.
  intros Ha H1. unfold ensure_awake in H1. apply (emits_bind_bad is_woke) in H1 as (tr1 & tr2 & s1 & up & -> & Hup & H1); [| never_task | done].
  apply ends_observe in Hup as (He & -> & Eup). destruct (evolves_lookup _ _ _ _ He Ha) as (t1 & Ht1 & _). rewrite Ht1 in Eup.
  apply (emits_bind_first is_woke) in H1; [| intros [[] | e |]; never_task | done].
  destruct up; [by apply emits_done in H1 |].
  apply (emits_bind_bad is_woke) in H1 as (q1 & q2 & w1 & ?u1 & -> & (Hw1 & w0 & ->)%ends_meter & H1); [| never_task | done].
  apply (emits_bind_bad is_woke) in H1 as (q3 & q4 & w2 & ?u2 & -> & (Hw2 & w3 & ->)%ends_meter & H1); [| never_task | done].
  apply (emits_bind_bad is_woke) in H1 as (tr3 & tr4 & s2 & pin & -> & Hpin & H1); [| never_task | done].
  apply ends_observe in Hpin as (He2 & -> & Epin).
  destruct (evolves_lookup s1 s2 a t1 ltac:(by do 2 (etrans; [eassumption |])) Ht1) as (t2 & Ht2 & _). rewrite Ht2 in Epin.
  apply (emits_bind_first is_woke) in H1; [| done | done].
  assert (tr4 = [] /\ n = name /\ tl = pin) as (-> & -> & ->).
  { destruct tr4 as [| e tr4]; destruct H1 as (x & _ & E & H1); [by injection E as -> -> _ |]. by apply emits_done in H1. }
  split; [done |]. exists s1, s2, t1, t2. split; [cbn; left |]. split; [cbn; do 3 right; left |]. done.
Qed.

(** A client allowed to wake the tenant: it is registered, and if it has a verifier
    the bytes the client sent next pass it. *)
Definition admitted (name : bytes) (a : saddr) (tr1 : list event) (s : Shared) (tr2 : list event) : Prop :=
  sh_registry s !! name = Some a /\
  (exists m, sent_startup (received tr1) m /\ tenant m = Some name) /\
  exists t, sh_heap s !! a = Some t /\
    match scram t with
    | None => True
    | Some secret => exists tr3 tr4, tr2 = tr3 ++ tr4 /\ result (authenticate random secret) (received tr3) = Ok tt
    end.

Definition wakes_properly (pre tr : list event) (name : bytes) (tl : option bytes) : Prop :=
  exists tr1 s tr2 a, pre ++ tr = tr1 ++ Stepped s s :: tr2 /\ admitted name a tr1 s tr2 /\ asleep_with_pin a tl tr2.

Lemma asleep_more a tl tr1 tr2 : asleep_with_pin a tl tr2 -> asleep_with_pin a tl (tr1 ++ tr2).
Proof using.
  intros (s1 & s2 & t1 & t2 & H1 & H2 & Hr). exists s1, s2, t1, t2. split; [by apply elem_of_app; right |]. split; [by apply elem_of_app; right |]. done.
Qed.

Lemma serve_startup_wakes pre m s tr n tl failed :
  shared_ok s -> sent_startup (received pre) m -> emits (serve_startup p fuel random m) s (tr ++ [Woke n tl failed]) ->
  wakes_properly pre tr n tl.
Proof using.
  intros Hs Hm H1. unfold serve_startup in H1. destruct (tenant m) as [name |] eqn:Et; [| by apply (never_last is_woke) in H1; [| never_task |]].
  apply (emits_bind_bad is_woke) in H1 as (tr1 & tr2 & s1 & st & -> & Hst & H1); [| never_task | done].
  apply ends_observe in Hst as (He & -> & ->). destruct (registry_get name s1) as [a |] eqn:Ea;
    [| by apply (never_last is_woke) in H1; [| never_task |]].
  assert (Hs1 : shared_ok s1) by by apply He. destruct (lookup_lt_is_Some_2 (sh_heap s1) a) as [t Ht]; [by eapply Hs1 |].
  apply (emits_bind_bad is_woke) in H1 as (tr3 & tr4 & s2 & v & -> & Hv & H1); [| never_task | done].
  apply ends_observe in Hv as (He2 & -> & Ev). destruct (evolves_lookup _ _ _ _ He2 Ht) as (t2 & Ht2 & Es). rewrite Ht2, Es in Ev.
  apply (emits_bind_bad is_woke) in H1 as (tr5 & tr6 & s3 & auth & -> & Hauth & H1); [| destruct v; never_task | done].
  destruct auth as [[] | e |]; [| by apply (never_last is_woke) in H1; [| never_task |] | by apply emits_done in H1].
  assert (s3 = s2 /\ match v with None => True | Some secret => result (authenticate random secret) (received tr5) = Ok tt end) as [-> Hok].
  { destruct v as [secret |]; [| by destruct Hauth as (_ & -> & _)].
    apply ends_converse in Hauth as [-> Hd]; [| apply strict_authenticate]. split; [done |].
    destruct (Hd []) as [out E]. rewrite app_nil_r in E. unfold result. by rewrite E. }
  unfold serve_tenant in H1. apply (emits_bind_bad is_woke) in H1 as (tr7 & tr8 & s4 & addr & -> & Hb & H1); [| never_task | done].
  apply ends_observe in Hb as (He4 & -> & _). destruct (evolves_lookup _ _ _ _ He4 Ht2) as (t4 & Ht4 & _).
  apply (emits_bind_first is_woke) in H1; [| | done].
  2: { intros [[] | e |]; [| done | done]. unfold guarded. pose proof never_splice. never_tried. }
  destruct (ensure_awake_wakes _ _ _ _ _ _ _ _ _ Ht4 H1) as [-> Hw].
  exists pre, s1, ([Stepped s2 s2] ++ tr5 ++ [Stepped s4 s4] ++ tr8), a. split; [done |]. split; [| by do 3 apply asleep_more].
  split; [done |]. split; [by exists m |]. exists t. split; [done |]. rewrite <- Ev. destruct v as [secret |]; [| done].
  by exists ([Stepped s2 s2] ++ tr5), ([Stepped s4 s4] ++ tr8).
Qed.

Lemma serve_over_wakes pre startup s tr n tl failed :
  shared_ok s -> match startup with Some m => sent_startup (received pre) m | None => True end ->
  emits (serve_over p fuel random startup) s (tr ++ [Woke n tl failed]) -> wakes_properly pre tr n tl.
Proof using.
  intros Hs Hm H1. unfold serve_over in H1. pose proof (never_read_startup fuel) as Hnr. pose proof (calm_read_startup fuel) as Hcr.
  apply (emits_ttry_bad is_woke) in H1 as (tr1 & tr2 & s1 & r & -> & Hr & H1); [| destruct startup; never_task | done].
  assert (evolves s s1 /\ shared_ok s1) as [He Hs1] by (eapply ends_evolves; [| exact Hs | exact Hr]; by destruct startup).
  destruct r as [m |]; [| by apply emits_done in H1].
  assert (Hm1 : sent_startup (received (pre ++ tr1)) m).
  { rewrite received_app. destruct startup as [m0 |]; [| by apply sent_startup_more, (ends_read_startup fuel s _ s1)].
    apply ends_first in Hr as (-> & -> & [= ->]). by rewrite app_nil_r. }
  destruct (serve_startup_wakes _ _ _ _ _ _ _ Hs1 Hm1 H1) as (q1 & s2 & q2 & a & E & Hw). exists q1, s2, q2, a.
  split; [by rewrite <- E, <- app_assoc | done].
Qed.

Lemma wakes_later pre tr1 tr2 n tl : wakes_properly (pre ++ tr1) tr2 n tl -> wakes_properly pre (tr1 ++ tr2) n tl.
Proof using. intros (q1 & s2 & q2 & a & E & Hw). exists q1, s2, q2, a. split; [by rewrite <- E, <- app_assoc | done]. Qed.

(** Answer a negotiation request and go on. *)
Lemma negotiated_wakes pre b s tr n tl failed :
  shared_ok s -> emits (do? _ := send_client b in serve_over p fuel random None) s (tr ++ [Woke n tl failed]) -> wakes_properly pre tr n tl.
Proof using.
  intros Hs H1. apply (emits_ttry_bad is_woke) in H1 as (tr1 & tr2 & s1 & ? & -> & Hr & H1); [| apply never_send | done].
  destruct (ends_evolves _ _ _ _ _ (calm_send b) Hs Hr) as [_ Hs1]. apply wakes_later. by apply (serve_over_wakes _ None _ _ _ _ failed Hs1 I).
Qed.

(** C8: only an admitted client wakes compute.  In every run of a connection, among
    any other tasks and whatever the peers answer, the activator is asked to start
    a tenant only after the client's startup packet named that tenant, the tenant
    was found in the registry, and, if it has a verifier, the bytes the client
    sent from there on passed the SCRAM exchange against it; and then only when
    the compute was seen not running, with the timeline the tenant is pinned to. *)
Theorem only_admitted_clients_wake s tr name tl failed :
  shared_ok s -> emits (handle_connection p fuel random) s (tr ++ [Woke name tl failed]) ->
  exists tr1 s1 tr2 a, tr = tr1 ++ Stepped s1 s1 :: tr2 /\ admitted name a tr1 s1 tr2 /\ asleep_with_pin a tl tr2.
Proof using.
  intros Hs H1. apply (emits_bind_first is_woke) in H1; [| done | done]. change (wakes_properly [] tr name tl). unfold serve_client in H1.
  apply (emits_ttry_bad is_woke) in H1 as (tr1 & tr2 & s1 & r & -> & Hr & H1); [| apply never_read_raw | done].
  destruct r as [raw |]; [| by apply emits_done in H1].
  destruct (ends_evolves _ _ _ _ _ calm_read_raw Hs Hr) as [_ Hs1]. apply ends_read_raw in Hr as [-> Hr].
  apply (emits_ttry_bad is_woke) in H1 as (tr3 & tr4 & s2 & first & -> & (-> & -> & Hf%first_message_Ok)%ends_first & H1); [| done | done].
  apply wakes_later. cbn [app]. destruct first as [m | | | pid key].
  - eapply serve_over_wakes; [exact Hs1 | | exact H1]. exists [], raw. by rewrite Hr.
  - destruct (tls p); [| by eapply negotiated_wakes].
    apply (emits_ttry_bad is_woke) in H1 as (tr5 & tr6 & s3 & ? & -> & Hr3 & H1); [| apply never_send | done].
    destruct (ends_evolves _ _ _ _ _ (calm_send _) Hs1 Hr3) as [_ Hs3]. apply wakes_later.
    apply (emits_bind_bad is_woke) in H1 as (tr7 & tr8 & s4 & ok & -> & (-> & -> & _)%ends_await & H1); [| never_task | done].
    apply (emits_ttry_bad is_woke) in H1 as (tr9 & tr10 & s5 & ? & -> & (-> & -> & _)%ends_first & H1); [| done | done].
    apply wakes_later. by apply (serve_over_wakes _ None _ _ _ _ failed Hs3 I).
  - by eapply negotiated_wakes.
  - by apply (never_last is_woke) in H1; [| apply never_route_cancel |].
Qed.
End Waking.
#[local] Existing Instance toy_crypto.

Definition demo_entries : list (bytes * TenantState) := [(text "shop", TenantState_new (text "h:1") true 0)].
Definition demo_packet : bytes := startup_packet PROTOCOL_V3 [(text "user", text "shop")].

(** A connection up to the wake, and on to the guard. *)
Definition to_awake (i : nat) : list move :=
  [Go i; Answer i (Reads (Got (take 4 demo_packet))); Answer i (Reads (Got (drop 4 demo_packet)));
   Go i; Go i; Go i; Go i; Answer i (Attempts true 1); Go i; Go i].
Definition to_guard (i : nat) : list move := [Answer i (Succeeds true); Answer i (Succeeds true); Go i; Go i].

Abbreviation demo_program := (program (fun b => b) (text "h:1")).

Definition demo_start : config :=
  (registry_from demo_entries 0, [serve Proxy_default 3 []; reaper_run 1 idle_minute]).

Definition demo_run (ms : list move) : config := default demo_start (make_moves ms demo_start).

Definition moves_fit (ms : list move) : bool := match make_moves ms demo_start with Some _ => true | None => false end.

Lemma demo_reachable ms : moves_fit ms = true -> rtc (sys_step demo_program) (starts demo_entries 0) (demo_run ms).
Proof.
  unfold moves_fit, demo_run. destruct (make_moves ms demo_start) as [c |] eqn:Ec; [intros _ | done]. cbn [default].
  eapply rtc_l; [apply run_spawn, (runs_connection _ _ Proxy_default 3 []) |].
  eapply rtc_l; [apply run_spawn, (runs_reaper _ _ 1 idle_minute) |]. by eapply make_moves_reach.
Qed.


Definition asks_to_stop (name : bytes) (p : option (task unit)) : bool :=
  match p with Some (Await (Stop n) _) => bool_decide (n = name) | _ => false end.

(** The guard comes after the wake: between the two the tenant still looks idle.  A
    reaper pass in that window asks for the compute to be stopped, and the client
    is then spliced to a compute that is being stopped. *)
Lemma reaper_may_stop_busy_tenant :
  exists s ts, rtc (sys_step demo_program) (starts demo_entries 0) (s, ts) /\
    asks_to_stop (text "shop") (ts !! 1%nat) = true /\ gauge s 0 = 1.
Proof.
  pose (ms := Tick (2 * 60 * 10 ^ 9) :: to_awake 0 ++ replicate 9 (Go 1) ++ to_guard 0).
  assert (Hr : rtc (sys_step demo_program) (starts demo_entries 0) (demo_run ms)) by (apply demo_reachable; vm_compute; reflexivity).
  assert (Hg : gauge (demo_run ms).1 0 = 1) by (vm_compute; reflexivity).
  assert (Hp : asks_to_stop (text "shop") ((demo_run ms).2 !! 1%nat) = true) by (vm_compute; reflexivity).
  destruct (demo_run ms) as [s ts]. by exists s, ts.
Qed.

(** A tenant with a verifier, asleep and pinned, and a client that knows the password. *)
Definition demo_secret : ScramSecret := from_password (text "s3cret") (text "a-pinch-of-salt") 3.
Definition demo_state : Shared :=
  update 0 (set_pinned_timeline (Some (text "t9"))) (registry_from [(text "shop", with_scram (text "h:1") false demo_secret 0)] 0).

Definition read_frame (b : bytes) : list answer :=
  [Reads (Got (take 1 b)); Reads (Got (take 4 (drop 1 b))); Reads (Got (drop 5 b))].

Definition demo_answers : list answer :=
  let n := i32_of (take 4 (drop 1 recorded_session)) in
  [Reads (Got (take 4 demo_packet)); Reads (Got (drop 4 demo_packet)); Succeeds true] ++
  read_frame (take (Z.to_nat (1 + n)) recorded_session) ++ [Succeeds true] ++
  read_frame (drop (Z.to_nat (1 + n)) recorded_session) ++ [Succeeds true; Replies None].

Definition demo_events : list event := play (handle_connection Proxy_default 3 (replicate 18 x02)) demo_state demo_answers.

Lemma only_admitted_clients_wake_witness :
  shared_ok demo_state /\
  exists tr1 s1 tr2 a, take 18 demo_events = tr1 ++ Stepped s1 s1 :: tr2 /\
    admitted (replicate 18 x02) (text "shop") a tr1 s1 tr2 /\ asleep_with_pin a (Some (text "t9")) tr2.
Proof.
  assert (Hs : shared_ok demo_state).
  { apply update_evolves; [done | done |]. by apply (registry_from_inv [(text "shop", with_scram (text "h:1") false demo_secret 0)] 0), Forall_singleton. }
  assert (E : demo_events !! 18%nat = Some (Woke (text "shop") (Some (text "t9")) None)) by (vm_compute; reflexivity).
  split; [exact Hs |].
  apply (only_admitted_clients_wake Proxy_default 3 (replicate 18 x02) demo_state (take 18 demo_events) (text "shop") (Some (text "t9")) None); [exact Hs |].
  rewrite <- (take_S_r demo_events 18 _ E). apply emits_take, play_emits.
Defined.

(** Registering a tenant again replaces its state: the verifier, the pin and the
    connection gauge of the old one no longer count. *)
Lemma register_forgets_verifier dbg tmpl name s :
  contains (text ":") (replace_all (text "{tenant}") name tmpl) = true ->
  match finish (register dbg tmpl name) s [] with
  | Some (s', (status, _)) => status = 200 /\ exists a t, sh_registry s' !! name = Some a /\ sh_heap s' !! a = Some t /\
      scram t = None /\ pinned_timeline t = None /\ keep_warm t = false /\ running t = false /\ active_conns t = 0
  | None => False
  end.
Proof.
  intros E. unfold register. cbv zeta. rewrite E. cbn. split; [done |].
  exists (length (sh_heap s)), (TenantState_new (replace_all (text "{tenant}") name tmpl) false (sh_now s)).
  split; [apply lookup_insert_eq |]. split; [by apply list_lookup_middle |]. done.
Qed.
