(* ===== verification/ProxyMetrics.v ===== *)
(** What the proxy exports about itself (src/proxy/src/metrics.rs and its uses in
    proxy.rs, idle.rs and control.rs): a small logic of what a task still owes to a
    count, the connection gauges under every interleaving, and the wakes. *)

From S2P Require Import Prelude Bytes Text Metrics PageVersion Http Dialogue ProxyProtocol Cancel Scram Compute Schedule Reaper Proxy.

(** ** The calls a task makes *)

(** Every step leaves the log alone or makes one call that is [ok]. *)
Fixpoint writes {A} (ok : metric_call -> Prop) (p : task A) : Prop :=
  match p with
  | Done _ => True
  | Step f k =>
      (forall s, sh_metrics (f s).1 = sh_metrics s \/ exists c, ok c /\ sh_metrics (f s).1 = c :: sh_metrics s) /\
      forall x, writes ok (k x)
  | Await q k => forall x, writes ok (k x)
  end.

Section Writes.
Context (ok : metric_call -> Prop).

Lemma writes_bind {A B} (m : task A) (f : A -> task B) : writes ok m -> (forall a, writes ok (f a)) -> writes ok (tbind m f).
Proof using.
  induction m as [a | X g k IH | X q k IH]; cbn; [auto | |].
  - intros [H1 H2] Hf. split; [done |]. intros x. by apply IH.
  - intros H Hf x. by apply IH.
Qed.

Lemma writes_ttry {E A B} (m : task (outcome E A)) (f : A -> task (outcome E B)) :
  writes ok m -> (forall a, writes ok (f a)) -> writes ok (ttry m f).
Proof using. intros Hm Hf. apply writes_bind; [done |]. intros [a | e |]; [apply Hf | done | done]. Qed.

Lemma writes_meter c : ok c -> writes ok (meter c).
Proof using. intros Hc. split; [intros s; right; by exists c | done]. Qed.

(** A step that leaves the log alone. *)
Lemma writes_other {X} (f : Shared -> Shared * X) : (forall s, sh_metrics (f s).1 = sh_metrics s) -> writes ok (atomically f).
Proof using. intros Hf. split; [intros s; by left | done]. Qed.

Lemma writes_converse {A} (d : dialogue A) : writes ok (converse d).
Proof using. induction d; cbn; done. Qed.
End Writes.

Create HintDb writes.
#[export] Hint Resolve writes_converse : writes.
#[export] Hint Extern 1 (writes _ (Done _)) => exact I : writes.
#[export] Hint Extern 1 (writes _ (await _)) => (intros ?; exact I) : writes.
#[export] Hint Extern 1 (writes _ (observe _)) => (apply writes_other; done) : writes.
#[export] Hint Extern 1 (writes _ (read_state _ _ _)) => (apply writes_other; done) : writes.
#[export] Hint Extern 1 (writes _ (touch_now _)) => (apply writes_other; done) : writes.
#[export] Hint Extern 1 (writes _ (modify _)) => (apply writes_other; done) : writes.

(** A call the proxy may make: it fits its static, and sets nothing but 0 or 1. *)
Definition plain (c : metric_call) : bool :=
  bool_decide ((target c).1 ∈ proxy_statics) && fits c &&
  match c with IncBy _ _ _ => false | SetTo _ _ v => (0 <=? v) && (v <=? 1) | _ => true end.

(** One that is on none of these. *)
Definition clear_of (ms : list metric) (c : metric_call) : Prop := plain c = true /\ (target c).1 ∉ ms.

(** One that counts neither open connections nor wakes. *)
Definition steady : metric_call -> Prop := clear_of [ACTIVE_CONNECTIONS; DB_ACTIVE; WAKES; DB_WAKES].

Ltac steady_call := split; [vm_compute; reflexivity | apply (bool_decide_eq_true_1 _); vm_compute; reflexivity].

Lemma steady_up name b : steady (compute_up_call name b).
Proof. destruct b; steady_call. Qed.

#[export] Hint Extern 1 (writes _ (meter _)) => (apply writes_meter; steady_call) : writes.
#[export] Hint Extern 1 (writes steady (set_compute_up _ _)) => (apply writes_meter, steady_up) : writes.

(** Go through a task up to its atomic parts. *)
Ltac writes_task :=
  repeat first
    [ solve [auto with writes]
    | apply writes_ttry; [| intros ?]
    | apply writes_bind; [| intros ?]
    | match goal with |- writes _ (match ?x with _ => _ end) => destruct x end ].

Section Steady.
Context `{NameOrder}.

Lemma writes_reapable idle a : writes steady (is_reapable idle a).
Proof using. unfold is_reapable, is_running, is_kept_warm, conns. writes_task. Qed.

Lemma writes_cold a : writes steady (is_cold a).
Proof using. unfold is_cold, is_running, is_kept_warm. writes_task. Qed.

Lemma writes_filter p l : (forall a, writes steady (p a)) -> writes steady (filter_tenants p l).
Proof using. intros Hp. induction l as [| [name a] l IH]; cbn [filter_tenants]; writes_task. Qed.

Lemma writes_reap_once idle : writes steady (reap_once idle).
Proof using.
  unfold reap_once, tenants. writes_task; [apply writes_filter, writes_reapable |]. rename a0 into l.
  induction l as [| [name b] l IH]; cbn [reap_all]; [done |]. pose proof (writes_reapable idle b). writes_task.
Qed.

Lemma writes_warm_once : writes steady warm_once.
Proof using.
  unfold warm_once, tenants. writes_task; [apply writes_filter, writes_cold |]. rename a0 into l.
  induction l as [| [name b] l IH]; cbn [warm_all]; unfold is_running, is_kept_warm, pin_of; writes_task.
Qed.

Lemma writes_reaper ticks idle : writes steady (reaper_run ticks idle).
Proof using. pose proof (writes_reap_once idle). pose proof writes_warm_once. induction ticks as [| n IH]; cbn [reaper_run]; writes_task. Qed.

Lemma writes_items l : writes steady (tenant_items l).
Proof using. induction l as [| [name a] l IH]; cbn [tenant_items]; unfold is_running, is_kept_warm, conns; writes_task. Qed.

Lemma writes_control dbg tmpl rs : writes steady (handle_control dbg tmpl rs).
Proof using.
  assert (writes steady list_tenants) by (pose proof writes_items; unfold list_tenants, tenants; writes_task).
  assert (forall name, writes steady (deregister name)) by (intros name; unfold deregister; writes_task; apply writes_other; done).
  assert (forall name b, writes steady (set_compute name b)) by (intros name b; unfold set_compute, pin_of; writes_task).
  assert (forall name tl, writes steady (set_pin name tl)) by (intros name tl; unfold set_pin; writes_task).
  assert (forall name b, writes steady (change_keep_warm name b)) by (intros name b; unfold change_keep_warm, is_running, pin_of; writes_task).
  assert (forall name, writes steady (register dbg tmpl name)) by (intros name; unfold register; writes_task).
  unfold handle_control, route_control. writes_task.
Qed.
End Steady.

Lemma writes_send b : writes steady (send_client b).
Proof. unfold send_client. writes_task. Qed.

Lemma writes_read_raw : writes steady read_raw_message.
Proof. unfold read_raw_message. cbv zeta. writes_task. Qed.

Lemma writes_route_cancel pid key : writes steady (route_cancel pid key).
Proof. unfold route_cancel. writes_task. Qed.

Lemma writes_reject code msg : writes steady (reject code msg).
Proof. unfold reject. writes_task. Qed.

#[export] Hint Resolve writes_send writes_read_raw writes_route_cancel writes_reject : writes.

Lemma writes_read_startup rounds : writes steady (read_startup rounds).
Proof. induction rounds as [| n IH]; cbn [read_startup]; writes_task. Qed.

Lemma writes_splice fuel addr : writes steady (splice_capturing_cancel_key fuel addr).
Proof.
  unfold splice_capturing_cancel_key. apply writes_ttry; [| intros captured; writes_task].
  generalize KeyScanner_new (@None CancelKey). induction fuel as [| n IH]; intros sc captured; cbn [copy_to_client]; [done |].
  writes_task; destruct (if ks_done sc then _ else _) as [sc' [found | |]]; writes_task.
Qed.

Lemma writes_mono {A} (ok ok' : metric_call -> Prop) (p : task A) : (forall c, ok c -> ok' c) -> writes ok p -> writes ok' p.
Proof.
  intros Hok. induction p as [a | X f k IH | X q k IH]; cbn; [done | |].
  - intros [H1 H2]. split; [| auto]. intros s. destruct (H1 s) as [E | (c & Hc & E)]; [by left | right; exists c; auto].
  - auto.
Qed.

Lemma clear_mono ms ms' c : ms' ⊆ ms -> clear_of ms c -> clear_of ms' c.
Proof. intros Hs [H1 H2]. split; [done |]. set_solver. Qed.

(** ** What a task owes

    Events have weights.  [owes g p Q]: the task [p], with a balance of [g], keeps
    its balance within [range], and ends as [Q] says. *)

Section Owed.
Context (wt : event -> Z) (range : Z -> Prop).

Fixpoint owes {A} (g : Z) (p : task A) (Q : Z -> A -> Prop) : Prop :=
  match p with
  | Done a => Q g a
  | Step f k => forall s, range (g + wt (Stepped s (f s).1)) /\ owes (g + wt (Stepped s (f s).1)) (k (f s).2) Q
  | Await q k => forall x, range (g + wt (event_of q x)) /\ owes (g + wt (event_of q x)) (k x) Q
  end.

Definition weighty (e : event) : Prop := wt e <> 0.

Lemma owes_bind {A B} (m : task A) (f : A -> task B) (Q : Z -> B -> Prop) : forall g,
  owes g m (fun g' a => owes g' (f a) Q) -> owes g (tbind m f) Q.
Proof using.
  induction m as [a | X h k IH | X q k IH]; intros g H; cbn [owes tbind] in *; [done | |].
  - intros s. destruct (H s) as [Hr Hk]. split; [done |]. by apply IH.
  - intros x. destruct (H x) as [Hr Hk]. split; [done |]. by apply IH.
Qed.

Lemma owes_nothing {A} (p : task A) (Q : Z -> A -> Prop) : forall g, never weighty p -> range g -> (forall a, Q g a) -> owes g p Q.
Proof using.
  induction p as [a | X f k IH | X q k IH]; intros g Hn Hg HQ; cbn [owes never] in *; [done | |]; destruct Hn as [H1 H2].
  - intros s. assert (wt (Stepped s (f s).1) = 0) as -> by (destruct (decide (wt (Stepped s (f s).1) = 0)); [done | by destruct (H1 s)]).
    rewrite Z.add_0_r. split; [done |]. by apply IH.
  - intros x. assert (wt (event_of q x) = 0) as -> by (destruct (decide (wt (event_of q x) = 0)); [done | by destruct (H1 x)]).
    rewrite Z.add_0_r. split; [done |]. by apply IH.
Qed.

Lemma owes_then {A B} (m : task A) (f : A -> task B) (Q : Z -> B -> Prop) g :
  never weighty m -> range g -> (forall a, owes g (f a) Q) -> owes g (tbind m f) Q.
Proof using. intros Hm Hg Hf. apply owes_bind. by apply owes_nothing. Qed.

Lemma owes_ttry {E A B} (m : task (outcome E A)) (f : A -> task (outcome E B)) (Q : Z -> outcome E B -> Prop) g :
  never weighty m -> range g -> (forall r, Q g r) -> (forall a, owes g (f a) Q) -> owes g (ttry m f) Q.
Proof using. intros Hm Hg HQ Hf. apply owes_then; [done | done |]. intros [a | e |]; [apply Hf | apply HQ | apply HQ]. Qed.

(** The weight of a run. *)
Definition weight (tr : list event) : Z := foldr (fun e n => wt e + n) 0 tr.

Lemma owes_ends {A} (p : task A) (Q : Z -> A -> Prop) : forall g s tr s' a,
  owes g p Q -> ends p s tr s' a -> Q (g + weight tr) a.
Proof using.
  induction p as [b | X f k IH | X q k IH]; intros g s tr s' a Ho He; cbn [owes ends] in *.
  - destruct He as (-> & _ & ->). by rewrite Z.add_0_r.
  - destruct tr as [| e tr]; [done |]. destruct He as (s1 & _ & -> & He). cbn [weight foldr]. rewrite Z.add_assoc. by eapply IH; [apply Ho |].
  - destruct tr as [| e tr]; [done |]. destruct He as (x & _ & -> & He). cbn [weight foldr]. rewrite Z.add_assoc. by eapply IH; [apply Ho |].
Qed.
End Owed.

(** ** The connection gauges *)

Ltac by_compute_subset := intros ?; rewrite !elem_of_cons; tauto.

Ltac by_compute_elem := split; apply (bool_decide_eq_true_1 _); vm_compute; reflexivity.

Definition at_log (m : metric) (l : list bytes) (s : Shared) : Z := tally m l (sh_metrics s).

Section Gauge.
Context (m : metric) (l : list bytes).

(** What a step adds to the gauge. *)
Definition gauge_wt (e : event) : Z := match e with Stepped s s' => at_log m l s' - at_log m l s | _ => 0 end.

Definition one_or_none (g : Z) : Prop := 0 <= g <= 1.

(** A task that adds one to the gauge and takes it away again, and has still to
    take away [g]. *)
Definition owing (g : Z) (p : task unit) : Prop := owes gauge_wt one_or_none g p (fun g' _ => g' = 0).

Lemma gauge_wt_event {X} (q : ask X) x : gauge_wt (event_of q x) = 0.
Proof using. by destruct q. Qed.

Lemma writes_light {A} ms (p : task A) : m ∈ ms -> writes (clear_of ms) p -> never (weighty gauge_wt) p.
Proof using.
  intros Hm. induction p as [a | X f k IH | X q k IH]; cbn [writes never]; [done | |].
  - intros [H1 H2]. split; [| auto]. intros s Hs. apply Hs. unfold gauge_wt, at_log. destruct (H1 s) as [-> | (c & [_ Hc] & ->)]; [lia |].
    cbn [tally]. rewrite decide_False; [lia |]. intros E. by rewrite E in Hc.
  - intros Hp. split; [| auto]. intros x Hx. apply Hx, gauge_wt_event.
Qed.

Definition mark (m' : metric) (l' : list bytes) : Z := if decide ((m', l') = (m, l)) then 1 else 0.

Lemma owes_inc m' l' g (Q : Z -> unit -> Prop) :
  one_or_none (g + mark m' l') -> Q (g + mark m' l') tt -> owes gauge_wt one_or_none g (meter (Inc m' l')) Q.
Proof using.
  intros Hg HQ s. assert (gauge_wt (Stepped s (on_metrics (Inc m' l') s)) = mark m' l') as E.
  { unfold gauge_wt, at_log, mark. cbn [on_metrics sh_metrics tally target effect]. case_decide; lia. }
  cbn [fst snd]. by rewrite E.
Qed.

Lemma owes_dec m' l' g (Q : Z -> unit -> Prop) :
  one_or_none (g - mark m' l') -> Q (g - mark m' l') tt -> owes gauge_wt one_or_none g (meter (Dec m' l')) Q.
Proof using.
  intros Hg HQ s. assert (gauge_wt (Stepped s (on_metrics (Dec m' l') s)) = - mark m' l') as E.
  { unfold gauge_wt, at_log, mark. cbn [on_metrics sh_metrics tally target effect]. case_decide; lia. }
  cbn [fst snd]. by rewrite E.
Qed.

Hypothesis watched : m = ACTIVE_CONNECTIONS /\ l = [] \/ m = DB_ACTIVE.

Lemma watched_in : m ∈ [ACTIVE_CONNECTIONS; DB_ACTIVE] /\ m ∈ [ACTIVE_CONNECTIONS; DB_ACTIVE; WAKES; DB_WAKES].
Proof using watched. destruct watched as [[E _] | E]; rewrite E; by_compute_elem. Qed.

Lemma steady_light {A} (p : task A) : writes steady p -> never (weighty gauge_wt) p.
Proof using watched. apply writes_light, watched_in. Qed.

(** At most one of a guard's two gauges is this one. *)
Lemma marks_range db : 0 <= mark ACTIVE_CONNECTIONS [] /\ 0 <= mark DB_ACTIVE [db] /\ mark ACTIVE_CONNECTIONS [] + mark DB_ACTIVE [db] <= 1.
Proof using.
  unfold mark. destruct (decide ((ACTIVE_CONNECTIONS, []) = (m, l))) as [E1 |], (decide ((DB_ACTIVE, [db]) = (m, l))) as [E2 |]; try lia.
  rewrite <- E1 in E2. discriminate.
Qed.

Lemma owes_guarded {A} a db (t : task A) : writes steady t -> owes gauge_wt one_or_none 0 (guarded a db t) (fun g _ => g = 0).
Proof using watched.
  intros Ht%steady_light. pose proof (marks_range db) as Hm. unfold guarded, guard_new, guard_drop.
  assert (forall d, never (weighty gauge_wt) (do _ := modify (update a (add_conns d)) in touch_now a)) as Hc by (intros d; apply steady_light; writes_task).
  apply owes_bind, owes_then; [apply Hc | unfold one_or_none; lia |]. intros _.
  apply owes_bind, owes_inc; [unfold one_or_none; lia |]. apply owes_inc; [unfold one_or_none; lia |].
  apply owes_then; [exact Ht | unfold one_or_none; lia |]. intros r.
  apply owes_bind, owes_then; [apply Hc | unfold one_or_none; lia |]. intros _.
  apply owes_bind, owes_dec; [unfold one_or_none; lia |]. apply owes_dec; [unfold one_or_none; lia |]. cbn [owes]. lia.
Qed.

(** ** Every interleaving *)

Definition total (gs : list Z) : Z := foldr Z.add 0 gs.

Definition count_ok (c : config) : Prop :=
  exists gs, Forall2 owing gs c.2 /\ Forall one_or_none gs /\ at_log m l c.1 = total gs.

Lemma total_insert gs i g g' : gs !! i = Some g -> total (<[i := g']> gs) = total gs + g' - g.
Proof using.
  revert i; induction gs as [| h gs IH]; intros i E; [done |]. destruct i as [| i]; [cbn in *; injection E as ->; lia |].
  change (<[S i := g']> (h :: gs)) with (h :: <[i := g']> gs). cbn [total foldr]. fold (total gs) (total (<[i := g']> gs)). rewrite (IH i E). lia.
Qed.

Lemma total_app gs gs' : total (gs ++ gs') = total gs + total gs'.
Proof using. induction gs as [| g gs IH]; cbn [app total foldr]; [done |]. fold (total (gs ++ gs')) (total gs). lia. Qed.

Section System.
Context (program : task unit -> Prop).
Hypothesis program_owing : forall p, program p -> owing 0 p.

Lemma count_step c c' : sys_step program c c' -> count_ok c -> count_ok c'.
Proof using program_owing.
  intros Hstep (gs & Ho & Hr & Et). destruct Hstep as [s ts i X f k Hi | s ts i X q k x Hi Hx | s ts p Hp | s ts d Hd]; cbn [fst snd] in *.
  - destruct (Forall2_lookup_r _ _ _ _ _ Ho Hi) as (g & Eg & Hg). destruct (Hg s) as [Hr' Hk].
    exists (<[i := g + gauge_wt (Stepped s (f s).1)]> gs). split; [by apply Forall2_insert |]. split; [by apply Forall_insert |].
    cbn [fst snd]. rewrite (total_insert gs i g) by done. unfold gauge_wt. lia.
  - destruct (Forall2_lookup_r _ _ _ _ _ Ho Hi) as (g & Eg & Hg). destruct (Hg x) as [Hr' Hk].
    exists (<[i := g + gauge_wt (event_of q x)]> gs). split; [by apply Forall2_insert |]. split; [by apply Forall_insert |].
    cbn [fst snd]. rewrite (total_insert gs i g) by done. rewrite gauge_wt_event. lia.
  - exists (gs ++ [0]). split; [apply Forall2_app; [done |]; apply Forall2_cons; split; [by apply program_owing | done] |].
    split; [apply Forall_app; split; [done |]; apply Forall_singleton; unfold one_or_none; lia |]. cbn [fst snd]. rewrite total_app. cbn. lia.
  - by exists gs.
Qed.

Lemma count_reach c c' : rtc (sys_step program) c c' -> count_ok c -> count_ok c'.
Proof using program_owing. induction 1 as [| c1 c2 c3 H1 H2 IH]; [done |]. intros Hc. by eapply IH, count_step. Qed.
End System.
End Gauge.

(** ** The proxy *)

Lemma writes_clear {A} ms (p : task A) : ms ⊆ [ACTIVE_CONNECTIONS; DB_ACTIVE; WAKES; DB_WAKES] -> writes steady p -> writes (clear_of ms) p.
Proof. intros Hs. apply writes_mono. intros c. by apply clear_mono. Qed.

Section Served.
Context `{Crypto} (p : Proxy) (fuel : nat) (random : bytes).

Lemma writes_ensure_awake name a addr : writes (clear_of [ACTIVE_CONNECTIONS; DB_ACTIVE]) (ensure_awake p name a addr).
Proof using. unfold ensure_awake, is_running, pin_of, set_compute_up. writes_task. Qed.

(** A connection is its guarded splice, and for the rest does not count itself;
    [light] is what the parts before the splice are. *)
Section Connection.
Context (wt : event -> Z) (range : Z -> Prop).
Hypothesis range_0 : range 0.
Hypothesis light : forall A (t : task A), writes steady t -> never is_woke t -> never (weighty wt) t.
Hypothesis awake_0 : forall name a addr (Q : Z -> outcome ProxyError unit -> Prop), (forall r, Q 0 r) -> owes wt range 0 (ensure_awake p name a addr) Q.
Hypothesis guarded_0 : forall A a db (t : task A), writes steady t -> never is_woke t -> owes wt range 0 (guarded a db t) (fun g _ => g = 0).

Let even {A} (g : Z) (_ : A) : Prop := g = 0.

Ltac light_part := apply light; [writes_task | never_task].

Lemma owes_serve_tenant startup name a : owes wt range 0 (serve_tenant p fuel startup name a) even.
Proof using range_0 light awake_0 guarded_0.
  unfold serve_tenant, static_of. apply owes_then; [light_part | done |]. intros addr.
  apply owes_bind, awake_0. intros [[] | e |]; [| done | done]. cbn beta iota.
  apply owes_then; [light_part | done |]. intros ok. apply owes_ttry; [light_part | done | done |]. intros _.
  apply owes_then; [light_part | done |]. intros ok'. apply owes_ttry; [light_part | done | done |]. intros _.
  apply owes_then; [light_part | done |]. intros _. apply guarded_0; [apply writes_splice | apply never_splice].
Qed.

Lemma owes_serve_startup startup : owes wt range 0 (serve_startup p fuel random startup) even.
Proof using range_0 light awake_0 guarded_0.
  unfold serve_startup. pose proof never_reject. pose proof (@never_converse).
  destruct (tenant startup) as [name |]; [| apply owes_then; [light_part | done | done]].
  apply owes_then; [light_part | done |]. intros [a |]; [| apply owes_then; [light_part | done | done]].
  unfold static_of. apply owes_then; [light_part | done |]. intros v.
  apply owes_then; [destruct v; light_part | done |]. intros [[] | e |]; [apply owes_serve_tenant | | done].
  apply owes_then; [light_part | done |]. intros _. apply owes_then; [light_part | done | done].
Qed.

Lemma owes_serve_over startup : owes wt range 0 (serve_over p fuel random startup) even.
Proof using range_0 light awake_0 guarded_0.
  unfold serve_over. pose proof (writes_read_startup fuel). pose proof (never_read_startup fuel).
  apply owes_ttry; [destruct startup; light_part | done | done |]. intros [m |]; [apply owes_serve_startup | done].
Qed.

Lemma owes_serve : owes wt range 0 (serve p fuel random) even.
Proof using range_0 light awake_0 guarded_0.
  unfold serve, handle_connection, serve_client. pose proof never_send. pose proof never_read_raw. pose proof never_route_cancel.
  apply owes_then; [light_part | done |]. intros _. apply owes_bind. cbn [owes].
  apply owes_ttry; [light_part | done | done |]. intros [raw |]; [| done].
  apply owes_ttry; [light_part | done | done |]. intros [m | | | pid key]; [apply owes_serve_over | destruct (tls p) | |].
  - apply owes_ttry; [light_part | done | done |]. intros _. apply owes_then; [light_part | done |]. intros ok.
    apply owes_ttry; [light_part | done | done |]. intros _. apply owes_serve_over.
  - apply owes_ttry; [light_part | done | done |]. intros _. apply owes_serve_over.
  - apply owes_ttry; [light_part | done | done |]. intros _. apply owes_serve_over.
  - apply owes_nothing; [light_part | done | done].
Qed.
End Connection.
End Served.

(** ** The log *)

Lemma tally_range m l log :
  Forall (fun c => plain c = true) log ->
  tally m l log <= Z.of_nat (length log) /\ (if is_gauge m then - Z.of_nat (length log) else 0) <= tally m l log.
Proof.
  induction 1 as [| c log Hc Hlog IH]; cbn [tally length]; [by destruct (is_gauge m) |].
  case_decide as E; [| destruct (is_gauge m); lia]. unfold plain, fits in Hc. rewrite E in Hc. cbn [fst snd] in Hc.
  destruct c as [m' l' | m' l' n | m' l' | m' l' v]; cbn [target effect] in *; injection E as -> ->; bool_to_prop.
  - destruct (is_gauge m); lia.
  - done.
  - destruct (is_gauge m) eqn:Eg; [lia | exfalso; intuition congruence].
  - destruct (is_gauge m) eqn:Eg; [lia | exfalso; intuition congruence].
Qed.

Lemma plain_bounded log : Forall (fun c => plain c = true) log -> Z.of_nat (length log) < 2 ^ 63 -> bounded log.
Proof.
  intros Hlog. induction Hlog as [| c log Hc Hlog IH]; intros Hn; [done |]. cbn [length] in Hn. split; [| apply IH; lia].
  pose proof (tally_range (target c).1 (target c).2 (c :: log) ltac:(by apply Forall_cons)) as Hr. cbn [length] in Hr. unfold in_width.
  destruct (is_gauge (target c).1); lia.
Qed.

Section Program.
Context `{Crypto} `{NameOrder} (debug_str : bytes -> bytes) (tmpl : bytes).

Abbreviation runs_in := (sys_step (program debug_str tmpl)).

Lemma program_owing m l : m = ACTIVE_CONNECTIONS /\ l = [] \/ m = DB_ACTIVE -> forall q, program debug_str tmpl q -> owing m l 0 q.
Proof using.
  intros Hw q [p fuel random | rs | ticks idle].
  - apply owes_serve.
    + unfold one_or_none; lia.
    + intros A t Ht _. by eapply steady_light.
    + intros name a addr Q HQ. apply owes_nothing; [| unfold one_or_none; lia | done].
      apply (writes_light m l [ACTIVE_CONNECTIONS; DB_ACTIVE]); [by apply (watched_in m l) | apply writes_ensure_awake].
    + intros A a db t Ht _. by apply owes_guarded.
  - apply owes_nothing; [| unfold one_or_none; lia | done]. eapply steady_light; [done |].
    pose proof (writes_control debug_str tmpl rs). writes_task.
  - apply owes_nothing; [| unfold one_or_none; lia | done]. eapply steady_light; [done |]. apply writes_reaper.
Qed.

Lemma writes_guarded {A} a db (t : task A) : writes steady t -> writes (clear_of []) (guarded a db t).
Proof using.
  intros Ht%(writes_clear []); [| set_solver]. unfold guarded, guard_new, guard_drop, connection_started, connection_finished. writes_task.
Qed.

Lemma program_plain q : program debug_str tmpl q -> writes (clear_of []) q.
Proof using.
  assert (Hs : forall A (t : task A), writes steady t -> writes (clear_of []) t) by (intros A t; apply writes_clear; set_solver).
  intros [p fuel random | rs | ticks idle].
  - pose proof (fun m => Hs _ _ (writes_send m)). pose proof (Hs _ _ writes_read_raw). pose proof (fun i k => Hs _ _ (writes_route_cancel i k)).
    pose proof (fun c m => Hs _ _ (writes_reject c m)). pose proof (Hs _ _ (writes_read_startup fuel)).
    pose proof (fun a db addr => writes_guarded a db _ (writes_splice fuel addr)).
    assert (forall name a addr, writes (clear_of []) (ensure_awake p name a addr)).
    { intros. eapply writes_mono; [| apply writes_ensure_awake]. intros c. apply clear_mono. set_solver. }
    unfold serve, handle_connection, serve_client, serve_over, serve_startup, serve_tenant, static_of. writes_task.
  - apply Hs. pose proof (writes_control debug_str tmpl rs). writes_task.
  - apply Hs, writes_reaper.
Qed.

Lemma log_plain c c' : rtc runs_in c c' ->
  Forall (fun k => plain k = true) (sh_metrics c.1) -> Forall (writes (clear_of [])) c.2 ->
  Forall (fun k => plain k = true) (sh_metrics c'.1).
Proof using.
  induction 1 as [| c1 c2 c3 Hst Hr IH]; [done |]. intros Hl Hts.
  apply IH; destruct Hst as [s ts i X f k Hi | s ts i X q k x Hi Hx | s ts q Hq | s ts d Hd]; cbn [fst snd] in *; try done.
  - destruct (Forall_lookup_1 _ _ _ _ Hts Hi) as [Hf _]. destruct (Hf s) as [-> | (c & [Hc _] & ->)]; [done |]. by apply Forall_cons.
  - apply Forall_insert; [done |]. by apply (Forall_lookup_1 _ _ _ _ Hts Hi).
  - apply Forall_insert; [done |]. by apply (Forall_lookup_1 _ _ _ _ Hts Hi).
  - apply Forall_app. split; [done |]. apply Forall_singleton. by apply program_plain.
Qed.

Lemma registry_from_log entries now : sh_metrics (registry_from entries now) = [].
Proof using.
  unfold registry_from. generalize (mkShared [] ∅ ∅ now []) (eq_refl : sh_metrics (mkShared [] ∅ ∅ now []) = []).
  induction entries as [| e es IH]; intros s Hs; [done |]. cbn [fold_left]. by apply IH.
Qed.

(** The connection gauges are exact. *)
Lemma gauge_counts entries now s ts m l :
  m = ACTIVE_CONNECTIONS /\ l = [] \/ m = DB_ACTIVE -> rtc runs_in (starts entries now) (s, ts) -> count_ok m l (s, ts).
Proof using.
  intros Hw Hr. apply (count_reach m l (program debug_str tmpl)) in Hr; [done | by apply program_owing |].
  exists []. split; [by apply Forall2_nil |]. split; [done |]. unfold at_log, starts. cbn [fst]. by rewrite registry_from_log.
Qed.

(** C7: what the proxy exports is exact under every interleaving.  Whatever tenants the
    proxy starts with and however its connections, control requests and reaper
    passes interleave, no use of a metric panics (fewer than 2^63 having been
    made), every exported value is what the calls made add up to, and the two
    connection gauges count connections: each is a sum of one or nothing for every
    task, and a task counts one exactly while it has still to take one away; so
    they are never negative, and zero when every task has ended. *)
Theorem exported_gauges_are_exact {R} `{PrometheusLaws R} entries now s ts :
  rtc runs_in (starts entries now) (s, ts) -> Z.of_nat (length (sh_metrics s)) < 2 ^ 63 ->
  exists x : process R, replay (sh_metrics s) = Ok x /\
    (forall m l, m ∈ proxy_statics -> prom_value (registry x) (m_name m) l = tally m l (sh_metrics s)) /\
    forall m l, m = ACTIVE_CONNECTIONS /\ l = [] \/ m = DB_ACTIVE ->
      exists gs, Forall2 (owing m l) gs ts /\ Forall one_or_none gs /\ prom_value (registry x) (m_name m) l = total gs /\
        (Forall (fun q => q = Done tt) ts -> prom_value (registry x) (m_name m) l = 0).
Proof using.
  intros Hr Hn. assert (Hp : Forall (fun k => plain k = true) (sh_metrics s)).
  { apply (log_plain _ _ Hr); [| done]. unfold starts. cbn [fst]. by rewrite registry_from_log. }
  destruct (replay_ok (R := R) proxy_statics (proj1 proxy_statics_ok) (proj2 proxy_statics_ok) (sh_metrics s)) as (x & Ex & Hv).
  { eapply Forall_impl; [exact Hp |]. intros c [[Hc%bool_decide_eq_true ?]%andb_true_iff _]%andb_true_iff. done. }
  { by apply plain_bounded. }
  exists x. split; [done |]. split; [done |]. intros m l Hw. destruct (gauge_counts _ _ _ _ _ _ Hw Hr) as (gs & Ho & Hr1 & Et).
  cbn [fst snd] in *. exists gs. split; [done |]. split; [done |].
  assert (Em : prom_value (registry x) (m_name m) l = total gs).
  { rewrite Hv; [done |]. destruct Hw as [[-> _] | ->]; apply (bool_decide_eq_true_1 _); vm_compute; reflexivity. }
  split; [done |]. intros Hd. rewrite Em. clear -Ho Hd. induction Ho as [| g q gs ts Hg Ho IH]; [done |].
  apply Forall_cons in Hd as [-> Hd]. cbn in Hg. cbn [total foldr]. fold (total gs). rewrite (IH Hd). lia.
Qed.
End Program.

(** ** Wakes *)

(** The wakes of a run less the calls that count them. *)
Definition wake_wt (m : metric) (l : list bytes) (sel : bytes -> bool) (e : event) : Z :=
  match e with
  | Woke n _ _ => if sel n then 1 else 0
  | Stepped s s' => at_log m l s - at_log m l s'
  | _ => 0
  end.

(** How many of a run's events are wakes, and how far it moved a counter. *)
Definition woken (sel : bytes -> bool) (tr : list event) : Z :=
  foldr (fun e n => (match e with Woke name _ _ => if sel name then 1 else 0 | _ => 0 end) + n) 0 tr.

Definition counted (m : metric) (l : list bytes) (tr : list event) : Z :=
  foldr (fun e n => (match e with Stepped s s' => at_log m l s' - at_log m l s | _ => 0 end) + n) 0 tr.

Lemma wake_weight m l sel tr : weight (wake_wt m l sel) tr = woken sel tr - counted m l tr.
Proof.
  unfold weight, woken, counted. induction tr as [| e tr IH]; [done |]. cbn [foldr]. rewrite IH.
  destruct e; cbn [wake_wt]; lia.
Qed.

Section Wakes.
Context (m : metric) (l : list bytes) (sel : bytes -> bool).

(** What a wake of a tenant adds to the counter. *)
Hypothesis counts : forall name, (if decide ((WAKES, []) = (m, l)) then 1 else 0) + (if decide ((DB_WAKES, [name]) = (m, l)) then 1 else 0) =
  (if sel name then 1 else 0).
Hypothesis a_counter : m = WAKES \/ m = DB_WAKES.

Lemma counter_in : m ∈ [WAKES; DB_WAKES] /\ m ∈ [ACTIVE_CONNECTIONS; DB_ACTIVE; WAKES; DB_WAKES].
Proof using a_counter. destruct a_counter as [E | E]; rewrite E; by_compute_elem. Qed.

Lemma wake_light {A} ms (t : task A) : m ∈ ms -> writes (clear_of ms) t -> never is_woke t -> never (weighty (wake_wt m l sel)) t.
Proof using.
  intros Hm. induction t as [a | X f k IH | X q k IH]; cbn [writes never]; [done | |].
  - intros [H1 H2] [_ H4]. split; [| auto]. intros s Hs. apply Hs. cbn [wake_wt]. unfold at_log.
    destruct (H1 s) as [-> | (c & [_ Hc] & ->)]; [lia |]. cbn [tally]. rewrite decide_False; [lia |]. intros E. by rewrite E in Hc.
  - intros H1 [H3 H4]. split; [| auto]. intros x Hx. apply Hx. specialize (H3 x). by destruct q.
Qed.

Lemma owes_awake p name a addr (Q : Z -> outcome ProxyError unit -> Prop) :
  (forall r, Q 0 r) -> owes (wake_wt m l sel) (fun _ => True) 0 (ensure_awake p name a addr) Q.
Proof using counts a_counter.
  intros HQ. unfold ensure_awake, is_running. pose proof (proj2 counter_in) as Hm.
  apply owes_then; [eapply wake_light; [exact Hm | writes_task | never_task] | done |]. intros up.
  apply owes_bind. assert (Hrest : forall r : outcome ProxyError unit,
    owes (wake_wt m l sel) (fun _ => True) 0
      (match r with
       | Ok _ => do attempt := await (Probe addr) in
                 match wait_until_ready attempt (budget p) (interval p) with
                 | Ok _ => do _ := modify (update a (set_running true)) in do _ := set_compute_up name true in Done (Ok tt)
                 | _ => Done (Err ComputeNotReady)
                 end
       | Err e => Done (Err e)
       | Panic => Done Panic
       end) Q).
  { intros [[] | e |]; [| apply HQ | apply HQ]. apply owes_nothing; [| done | done].
    eapply wake_light; [exact Hm | unfold set_compute_up; writes_task | never_task]. }
  destruct up; [apply Hrest |]. unfold pin_of.
  apply owes_bind. intros s1. split; [done |]. cbn [fst snd meter]. apply owes_bind. intros s2. split; [done |]. cbn [fst snd].
  apply owes_then; [eapply wake_light; [exact Hm | writes_task | never_task] | done |]. intros pin. intros x. split; [done |].
  cbn [wake_wt event_of]. unfold at_log. cbn [on_metrics sh_metrics tally target effect].
  match goal with |- owes _ _ ?g _ _ => replace g with 0 end; [apply Hrest |].
  pose proof (counts name). repeat case_decide; lia.
Qed.
End Wakes.

Section Counted.
Context `{Crypto} (p : Proxy) (fuel : nat) (random : bytes).

Lemma serve_counts m l (sel : bytes -> bool) s tr s' r :
  m = WAKES \/ m = DB_WAKES ->
  (forall name, (if decide ((WAKES, []) = (m, l)) then 1 else 0) + (if decide ((DB_WAKES, [name]) = (m, l)) then 1 else 0) =
    (if sel name then 1 else 0)) ->
  ends (serve p fuel random) s tr s' r -> woken sel tr = counted m l tr.
Proof using.
  intros Hm Hc He. enough (weight (wake_wt m l sel) tr = 0) by (rewrite wake_weight in *; lia).
  apply (owes_ends (wake_wt m l sel) (fun _ => True) _ (fun g _ => g = 0) 0 s tr s' r) in He; [done |]. apply owes_serve; [done | | |].
  - intros A t. apply wake_light, counter_in, Hm.
  - intros name a addr Q HQ. by apply owes_awake.
  - intros A a db t Ht Hn. apply owes_nothing; [| done | done].
    apply (wake_light m l sel [WAKES; DB_WAKES]); [by apply (counter_in m) | |].
    + apply (writes_clear [WAKES; DB_WAKES]) in Ht; [| by_compute_subset].
      unfold guarded, guard_new, guard_drop, connection_started, connection_finished. writes_task.
    + unfold guarded, guard_new, guard_drop, connection_started, connection_finished. never_task.
Qed.

(** Every wake is counted.  However a connection is served among the other tasks,
    by the time it has ended it has moved the wake counter by as many as it asked
    the activator for starts, and each database's wake counter by as many as it
    asked for starts of that database. *)
Theorem wakes_are_counted s tr s' r :
  ends (serve p fuel random) s tr s' r ->
  counted WAKES [] tr = woken (fun _ => true) tr /\
  forall db, counted DB_WAKES [db] tr = woken (fun name => bool_decide (name = db)) tr.
Proof using.
  intros He. split; [| intros db]; symmetry; (eapply serve_counts; [| | exact He]).
  - by left.
  - intros name. rewrite decide_True by done. by rewrite decide_False by discriminate.
  - by right.
  - intros name. rewrite decide_False by discriminate. case_bool_decide as E; [by subst; rewrite decide_True | by rewrite decide_False by congruence].
Qed.
End Counted.

#[local] Existing Instance toy_crypto.

(** A served connection to a tenant that was asleep: one wake, one connection. *)
Definition cold_tenant : Shared := registry_from [(text "shop", TenantState_new (text "h:1") false 0)] 0.
Definition cold_answers : list answer :=
  [Reads (Got (take 4 demo_packet)); Reads (Got (drop 4 demo_packet)); Replies None; Attempts true 1; Succeeds true; Succeeds true;
   Reads Eof; Succeeds true].

Lemma play_ends {A} (q : task A) : forall s xs s' a, finish q s xs = Some (s', a) -> ends q s (play q s xs) s' a.
Proof.
  induction q as [b | X f k IH | X ask_ k IH]; intros s xs s' a E; cbn [finish play ends] in *; [by injection E as -> -> | |].
  - exists s. split; [reflexivity |]. split; [done |]. by apply IH.
  - destruct xs as [| x xs]; [done |]. apply bind_Some in E as (y & Ey & E). rewrite Ey. exists y. split; [by eapply give_valid |]. split; [done |]. by apply IH.
Qed.

Definition cold_run : list event := play (serve Proxy_default 3 []) cold_tenant cold_answers.

Lemma wakes_are_counted_witness :
  woken (fun _ => true) cold_run = 1 /\ counted WAKES [] cold_run = 1 /\ counted DB_WAKES [text "shop"] cold_run = 1.
Proof.
  assert (E : match finish (serve Proxy_default 3 []) cold_tenant cold_answers with Some _ => true | None => false end = true) by (vm_compute; reflexivity).
  destruct (finish (serve Proxy_default 3 []) cold_tenant cold_answers) as [[s' r] |] eqn:Ef; [| done].
  destruct (wakes_are_counted Proxy_default 3 [] cold_tenant cold_run s' r (play_ends _ _ _ _ _ Ef)) as [E1 E2].
  rewrite E1, E2. split; [| split]; vm_compute; reflexivity.
Defined.

Lemma exported_gauges_are_exact_witness :
  let c := demo_run (to_awake 0 ++ to_guard 0 ++ replicate 3 (Go 0)) in
  exists x : process small_registry, replay (sh_metrics c.1) = Ok x /\
    prom_value (registry x) (m_name ACTIVE_CONNECTIONS) [] = 1 /\ prom_value (registry x) (m_name DB_ACTIVE) [text "shop"] = 1.
Proof.
  intros c. assert (Hr : rtc (sys_step demo_program) (starts demo_entries 0) c) by (apply demo_reachable; vm_compute; reflexivity).
  assert (El : length (sh_metrics c.1) = 5%nat) by (vm_compute; reflexivity).
  assert (Ea : tally ACTIVE_CONNECTIONS [] (sh_metrics c.1) = 1 /\ tally DB_ACTIVE [text "shop"] (sh_metrics c.1) = 1) by (split; vm_compute; reflexivity).
  destruct c as [s ts]. cbn [fst] in *.
  destruct (exported_gauges_are_exact (fun b => b) (text "h:1") (R := small_registry) demo_entries 0 s ts Hr) as (x & Ex & Hv & _); [rewrite El; lia |].
  exists x. split; [exact Ex |]. rewrite !Hv; [exact Ea | |]; apply (bool_decide_eq_true_1 _); vm_compute; reflexivity.
Defined.

(** ** Where the numbers mislead *)

(** The state is set before the gauge, and another task may do both in between: the
    reaper has stopped the compute and the gauge of the database stays at one. *)
Lemma compute_up_may_be_stale :
  exists s ts, rtc (sys_step demo_program) (starts demo_entries 0) (s, ts) /\
    (exists t, sh_heap s !! 0%nat = Some t /\ running t = false) /\ at_log DB_COMPUTE_UP [text "shop"] s = 1 /\ at_log IDLE_REAPS [] s = 1.
Proof.
  pose (ms := Tick (2 * 60 * 10 ^ 9) :: take 8 (to_awake 0) ++ replicate 9 (Go 1) ++ [Go 0; Answer 1 (Replies None); Go 1; Go 1; Go 1; Go 0]).
  assert (Hr : rtc (sys_step demo_program) (starts demo_entries 0) (demo_run ms)) by (apply demo_reachable; vm_compute; reflexivity).
  assert (Hh : running <$> sh_heap (demo_run ms).1 !! 0%nat = Some false) by (vm_compute; reflexivity).
  assert (Hu : at_log DB_COMPUTE_UP [text "shop"] (demo_run ms).1 = 1 /\ at_log IDLE_REAPS [] (demo_run ms).1 = 1) by (split; vm_compute; reflexivity).
  destruct (demo_run ms) as [s ts]. exists s, ts. split; [done |]. split; [| exact Hu].
  apply fmap_Some in Hh as (t & Ht & E). by exists t.
Qed.

(** A tenant that is taken out of the registry keeps its gauge as it was. *)
Lemma deregister_keeps_compute_up name s :
  match finish (deregister name) s [] with
  | Some (s', _) => sh_registry s' !! name = None /\ at_log DB_COMPUTE_UP [name] s' = at_log DB_COMPUTE_UP [name] s
  | None => False
  end.
Proof. cbn. split; [apply lookup_delete_eq | done]. Qed.

(** A start through the control endpoint asks the activator and is no wake. *)
Lemma control_start_is_not_counted name s a t :
  sh_registry s !! name = Some a -> sh_heap s !! a = Some t ->
  match finish (set_compute name true) s [Replies None] with
  | Some (s', (status, _)) => status = 200 /\ at_log WAKES [] s' = at_log WAKES [] s /\ at_log DB_WAKES [name] s' = at_log DB_WAKES [name] s
  | None => False
  end.
Proof. intros Ha Ht. unfold set_compute. cbn. unfold registry_get. rewrite Ha. cbn. done. Qed.
