(* ===== verification/Splice.v ===== *)
(** The splice of a client and its backend (src/proxy/src/proxy.rs): bytes pass
    unchanged, and the session's cancel key is registered before the client can
    know it, so that a cancel request reaches the backend that issued the key. *)

From S2P Require Import Prelude Bytes Text PageVersion ProxyProtocol Cancel Compute Schedule Reaper Proxy.

(** What was read from the backend, and what was sent to the client. *)
Fixpoint chunks_read (tr : list event) : list bytes :=
  match tr with
  | [] => []
  | FromBackend _ (Got b) :: tr' => b :: chunks_read tr'
  | _ :: tr' => chunks_read tr'
  end.

Fixpoint sent (tr : list event) : bytes :=
  match tr with
  | [] => []
  | ToClient b _ :: tr' => b ++ sent tr'
  | _ :: tr' => sent tr'
  end.

Definition registers (key : CancelKey) (addr : bytes) (e : event) : Prop :=
  exists s, e = Stepped s (on_cancels (cancel_insert key addr) s).

(** What the scanner reports on the chunks, as the splice uses it. *)
Lemma skip_done sc chunk : (if ks_done sc then (sc, Ok None) else push chunk sc) = push chunk sc.
Proof. unfold push. by destruct (ks_done sc). Qed.

(** Every forwarded chunk is the chunk just read, and every key found so far is
    registered. *)
Lemma copy_forwards addr fuel : forall sc captured s tr c ok,
  emits (copy_to_client fuel addr sc captured) s (tr ++ [ToClient c ok]) ->
  sent tr ++ c = concat (chunks_read tr) /\
  forall sc' rs key, push_all (chunks_read tr) sc = (sc', Ok rs) -> Some key ∈ rs -> Exists (registers key addr) tr.
Proof.
  induction fuel as [| fuel IH]; intros sc captured s tr c ok H; cbn [copy_to_client] in H; [by apply emits_done in H |].
  destruct tr as [| e tr]; [by destruct H as (x & _ & ? & _) |]. destruct H as (r & _ & -> & H). cbn [tbind event_of] in *.
  destruct r as [chunk | |]; [| by apply emits_done in H ..]. rewrite skip_done in H. cbn [chunks_read sent concat push_all].
  destruct (push chunk sc) as [sc1 [found | e |]] eqn:Ep; [| by apply emits_done in H ..].
  assert (Hsteps : exists pre tr2, tr = pre ++ tr2 /\ chunks_read pre = [] /\ sent pre = [] /\
    (forall key, found = Some key -> Exists (registers key addr) pre) /\
    exists s2, emits (do? _ := send_client chunk in copy_to_client fuel addr sc1 (match found with Some key => Some key | None => captured end))
      s2 (tr2 ++ [ToClient c ok])).
  { destruct found as [key |]; [| by exists [], tr; repeat (split; [done |]); exists s].
    destruct tr as [| e tr]; [by destruct H as (s1 & _ & ? & _) |]. destruct H as (s1 & _ & -> & H).
    eexists [_], tr. split; [done |]. split; [done |]. split; [done |]. split; [| by eexists].
    intros key' [= <-]. apply Exists_cons_hd. by exists s1. }
  destruct Hsteps as (pre & tr2 & -> & Ec & Es & Hf & s2 & H2). clear H.
  assert (Eapp : chunks_read (pre ++ tr2) = chunks_read tr2 /\ sent (pre ++ tr2) = sent tr2).
  { revert Ec Es. clear. induction pre as [| e pre IH]; [done |]. cbn [app chunks_read sent].
    destruct e as [| | | | | | ? [b | |] | | | b ? |]; try (intros; by apply IH); try done. intros E1 E2.
    apply app_eq_nil in E2 as [-> E2]. by apply IH. }
  destruct Eapp as [-> ->].
  destruct tr2 as [| e tr2].
  - destruct H2 as (x & _ & [= -> ->] & _). split; [by rewrite app_nil_r |]. intros sc' rs key E Hk. cbn [chunks_read push_all] in E.
    rewrite (sbind_Ok _ _ _ _ _ Ep) in E. injection E as <- <-.
    apply list_elem_of_singleton in Hk as <-. rewrite app_nil_r. apply Exists_cons_tl. by apply Hf.
  - destruct H2 as (x & _ & -> & H2). cbn [tbind event_of] in *. destruct x; [| by apply emits_done in H2].
    cbn in H2. apply IH in H2 as [E Hk]. cbn [sent chunks_read]. split; [rewrite <- E; by rewrite app_assoc |].
    intros sc' rs key Er Hin. rewrite (sbind_Ok _ _ _ _ _ Ep) in Er. unfold sbind in Er.
    destruct (push_all (chunks_read tr2) sc1) as [sc3 [rs' | e |]] eqn:E2; [| done | done].
    injection Er as <- <-. apply Exists_cons_tl, Exists_app.
    apply elem_of_cons in Hin as [<- | Hin]; [left; by apply Hf |]. right. apply Exists_cons_tl. by eapply Hk.
Qed.

(** The chunk that completes a prefix. *)
Lemma completing_chunk (cs : list bytes) : forall n, 0 < n <= len (concat cs) ->
  exists cs1 c cs2, cs = cs1 ++ c :: cs2 /\ len (concat cs1) < n <= len (concat cs1 ++ c).
Proof.
  induction cs as [| c cs IH]; intros n Hn; [unfold len in Hn; cbn in Hn; lia |]. cbn [concat] in Hn. rewrite len_app in Hn.
  destruct (Z.le_gt_cases n (len c)) as [Hc | Hc].
  - exists [], c, cs. split; [done |]. cbn [concat app]. unfold len at 1. cbn. lia.
  - destruct (IH (n - len c)) as (cs1 & c' & cs2 & -> & Hl); [lia |]. exists (c :: cs1), c', cs2. split; [done |].
    cbn [concat]. rewrite !len_app in *. lia.
Qed.

(** The cancel request a client sends for the key. *)
Definition cancels (key : CancelKey) : task (outcome ProxyError unit) := route_cancel key.1 key.2.

(** What others see of a task. *)
Definition outward (tr : list event) : list event := List.filter (fun e => match e with Stepped _ _ => false | _ => true end) tr.

(** What a request for a key does: nothing when it is unknown; otherwise it goes to
    the owner, if that can be reached. *)
Definition routed (key : CancelKey) (s : Shared) (tr : list event) : Prop :=
  match cancel_lookup key (sh_cancels s) with
  | None => outward tr = []
  | Some addr => outward tr = [Dialed addr false] \/ exists ok, outward tr = [Dialed addr true; ToBackend addr (cancel_request_bytes key.1 key.2) ok]
  end.

Lemma ends_cancels key s tr s' r :
  ends (cancels key) s tr s' r -> exists s1 tr1, tr = Stepped s1 s1 :: tr1 /\ evolves s s1 /\ routed key s1 tr1 /\ r = Ok tt.
Proof.
  unfold cancels, route_cancel. destruct key as [pid sk]. cbn [fst snd].
  intros (tr1 & tr2 & s1 & o & -> & (He & -> & ->)%ends_observe & H)%ends_bind. exists s1, tr2. split; [done |]. split; [done |].
  unfold routed. cbn [fst snd]. destruct (cancel_lookup (pid, sk) (sh_cancels s1)) as [addr |].
  2: { apply ends_bind in H as (tr3 & tr4 & s2 & u & -> & (_ & s3 & ->)%ends_meter & (-> & _ & ->)). done. }
  apply ends_bind in H as (tr3 & tr4 & s2 & ok & -> & (-> & -> & _)%ends_await & H). destruct ok; [| destruct H as (-> & _ & ->); split; [by left | done]].
  apply ends_bind in H as (tr5 & tr6 & s3 & ok & -> & (-> & -> & _)%ends_await & H).
  apply ends_bind in H as (tr7 & tr8 & s4 & u & -> & Hm & (-> & _ & ->)). split; [right; exists ok | done].
  destruct ok; [by apply ends_meter in Hm as (_ & s5 & ->) | by destruct Hm as (-> & _)].
Qed.

(** C19: a cancel request finds its backend.  Whatever chunks the backend's bytes
    arrive in, as soon as the bytes read contain the session's key, anything is
    forwarded to the client only after the key was registered with this backend's
    address, and what is forwarded is what was read, unchanged; and a cancel
    request with a key, when it is looked up, is sent as it is to the address the
    key is registered with, and nothing is sent to any other. *)
Theorem cancel_finds_its_backend addr fuel s tr c ok pre key rest :
  emits (copy_to_client fuel addr KeyScanner_new None) s (tr ++ [ToClient c ok]) ->
  Forall before_key pre -> in_i32 key.1 -> in_i32 key.2 ->
  concat (chunks_read tr) = all_bytes (pre ++ [key_msg key]) ++ rest ->
  sent tr ++ c = concat (chunks_read tr) /\
  Exists (registers key addr) tr /\
  forall s0 s1 tr' s' r, ends (cancels key) s0 (Stepped s1 s1 :: tr') s' r -> cancel_lookup key (sh_cancels s1) = Some addr ->
    outward tr' = [Dialed addr false] \/ exists sent_ok, outward tr' = [Dialed addr true; ToBackend addr (cancel_request_bytes key.1 key.2) sent_ok].
Proof.
  intros He Hpre H1 H2 E. destruct (copy_forwards _ _ _ _ _ _ _ _ He) as [Hs Hk]. split; [done |]. split.
  - destruct (completing_chunk (chunks_read tr) (len (all_bytes (pre ++ [key_msg key])))) as (cs1 & c' & cs2 & Ecs & Hl).
    { assert (0 < len (all_bytes (pre ++ [key_msg key]))); [| rewrite E, len_app; pose proof (len_nonneg rest); lia].
      rewrite fmap_app, concat_app, len_app. change (concat (msg_bytes <$> [key_msg key])) with (msg_bytes (key_msg key) ++ []).
      rewrite app_nil_r, len_msg_bytes. pose proof (len_nonneg (bm_body (key_msg key))). pose proof (len_nonneg (all_bytes pre)). lia. }
    destruct (push_all_finds key rest (conj H1 H2) cs1 c' cs2 pre KeyScanner_new) as [sc' Ep].
    { split; [done |]. split; [done |]. rewrite <- Ecs. split; [exact E |]. cbn [KeyScanner_new ks_buf]. rewrite len_nil.
      pose proof (len_nonneg (concat cs1)). lia. }
    { exact Hl. }
    rewrite <- Ecs in Ep. eapply Hk; [exact Ep |]. apply elem_of_app. right. left.
  - intros s0 s1 tr' s' r H Ek. apply ends_cancels in H as (s3 & tr1 & Eq & _ & Hr & _). simplify_eq. unfold routed in Hr. by rewrite Ek in Hr.
Qed.

Definition demo_chunks : list bytes :=
  [[x52; x00]; [x00; x00; x08; x00; x00; x00; x00; x4b; x00]; [x00; x00; x0c; xff; xff; xff; xff; x00; x00; x00; x07; x5a]].

Definition demo_copy : list event :=
  play (copy_to_client 5 (text "h:1") KeyScanner_new None) idle_tenant
    (concat ((fun c => [Reads (Got c); Succeeds true]) <$> demo_chunks)).

Lemma cancel_finds_its_backend_witness : Exists (registers (-1, 7) (text "h:1")) (take 6 demo_copy).
Proof.
  destruct (cancel_finds_its_backend (text "h:1") 5 idle_tenant (take 6 demo_copy) [x00; x00; x0c; xff; xff; xff; xff; x00; x00; x00; x07; x5a] true
    [mkMsg x52 [x00; x00; x00; x00]] (-1, 7) [x5a]) as (_ & Hr & _).
  - replace (_ ++ _) with demo_copy by (vm_compute; reflexivity). apply play_emits.
  - apply Forall_singleton. split; [discriminate |]. split; [discriminate | by_compute].
  - by_compute.
  - by_compute.
  - vm_compute; reflexivity.
  - exact Hr.
Defined.

(** When a splice fails its key is not removed: it stays registered with the
    backend's address after the session is gone. *)
Lemma broken_splice_keeps_key :
  match finish (splice_capturing_cancel_key 5 (text "h:1")) idle_tenant
          (concat ((fun c => [Reads (Got c); Succeeds true]) <$> demo_chunks) ++ [Reads Broken]) with
  | Some (s', r) => r = Err SpliceBroken /\ cancel_lookup (-1, 7) (sh_cancels s') = Some (text "h:1")
  | None => False
  end.
Proof. vm_compute. done. Qed.
