(* ===== verification/Databases.v ===== *)
(** The console's database registry (src/aethelctl/src/databases.rs): named
    databases over tenant ids, kept as one file.  The file is read and written as
    a whole; a failed write leaves it in whatever state the system left it.  SHA-256
    and the JSON form of the list are parameters. *)

From S2P Require Import Prelude Bytes Text Common PageVersion ObjStore Catalog Scram.

Record RestorePoint := mkRestorePoint {
  rp_name : bytes;
  rp_timeline : bytes;
  rp_lsn : Z
}.

Record Database := mkDatabase {
  db_name : bytes;
  db_id : bytes;
  db_branches : list RestorePoint;
  db_current : option bytes
}.

(** [serde_json::to_vec_pretty] and [from_slice] of the list. *)
Class RegistryJson := {
  dbs_encode : list Database -> bytes;
  dbs_decode : bytes -> option (list Database)
}.

Inductive write_end := Written | NotWritten (e : bytes) (remains : option bytes).

(** The file system: where the registry is, the directory it is in, and the two
    calls that write it; an error is its text. *)
Class Disk (R : Type) := {
  registry_path : bytes;
  registry_dir : option bytes;
  create_dir_all : bytes -> R -> R * option bytes;
  write_file : bytes -> bytes -> R -> R * write_end
}.

(** The console's state: the registry file, if it can be read, and the rest. *)
Record Console {R : Type} := mkConsole {
  co_file : option bytes;
  co_world : R
}.
Arguments Console R : clear implicits.
Arguments mkConsole {R}.

Section Registry.
Context `{Crypto} `{RegistryJson} {R : Type} `{Disk R}.

Definition id_from_name (name : bytes) : bytes := flat_map fmt_02x (take 16 (sha256 (trim name))).

Definition connection_string (name endpoint : bytes) : bytes := text "postgresql://postgres@" ++ endpoint ++ text "/" ++ name.

(** The errors are texts. *)
Abbreviation console := (stateM (Console R) bytes).

Definition load : console (list Database) := fun c =>
  (c, Ok (match co_file c with Some b => default [] (dbs_decode b) | None => [] end)).

(** An error of anyhow with its context, as [{e:#}] prints it. *)
Definition in_context (context cause : bytes) : bytes := context ++ text ": " ++ cause.

Definition make_dir : console unit := fun c =>
  match registry_dir with
  | None => (c, Ok tt)
  | Some dir =>
      match create_dir_all dir (co_world c) with
      | (r, None) => (mkConsole (co_file c) r, Ok tt)
      | (r, Some e) => (mkConsole (co_file c) r, Err (in_context (text "creating " ++ dir) e))
      end
  end.

Definition save (dbs : list Database) : console unit :=
  let! _ := make_dir in
  fun c =>
  match write_file registry_path (dbs_encode dbs) (co_world c) with
  | (r, Written) => (mkConsole (Some (dbs_encode dbs)) r, Ok tt)
  | (r, NotWritten e remains) => (mkConsole remains r, Err (in_context (text "writing " ++ registry_path) e))
  end.

Definition named (name : bytes) (d : Database) : bool := bool_decide (db_name d = name).

(** [iter().position] and [Vec::remove] *)
Fixpoint take_out (name : bytes) (dbs : list Database) : option (Database * list Database) :=
  match dbs with
  | [] => None
  | d :: dbs' => if named name d then Some (d, dbs') else '(x, rest) ← take_out name dbs'; Some (x, d :: rest)
  end.

Definition remove (name : bytes) : console (option Database) :=
  let! dbs := load in
  match take_out name dbs with
  | Some (d, rest) => let! _ := save rest in sret (Some d)
  | None => sret None
  end.

Definition find_db (name : bytes) (dbs : list Database) : option Database := List.find (named name) dbs.

Definition upsert (name : bytes) : console Database :=
  let name := trim name in
  if bool_decide (name = []) then serr (text "database name must not be empty")
  else
    let! dbs := load in
    match find_db name dbs with
    | Some existing => sret existing
    | None =>
        let d := mkDatabase name (id_from_name name) [] None in
        let! _ := save (dbs ++ [d]) in sret d
    end.

(** [iter_mut().find] *)
Fixpoint change_first (name : bytes) (f : Database -> Database) (dbs : list Database) : list Database :=
  match dbs with
  | [] => []
  | d :: dbs' => if named name d then f d :: dbs' else d :: change_first name f dbs'
  end.

Definition has_branch (branch : bytes) (d : Database) : bool := existsb (fun b => bool_decide (rp_name b = branch)) (db_branches d).

Definition with_branch (b : RestorePoint) (d : Database) : Database :=
  mkDatabase (db_name d) (db_id d) (db_branches d ++ [b]) (db_current d).

Definition add_branch (db branch timeline : bytes) (lsn : Z) : console unit :=
  let! dbs := load in
  match find_db db dbs with
  | Some d =>
      if has_branch branch d then sret tt
      else save (change_first db (with_branch (mkRestorePoint branch timeline lsn)) dbs)
  | None => sret tt
  end.

Definition with_current (timeline : option bytes) (d : Database) : Database :=
  mkDatabase (db_name d) (db_id d) (db_branches d) timeline.

Definition set_current (db : bytes) (timeline : option bytes) : console unit :=
  let! dbs := load in
  match find_db db dbs with
  | Some _ => save (change_first db (with_current timeline) dbs)
  | None => sret tt
  end.
End Registry.

(** ** The registry is a map from names *)

Definition as_map (dbs : list Database) : gmap bytes Database := list_to_map ((fun d => (db_name d, d)) <$> dbs).

Section Laws.
Context `{Crypto} `{RegistryJson} {R : Type} `{Disk R}.
Hypothesis registry_json : forall dbs, dbs_decode (dbs_encode dbs) = Some dbs.

(** Names are unique and not empty, and every id comes from its name. *)
Definition registry_ok (dbs : list Database) : Prop :=
  NoDup (db_name <$> dbs) /\ Forall (fun d => db_id d = id_from_name (db_name d) /\ db_name d <> []) dbs.

(** The file holds these databases; no file is an empty registry. *)
Definition holds (c : Console R) (dbs : list Database) : Prop := (load c).2 = Ok dbs /\ registry_ok dbs.

Lemma find_db_map name dbs : NoDup (db_name <$> dbs) -> find_db name dbs = as_map dbs !! name.
Proof using.
  unfold as_map. induction dbs as [| d dbs IH]; intros Hn; [done |]. cbn [fmap list_fmap] in *. apply NoDup_cons in Hn as [Hd Hn].
  cbn [find_db List.find list_to_map foldr]. unfold named. case_bool_decide as E.
  - subst name. by rewrite lookup_insert_eq.
  - cbn. rewrite lookup_insert_ne by done. by apply IH.
Qed.

Lemma find_db_name name dbs d : find_db name dbs = Some d -> db_name d = name /\ d ∈ dbs.
Proof using.
  induction dbs as [| x dbs IH]; [done |]. cbn [find_db List.find]. unfold named. case_bool_decide as E.
  - intros [= <-]. split; [done | left].
  - intros [En Hin]%IH. split; [done | by right].
Qed.

Lemma find_db_absent name dbs : find_db name dbs = None -> name ∉ db_name <$> dbs.
Proof using.
  induction dbs as [| x dbs IH]; intros E; [apply not_elem_of_nil |]. cbn [find_db List.find fmap list_fmap] in *. unfold named in E.
  case_bool_decide as Ex; [done |]. apply not_elem_of_cons. split; [congruence | by apply IH].
Qed.

Lemma change_first_names name f dbs :
  (forall d, db_name (f d) = db_name d) -> db_name <$> change_first name f dbs = db_name <$> dbs.
Proof using.
  intros Hf. induction dbs as [| d dbs IH]; [done |]. cbn [change_first]. destruct (named name d); cbn; [by rewrite Hf | by rewrite IH].
Qed.

Lemma change_first_map name f dbs :
  (forall d, db_name (f d) = db_name d) -> NoDup (db_name <$> dbs) -> as_map (change_first name f dbs) = alter f name (as_map dbs).
Proof using.
  intros Hf. unfold as_map. induction dbs as [| d dbs IH]; intros Hn; [cbn; by rewrite alter_empty |]. cbn [fmap list_fmap] in *.
  apply NoDup_cons in Hn as [Hd Hn]. cbn [change_first]. unfold named. case_bool_decide as E; cbn [fmap list_fmap list_to_map foldr].
  - rewrite Hf, E. by rewrite alter_insert_eq.
  - rewrite alter_insert_ne by done. f_equal. by apply IH.
Qed.

Lemma change_first_ok name f dbs :
  (forall d, db_name (f d) = db_name d /\ db_id (f d) = db_id d) -> registry_ok dbs -> registry_ok (change_first name f dbs).
Proof using.
  intros Hf [Hn Hi]. split; [by rewrite change_first_names by (intros d; apply Hf) |].
  induction Hi as [| d dbs Hd Hi IH]; [constructor |]. cbn [fmap list_fmap] in Hn. apply NoDup_cons in Hn as [_ Hn]. cbn [change_first].
  destruct (named name d); apply Forall_cons; (split; [| by try apply IH]); [| done]. by destruct (Hf d) as [-> ->].
Qed.

Lemma take_out_spec name dbs : NoDup (db_name <$> dbs) ->
  match take_out name dbs with
  | Some (d, rest) => find_db name dbs = Some d /\ as_map rest = delete name (as_map dbs) /\ rest ⊆+ dbs
  | None => find_db name dbs = None
  end.
Proof using.
  unfold as_map. induction dbs as [| d dbs IH]; intros Hn; [done |]. cbn [fmap list_fmap] in *. apply NoDup_cons in Hn as [Hd Hn].
  cbn [take_out find_db List.find]. destruct (named name d) eqn:Ed; unfold named in Ed.
  - apply bool_decide_eq_true in Ed as <-. split; [done |]. split; [| by apply submseteq_cons].
    cbn [list_to_map foldr]. rewrite delete_insert_eq, delete_id; [done |]. apply not_elem_of_list_to_map_1.
    rewrite <- list_fmap_compose. exact Hd.
  - apply bool_decide_eq_false in Ed. specialize (IH Hn). destruct (take_out name dbs) as [[x rest] |]; cbn; [| done].
    destruct IH as (E1 & E2 & E3). split; [done |]. split; [| by apply submseteq_skip].
    cbn [fmap list_fmap list_to_map foldr]. rewrite delete_insert_ne by done. by rewrite E2.
Qed.

Lemma registry_ok_submseteq dbs dbs' : dbs' ⊆+ dbs -> registry_ok dbs -> registry_ok dbs'.
Proof using.
  intros Hs [Hn Hi]. destruct (submseteq_Permutation _ _ Hs) as [rest Hp]. split.
  - apply (NoDup_app (db_name <$> dbs') (db_name <$> rest)). rewrite <- fmap_app, <- Hp. exact Hn.
  - rewrite Hp in Hi. apply Forall_app in Hi. tauto.
Qed.

Lemma registry_ok_snoc dbs d :
  registry_ok dbs -> find_db (db_name d) dbs = None -> db_id d = id_from_name (db_name d) -> db_name d <> [] ->
  registry_ok (dbs ++ [d]) /\ as_map (dbs ++ [d]) = <[db_name d := d]> (as_map dbs).
Proof using.
  intros [Hn Hi] Hf Hid Hne. apply find_db_absent in Hf. split; [split |].
  - rewrite fmap_app. apply NoDup_app. split; [done |]. split; [| apply NoDup_singleton].
    intros x Hx ->%list_elem_of_singleton. done.
  - apply Forall_app. split; [done |]. by apply Forall_singleton.
  - unfold as_map. rewrite fmap_app, list_to_map_app. symmetry. apply insert_union_singleton_r.
    apply not_elem_of_list_to_map_1. rewrite <- list_fmap_compose. exact Hf.
Qed.

(** The text of a write that failed. *)
Definition disk_failed (e : bytes) : Prop :=
  exists r : R,
    (exists dir cause, registry_dir = Some dir /\ (create_dir_all dir r).2 = Some cause /\ e = in_context (text "creating " ++ dir) cause) \/
    (exists b cause remains, (write_file registry_path b r).2 = NotWritten cause remains /\ e = in_context (text "writing " ++ registry_path) cause).

(** A save puts the list in the file, or fails as the file system does. *)
Lemma runs_save dbs c (Q : unit -> Console R -> Prop) (E : bytes -> Console R -> Prop) :
  registry_ok dbs -> (forall c', holds c' dbs -> Q tt c') -> (forall e c', disk_failed e -> E e c') -> runs (save dbs) c Q E.
Proof using registry_json.
  intros Hok HQ HE. unfold save. apply (runs_bind _ _ _ (fun _ _ => True)).
  - unfold runs, make_dir. destruct registry_dir as [dir |] eqn:Ed; [| done].
    destruct (create_dir_all dir (co_world c)) as [r [e |]] eqn:Ec; [| done]. apply HE. exists (co_world c). left. exists dir, e. by rewrite Ec.
  - intros [] c1 _. unfold runs. destruct (write_file _ _ _) as [r [| e remains]] eqn:Ew.
    + apply HQ. split; [| done]. unfold load. cbn. by rewrite registry_json.
    + apply HE. exists (co_world c1). right. exists (dbs_encode dbs), e, remains. by rewrite Ew.
Qed.

Lemma runs_load {A} dbs c (k : list Database -> stateM (Console R) bytes A) Q E :
  holds c dbs -> runs (k dbs) c Q E -> runs (sbind load k) c Q E.
Proof using. unfold holds, load, runs, sbind. cbn. by intros [[= ->] _]. Qed.

(** The operations on a map of databases; the names are the keys. *)
Inductive registry_op :=
| OpUpsert (name : bytes)
| OpRemove (name : bytes)
| OpAddBranch (db branch timeline : bytes) (lsn : Z)
| OpSetCurrent (db : bytes) (timeline : option bytes).

Definition run_op (op : registry_op) : stateM (Console R) bytes (option Database) :=
  match op with
  | OpUpsert name => let! d := upsert name in sret (Some d)
  | OpRemove name => remove name
  | OpAddBranch db branch timeline lsn => let! _ := add_branch db branch timeline lsn in sret None
  | OpSetCurrent db timeline => let! _ := set_current db timeline in sret None
  end.

Definition new_database (name : bytes) : Database := mkDatabase name (id_from_name name) [] None.

Definition add_once (b : RestorePoint) (d : Database) : Database := if has_branch (rp_name b) d then d else with_branch b d.

Definition op_spec (op : registry_op) (m : gmap bytes Database) : option (gmap bytes Database * option Database) :=
  match op with
  | OpUpsert name =>
      let name := trim name in
      if decide (name = []) then None
      else Some (partial_alter (fun o => Some (default (new_database name) o)) name m, Some (default (new_database name) (m !! name)))
  | OpRemove name => Some (delete name m, m !! name)
  | OpAddBranch db branch timeline lsn => Some (alter (add_once (mkRestorePoint branch timeline lsn)) db m, None)
  | OpSetCurrent db timeline => Some (alter (with_current timeline) db m, None)
  end.

Definition op_refines (op : registry_op) (dbs : list Database) (a : option Database) (c : Console R) : Prop :=
  exists dbs', holds c dbs' /\ op_spec op (as_map dbs) = Some (as_map dbs', a).

Definition op_fails (op : registry_op) (dbs : list Database) (c : Console R) (e : bytes) (c' : Console R) : Prop :=
  (op_spec op (as_map dbs) = None /\ e = text "database name must not be empty" /\ c' = c) \/ disk_failed e.

Lemma alter_absent {A} (f : A -> A) (k : bytes) (m : gmap bytes A) : m !! k = None -> alter f k m = m.
Proof using. intros E. apply map_eq. intros i. destruct (decide (k = i)) as [<- |]; [by rewrite lookup_alter_eq, E | by rewrite lookup_alter_ne]. Qed.

(** Changing the first entry of a name changes the entry of the map. *)
Lemma runs_change name f f' dbs c op :
  holds c dbs -> (forall d, db_name (f d) = db_name d /\ db_id (f d) = db_id d) ->
  (forall d, as_map dbs !! name = Some d -> f' d = f d) -> op_spec op (as_map dbs) = Some (alter f' name (as_map dbs), None) ->
  runs (save (change_first name f dbs)) c (fun _ c' => op_refines op dbs None c') (op_fails op dbs c).
Proof using registry_json.
  intros Hh Hf Hf' E. apply runs_save; [by apply change_first_ok, Hh | | by right]. intros c' Hc'. exists (change_first name f dbs).
  split; [done |]. rewrite E, change_first_map by (apply Hh || intros d; apply Hf). do 2 f_equal.
  apply map_eq. intros i. destruct (decide (name = i)) as [<- |]; [| by rewrite !lookup_alter_ne]. rewrite !lookup_alter_eq.
  destruct (as_map dbs !! name) eqn:El; [| done]. cbn. by rewrite Hf'.
Qed.

Lemma upsert_refines name dbs c : holds c dbs ->
  runs (upsert name) c (fun d => op_refines (OpUpsert name) dbs (Some d)) (op_fails (OpUpsert name) dbs c).
Proof using registry_json.
  intros Hh. unfold upsert. cbv zeta. case_bool_decide as En; [left; cbn; by rewrite decide_True |]. apply (runs_load dbs); [done |].
  pose proof (find_db_map (trim name) dbs (proj1 (proj2 Hh))) as Ef. unfold op_refines, op_spec. cbv zeta. rewrite decide_False by done.
  rewrite <- Ef. destruct (find_db (trim name) dbs) as [d |] eqn:E.
  - exists dbs. split; [done |]. cbn. do 2 f_equal. apply partial_alter_id. by rewrite <- Ef.
  - destruct (registry_ok_snoc dbs (new_database (trim name)) (proj2 Hh) E eq_refl En) as [Hok Em].
    eapply runs_bind; [apply (runs_save _ _ (fun _ c' => holds c' (dbs ++ [new_database (trim name)]))); [done | done | by right] |].
    intros u c' Hc'. exists (dbs ++ [new_database (trim name)]). split; [done |]. cbn [default]. rewrite Em. cbn. do 2 f_equal.
    apply partial_alter_ext. rewrite <- Ef. by intros x <-.
Qed.

Lemma remove_refines name dbs c : holds c dbs ->
  runs (remove name) c (op_refines (OpRemove name) dbs) (op_fails (OpRemove name) dbs c).
Proof using registry_json.
  intros Hh. unfold remove. apply (runs_load dbs); [done |]. pose proof (take_out_spec name dbs (proj1 (proj2 Hh))) as Ht.
  unfold op_refines, op_spec. rewrite <- (find_db_map name dbs) by apply Hh. destruct (take_out name dbs) as [[d rest] |].
  - destruct Ht as (E1 & E2 & E3).
    eapply runs_bind; [apply (runs_save _ _ (fun _ c' => holds c' rest)); [by eapply registry_ok_submseteq, Hh | done | by right] |].
    intros u c' Hc'. exists rest. by rewrite E1, E2.
  - exists dbs. rewrite Ht, delete_id; [done |]. by rewrite <- (find_db_map name dbs) by apply Hh.
Qed.

Lemma add_branch_refines db branch tl lsn dbs c : holds c dbs ->
  runs (add_branch db branch tl lsn) c (fun _ => op_refines (OpAddBranch db branch tl lsn) dbs None) (op_fails (OpAddBranch db branch tl lsn) dbs c).
Proof using registry_json.
  intros Hh. unfold add_branch. apply (runs_load dbs); [done |]. pose proof (find_db_map db dbs (proj1 (proj2 Hh))) as Ef.
  destruct (find_db db dbs) as [d |] eqn:E; [destruct (has_branch branch d) eqn:Eb |].
  - exists dbs. split; [done |]. cbn. do 2 f_equal. apply map_eq. intros i.
    destruct (decide (db = i)) as [<- |]; [| by rewrite lookup_alter_ne]. rewrite lookup_alter_eq, <- Ef. cbn. unfold add_once. cbn. by rewrite Eb.
  - eapply runs_change; [done | by intros d' | | done]. intros d'. rewrite <- Ef. intros [= <-]. unfold add_once. cbn. by rewrite Eb.
  - exists dbs. split; [done |]. cbn. by rewrite alter_absent.
Qed.

Lemma set_current_refines db tl dbs c : holds c dbs ->
  runs (set_current db tl) c (fun _ => op_refines (OpSetCurrent db tl) dbs None) (op_fails (OpSetCurrent db tl) dbs c).
Proof using registry_json.
  intros Hh. unfold set_current. apply (runs_load dbs); [done |]. pose proof (find_db_map db dbs (proj1 (proj2 Hh))) as Ef.
  destruct (find_db db dbs) as [d |] eqn:E; [by eapply runs_change |]. exists dbs. split; [done |]. cbn. by rewrite alter_absent.
Qed.

(** A file that does not decode counts as an empty registry, so the next database
    recorded replaces whatever it held. *)
Lemma corrupt_registry_is_replaced name b (r : R) :
  dbs_decode b = None -> trim name <> [] ->
  runs (upsert name) (mkConsole (Some b) r) (fun d c' => holds c' [d] /\ db_name d = trim name) (fun e _ => disk_failed e).
Proof using registry_json.
  intros Eb En. assert (Hh : holds (mkConsole (Some b) r) []).
  { split; [unfold load; cbn; by rewrite Eb | split; constructor]. }
  eapply runs_conseq; [apply (upsert_refines name [] _ Hh) | |].
  - intros d c' (dbs' & Hc' & E). cbn in E. rewrite decide_False in E by done. injection E as Em <-. split; [| done].
    assert (dbs' = [new_database (trim name)]) as ->; [| done]. destruct Hc' as [_ [Hn _]].
    assert (Hp : (fun d => (db_name d, d)) <$> dbs' ≡ₚ [(trim name, new_database (trim name))]).
    { rewrite <- (map_to_list_to_map ((fun d => (db_name d, d)) <$> dbs')); [| by rewrite <- list_fmap_compose].
      fold (as_map dbs'). rewrite <- Em. change (partial_alter _ _ _) with ({[ trim name := new_database (trim name) ]} : gmap bytes Database).
      by rewrite map_to_list_singleton. }
    apply Permutation_singleton_r in Hp. destruct dbs' as [| d [|]]; cbn in Hp; [done | | done]. by injection Hp as _ ->.
  - intros e c' [[E _] | He]; [| done]. cbn in E. by rewrite decide_False in E.
Qed.

End Laws.

(** *** A registry with two databases *)

Definition db_tuple (d : Database) : bytes * bytes * list (bytes * bytes * Z) * option bytes :=
  (db_name d, db_id d, (fun b => (rp_name b, rp_timeline b, rp_lsn b)) <$> db_branches d, db_current d).
Definition tuple_db (x : bytes * bytes * list (bytes * bytes * Z) * option bytes) : Database :=
  mkDatabase x.1.1.1 x.1.1.2 ((fun b => mkRestorePoint b.1.1 b.1.2 b.2) <$> x.1.2) x.2.

Definition bit_registry : RegistryJson := {|
  dbs_encode dbs := bits_of (encode (map db_tuple dbs));
  dbs_decode b := option_map (map tuple_db) (decode (of_bits b))
|}.

Lemma bit_registry_round_trip dbs : @dbs_decode bit_registry (@dbs_encode bit_registry dbs) = Some dbs.
Proof.
  cbn. rewrite of_bits_of, decode_encode. cbn. f_equal. rewrite map_map. induction dbs as [| [n id bs c] dbs IH]; [done |].
  cbn [map]. rewrite IH. unfold tuple_db, db_tuple. cbn. do 2 f_equal. clear. induction bs as [| [] bs IH]; [done |]. cbn. by rewrite IH.
Qed.

(** A disk whose writes succeed as often as the state says. *)
Definition counted_disk : Disk nat := {|
  registry_path := text "r.json";
  registry_dir := Some (text ".aethel");
  create_dir_all _ r := (r, None);
  write_file _ _ r := match r with S r' => (r', Written) | O => (O, NotWritten (text "disk full") None) end
|}.

