(* ===== verification/Client.v ===== *)
(** The control-plane client (src/aethelctl/src/lib.rs) and the Helm and Docker
    wrappers (src/aethelctl/src/deploy.rs).  JSON values are modelled; their text,
    the HTTP client and the processes that are started are parameters. *)

From S2P Require Import Prelude Bytes Text Common PageVersion ObjStore Http Compute Databases.

(** ** JSON values *)

(** [serde_json::Value]; a float is kept as its text, the members of an object in
    some order. *)
Inductive Value :=
| VNull
| VBool (b : bool)
| VNum (z : Z)
| VFloat (f : bytes)
| VStr (s : bytes)
| VArr (l : list Value)
| VObj (members : list (bytes * Value)).

Definition vobj (members : list (string * Value)) : Value := VObj ((fun m => (text m.1, m.2)) <$> members).
Definition vopt (o : option bytes) : Value := match o with Some s => VStr s | None => VNull end.

Fixpoint member (key : bytes) (members : list (bytes * Value)) : option Value :=
  match members with
  | [] => None
  | (k, v) :: rest => if bool_decide (k = key) then Some v else member key rest
  end.

Definition vget (key : string) (v : Value) : option Value :=
  match v with VObj members => member (text key) members | _ => None end.

Definition as_str (v : Value) : option bytes := match v with VStr s => Some s | _ => None end.
Definition get_str (key : string) (v : Value) : option bytes := vget key v ≫= as_str.
Definition as_bool (v : Value) : option bool := match v with VBool b => Some b | _ => None end.
Definition as_array (v : Value) : option (list Value) := match v with VArr l => Some l | _ => None end.
Definition as_u64 (v : Value) : option Z :=
  match v with VNum z => if (0 <=? z) && (z <=? u64_max) then Some z else None | _ => None end.
Definition as_i64 (v : Value) : option Z :=
  match v with VNum z => if (- 2 ^ 63 <=? z) && (z <? 2 ^ 63) then Some z else None | _ => None end.

(** [from_str], [to_string] and [to_string_pretty] *)
Class Json := {
  json_parse : bytes -> option Value;
  json_print : Value -> bytes;
  json_pretty : Value -> bytes
}.

(** ** HTTP *)

Record http_call := mkCall {
  hc_method : bytes;
  hc_url : bytes;
  hc_authorization : option bytes;
  hc_query : list (bytes * bytes);
  hc_body : option Value
}.

(** What a call gives: a response with the JSON of its body, if it has one; a
    status that counts as an error, with the body's text if it could be read; no
    response.  Either error prints as a text. *)
Inductive reply :=
| Answered (v : option Value)
| Refused (code : Z) (raw : option bytes) (display : bytes)
| Unreached (display : bytes).

Class Ureq (R : Type) := { ureq_call : http_call -> R -> R * reply }.

(** ** Processes *)

Inductive stdio := Inherited | Captured | Streamed.

Inductive exit := NotStarted (e : bytes) | Exited (status : bytes) (success : bool) (out err : bytes).

(** The file system calls are those of [Disk]. *)
Class System (R : Type) := {
  temp_dir : bytes;
  process_id : Z;
  remove_dir_all : bytes -> R -> R;
  unpack_chart : bytes -> R -> R * option bytes;
  spawn : bytes -> list bytes -> stdio -> R -> R * exit
}.

(** A call to the outside. *)
Definition outside {R A} (f : R -> R * A) : stateM (Console R) bytes A := fun c =>
  let '(r, a) := f (co_world c) in (mkConsole (co_file c) r, Ok a).

(** ** The client *)

Record Client := mkClient { cl_base : bytes; cl_token : option bytes }.

Fixpoint drop_slashes (s : bytes) : bytes :=
  match s with b :: s' => if decide (b = slash) then drop_slashes s' else s | [] => [] end.

(** [s.trim_end_matches('/')] *)
Definition trim_end_slashes (s : bytes) : bytes := rev (drop_slashes (rev s)).

Definition Client_new (base : bytes) (token : option bytes) : Client := mkClient (trim_end_slashes base) token.

Definition url (cl : Client) (path : bytes) : bytes := cl_base cl ++ path.

Definition request (cl : Client) (method : string) (path : bytes) : http_call :=
  mkCall (text method) (url cl path) ((fun t => text "Bearer " ++ t) <$> cl_token cl) [] None.

Definition with_body (hc : http_call) (body : option Value) : http_call :=
  mkCall (hc_method hc) (hc_url hc) (hc_authorization hc) (hc_query hc) body.

(** [body["tenant"] = json!(t)]; the bodies are objects. *)
Definition with_tenant (body : Value) (tenant : option bytes) : Value :=
  match tenant, body with
  | Some t, VObj members => VObj (List.filter (fun m => negb (bool_decide (m.1 = text "tenant"))) members ++ [(text "tenant", VStr t)])
  | _, _ => body
  end.

Definition string_array (v : Value) (key : string) : list bytes :=
  match vget key v ≫= as_array with Some l => omap as_str l | None => [] end.

Section Calls.
Context `{Json} {R : Type} `{Ureq R}.

Abbreviation console := (stateM (Console R) bytes).

Definition error_detail (raw : bytes) : bytes :=
  match json_parse raw ≫= get_str "error" with Some e => e | None => raw end.

Definition run (cl : Client) (req : http_call) (body : option Value) : console Value :=
  let! result := outside (ureq_call (with_body req body)) in
  match result with
  | Answered v => sret (default VNull v)
  | Refused code raw _ => serr (text "server returned " ++ fmt_dec code ++ text ": " ++ error_detail (default [] raw))
  | Unreached e => serr (text "request to " ++ cl_base cl ++ text " failed: " ++ e)
  end.

Definition healthz (cl : Client) : console Value := run cl (request cl "GET" (text "/healthz")) None.

Definition client_list_tenants (cl : Client) : console (list bytes) :=
  let! v := run cl (request cl "GET" (text "/v1/tenants")) None in sret (string_array v "tenants").

Definition client_create_tenant (cl : Client) (id : bytes) : console Value :=
  run cl (request cl "POST" (text "/v1/tenants")) (Some (vobj [("id", VStr id)])).

Definition client_list_timelines (cl : Client) (tenant : option bytes) : console (list bytes) :=
  let path := match tenant with Some t => text "/v1/timelines?tenant=" ++ t | None => text "/v1/timelines" end in
  let! v := run cl (request cl "GET" path) None in sret (string_array v "timelines").

Definition client_create_timeline (cl : Client) (id : bytes) (tenant : option bytes) : console Value :=
  run cl (request cl "POST" (text "/v1/timelines")) (Some (with_tenant (vobj [("id", VStr id)]) tenant)).

Definition client_branch (cl : Client) (new parent : bytes) (lsn : Z) (tenant : option bytes) : console Value :=
  run cl (request cl "POST" (text "/v1/branches"))
    (Some (with_tenant (vobj [("timeline", VStr new); ("parent", VStr parent); ("lsn", VNum lsn)]) tenant)).

Definition client_receive (cl : Client) (timeline safekeeper : bytes) (start_lsn : Z) (tenant : option bytes) : console Value :=
  run cl (request cl "POST" (text "/v1/timelines/receive"))
    (Some (with_tenant (vobj [("timeline", VStr timeline); ("safekeeper", VStr safekeeper); ("start_lsn", VNum start_lsn)]) tenant)).

Definition client_delete_tenant (cl : Client) (id : bytes) : console Value :=
  run cl (request cl "DELETE" (text "/v1/tenants/" ++ id)) None.

Definition client_gc (cl : Client) (horizon_lsn : Z) (tenant : option bytes) : console Value :=
  run cl (request cl "POST" (text "/v1/gc")) (Some (with_tenant (vobj [("horizon_lsn", VNum horizon_lsn)]) tenant)).
End Calls.

(** ** Helm and Docker *)

Record DeployOpts := mkDeployOpts {
  do_release : bytes;
  do_namespace : bytes;
  do_values_files : list bytes;
  do_sets : list bytes;
  do_object_store_url : option bytes;
  do_image_repo : option bytes;
  do_image_tag : option bytes;
  do_expose : bool;
  do_wait : bool;
  do_dry_run : bool
}.

Definition prefixed (key : string) (o : option bytes) : list bytes := match o with Some v => [text key ++ v] | None => [] end.

Definition all_sets (o : DeployOpts) : list bytes :=
  do_sets o ++ prefixed "objectStore.url=" (do_object_store_url o) ++ prefixed "image.repository=" (do_image_repo o) ++
  prefixed "image.tag=" (do_image_tag o) ++ (if do_expose o then [text "proxy.service.type=LoadBalancer"] else []).

Definition helm_args (o : DeployOpts) (chart_dir : bytes) : list bytes :=
  [text "upgrade"; text "--install"; do_release o; chart_dir; text "--namespace"; do_namespace o; text "--create-namespace"] ++
  flat_map (fun f => [text "--values"; f]) (do_values_files o) ++
  flat_map (fun s => [text "--set"; s]) (all_sets o) ++
  (if do_wait o then [text "--wait"] else []) ++
  (if do_dry_run o then [text "--dry-run"] else []).

(** [dir.join(name)] for a plain name *)
Definition path_join (dir name : bytes) : bytes :=
  match rev dir with
  | [] => name
  | b :: _ => if decide (b = slash) then dir ++ name else dir ++ [slash] ++ name
  end.

Definition command_preview (o : DeployOpts) : bytes := text "helm " ++ join_with [space] (helm_args o (text "<chart>")).

Section Commands.
Context {R : Type} `{Disk R} `{System R}.

Abbreviation console := (stateM (Console R) bytes).

Definition extract_chart : console bytes :=
  let dir := path_join temp_dir (text "aethelctl-chart-" ++ fmt_dec process_id) in
  let! _ := outside (fun r => (remove_dir_all dir r, tt)) in
  let! made := outside (create_dir_all dir) in
  match made with
  | Some e => serr e
  | None =>
      let! unpacked := outside (unpack_chart dir) in
      match unpacked with
      | Some e => serr (in_context (text "extracting the embedded Helm chart") e)
      | None => sret dir
      end
  end.

Definition extract_chart_dir : console bytes := let! dir := extract_chart in sret (from_utf8_lossy dir).

Definition chart_dir (chart_override : option bytes) : console bytes :=
  match chart_override with
  | Some c => sret c
  | None => let! dir := extract_chart in sret (from_utf8_lossy dir)
  end.

(** Backticks around a name. *)
Definition ticked (s : bytes) : bytes := [z2b 96] ++ s ++ [z2b 96].

Definition run_program (program : string) (args : list bytes) : console unit :=
  let! e := outside (spawn (text program) args Inherited) in
  match e with
  | NotStarted e => serr (text "failed to run " ++ ticked (text program) ++ text " (is it installed and on PATH?): " ++ e)
  | Exited status success _ _ => if success : bool then sret tt else serr (ticked (text program) ++ text " exited with " ++ status)
  end.

Definition deploy (o : DeployOpts) (chart_override : option bytes) : console unit :=
  let! dir := chart_dir chart_override in
  run_program "helm" (helm_args o dir).

Definition deploy_capture (o : DeployOpts) (chart_override : option bytes) : console bytes :=
  let! dir := chart_dir chart_override in
  let! e := outside (spawn (text "helm") (helm_args o dir) Captured) in
  match e with
  | NotStarted e => serr (text "failed to run " ++ ticked (text "helm") ++ text " (installed and on PATH?): " ++ e)
  | Exited status success out err =>
      let err := from_utf8_lossy err in
      let output := from_utf8_lossy out ++ (if bool_decide (trim err = []) then [] else err) in
      if success : bool then sret output else serr (text "helm exited with " ++ status ++ text ":" ++ [z2b 10] ++ output)
  end.

Definition uninstall (release namespace : bytes) : console unit :=
  run_program "helm" [text "uninstall"; release; text "--namespace"; namespace].

Definition compose (action : string) (file : bytes) (detach : bool) : console unit :=
  run_program "docker" ([text "compose"; text "-f"; file; text action] ++ (if bool_decide (action = "up"%string) && detach then [text "-d"] else [])).
End Commands.
