(* ===== verification/Console.v ===== *)
(** The web console (src/aethelctl/src/serve.rs): it answers one request at a time,
    over the registry file, the page server's and the proxy's HTTP interfaces, and
    Helm. *)

From S2P Require Import Prelude Bytes Text Common PageVersion ObjStore Http Compute Scram Databases Client.

Inductive Method := Get | Post | Delete | OtherMethod (m : bytes).
#[export] Instance Method_eq_dec : EqDecision Method.
Proof. solve_decision. Defined.

Record ServeCfg := mkServeCfg {
  control_url : bytes;
  allow_apply : bool;
  grafana_url : option bytes;
  client_endpoint : bytes;
  proxy_url : option bytes;
  prometheus_url : option bytes
}.

(** A reply; without a content type the library sends its default. *)
Record Reply := mkReply { re_status : Z; re_body : bytes; re_type : option bytes }.

Definition JSON : option bytes := Some (text "application/json").
Definition ROOT_TIMELINE : bytes := text "00000000000000000000000000000000".

(** [s.strip_suffix(pat)] *)
Definition strip_suffix (pat s : bytes) : option bytes := @rev byte <$> strip_prefix (rev pat) (rev s).

(** The system clock in seconds, floats as texts, and the embedded page. *)
Class Clock (R : Type) := { unix_seconds : R -> Z }.
Class Floats := {
  f64_of_int : Z -> bytes;
  f64_from_str : bytes -> option bytes;
  f64_is_finite : bytes -> bool
}.
Class Page := { INDEX_HTML : bytes }.

(** ** Helpers *)

(** The error of a call as a value. *)
Definition stry {S E A} (m : stateM S E A) : stateM S E (A + E) := fun s =>
  match m s with
  | (s', Ok a) => (s', Ok (inl a))
  | (s', Err e) => (s', Ok (inr e))
  | (s', Panic) => (s', Panic)
  end.

Definition parse `{Json} (body : bytes) : Value := match json_parse body with Some v => v | None => VNull end.

Definition field {S} (v : Value) (key : string) : stateM S bytes bytes :=
  match get_str key v with Some s => sret s | None => serr (text "missing field " ++ ticked (text key)) end.

Definition non_empty (s : bytes) : bool := negb (bool_decide (s = [])).

(** [o.filter(p)] *)
Definition opt_filter {A} (p : A -> bool) (o : option A) : option A :=
  match o with Some a => if p a then Some a else None | None => None end.

Definition opt (v : Value) (key : string) : option bytes := opt_filter non_empty (get_str key v).

Definition get_u64 (v : Value) (key : string) : Z := match vget key v ≫= as_u64 with Some z => z | None => 0 end.

Definition query_param (url key : bytes) : option bytes :=
  match split_once (z2b 63) url with
  | None => None
  | Some (_, q) =>
      head (omap (fun kv => match split_once (z2b 61) kv with
                            | Some (k, val) => if bool_decide (k = key) then Some val else None
                            | None => None
                            end) (split_str (text "&") q))
  end.

Definition fmt_i64 (z : Z) : bytes := if z <? 0 then text "-" ++ fmt_dec (- z) else fmt_dec z.

(** Lower-casing outside ASCII yields none of the letters looked for. *)
Definition is_conflict (m : bytes) : bool := contains (text "409") m || contains (text "exists") (ascii_lower <$> m).

Definition ignore_conflict {S A} (r : stateM S bytes A) : stateM S bytes unit :=
  let! res := stry r in
  match res with
  | inl _ => sret tt
  | inr e => if is_conflict e then sret tt else serr e
  end.

(** The deploy form. *)
Definition deploy_opts (b : Value) (dry_run : bool) : DeployOpts :=
  let flag k := match vget k b ≫= as_bool with Some x => x | None => false end in
  let num k d := match vget k b ≫= as_i64 with Some x => x | None => d end in
  let or_aethel o := match o with Some s => s | None => text "aethel" end in
  mkDeployOpts
    (or_aethel (opt b "release"))
    (or_aethel (opt b "namespace"))
    []
    [text "safekeeper.replicas=" ++ fmt_i64 (num "safekeeperReplicas" 1);
     text "autoscaling.proxy.enabled=" ++ json_bool (flag "autoscaling");
     text "autoscaling.proxy.minReplicas=" ++ fmt_i64 (num "autoMin" 2);
     text "autoscaling.proxy.maxReplicas=" ++ fmt_i64 (num "autoMax" 10);
     text "podDisruptionBudget.safekeeper.enabled=" ++ json_bool (flag "pdb");
     text "podDisruptionBudget.proxy.enabled=" ++ json_bool (flag "pdb");
     text "topologySpread.enabled=" ++ json_bool (flag "spread");
     text "pooling.enabled=" ++ json_bool (flag "pooling")]
    (opt b "objectStoreUrl")
    (opt b "imageRepo")
    (opt b "imageTag")
    (flag "expose" || bool_decide (is_Some (opt b "cloud")))
    (flag "wait")
    dry_run.

Section Handlers.
Context `{Json} `{Crypto} `{RegistryJson} `{Floats} `{Page} {R : Type} `{Disk R} `{Ureq R} `{System R} `{Clock R}.
Context (client : Client) (cfg : ServeCfg).

Abbreviation console := (stateM (Console R) bytes).

(** [ureq::get(url).call()] and the like, without a token *)
Definition call (method : string) (u : bytes) (query : list (bytes * bytes)) : console reply :=
  outside (ureq_call (mkCall (text method) u None query None)).

Definition error_text (r : reply) : option bytes :=
  match r with Answered _ => None | Refused _ _ e => Some e | Unreached e => Some e end.

(** ** The proxy's state *)

(** The boolean [key] of each tenant the proxy lists. *)
Definition proxy_states (key : string) : console (gmap bytes bool) :=
  match proxy_url cfg with
  | None => sret ∅
  | Some base =>
      let! r := call "GET" (trim_end_slashes base ++ text "/tenants") [] in
      sret (match r with
            | Answered (Some v) =>
                match vget "tenants" v ≫= as_array with
                | Some arr =>
                    fold_left (fun m t =>
                      match get_str "tenant" t, vget key t ≫= as_bool with
                      | Some name, Some b => <[name := b]> m
                      | _, _ => m
                      end) arr ∅
                | None => ∅
                end
            | _ => ∅
            end)
  end.

Definition compute_states : console (gmap bytes bool) := proxy_states "running".
Definition keep_warm_states : console (gmap bytes bool) := proxy_states "keepWarm".

Definition no_proxy {A} : console A :=
  serr (text "compute control is not configured; start " ++ ticked (text "aethelctl serve") ++ text " with --proxy-url").

Definition post_action (what action : string) (name : bytes) (base : bytes) : console unit :=
  let! r := call "POST" (trim_end_slashes base ++ text "/tenants/" ++ name ++ text "/" ++ text action) [] in
  match error_text r with
  | None => sret tt
  | Some e => serr (text what ++ text " " ++ text action ++ text " for " ++ name ++ text " failed: " ++ e)
  end.

Definition database_action (name : bytes) (start : bool) : console Value :=
  match proxy_url cfg with
  | None => no_proxy
  | Some base =>
      let! _ := post_action "compute" (if start then "start" else "stop") name base in
      sret (vobj [("name", VStr name); ("running", VBool start)])
  end.

Definition database_warm (name : bytes) (on : bool) : console Value :=
  match proxy_url cfg with
  | None => no_proxy
  | Some base =>
      let! _ := post_action "keep-warm" (if on then "keepwarm" else "nokeepwarm") name base in
      sret (vobj [("name", VStr name); ("keepWarm", VBool on)])
  end.

Definition proxy_pin (name : bytes) (timeline : option bytes) : console unit :=
  match proxy_url cfg with
  | None => sret tt
  | Some base =>
      let base := trim_end_slashes base in
      let u := match timeline with
               | Some tl => base ++ text "/tenants/" ++ name ++ text "/pin/" ++ tl
               | None => base ++ text "/tenants/" ++ name ++ text "/unpin"
               end in
      let! _ := call "POST" u [] in sret tt
  end.

Definition proxy_route (name : bytes) (add : bool) : console unit :=
  match proxy_url cfg with
  | None => sret tt
  | Some base =>
      let u := trim_end_slashes base ++ text "/tenants/" ++ name in
      let! _ := call (if add then "POST" else "DELETE") u [] in sret tt
  end.

(** ** Databases *)

Definition create_database (body : bytes) : console Value :=
  let! name := field (parse body) "name" in
  let! db := upsert name in
  let! _ := ignore_conflict (client_create_tenant client (db_id db)) in
  let! _ := ignore_conflict (client_create_timeline client ROOT_TIMELINE (Some (db_id db))) in
  let! _ := proxy_route (db_name db) true in
  sret (vobj [("name", VStr (db_name db)); ("id", VStr (db_id db));
              ("connection", VStr (connection_string (db_name db) (client_endpoint cfg))); ("status", VStr (text "active"))]).

Definition known_database (name : bytes) : console Database :=
  let! dbs := load in
  match find_db name dbs with Some d => sret d | None => serr (text "unknown database " ++ name) end.

Definition delete_database (name : bytes) : console Value :=
  let! db := known_database name in
  let! _ := stry (client_delete_tenant client (db_id db)) in
  let! _ := proxy_route name false in
  let! _ := remove name in
  sret (vobj [("deleted", VStr name)]).

Definition branch_database (name body : bytes) : console Value :=
  let! db := known_database name in
  let b := parse body in
  let branch := match opt b "branch" with Some s => s | None => text "restore" end in
  let lsn := get_u64 b "lsn" in
  let timeline := id_from_name (name ++ text "/" ++ branch) in
  let! _ := ignore_conflict (client_branch client timeline ROOT_TIMELINE lsn (Some (db_id db))) in
  let! _ := add_branch name branch timeline lsn in
  sret (vobj [("database", VStr name); ("branch", VStr branch); ("timeline", VStr timeline); ("lsn", VNum lsn)]).

Definition restore_target (s : bytes) : bool := non_empty s && negb (bool_decide (s = text "live")).

Definition restore_database (name body : bytes) : console Value :=
  let timeline := opt_filter restore_target (get_str "timeline" (parse body)) in
  let! _ := set_current name timeline in
  let! _ := proxy_pin name timeline in
  sret (vobj [("database", VStr name); ("current", vopt timeline)]).

Definition restore_point_value (b : RestorePoint) : Value :=
  vobj [("name", VStr (rp_name b)); ("timeline", VStr (rp_timeline b)); ("lsn", VNum (rp_lsn b))].

(** The name of the timeline a database serves from. *)
Definition current_name (d : Database) : bytes :=
  match db_current d with
  | None => text "live"
  | Some tl =>
      match List.find (fun b => bool_decide (rp_timeline b = tl)) (db_branches d) with
      | Some b => rp_name b
      | None => text "restore"
      end
  end.

Definition database_value (live : list bytes) (compute warm : gmap bytes bool) (d : Database) : Value :=
  vobj [("name", VStr (db_name d)); ("id", VStr (db_id d));
        ("connection", VStr (connection_string (db_name d) (client_endpoint cfg)));
        ("status", VStr (text (if bool_decide (db_id d ∈ live) then "active" else "pending")));
        ("compute", VStr (text (match compute !! db_name d with Some true => "running" | Some false => "hibernated" | None => "unmanaged" end)));
        ("keepWarm", VBool (match warm !! db_name d with Some b => b | None => false end));
        ("current", VStr (current_name d));
        ("branches", VArr (restore_point_value <$> db_branches d))].

Definition list_databases : console Value :=
  let! tenants := stry (client_list_tenants client) in
  let live := match tenants with inl l => l | inr _ => [] end in
  let! compute := compute_states in
  let! warm := keep_warm_states in
  let! dbs := load in
  sret (vobj [("databases", VArr (database_value live compute warm <$> dbs));
              ("endpoint", VStr (client_endpoint cfg));
              ("computeControl", VBool (bool_decide (is_Some (proxy_url cfg))))]).

Definition status : console Value :=
  let! _ := healthz client in
  let! states := compute_states in
  let! dbs := load in
  sret (vobj [("server", VStr (control_url cfg)); ("databases", VNum (len dbs));
              ("running", VNum (Z.of_nat (size (filter (fun kv => kv.2 = true) states))));
              ("computeControl", VBool (bool_decide (is_Some (proxy_url cfg))));
              ("metrics", VBool (bool_decide (is_Some (prometheus_url cfg))));
              ("allowApply", VBool (allow_apply cfg)); ("grafanaUrl", vopt (grafana_url cfg));
              ("clientEndpoint", VStr (client_endpoint cfg))]).

(** ** Metrics *)

Definition as_f64 (v : Value) : option bytes :=
  match v with VNum z => Some (f64_of_int z) | VFloat f => Some f | _ => None end.

Definition f64_value (f : bytes) : Value := if f64_is_finite f then VFloat f else VNull.

(** A pair of a time and a value in text. *)
Definition sample (pair : Value) : option Value :=
  arr ← as_array pair;
  t ← (v ← arr !! 0%nat; as_f64 v);
  s ← (v ← arr !! 1%nat; as_str v);
  val ← f64_from_str s;
  Some (VArr [f64_value t; f64_value val]).

(** [v.pointer("/data/result/0/values")] *)
Definition first_of (v : Value) : option Value :=
  match v with VArr l => l !! 0%nat | VObj _ => vget "0" v | _ => None end.

Definition samples_of (v : Value) : option (list Value) :=
  d ← vget "data" v; r ← vget "result" d; x ← first_of r; vs ← vget "values" x; as_array vs.

Definition prom_range (prom expr : bytes) (start end_ : Z) : console (list Value) :=
  let! r := call "GET" (trim_end_slashes prom ++ text "/api/v1/query_range")
              [(text "query", expr); (text "start", fmt_dec start); (text "end", fmt_dec end_); (text "step", text "60")] in
  sret (match r with
        | Answered (Some v) => match samples_of v with Some values => omap sample values | None => [] end
        | _ => []
        end).

Definition selector (name : bytes) : bytes := text "{database=" ++ [z2b 34] ++ name ++ [z2b 34] ++ text "}".

Definition rate_of (series : bytes) : bytes := text "rate(" ++ series ++ text "[5m])".
Definition sum_of (e : bytes) : bytes := text "sum(" ++ e ++ text ")".

Definition database_metrics (name : bytes) : console Value :=
  match prometheus_url cfg with
  | None => serr (text "metrics are not configured; start " ++ ticked (text "aethelctl serve") ++ text " with --prometheus-url")
  | Some prom =>
      let! end_ := outside (fun r => (r, unix_seconds r)) in
      let start := saturating_sub end_ 3600 in
      let metric m := text "aethel_proxy_database_" ++ text m ++ selector name in
      let pgm m := text "pg_stat_database_" ++ text m ++ selector name in
      let sql expr := prom_range prom expr start end_ in
      let hit := sum_of (rate_of (pgm "blks_hit")) in
      let read := sum_of (rate_of (pgm "blks_read")) in
      let! connections := sql (rate_of (metric "connections_total")) in
      let! active := sql (metric "active_connections") in
      let! up := sql (metric "compute_up") in
      let! wakes := sql (rate_of (metric "wakes_total")) in
      let! tps := sql (sum_of (rate_of (pgm "xact_commit")) ++ text " + " ++ sum_of (rate_of (pgm "xact_rollback"))) in
      let! cache := sql (text "100 * " ++ hit ++ text " / (" ++ hit ++ text " + " ++ read ++ text ")") in
      let! backends := sql (sum_of (pgm "numbackends")) in
      let! rows := sql (sum_of (rate_of (pgm "tup_fetched"))) in
      sret (vobj [("database", VStr name); ("window", VNum 3600);
                  ("series", vobj [("connections", VArr connections); ("active", VArr active); ("computeUp", VArr up); ("wakes", VArr wakes)]);
                  ("sql", vobj [("tps", VArr tps); ("cacheHit", VArr cache); ("backends", VArr backends); ("rows", VArr rows)])])
  end.

(** ** The control plane and Helm *)

Definition do_create_tenant (body : bytes) : console Value :=
  let! id := field (parse body) "id" in client_create_tenant client id.

Definition do_create_timeline (body : bytes) : console Value :=
  let b := parse body in
  let! id := field b "id" in client_create_timeline client id (opt b "tenant").

Definition do_branch (body : bytes) : console Value :=
  let b := parse body in
  let! timeline := field b "timeline" in
  let! parent := field b "parent" in
  client_branch client timeline parent (get_u64 b "lsn") (opt b "tenant").

Definition do_gc (body : bytes) : console Value :=
  let b := parse body in client_gc client (get_u64 b "horizon_lsn") (opt b "tenant").

Definition deploy_preview (body : bytes) : console Value :=
  let o := deploy_opts (parse body) true in
  let! output := deploy_capture o None in
  sret (vobj [("ok", VBool true); ("command", VStr (command_preview o)); ("output", VStr output)]).

Definition deploy_command (body : bytes) : console Value :=
  sret (vobj [("command", VStr (command_preview (deploy_opts (parse body) false)))]).

Definition stream_apply (body : bytes) : console Reply :=
  if allow_apply cfg then
    let o := deploy_opts (parse body) false in
    let! chart := stry extract_chart_dir in
    match chart with
    | inr e => sret (mkReply 500 (text "error: " ++ e) None)
    | inl chart =>
        let cmd := text "helm " ++ join_with [space] (helm_args o chart) ++ text " 2>&1" in
        let! child := outside (spawn (text "sh") [text "-c"; cmd] Streamed) in
        match child with
        | NotStarted e => sret (mkReply 200 (text "failed to run helm: " ++ e) None)
        | Exited _ _ out _ => sret (mkReply 200 out (Some (text "text/plain; charset=utf-8")))
        end
    end
  else
    sret (mkReply 403 (json_print (vobj [("error", VStr (text "apply is disabled; restart " ++ ticked (text "aethelctl serve") ++ text " with --allow-apply"))])) JSON).

(** ** Requests *)

Definition api (r : console Value) : console Reply :=
  let! res := stry r in
  match res with
  | inl v => sret (mkReply 200 (json_print v) JSON)
  | inr e => sret (mkReply 400 (json_print (vobj [("error", VStr e)])) JSON)
  end.

(** The handler of a path under [/api/databases/]. *)
Definition database_route (method : Method) (path body : bytes) : option (console Value) :=
  rest ← strip_prefix (text "/api/databases/") path;
  let ends w := strip_suffix (text w) rest in
  match method with
  | Post =>
      match ends "/start" with Some name => Some (database_action name true) | None =>
      match ends "/stop" with Some name => Some (database_action name false) | None =>
      match ends "/branch" with Some name => Some (branch_database name body) | None =>
      match ends "/restore" with Some name => Some (restore_database name body) | None =>
      match ends "/keepwarm" with Some name => Some (database_warm name true) | None =>
      match ends "/nokeepwarm" with Some name => Some (database_warm name false) | None => None
      end end end end end end
  | Get => name ← ends "/metrics"; Some (database_metrics name)
  | Delete => if contains [slash] rest then None else Some (delete_database rest)
  | OtherMethod _ => None
  end.

Definition static_route (method : Method) (url path body : bytes) : console Reply :=
  let at_ m p := bool_decide (method = m) && bool_decide (path = text p) in
  if at_ Get "/" || at_ Get "/index.html" then sret (mkReply 200 INDEX_HTML (Some (text "text/html; charset=utf-8")))
  else if at_ Get "/api/status" then api status
  else if at_ Get "/api/databases" then api list_databases
  else if at_ Post "/api/databases" then api (create_database body)
  else if at_ Get "/api/tenants" then
    api (let! t := client_list_tenants client in sret (vobj [("tenants", VArr (VStr <$> t))]))
  else if at_ Post "/api/tenants" then api (do_create_tenant body)
  else if at_ Get "/api/timelines" then
    api (let! t := client_list_timelines client (query_param url (text "tenant")) in sret (vobj [("timelines", VArr (VStr <$> t))]))
  else if at_ Post "/api/timelines" then api (do_create_timeline body)
  else if at_ Post "/api/branches" then api (do_branch body)
  else if at_ Post "/api/gc" then api (do_gc body)
  else if at_ Post "/api/deploy/preview" then api (deploy_preview body)
  else if at_ Post "/api/deploy/command" then api (deploy_command body)
  else sret (mkReply 404 (json_print (vobj [("error", VStr (text "not found"))])) JSON).

Definition route (method : Method) (url path body : bytes) : console Reply :=
  match database_route method path body with
  | Some r => api r
  | None => static_route method url path body
  end.

(** [url.split('?').next()] *)
Definition path_of (url : bytes) : bytes := match split_once (z2b 63) url with Some (p, _) => p | None => url end.

(** The body, when it is text. *)
Definition read_body (data : bytes) : bytes := if utf8_valid data then data else [].

Definition serve_one (method : Method) (url data : bytes) : console Reply :=
  let path := path_of url in
  let body := read_body data in
  if bool_decide (method = Post) && bool_decide (path = text "/api/deploy/apply") then stream_apply body
  else route method url path body.

(** The loop over the requests that arrive. *)
Fixpoint serve_all (reqs : list (Method * bytes * bytes)) : console (list Reply) :=
  match reqs with
  | [] => sret []
  | (method, url, data) :: reqs' =>
      let! r := serve_one method url data in
      let! rs := serve_all reqs' in
      sret (r :: rs)
  end.
End Handlers.

(** ** A read-only console

    The processes started so far are part of the outside; only [spawn] adds one. *)

Class Traced (R : Type) `{Disk R} `{Ureq R} `{System R} := {
  started : R -> list (bytes * list bytes);
  started_create_dir dir r : started (create_dir_all dir r).1 = started r;
  started_write path b r : started (write_file path b r).1 = started r;
  started_call hc r : started (ureq_call hc r).1 = started r;
  started_remove_dir dir r : started (remove_dir_all dir r) = started r;
  started_unpack dir r : started (unpack_chart dir r).1 = started r;
  started_spawn program args io r : started (spawn program args io r).1 = started r ++ [(program, args)]
}.

Definition dry_run (p : bytes * list bytes) : Prop :=
  p.1 = text "helm" /\ exists o chart, do_dry_run o = true /\ p.2 = helm_args o chart.

Create HintDb tame.

Section ReadOnly.
Context `{Json} `{Crypto} `{RegistryJson} `{Floats} `{Page} {R : Type} `{Disk R} `{Ureq R} `{System R} `{Clock R} `{!Traced R}.
Context (client : Client) (cfg : ServeCfg).

(** The call does not panic, and starts nothing but dry runs. *)
Definition tame {A} (m : stateM (Console R) bytes A) : Prop := forall c,
  (m c).2 <> Panic /\ exists new, started (co_world (m c).1) = started (co_world c) ++ new /\ Forall dry_run new.

Lemma tame_ret {A} (a : A) : tame (sret a).
Proof using. intros c. split; [done |]. exists []. by rewrite app_nil_r. Qed.

Lemma tame_err {A} (e : bytes) : tame (serr (A := A) e).
Proof using. intros c. split; [done |]. exists []. by rewrite app_nil_r. Qed.

Lemma tame_bind {A B} (m : stateM (Console R) bytes A) (k : A -> stateM (Console R) bytes B) :
  tame m -> (forall a, tame (k a)) -> tame (sbind m k).
Proof using.
  intros Hm Hk c. unfold sbind. destruct (Hm c) as (Hp & new & E & Hn). destruct (m c) as [c1 [a | e |]]; cbn [fst snd] in *; [| | done].
  - destruct (Hk a c1) as (Hp1 & new1 & E1 & Hn1). split; [done |]. exists (new ++ new1). rewrite E1, E, app_assoc. split; [done |]. by apply Forall_app.
  - split; [done |]. by exists new.
Qed.

Lemma tame_try {A} (m : stateM (Console R) bytes A) : tame m -> tame (stry m).
Proof using. intros Hm c. unfold stry. destruct (Hm c) as (Hp & Hn). by destruct (m c) as [c1 [a | e |]]. Qed.

Lemma tame_outside {A} (f : R -> R * A) : (forall r, started (f r).1 = started r) -> tame (outside f).
Proof using.
  intros Hf c. unfold outside. specialize (Hf (co_world c)). destruct (f (co_world c)) as [r a]. split; [done |]. exists [].
  by rewrite app_nil_r.
Qed.

Lemma tame_spawn args io : (exists o chart, do_dry_run o = true /\ args = helm_args o chart) -> tame (outside (spawn (text "helm") args io)).
Proof using.
  intros Ha c. unfold outside. pose proof (started_spawn (text "helm") args io (co_world c)) as E.
  destruct (spawn _ _ _ _) as [r e]. split; [done |]. exists [(text "helm", args)]. cbn in *. split; [done |]. apply Forall_singleton. by split.
Qed.

Lemma tame_load : tame load.
Proof using. intros c. split; [done |]. exists []. by rewrite app_nil_r. Qed.

Lemma tame_save dbs : tame (save dbs).
Proof using.
  unfold save. apply tame_bind.
  - intros c. unfold make_dir. destruct registry_dir as [dir |]; [| split; [done |]; exists []; by rewrite app_nil_r].
    pose proof (started_create_dir dir (co_world c)) as E. destruct (create_dir_all dir (co_world c)) as [r [e |]];
      (split; [done |]); exists []; by rewrite app_nil_r.
  - intros _ c. pose proof (started_write registry_path (dbs_encode dbs) (co_world c)) as E.
    destruct (write_file _ _ _) as [r [| e remains]]; (split; [done |]); exists []; by rewrite app_nil_r.
Qed.
End ReadOnly.

#[export] Hint Resolve tame_ret tame_err tame_bind tame_try tame_load tame_save : tame.

(** Goes through a handler, one call or test at a time. *)
Ltac tame_steps :=
  repeat first
    [ progress intros
    | solve [auto with tame nocore]
    | apply tame_bind
    | apply tame_try
    | match goal with |- tame (match ?x with _ => _ end) => destruct x end
    | match goal with |- tame ((let '(_, _) := ?x in _)) => destruct x end ].

Section ReadOnlyHandlers.
Context `{Json} `{Crypto} `{RegistryJson} `{Floats} `{Page} {R : Type} `{Disk R} `{Ureq R} `{System R} `{Clock R} `{!Traced R}.
Context (client : Client) (cfg : ServeCfg).

Lemma tame_http hc : tame (outside (ureq_call hc)).
Proof using. apply tame_outside. intros r. apply started_call. Qed.

Hint Resolve tame_http : tame.

Lemma tame_run cl req body : tame (run cl req body).
Proof using. unfold run. tame_steps. Qed.

Lemma tame_call method u q : tame (call method u q).
Proof using. apply tame_http. Qed.

Lemma tame_field v key : tame (field v key).
Proof using. unfold field. tame_steps. Qed.

Lemma tame_ignore_conflict {A} (m : stateM (Console R) bytes A) : tame m -> tame (ignore_conflict m).
Proof using. intros Hm. unfold ignore_conflict. tame_steps. Qed.

Hint Resolve tame_call tame_run tame_field tame_ignore_conflict : tame.

Lemma tame_proxy_states key : tame (proxy_states cfg key).
Proof using. unfold proxy_states. tame_steps. Qed.

Lemma tame_post_action what action name base : tame (post_action what action name base).
Proof using. unfold post_action. tame_steps. Qed.

Lemma tame_proxy_route name add : tame (proxy_route cfg name add).
Proof using. unfold proxy_route. tame_steps. Qed.

Lemma tame_proxy_pin name tl : tame (proxy_pin cfg name tl).
Proof using. unfold proxy_pin. tame_steps. Qed.

Lemma tame_prom_range prom expr a b : tame (prom_range prom expr a b).
Proof using. unfold prom_range. tame_steps. Qed.

Lemma tame_extract_chart : tame extract_chart.
Proof using.
  unfold extract_chart. cbv zeta. apply tame_bind; [apply tame_outside; intros r; apply started_remove_dir |]. intros _.
  apply tame_bind; [apply tame_outside; intros r; apply started_create_dir |]. intros [e |]; [apply tame_err |].
  apply tame_bind; [apply tame_outside; intros r; apply started_unpack |]. tame_steps.
Qed.

Hint Resolve tame_proxy_states tame_post_action tame_proxy_route tame_proxy_pin tame_prom_range tame_extract_chart : tame.

(** The registry's operations and the client's calls. *)
Lemma tame_registry :
  (forall name, tame (upsert name)) /\ (forall name, tame (remove name)) /\
  (forall db b tl lsn, tame (add_branch db b tl lsn)) /\ (forall db tl, tame (set_current db tl)).
Proof using. unfold upsert, remove, add_branch, set_current. cbv zeta. split_and!; tame_steps. Qed.

Lemma tame_deploy_preview body : tame (deploy_preview body).
Proof using.
  unfold deploy_preview, deploy_capture. cbv zeta. apply tame_bind; [| tame_steps]. apply tame_bind; [cbn; tame_steps |]. intros dir.
  apply tame_bind; [| tame_steps]. apply tame_spawn. by exists (deploy_opts (parse body) true), dir.
Qed.

Lemma tame_database_metrics name : tame (database_metrics cfg name).
Proof using.
  unfold database_metrics. cbv zeta. destruct (prometheus_url cfg); [| apply tame_err]. apply tame_bind; [by apply tame_outside | tame_steps].
Qed.

Lemma tame_database_route method path body m : database_route client cfg method path body = Some m -> tame m.
Proof using.
  destruct tame_registry as (Hu & Hr & Ha & Hs). unfold database_route. intros (rest & _ & E)%bind_Some.
  destruct method; repeat case_match; simplify_option_eq; try apply tame_database_metrics;
    unfold database_action, database_warm, no_proxy, branch_database, restore_database, delete_database, known_database; cbv zeta; tame_steps.
Qed.

Lemma tame_api m : tame m -> tame (api m).
Proof using. intros Hm. unfold api. tame_steps. Qed.

Lemma tame_static_route method url path body : tame (static_route client cfg method url path body).
Proof using.
  destruct tame_registry as (Hu & Hr & Ha & Hs). pose proof tame_deploy_preview. pose proof @tame_api. unfold static_route. cbv zeta.
  repeat case_match; try apply tame_api; unfold status, list_databases, create_database, do_create_tenant, do_create_timeline, do_branch, do_gc,
    deploy_command, compute_states, keep_warm_states, healthz, client_list_tenants, client_list_timelines; cbv zeta; tame_steps.
Qed.

Definition known_status (z : Z) : bool := (z =? 200) || (z =? 400) || (z =? 403) || (z =? 404) || (z =? 500).

(** The handlers' errors have become replies. *)
Definition replies (m : stateM (Console R) bytes Reply) : Prop := forall c,
  match (m c).2 with Ok r => known_status (re_status r) = true | Err _ => False | Panic => True end.

Lemma replies_api m : replies (api m).
Proof using. intros c. unfold api, sbind, stry. by destruct (m c) as [c1 [v | e |]]. Qed.

Lemma replies_serve_one method url data : replies (serve_one client cfg method url data).
Proof using.
  unfold serve_one. cbv zeta. case_match.
  - intros c. unfold stream_apply. destruct (allow_apply cfg); [| done]. cbv zeta. unfold sbind at 1, stry.
    destruct (extract_chart_dir c) as [c1 [chart | e |]]; [| done | done]. unfold sbind, outside.
    by destruct (spawn _ _ _ _) as [r []].
  - unfold route. destruct (database_route _ _ _ _ _); [apply replies_api |]. unfold static_route. cbv zeta.
    repeat case_match; try apply replies_api; done.
Qed.

Lemma tame_serve_one method url data : allow_apply cfg = false -> tame (serve_one client cfg method url data).
Proof using.
  intros Hro. unfold serve_one, stream_apply, route. cbv zeta. rewrite Hro. case_match; [apply tame_ret |].
  destruct (database_route _ _ _ _ _) eqn:E; [apply tame_api; by eapply tame_database_route | apply tame_static_route].
Qed.

(** C20: a console without [--allow-apply] never changes a cluster: whatever requests it
    is sent, the only processes it starts are Helm with the arguments of a dry run.
    It answers every request, whichever of its calls fail. *)
Theorem read_only_console_only_dry_runs reqs c :
  allow_apply cfg = false ->
  exists c' rs new, serve_all client cfg reqs c = (c', Ok rs) /\
    length rs = length reqs /\ Forall (fun r => known_status (re_status r) = true) rs /\
    started (co_world c') = started (co_world c) ++ new /\ Forall dry_run new.
Proof using.
  intros Hro. revert c. induction reqs as [| [[method url] data] reqs IH]; intros c.
  - exists c, [], []. rewrite app_nil_r. by repeat constructor.
  - cbn [serve_all]. destruct (tame_serve_one method url data Hro c) as (Hp & new & E & Hn). pose proof (replies_serve_one method url data c) as Hr.
    unfold sbind. destruct (serve_one _ _ _ _ _ c) as [c1 [r | e |]]; cbn in *; [| done | done].
    destruct (IH c1) as (c' & rs & new' & E2 & Hl & Hk & E3 & Hn'). rewrite E2. exists c', (r :: rs), (new ++ new').
    rewrite E3, E, app_assoc, Forall_app. cbn. split_and!; auto.
Qed.
End ReadOnlyHandlers.

(** *** A console beside a server that does not answer *)

Definition toy_json : Json := {|
  json_parse b :=
    if bool_decide (b = text "form") then Some (vobj [("release", VStr (text "r;reboot"))])
    else if bool_decide (b = text "orders") then Some (vobj [("name", VStr (text "orders"))]) else None;
  json_print v := match v with VObj ((k, _) :: _) => k | _ => [] end;
  json_pretty _ := []
|}.
Definition toy_floats : Floats := {| f64_of_int := fmt_i64; f64_from_str b := Some b; f64_is_finite _ := true |}.
Definition toy_page : Page := {| INDEX_HTML := text "<html>" |}.

Abbreviation spawned := (list (bytes * list bytes)).
Definition log_disk : Disk spawned := {|
  registry_path := text "r.json"; registry_dir := None; create_dir_all _ r := (r, None); write_file _ _ r := (r, Written) |}.
Definition log_ureq : Ureq spawned := {| ureq_call _ r := (r, Unreached (text "connection refused")) |}.
Definition log_system : System spawned := {|
  temp_dir := text "/tmp"; process_id := 7; remove_dir_all _ r := r; unpack_chart _ r := (r, None);
  spawn p args _ r := (r ++ [(p, args)], Exited (text "exit status: 0") true (text "rendered") []) |}.
Definition log_clock : Clock spawned := {| unix_seconds _ := 0 |}.
Definition log_traced : @Traced spawned log_disk log_ureq log_system.
Proof. refine {| started r := r |}; done. Defined.

Definition toy_cfg (apply : bool) : ServeCfg := mkServeCfg (text "http://ps:4090/") apply None (text "db:5432") None None.
Definition toy_client : Client := Client_new (text "http://ps:4090/") None.

Definition toy_serve (apply : bool) (reqs : list (Method * bytes * bytes)) : stateM (Console spawned) bytes (list Reply) :=
  @serve_all toy_json toy_crypto bit_registry toy_floats toy_page spawned log_disk log_ureq log_system log_clock toy_client (toy_cfg apply) reqs.

Definition deploy_requests : list (Method * bytes * bytes) :=
  [(Post, text "/api/deploy/preview", text "form"); (Post, text "/api/deploy/apply?x=1", text "form"); (Get, text "/api/status", [])].

(** A preview, a refused apply, and a status that cannot be had. *)
Lemma read_only_console_witness :
  exists c' rs new, toy_serve false deploy_requests (mkConsole None []) = (c', Ok rs) /\
    length rs = 3%nat /\ Forall (fun r => known_status (re_status r) = true) rs /\ co_world c' = [] ++ new /\ Forall dry_run new /\ length new = 1%nat.
Proof.
  destruct (@read_only_console_only_dry_runs toy_json toy_crypto bit_registry toy_floats toy_page spawned log_disk log_ureq log_system log_clock
    log_traced toy_client (toy_cfg false) deploy_requests (mkConsole None []) eq_refl) as (c' & rs & new & E & Hl & Hs & Hw & Hn).
  exists c', rs, new. fold (toy_serve false) in E. split; [exact E |]. split; [exact Hl |]. split; [exact Hs |]. split; [exact Hw |].
  split; [exact Hn |]. assert (E1 : length (co_world (toy_serve false deploy_requests (mkConsole None [])).1) = 1%nat) by (vm_compute; reflexivity).
  unfold toy_serve in E1. rewrite E in E1. cbn in Hw, E1. by rewrite Hw in E1.
Defined.

(** With [--allow-apply], what the form says becomes part of a shell's command. *)
Lemma apply_form_reaches_shell :
  match co_world (toy_serve true [(Post, text "/api/deploy/apply", text "form")] (mkConsole None [])).1 with
  | [(program, [flag; cmd])] =>
      bool_decide (program = text "sh" /\ flag = text "-c") && starts_with (text "helm upgrade --install r;reboot ") cmd
  | _ => false
  end = true.
Proof. vm_compute; reflexivity. Qed.

(** A server that cannot be reached on a port with these digits counts as one that
    has the database already: the console answers that it is active. *)
Lemma unreachable_server_counts_as_conflict :
  match (@create_database toy_json toy_crypto bit_registry spawned log_disk log_ureq toy_client (toy_cfg false) (text "orders") (mkConsole None [])).2 with
  | Ok v => get_str "status" v
  | _ => None
  end = Some (text "active").
Proof. vm_compute; reflexivity. Qed.
