(* ===== verification/Platform.v ===== *)
(** The console over a page server and a proxy: what provisioning a database and
    restoring it to a point in time leave behind.  The HTTP client is the one
    assumption: it hands a request to the server its URL names and returns the
    answer. *)

From S2P Require Import Prelude Bytes BTree Text Common PageVersion WalRedo Repository WalDecode Timeline Tenant TenantManager.
From S2P Require Import ObjStore Catalog Offload WalReceiver Control Http HttpApi Scram Compute Databases Client Console.

(** ** The page server's topology *)

(** A timeline of a tenant, with its parent and branch point. *)
Definition timeline_at (tm : TenantManager) (te : TenantId) (n : TimelineId) : option ancestry :=
  g ← tm_tenants tm !! te; tn ← tm_arena tm !! g; topo tn n.

Lemma topo_new t n : topo (Tenant_new t) n = None.
Proof. unfold topo. cbn. by rewrite lookup_empty. Qed.

Lemma manager_tenant tm te g : manager_wf tm -> tm_tenants tm !! te = Some g -> exists tn, tm_arena tm !! g = Some tn /\ tenant_wf tn.
Proof.
  intros Hwf Hg. destruct (mw_ids _ Hwf te g Hg) as [_ Hl]. destruct (lookup_lt_is_Some_2 _ _ Hl) as [tn Ht]. exists tn. split; [done |].
  eapply Forall_lookup; [apply (mw_tenants _ Hwf) | done].
Qed.

Lemma timeline_at_add tm te te' n :
  manager_wf tm -> tm_tenants tm !! te = None -> timeline_at (add_tenant te tm) te' n = timeline_at tm te' n.
Proof.
  intros Hwf Hn. unfold timeline_at. cbn [add_tenant tm_tenants tm_arena]. destruct (decide (te = te')) as [<- | Hne].
  - rewrite lookup_insert_eq, Hn. cbn. rewrite lookup_app_r, Nat.sub_diag by lia. cbn. apply topo_new.
  - rewrite lookup_insert_ne by done. destruct (tm_tenants tm !! te') as [g |] eqn:Eg; [| done]. cbn.
    rewrite lookup_app_l; [done |]. by apply (mw_ids _ Hwf te' g).
Qed.

Lemma get_or_create_topo tm te tm' g :
  manager_wf tm -> Id_wf te -> get_or_create te tm = (tm', g) ->
  manager_wf tm' /\ tm_tenants tm' !! te = Some g /\ forall te' n, timeline_at tm' te' n = timeline_at tm te' n.
Proof.
  intros Hwf Hid. unfold get_or_create, tm_get. destruct (tm_tenants tm !! te) as [a |] eqn:E; intros [= <- <-]; [done |].
  split; [by apply manager_wf_add |]. split; [cbn; by rewrite lookup_insert_eq |]. intros te' n. by apply timeline_at_add.
Qed.

Lemma timeline_at_update tm te g tn tn' te' n :
  manager_wf tm -> tm_tenants tm !! te = Some g -> tm_arena tm !! g = Some tn ->
  timeline_at (mkTenantManager (tm_freeze_threshold tm) (tm_tenants tm) (<[g := tn']> (tm_arena tm))) te' n =
  if decide (te' = te) then topo tn' n else timeline_at tm te' n.
Proof.
  intros Hwf Hg Ht. unfold timeline_at. cbn [tm_tenants tm_arena]. apply lookup_lt_Some in Ht. case_decide as E.
  - subst te'. rewrite Hg. cbn. by rewrite list_lookup_insert_eq.
  - destruct (tm_tenants tm !! te') as [g' |] eqn:Eg; [| done]. cbn. rewrite list_lookup_insert_ne; [done |].
    intros <-. by apply E, (mw_distinct _ Hwf te' te g).
Qed.

(** What a topology request does to a tenant, by the timelines before and after:
    the new timeline when it is absent and its parent (if it has one) is there;
    nothing otherwise. *)
Definition possible (look : TimelineId -> option ancestry) (n : TimelineId) (anc : ancestry) : Prop :=
  look n = None /\ match anc with Some (p, _) => look p <> None | None => True end.

Definition adds_timeline {A} (m : stateM Tenant TenantError A) (n : TimelineId) (anc : ancestry) : Prop := forall tn, tenant_wf tn ->
  match m tn with
  | (tn', Ok _) => possible (topo tn) n anc /\ tenant_wf tn' /\ forall i, topo tn' i = if decide (i = n) then Some anc else topo tn i
  | (tn', Err _) => tn' = tn /\ ~ possible (topo tn) n anc
  | (_, Panic) => False
  end.

Lemma create_adds n : Id_wf n -> adds_timeline (create_timeline n) n None.
Proof.
  intros Hn tn Hwf. destruct (topo tn n) as [x |] eqn:En.
  - unfold create_timeline. destruct (timelines tn !! n) as [a |] eqn:Et; [| apply (topo_None _ _ (tw_ok _ Hwf)) in Et; congruence].
    split; [done |]. intros [? _]. congruence.
  - by destruct (create_timeline_topo tn n Hwf Hn En) as (tn' & a & -> & Hw & Ht).
Qed.

Lemma branch_adds n p l : Id_wf n -> adds_timeline (branch_timeline n p l) n (Some (p, l)).
Proof.
  intros Hn tn Hwf. pose proof (tw_ok _ Hwf) as Hok. destruct (topo tn n) as [x |] eqn:En.
  - unfold branch_timeline. destruct (timelines tn !! n) as [a |] eqn:Et; [| apply (topo_None _ _ Hok) in Et; congruence].
    split; [done |]. intros [? _]. congruence.
  - destruct (topo tn p) as [y |] eqn:Ep.
    + destruct (branch_timeline_topo tn n p l Hwf Hn En) as (tn' & a & -> & Hw & Ht); [by rewrite Ep |]. split; [| done]. split; [done |]. by rewrite Ep.
    + unfold branch_timeline. rewrite (proj1 (topo_None tn n Hok) En), (proj1 (topo_None tn p Hok) Ep). split; [done |]. intros [_ Hp]. by apply Hp.
Qed.

(** The same for the manager, with the status of the answer. *)
Definition topo_change (te : TenantId) (n : TimelineId) (anc : ancestry) (tm tm' : TenantManager) (status : Z) : Prop :=
  manager_wf tm' /\ is_Some (tm_tenants tm' !! te) /\
  ((status = 201 /\ possible (timeline_at tm te) n anc /\
    forall te' i, timeline_at tm' te' i = if decide (te' = te /\ i = n) then Some anc else timeline_at tm te' i) \/
   (status = 409 /\ ~ possible (timeline_at tm te) n anc /\ forall te' i, timeline_at tm' te' i = timeline_at tm te' i)).

Lemma possible_ext look look' n anc : (forall i, look i = look' i) -> possible look n anc -> possible look' n anc.
Proof. unfold possible. intros E [H1 H2]. rewrite <- E. split; [done |]. destruct anc as [[p l] |]; [by rewrite <- E | done]. Qed.

Section Page.
Context {S : Type} `{HS : ObjectStore S} `{HJ : CatalogJson} `{HO : HashOrder} `{HN : Network} `{HW : HttpJson} (ccfg : ControlConfig).
Implicit Types (c : Control (S := S)).

Lemma on_tenant_change {A} (m : stateM Tenant TenantError A) d te g n anc c :
  adds_timeline m n anc -> manager_wf (ct_tenants c) -> tm_tenants (ct_tenants c) !! te = Some g ->
  exists c' status json, on_tenant g (tenant_status m d) c = (c', Ok (status, json)) /\ topo_change te n anc (ct_tenants c) (ct_tenants c') status.
Proof.
  intros Hm Hwf Hg. destruct (manager_tenant _ te g Hwf Hg) as (tn & Ht & Hw). specialize (Hm tn Hw).
  assert (El : forall i, topo tn i = timeline_at (ct_tenants c) te i) by (intros i; unfold timeline_at; rewrite Hg; cbn; by rewrite Ht).
  unfold on_tenant. destruct (in_tenant g (tenant_status m d) (ct_tenants c)) as [tm' res] eqn:E.
  assert (Hwf' : manager_wf tm').
  { apply (in_tenant_wf _ _ _ _ _ Hwf E). intros tn0 E0 _. rewrite Ht in E0. injection E0 as <-. unfold tenant_status.
    destruct (m tn) as [tn' [a | e |]]; cbn; [by destruct Hm as (_ & ? & _) | by destruct Hm as [-> _] | done]. }
  unfold in_tenant in E. rewrite Ht in E. unfold tenant_status in E. destruct (m tn) as [tn' [a | e |]]; [| | done]; injection E as <- <-;
    (eexists _, _, _; split; [done |]); (split; [done |]); (split; [by exists g |]); cbn [ct_tenants].
  - destruct Hm as (Hp & _ & Hi). left. split; [done |]. split; [by eapply possible_ext |]. intros te' i.
    rewrite (timeline_at_update _ te g tn) by done. destruct (decide (te' = te)) as [-> | Hne].
    + rewrite Hi, El. destruct (decide (i = n)), (decide (te = te /\ i = n)); tauto || done.
    + rewrite decide_False by tauto. done.
  - destruct Hm as [-> Hp]. right. split; [done |]. split; [intros Hx; apply Hp; eapply possible_ext; [| done]; intros i; by rewrite El |].
    intros te' i. rewrite (timeline_at_update _ te g tn) by done. case_decide as E; [subst; by rewrite El | done].
Qed.

(** The request of an authorized client. *)
Definition authorized (rq : http_request) : Prop := rq_authorization rq = bearer <$> cc_token ccfg.

Lemma respond_authorized rq : authorized rq -> split_once question_mark (rq_path rq) = None ->
  respond ccfg rq = HttpApi.route ccfg (rq_method rq) (rq_path rq) [] (rq_body rq).
Proof.
  intros Ha Hq. unfold respond, split_query, expected_token. rewrite Hq. cbn. unfold authorized in Ha.
  case_bool_decide; [done |]. destruct (cc_token ccfg) as [t |]; [| done]. by rewrite bool_decide_true.
Qed.

Context `{!ObjectStoreLaws S}.
Hypothesis json_round_trip : forall doc, exists bs, to_vec_pretty doc = Some bs /\ from_slice bs = Some doc.
Hypothesis catalog_key_plain : plain_key CATALOG_KEY.

(** Once a request has its answer, the answer is sent. *)
Lemma serve_answers rq c c1 status json :
  respond ccfg rq c = (c1, Ok (status, json)) -> manager_wf (ct_tenants c1) ->
  exists c2, serve_request ccfg rq c = (c2, Ok (http_response status json)) /\ ct_tenants c2 = ct_tenants c1.
Proof using json_round_trip catalog_key_plain ObjectStoreLaws0.
  intros E Hwf. unfold serve_request, sbind. rewrite E. cbv beta iota. pose proof (persist_control_tenants ccfg c1) as Hp.
  destruct (_ || _); [| by exists c1].
  assert (Hn : (persist_control ccfg c1).2 = Ok tt).
  { unfold persist_control, persist. destruct (cc_catalog ccfg); [| done].
    pose proof (save_spec json_round_trip catalog_key_plain (ct_tenants c1) (ct_objects c1) Hwf) as Hs. unfold runs in Hs.
    by destruct (Catalog.save _ _) as [s [[] | e |]]. }
  destruct (persist_control ccfg c1) as [c2 [[] | e |]]; cbn in Hn; [| done | done]. by exists c2.
Qed.

(** The requests of the console. *)
Definition post (path : string) (token : option bytes) (body : bytes) : http_request := mkRequest (text "POST") (text path) (bearer <$> token) body.

Lemma page_create_tenant te body c :
  Id_wf te -> manager_wf (ct_tenants c) -> json_tenant body = inl (mkTenantBody (Id_display te)) ->
  exists c' status json, respond ccfg (post "/v1/tenants" (cc_token ccfg) body) c = (c', Ok (status, json)) /\
    (status = 201 \/ status = 409) /\ manager_wf (ct_tenants c') /\ is_Some (tm_tenants (ct_tenants c') !! te) /\
    forall te' n, timeline_at (ct_tenants c') te' n = timeline_at (ct_tenants c) te' n.
Proof using.
  intros Hid Hwf Hb. rewrite respond_authorized by reflexivity. change (HttpApi.route _ _ _ _ _) with (create_tenant_route (S := S) body).
  unfold create_tenant_route. rewrite Hb. cbn [tb_id]. unfold sbind, slift. rewrite parse_id_display by done. unfold tm_create.
  destruct (tm_tenants (ct_tenants c) !! te) as [g |] eqn:E; eexists _, _, _; (split; [reflexivity |]); cbn [ct_tenants].
  - split; [by right |]. split; [done |]. by rewrite E.
  - split; [by left |]. split; [by apply manager_wf_add |]. split; [cbn; rewrite lookup_insert_eq; by eexists |].
    intros te' n. by apply timeline_at_add.
Qed.

Lemma page_topology {A} (m : stateM Tenant TenantError A) d te n anc c :
  Id_wf te -> adds_timeline m n anc -> manager_wf (ct_tenants c) ->
  exists c' status json, HttpApi.with_tenant (Some (Id_display te)) (fun _ g => on_tenant g (tenant_status m d)) c = (c', Ok (status, json)) /\
    topo_change te n anc (ct_tenants c) (ct_tenants c') status.
Proof using.
  intros Hid Hm Hwf. rewrite (with_tenant_ok _ te) by (done || by right).
  destruct (get_or_create te (ct_tenants c)) as [tm g] eqn:Eg. destruct (get_or_create_topo _ _ _ _ Hwf Hid Eg) as (Hwf1 & Hg & Et).
  destruct (on_tenant_change m d te g n anc (mkControl tm (ct_objects c) (ct_receivers c)) Hm Hwf1 Hg) as (c' & status & json & E & Hwf' & Hs & Hc).
  exists c', status, json. split; [done |]. split; [done |]. split; [done |]. cbn [ct_tenants] in Hc.
  destruct Hc as [(? & Hp & Hi) | (? & Hp & Hi)]; [left | right]; (split; [done |]); split;
    try (intros te' i; by rewrite Hi, Et); [by eapply possible_ext, Hp |]. intros Hx. apply Hp. eapply possible_ext; [| done]. intros i. by rewrite Et.
Qed.

Lemma page_create_timeline te n body c :
  Id_wf te -> Id_wf n -> manager_wf (ct_tenants c) -> json_create body = inl (mkCreateBody (Id_display n) (Some (Id_display te))) ->
  exists c' status json, respond ccfg (post "/v1/timelines" (cc_token ccfg) body) c = (c', Ok (status, json)) /\
    topo_change te n None (ct_tenants c) (ct_tenants c') status.
Proof using.
  intros Hid Hn Hwf Hb. rewrite respond_authorized by reflexivity. change (HttpApi.route _ _ _ _ _) with (create_timeline_route (S := S) body).
  unfold create_timeline_route. rewrite Hb. cbn [cb_id cb_tenant].
  destruct (page_topology (create_timeline n) (JCreated (Id_display n)) te n None c Hid (create_adds n Hn) Hwf) as (c' & status & json & E & Hc).
  exists c', status, json. split; [| done]. rewrite <- E. rewrite !(with_tenant_ok _ te) by (done || by right).
  destruct (get_or_create te (ct_tenants c)). unfold sbind, slift. by rewrite parse_id_display.
Qed.

Lemma page_branch te n p l body c :
  Id_wf te -> Id_wf n -> Id_wf p -> manager_wf (ct_tenants c) ->
  json_branch body = inl (mkBranchBody (Id_display n) (Id_display p) l (Some (Id_display te))) ->
  exists c' status json, respond ccfg (post "/v1/branches" (cc_token ccfg) body) c = (c', Ok (status, json)) /\
    topo_change te n (Some (p, l)) (ct_tenants c) (ct_tenants c') status.
Proof using.
  intros Hid Hn Hp Hwf Hb. rewrite respond_authorized by reflexivity. change (HttpApi.route _ _ _ _ _) with (branch_route (S := S) body).
  unfold branch_route. rewrite Hb. cbn [bb_timeline bb_parent bb_lsn bb_tenant].
  destruct (page_topology (branch_timeline n p l) (JBranched (Id_display n) (Id_display p) l) te n (Some (p, l)) c Hid (branch_adds n p l Hn) Hwf)
    as (c' & status & json & E & Hc).
  exists c', status, json. split; [| done]. rewrite <- E. rewrite !(with_tenant_ok _ te) by (done || by right).
  destruct (get_or_create te (ct_tenants c)). unfold sbind, slift. by rewrite !parse_id_display.
Qed.
End Page.

(** ** The proxy's control endpoint, by itself *)

(** A task with no other running, and these answers from outside. *)
Fixpoint alone {A} (answers : forall X, ask X -> X) (p : task A) (s : Shared) : Shared * A :=
  match p with
  | Done a => (s, a)
  | Step f k => let '(s', x) := f s in alone answers (k x) s'
  | Await q k => alone answers (k (answers _ q)) s
  end.

(** Names that stay as they are in a URL and in a path. *)
Definition unreserved (b : byte) : bool :=
  let z := ch b in
  ((65 <=? z) && (z <=? 90)) || ((97 <=? z) && (z <=? 122)) || ((48 <=? z) && (z <=? 57)) || (z =? 45) || (z =? 95) || (z =? 126).

Definition plain_name (n : bytes) : Prop := n <> [] /\ Forall (fun b => unreserved b = true) n.

Lemma plain_no_slash n : Forall (fun b => unreserved b = true) n -> free_of slash_char n.
Proof. intros Hn. eapply Forall_impl; [exact Hn |]. intros b Hb ->. by vm_compute in Hb. Qed.

Lemma segments_of ws : Forall plain_name ws -> segments (slash_char :: join_char slash_char ws) = ws.
Proof.
  intros Hw. unfold segments. change (slash_char :: join_char slash_char ws) with ([] ++ slash_char :: join_char slash_char ws).
  destruct ws as [| w ws]; [reflexivity |]. change ([] ++ _) with (join_char slash_char ([] :: w :: ws)).
  rewrite split_char; [| constructor; [constructor |]; eapply Forall_impl; [exact Hw |]; intros x [_ Hx]; by apply plain_no_slash].
  change (List.filter _ ([] :: w :: ws)) with (List.filter (fun s : bytes => bool_decide (s <> [])) (w :: ws)).
  induction Hw as [| x l [Hx _] Hl IH]; [done |]. cbn [List.filter]. rewrite bool_decide_true by exact Hx. by rewrite IH.
Qed.

Section Proxy.
Context `{NameOrder} (debug_str : bytes -> bytes) (tmpl : bytes) (answers : forall X, ask X -> X).

Abbreviation control := (route_control debug_str tmpl).

(** The backend of a tenant registered by name. *)
Definition backend_of (name : bytes) : bytes := replace_all (text "{tenant}") name tmpl.

(** The name leads to this state. *)
Definition routed (s : Shared) (name : bytes) (t : TenantState) : Prop := exists a, sh_registry s !! name = Some a /\ sh_heap s !! a = Some t.

Lemma register_routes name s :
  plain_name name -> contains (text ":") (backend_of name) = true ->
  exists s' body, alone answers (control (text "POST") (text "/tenants/" ++ name)) s = (s', (200, body)) /\
    routed s' name (TenantState_new (backend_of name) false (sh_now s)).
Proof using.
  intros Hn Hb. unfold route_control. change (text "/tenants/" ++ name) with (slash_char :: join_char slash_char [text "tenants"; name]).
  rewrite segments_of by (repeat constructor; done || apply Hn). cbn [bool_decide]. unfold register. fold (backend_of name). rewrite Hb.
  eexists _, _. split; [reflexivity |]. exists (length (sh_heap s)). cbn. rewrite lookup_insert_eq, lookup_app_r, Nat.sub_diag by lia. done.
Qed.

Lemma pin_takes_effect name tl t s :
  plain_name name -> plain_name tl -> routed s name t ->
  exists s' body, alone answers (control (text "POST") (text "/tenants/" ++ name ++ text "/pin/" ++ tl)) s = (s', (200, body)) /\
    routed s' name (set_running false (set_pinned_timeline (Some tl) t)).
Proof using.
  intros Hn Ht (a & Ha & Hs).
  assert (E : control (text "POST") (text "/tenants/" ++ name ++ text "/pin/" ++ tl) = set_pin name (Some tl)).
  { unfold route_control.
    change (text "/tenants/" ++ name ++ text "/pin/" ++ tl) with (slash_char :: join_char slash_char [text "tenants"; name; text "pin"; tl]).
    by rewrite segments_of by (repeat constructor; done || apply Hn || apply Ht). }
  rewrite E. unfold set_pin, set_compute_up, meter, observe, modify, await, atomically, registry_get. cbn [tbind alone]. rewrite Ha. cbn [tbind alone].
  eexists _, _. split; [reflexivity |]. exists a. cbn [on_metrics update sh_registry sh_heap]. split; [done |]. by rewrite !list_lookup_alter_eq, Hs.
Qed.
End Proxy.

(** ** The platform *)

Lemma contains_within pat a b : contains pat (a ++ pat ++ b) = true.
Proof.
  induction a as [| x a IH]; cbn [app].
  - assert (E : starts_with pat (pat ++ b) = true) by apply starts_with_app. destruct (pat ++ b); cbn [contains]; by rewrite E.
  - cbn [contains]. by rewrite IH, orb_true_r.
Qed.

Lemma conflict_ignored d : is_conflict (text "server returned " ++ fmt_dec 409 ++ text ": " ++ d) = true.
Proof. unfold is_conflict. change (fmt_dec 409) with (text "409"). by rewrite contains_within. Qed.

(** Paths of plain segments. *)
Definition plain_path (p : bytes) : bool := forallb (fun b => unreserved b || bool_decide (b = slash_char)) p.

(** The tenant of a database. *)
Definition tenant_of `{Crypto} (name : bytes) : TenantId := take 16 (sha256 (trim name)).

Lemma registry_tenant_wf `{!Crypto, !CryptoLaws} name : Id_wf (tenant_of name).
Proof.
  unfold Id_wf, tenant_of. pose proof (sha256_len (trim name)) as Hl. unfold len in *. rewrite length_take. lia.
Qed.

(** An answer as the client's caller sees it. *)
Definition answer_of `{Json} (status : Z) (body : bytes) (rep : reply) : Prop :=
  if 400 <=? status then exists d, rep = Refused status (Some body) d else rep = Answered (json_parse body).

Section Whole.
Context {S : Type} `{HS : ObjectStore S} `{HJ : CatalogJson} `{HO : HashOrder} `{HN : Network} `{HW : HttpJson} (ccfg : ControlConfig).
Context `{NameOrder} (debug_str : bytes -> bytes) (tmpl : bytes) (answers : forall X, ask X -> X).
Context `{Json} `{Crypto} `{RegistryJson} {R : Type} `{Disk R} `{Ureq R}.
Context (page : R -> Control (S := S)) (proxy : R -> Shared) (client : Client) (cfg : ServeCfg) (base : bytes).

(** The two servers behind the HTTP client: a call to either gives its answer and
    leaves the other alone, and so do writes to the disk. *)
Record delivers : Prop := {
  dl_page hc path r c1 status json :
    let rq := mkRequest (hc_method hc) path (hc_authorization hc) (match hc_body hc with Some v => json_print v | None => [] end) in
    hc_url hc = cl_base client ++ path -> plain_path path = true -> hc_query hc = [] ->
    respond ccfg rq (page r) = (c1, Ok (status, json)) -> (serve_request ccfg rq (page r)).2 = Ok (http_response status json) ->
    page (ureq_call hc r).1 = (serve_request ccfg rq (page r)).1 /\ proxy (ureq_call hc r).1 = proxy r /\ answer_of status json (ureq_call hc r).2;
  dl_proxy hc path r s' status body :
    hc_url hc = trim_end_slashes base ++ path -> plain_path path = true -> hc_query hc = [] ->
    alone answers (route_control debug_str tmpl (hc_method hc) path) (proxy r) = (s', (status, body)) ->
    proxy (ureq_call hc r).1 = s' /\ page (ureq_call hc r).1 = page r /\ answer_of status body (ureq_call hc r).2;
  dl_create_dir dir r : page (create_dir_all dir r).1 = page r /\ proxy (create_dir_all dir r).1 = proxy r;
  dl_write path b r : page (write_file path b r).1 = page r /\ proxy (write_file path b r).1 = proxy r
}.

(** The page server reads the bodies the client writes. *)
Record bodies_agree : Prop := {
  ba_tenant id : json_tenant (json_print (vobj [("id", VStr id)])) = inl (mkTenantBody id);
  ba_create id te : json_create (json_print (Client.with_tenant (vobj [("id", VStr id)]) (Some te))) = inl (mkCreateBody id (Some te));
  ba_branch n p l te : in_u64 l ->
    json_branch (json_print (Client.with_tenant (vobj [("timeline", VStr n); ("parent", VStr p); ("lsn", VNum l)]) (Some te))) =
    inl (mkBranchBody n p l (Some te))
}.

Hypothesis Hdl : delivers.
Hypothesis Hba : bodies_agree.
Hypothesis same_token : cl_token client = cc_token ccfg.
Hypothesis with_proxy : proxy_url cfg = Some base.
Context `{!ObjectStoreLaws S} `{!CryptoLaws}.
Hypothesis json_round_trip : forall doc, exists bs, to_vec_pretty doc = Some bs /\ from_slice bs = Some doc.
Hypothesis catalog_key_plain : plain_key CATALOG_KEY.
Hypothesis registry_json : forall dbs, dbs_decode (dbs_encode dbs) = Some dbs.

Abbreviation tenants_of c := (ct_tenants (page (co_world c))).

(** A post to the page server whose conflict is ignored. *)
Lemma runs_post path v c c1 status json E :
  plain_path (text path) = true ->
  respond ccfg (post path (cc_token ccfg) (json_print v)) (page (co_world c)) = (c1, Ok (status, json)) ->
  manager_wf (ct_tenants c1) -> status = 201 \/ status = 409 ->
  runs (ignore_conflict (run client (request client "POST" (text path)) (Some v))) c
    (fun _ c' => co_file c' = co_file c /\ tenants_of c' = ct_tenants c1 /\ proxy (co_world c') = proxy (co_world c)) E.
Proof using Hdl same_token ObjectStoreLaws0 json_round_trip catalog_key_plain.
  intros Hp Er Hwf Hs. destruct (serve_answers ccfg json_round_trip catalog_key_plain _ _ _ _ _ Er Hwf) as (c2 & Es & Et).
  set (hc := with_body (request client "POST" (text path)) (Some v)).
  assert (Hrq : mkRequest (hc_method hc) (text path) (hc_authorization hc) (match hc_body hc with Some v => json_print v | None => [] end) =
                post path (cc_token ccfg) (json_print v)) by (unfold hc, post, with_body, request; by rewrite same_token).
  pose proof (dl_page Hdl hc (text path) (co_world c) c1 status json) as Hd. cbv zeta in Hd. rewrite Hrq in Hd.
  destruct (Hd eq_refl Hp eq_refl Er) as (E1 & E2 & E3); [by rewrite Es |]. rewrite Es in E1.
  unfold runs, ignore_conflict, run, sbind, stry, outside. fold hc. destruct (ureq_call hc (co_world c)) as [r rep]. cbn [fst snd] in *.
  unfold answer_of in E3. destruct Hs as [-> | ->].
  - cbn in E3. subst rep. split; [done |]. split; [| done]. cbn [co_world]. by rewrite E1.
  - cbn in E3. destruct E3 as [d ->]. unfold serr. cbv beta iota. rewrite conflict_ignored. split; [done |]. split; [| done]. cbn [co_world]. by rewrite E1.
Qed.

(** The registry's operations concern neither server. *)
Definition apart {A} (m : stateM (Console R) bytes A) : Prop := forall c,
  page (co_world (m c).1) = page (co_world c) /\ proxy (co_world (m c).1) = proxy (co_world c).

Lemma apart_bind {A B} (m : stateM (Console R) bytes A) (k : A -> stateM (Console R) bytes B) :
  apart m -> (forall a, apart (k a)) -> apart (sbind m k).
Proof using.
  intros Hm Hk c. unfold sbind. destruct (Hm c) as [E1 E2]. destruct (m c) as [c1 [a | e |]]; cbn in *; [| done | done].
  destruct (Hk a c1) as [E3 E4]. by rewrite E3, E4.
Qed.

Lemma apart_save dbs : apart (save dbs).
Proof using Hdl.
  unfold save. apply apart_bind.
  - intros c. unfold make_dir. destruct registry_dir as [dir |]; [| done]. pose proof (dl_create_dir Hdl dir (co_world c)) as Hd.
    by destruct (create_dir_all dir (co_world c)) as [r [e |]].
  - intros _ c. pose proof (dl_write Hdl registry_path (dbs_encode dbs) (co_world c)) as Hd.
    by destruct (write_file _ _ _) as [r [| e remains]].
Qed.

Lemma apart_ops :
  (forall name, apart (upsert name)) /\ (forall db b tl l, apart (add_branch db b tl l)) /\ (forall db tl, apart (set_current db tl)).
Proof using Hdl.
  pose proof apart_save as Hs. unfold upsert, add_branch, set_current. cbv zeta.
  split_and!; intros; repeat first [done | apply Hs | apply apart_bind; [| intros] | case_match].
Qed.

Lemma runs_apart {A} (m : stateM (Console R) bytes A) c Q E :
  apart m -> runs m c Q E ->
  runs m c (fun a c' => Q a c' /\ page (co_world c') = page (co_world c) /\ proxy (co_world c') = proxy (co_world c)) E.
Proof using. intros Hm. unfold runs. specialize (Hm c). by destruct (m c) as [c' []]. Qed.

(** A call to the proxy's control endpoint. *)
Lemma runs_proxy method path c s' status body E :
  plain_path path = true ->
  alone answers (route_control debug_str tmpl (text method) path) (proxy (co_world c)) = (s', (status, body)) ->
  runs (call method (trim_end_slashes base ++ path) []) c
    (fun _ c' => co_file c' = co_file c /\ page (co_world c') = page (co_world c) /\ proxy (co_world c') = s') E.
Proof using Hdl.
  intros Hp Ea. unfold runs, call, outside. set (hc := mkCall _ _ _ _ _).
  destruct (dl_proxy Hdl hc path (co_world c) s' status body eq_refl Hp eq_refl Ea) as (E1 & E2 & _).
  destruct (ureq_call hc (co_world c)) as [r rep]. done.
Qed.

Lemma holds_file (c c' : Console R) dbs : co_file c' = co_file c -> holds c dbs -> holds c' dbs.
Proof using. unfold holds, load. cbn. by intros ->. Qed.

Lemma plain_path_name name : plain_name name -> plain_path (text "/tenants/" ++ name) = true.
Proof using.
  intros [_ Hn]. unfold plain_path. rewrite forallb_app. apply andb_true_iff. split; [reflexivity |]. apply forallb_forall.
  intros b Hb%list_elem_of_In. eapply Forall_forall in Hn; [| exact Hb]. by rewrite Hn.
Qed.

(** What is there after a database has been provisioned. *)
Definition provisioned (name : bytes) (c c' : Console R) (v : Value) : Prop :=
  let te := tenant_of name in
  (exists dbs d, holds c' dbs /\ as_map dbs !! name = Some d /\ db_id d = Id_display te) /\
  manager_wf (tenants_of c') /\
  (forall te' n, timeline_at (tenants_of c') te' n =
     if decide (te' = te /\ n = Id_ZERO) then Some (default None (timeline_at (tenants_of c) te Id_ZERO)) else timeline_at (tenants_of c) te' n) /\
  routed (proxy (co_world c')) name (TenantState_new (backend_of tmpl name) false (sh_now (proxy (co_world c)))) /\
  get_str "connection" v = Some (connection_string name (client_endpoint cfg)).


Lemma id_plain i : Id_wf i -> plain_name (Id_display i).
Proof using.
  intros Hi. split.
  - intros E. pose proof (Id_display_len i) as Hl. rewrite E in Hl. unfold Id_wf in Hi. change (len []) with 0 in Hl. unfold len in *. lia.
  - clear Hi. induction i as [| b i IH]; [constructor |]. change (Id_display (b :: i)) with (fmt_02x b ++ Id_display i). apply Forall_app. split; [| done].
    assert (Hb : forallb unreserved (fmt_02x b) = true) by (destruct b; reflexivity). apply Forall_forall.
    intros x Hx%list_elem_of_In. by apply (proj1 (forallb_forall _ _) Hb).
Qed.

Lemma known_runs {A} name d dbs c (k : Database -> stateM (Console R) bytes A) Q E :
  holds c dbs -> as_map dbs !! name = Some d -> runs (k d) c Q E -> runs (sbind (known_database name) k) c Q E.
Proof using.
  intros Hh Hd Hk. unfold known_database. eapply runs_eq; [apply sbind_assoc |]. apply (runs_load dbs); [done |].
  rewrite (find_db_map name dbs) by apply Hh. rewrite Hd. by apply runs_ret.
Qed.

(** The restore point a branch request asks for: its name, position and timeline. *)
Definition restore_point (name body : bytes) : RestorePoint :=
  let branch := match opt (parse body) "branch" with Some s => s | None => text "restore" end in
  mkRestorePoint branch (id_from_name (name ++ text "/" ++ branch)) (get_u64 (parse body) "lsn").

Lemma get_u64_range v key : in_u64 (get_u64 v key).
Proof using.
  unfold get_u64, in_u64. destruct (vget key v) as [x |]; cbn; [| lia]. destruct x; cbn; try lia.
  unfold u64_max. destruct (_ && _) eqn:E; [| lia]. lia.
Qed.

(** Branching a database: the branch is on the page server unless its timeline was
    there, and in the registry unless its name was. *)
Lemma branch_runs name body d dbs c :
  let b := restore_point name body in
  let te := tenant_of name in
  let tl := tenant_of (name ++ text "/" ++ rp_name b) in
  holds c dbs -> as_map dbs !! name = Some d -> manager_wf (tenants_of c) -> timeline_at (tenants_of c) te Id_ZERO <> None ->
  runs (branch_database client name body) c
    (fun _ c' => exists dbs', holds c' dbs' /\ as_map dbs' = alter (add_once b) name (as_map dbs) /\ manager_wf (tenants_of c') /\
       (forall te' n, timeline_at (tenants_of c') te' n =
          if decide (te' = te /\ n = tl) then Some (default (Some (Id_ZERO, rp_lsn b)) (timeline_at (tenants_of c) te tl))
          else timeline_at (tenants_of c) te' n) /\
       proxy (co_world c') = proxy (co_world c))
    (fun e _ => disk_failed e).
Proof using Hdl Hba same_token ObjectStoreLaws0 json_round_trip catalog_key_plain registry_json H5.
  intros b te tl Hh Hd Hwf Hz. destruct apart_ops as (_ & Ha & _). unfold branch_database. apply (known_runs name d dbs); [done | done |]. cbv zeta.
  assert (Eid : db_id d = Id_display te).
  { pose proof Hh as [_ [Hnd Hi]]. rewrite <- find_db_map in Hd by done. apply find_db_name in Hd as [E Hin].
    eapply Forall_forall in Hi as [Hi _]; [| exact Hin]. by rewrite Hi, E. }
  rewrite Eid. fold (rp_name b). change (match opt _ "branch" with Some s => s | None => _ end) with (rp_name b).
  change (get_u64 (parse body) "lsn") with (rp_lsn b). change (id_from_name (name ++ text "/" ++ rp_name b)) with (Id_display tl).
  change ROOT_TIMELINE with (Id_display Id_ZERO).
  destruct (page_branch ccfg te tl Id_ZERO (rp_lsn b) _ (page (co_world c)) (registry_tenant_wf _) (registry_tenant_wf _) eq_refl Hwf
    (ba_branch Hba (Id_display tl) (Id_display Id_ZERO) (rp_lsn b) (Id_display te) (get_u64_range _ _))) as (p1 & st & js & Er & Hw & _ & Hc).
  eapply runs_bind; [eapply runs_post; [reflexivity | exact Er | done | destruct Hc as [[? _] | [? _]]; auto] |].
  intros [] c1 (F1 & T1 & X1). assert (Hh1 : holds c1 dbs) by (by eapply holds_file).
  eapply runs_bind; [apply runs_apart; [apply Ha |]; eapply runs_conseq; [by apply (add_branch_refines registry_json) | intros a c2 Hx; exact Hx |] |].
  { intros e c2 [[E _] | He]; [discriminate E | done]. }
  intros [] c2 ((dbs2 & Hh2 & Es) & P2 & X2). exists dbs2. split; [done |]. injection Es as <-. split; [done |].
  rewrite P2, X2, T1, X1. split; [done |]. split; [| done]. intros te' n. destruct Hc as [(_ & [Hp _] & Hi) | (_ & Hp & Hi)]; rewrite Hi.
  - by rewrite Hp.
  - case_decide as E; [| done]. destruct E as [-> ->]. destruct (timeline_at (tenants_of c) te tl) eqn:Et; [done |].
    exfalso. apply Hp. split; [done | exact Hz].
Qed.

End Whole.

(** *** A page server and a proxy behind one client *)

Definition flat (v : Value) : bytes + Z := match v with VStr s => inl s | VNum z => inr z | _ => inr 0 end.

Definition members_of (b : bytes) : list (bytes * (bytes + Z)) := default [] (decode (of_bits b)).

Definition demo_json : Json := {|
  json_parse b :=
    if bool_decide (b = text "create") then Some (vobj [("name", VStr (text "orders "))])
    else if bool_decide (b = text "branch") then Some (vobj [("branch", VStr (text "monday")); ("lsn", VNum 96)])
    else if bool_decide (b = text "later") then Some (vobj [("branch", VStr (text "monday")); ("lsn", VNum 200)])
    else if bool_decide (b = text "restore") then Some (vobj [("timeline", VStr (@id_from_name toy_crypto (text "orders/monday")))]) else None;
  json_print v := match v with VObj ms => bits_of (encode (map (fun m => (m.1, flat m.2)) ms)) | _ => [] end;
  json_pretty _ := []
|}.

Definition demo_bodies : HttpJson := {|
  json_tenant b := match members_of b with [(_, inl id)] => inl (mkTenantBody id) | _ => inr [] end;
  json_create b := match members_of b with [(_, inl id); (_, inl te)] => inl (mkCreateBody id (Some te)) | _ => inr [] end;
  json_branch b :=
    match members_of b with [(_, inl n); (_, inl p); (_, inr l); (_, inl te)] => inl (mkBranchBody n p l (Some te)) | _ => inr [] end;
  json_receive _ := inr [];
  json_gc _ := inr [];
  json_text d := match d with JError e => e | _ => text "done" end
|}.

Lemma demo_bodies_agree : @bodies_agree demo_bodies demo_json.
Proof. split; intros; cbn; unfold members_of; by rewrite of_bits_of, decode_encode. Qed.

Definition demo_store : ObjectStore LocalObjectStore := LocalStore (fun _ => None).
Abbreviation demo_page := (Control (S := LocalObjectStore) (H2 := no_network)).
Abbreviation demo_world := (demo_page * Shared)%type.
Definition demo_order : NameOrder := {| name_order m := map_to_list m; name_order_perm m := reflexivity _ |}.
Definition demo_answers (X : Type) (q : ask X) : X :=
  match q in ask X return X with
  | Start _ _ | Stop _ => None
  | Probe _ => fun _ => (true, 1)
  | ReadBackend _ | ReadClient _ => Eof
  | _ => true
  end.

Definition demo_reply (status : Z) (body : bytes) : reply :=
  if 400 <=? status then Refused status (Some body) [] else Answered (@json_parse demo_json body).

Definition demo_disk : Disk demo_world := {|
  registry_path := text "r.json"; registry_dir := Some (text ".aethel"); create_dir_all _ r := (r, None); write_file _ _ r := (r, Written) |}.

Definition demo_respond := @respond _ demo_store default_order no_network demo_bodies json_control.
Definition demo_serve := @serve_request _ demo_store bit_json default_order no_network demo_bodies json_control.
Definition demo_control (method path : bytes) (s : Shared) : Shared * (Z * bytes) :=
  alone demo_answers (@route_control demo_order id (text "{tenant}:5432") method path) s.

Definition demo_ureq : Ureq demo_world := {|
  ureq_call hc r :=
    let body := match hc_body hc with Some v => @json_print demo_json v | None => [] end in
    match strip_prefix (text "http://ps") (hc_url hc), strip_prefix (text "http://px") (hc_url hc) with
    | Some path, _ =>
        let rq := mkRequest (hc_method hc) path (hc_authorization hc) body in
        match demo_respond rq r.1 with
        | (_, Ok (status, json)) => (((demo_serve rq r.1).1, r.2), demo_reply status json)
        | (c1, _) => ((c1, r.2), Unreached [])
        end
    | None, Some path => let '(s', (status, json)) := demo_control (hc_method hc) path r.2 in ((r.1, s'), demo_reply status json)
    | None, None => (r, Unreached [])
    end
|}.

Definition demo_client : Client := Client_new (text "http://ps/") (Some (text "s3cret")).
Definition demo_cfg : ServeCfg := mkServeCfg (text "http://ps/") false None (text "db:5432") (Some (text "http://px/")) None.

Lemma demo_answer_of status body : @answer_of demo_json status body (demo_reply status body).
Proof. unfold answer_of, demo_reply. destruct (400 <=? status); [by eexists | done]. Qed.

Lemma demo_delivers :
  @delivers _ demo_store bit_json default_order no_network demo_bodies json_control demo_order id (text "{tenant}:5432") demo_answers
    demo_json _ demo_disk demo_ureq fst snd demo_client (text "http://px/").
Proof.
  split; try done.
  - intros hc path r c1 status json rq Hu _ _ Er Es. cbn [ureq_call demo_ureq]. rewrite Hu. change (cl_base demo_client) with (text "http://ps").
    rewrite strip_prefix_app. fold rq. change (demo_respond rq r.1) with (@respond _ demo_store default_order no_network demo_bodies json_control rq r.1).
    rewrite Er. split; [done |]. split; [done | apply demo_answer_of].
  - intros hc path r s' status body Hu _ _ Ea. cbn [ureq_call demo_ureq]. rewrite Hu. change (trim_end_slashes (text "http://px/")) with (text "http://px").
    rewrite strip_prefix_app. replace (strip_prefix (text "http://ps") (text "http://px" ++ path)) with (@None bytes) by reflexivity.
    unfold demo_control. rewrite Ea. split; [done |]. split; [done | apply demo_answer_of].
Qed.

Definition demo_start : Console demo_world := mkConsole None (empty_control, registry_from [] 100).

Definition demo_create : Console demo_world * outcome bytes Value :=
  @create_database demo_json toy_crypto bit_registry _ demo_disk demo_ureq demo_client demo_cfg (text "create") demo_start.

Definition demo_branch_restore : stateM (Console demo_world) bytes Value :=
  let! _ := @branch_database demo_json toy_crypto bit_registry _ demo_disk demo_ureq demo_client (text "orders") (text "branch") in
  @restore_database demo_json bit_registry _ demo_disk demo_ureq demo_cfg (text "orders") (text "restore").

Lemma demo_runs :
  is_ok demo_create.2 && is_ok (demo_branch_restore demo_create.1).2 = true.
Proof. vm_compute; reflexivity. Qed.

Lemma demo_start_holds : @holds toy_crypto bit_registry _ demo_start [].
Proof. split; [done | split; constructor]. Qed.


(** A platform with one database. *)
Definition demo_database : Database := @new_database toy_crypto (text "orders").
Definition demo_tenants : TenantManager :=
  let '(tm, g) := get_or_create (@tenant_of toy_crypto (text "orders")) (TenantManager_new 2) in (in_tenant g (create_timeline Id_ZERO) tm).1.
Definition demo_tenant : TenantState := TenantState_new (text "orders:5432") true 100.
Definition demo_one : Console demo_world :=
  mkConsole (Some (@dbs_encode bit_registry [demo_database]))
    (mkControl (H2 := no_network) demo_tenants empty_store [], registry_from [(text "orders", demo_tenant)] 100).

Lemma demo_tenants_wf : manager_wf demo_tenants.
Proof.
  unfold demo_tenants. destruct (get_or_create _ _) as [tm g] eqn:E.
  destruct (get_or_create_wf _ _ tm g (manager_wf_new 2) (@registry_tenant_wf toy_crypto toy_laws _) E) as (Hm & _).
  destruct (in_tenant g (create_timeline Id_ZERO) tm) as [m' r] eqn:Ei. apply (in_tenant_wf _ _ _ _ _ Hm Ei).
  intros tn _ Hw. destruct (create_timeline Id_ZERO tn) as [tn1 r1] eqn:E1. by apply (create_timeline_wf _ Id_ZERO _ _ Hw eq_refl E1).
Qed.

Lemma demo_one_holds : @holds toy_crypto bit_registry _ demo_one [demo_database].
Proof.
  split; [unfold load, demo_one; cbn [co_file snd]; by rewrite bit_registry_round_trip |].
  split; [apply NoDup_singleton | by apply Forall_singleton].
Qed.


(** *** Where conflicts hide failures

    The page server answers 409 to every request it cannot carry out, and the
    console takes 409 for success. *)

Definition demo_branch (body : string) : stateM (Console demo_world) bytes Value :=
  @branch_database demo_json toy_crypto bit_registry _ demo_disk demo_ureq demo_client (text "orders") (text body).

Definition branch_point (c : Console demo_world) : option ancestry :=
  timeline_at (ct_tenants (fst (co_world c))) (@tenant_of toy_crypto (text "orders")) (@tenant_of toy_crypto (text "orders/monday")).

(** A branch of a database without a root timeline is reported and recorded, but
    there is none. *)
Lemma branch_of_missing_root_reported :
  let c := mkConsole (co_file demo_one) (empty_control, snd (co_world demo_one)) in
  let '(c', out) := demo_branch "branch" c in is_ok out = true /\ branch_point c' = None.
Proof. vm_compute; split; reflexivity. Qed.

(** A second branch of the same name is reported at the new position; it stays at
    the old one. *)
Lemma second_branch_keeps_position :
  let '(c', out) := demo_branch "later" (demo_branch "branch" demo_one).1 in
  match out with Ok v => vget "lsn" v | _ => None end = Some (VNum 200) /\ branch_point c' = Some (Some (Id_ZERO, 96)).
Proof. vm_compute; split; reflexivity. Qed.

(** Creating a database that exists registers its route anew: a restored database
    is no longer pinned, though the registry says it is restored. *)
Lemma create_again_unpins :
  let c := (demo_branch_restore demo_one).1 in
  let c' := (@create_database demo_json toy_crypto bit_registry _ demo_disk demo_ureq demo_client demo_cfg (text "create") c).1 in
  let pin x := a ← sh_registry (snd (co_world x)) !! text "orders"; t ← sh_heap (snd (co_world x)) !! a; pinned_timeline t in
  is_ok (demo_branch_restore demo_one).2 = true /\ bool_decide (is_Some (pin c)) = true /\ bool_decide (is_Some (pin c')) = false /\
  bool_decide (co_file c' = co_file c) = true.
Proof. intros c c' pin. split_and!; vm_compute; reflexivity. Qed.
