(* ===== verification/ConsolePage.v ===== *)
(** The console's page (src/aethelctl/console/index.html): the cards it draws from
    the list of databases, the request behind each button, the deploy form, and what
    it makes of a reply.  The browser is a parameter: how it resolves a path, reads a
    number, trims a text, and writes and reads JSON. *)

From S2P Require Import Prelude Bytes Text Common PageVersion ObjStore Catalog Http Scram Compute Databases Client Console Platform.

(** [js_number] is [Number], as the value that JSON makes of it. *)
Class Browser := {
  fetch_url : bytes -> bytes;
  js_trim : bytes -> bytes;
  js_number : bytes -> Value;
  js_stringify : Value -> bytes;
  js_parse : bytes -> option Value
}.

(** The largest integer a number holds with its neighbours. *)
Definition MAX_SAFE_INTEGER : Z := 2 ^ 53 - 1.

(** Members that JSON carries as they are. *)
Definition carried (v : Value) : Prop :=
  match v with
  | VNull | VBool _ => True
  | VNum z => - MAX_SAFE_INTEGER <= z <= MAX_SAFE_INTEGER
  | VStr s => utf8_valid s = true
  | VFloat _ | VArr _ | VObj _ => False
  end.

(** The two sides read each other's objects; plain paths are sent unchanged. *)
Class BrowserLaws `{Json} `{Browser} : Prop := {
  fetch_plain p : plain_path p = true -> fetch_url p = p;
  number_written z : - MAX_SAFE_INTEGER <= z <= MAX_SAFE_INTEGER -> js_number (fmt_i64 z) = VNum z;
  stringify_text v : utf8_valid (js_stringify v) = true;
  stringify_read l : Forall (fun m => carried m.2) l ->
    exists v, json_parse (js_stringify (vobj l)) = Some v /\ forall k, vget k v = vget k (vobj l);
  print_read v : exists v', js_parse (json_print v) = Some v';
  error_read e : utf8_valid e = true ->
    exists v, js_parse (json_print (vobj [("error", VStr e)])) = Some v /\ get_str "error" v = Some e;
  parse_empty : js_parse [] = None;
  trim_empty : js_trim [] = []
}.

(** A value as a condition; floats and arrays are not used as one. *)
Definition truthy (o : option Value) : bool :=
  match o with
  | None | Some VNull => false
  | Some (VBool b) => b
  | Some (VNum z) => negb (z =? 0)
  | Some (VStr s) => non_empty s
  | Some (VFloat _) | Some (VArr _) | Some (VObj _) => true
  end.

(** [a || b] of texts *)
Definition text_or (s d : bytes) : bytes := if non_empty s then s else d.

(** [`${v}`], of a text or a missing field *)
Definition shown (o : option bytes) : bytes := match o with Some s => s | None => text "undefined" end.

(** ** The cards of the databases *)

Inductive action := StartIt | StopIt.

Definition action_name (a : action) : bytes := text (match a with StartIt => "start" | StopIt => "stop" end).

(** What a button's [onclick] calls. *)
Inductive button :=
| DbAction (n : bytes) (a : action)
| DbWarm (n : bytes) (on : bool)
| CopyText (s : bytes)
| OpenMetrics (n : bytes)
| ToggleBranch (n : bytes)
| DeleteDatabase (n : bytes)
| CreateBranch (n : bytes)
| RestoreDb (n timeline : bytes).

(** The attribute's text: the arguments are put between single quotes. *)
Definition quoted (s : bytes) : bytes := [z2b 39] ++ s ++ [z2b 39].

Definition onclick (b : button) : bytes :=
  match b with
  | DbAction n a => text "dbAction(" ++ quoted n ++ text "," ++ quoted (action_name a) ++ text ")"
  | DbWarm n on => text "dbWarm(" ++ quoted n ++ text "," ++ json_bool on ++ text ")"
  | CopyText s => text "copyText(" ++ quoted s ++ text ")"
  | OpenMetrics n => text "openMetrics(" ++ quoted n ++ text ")"
  | ToggleBranch n => text "toggleBranch(" ++ quoted n ++ text ")"
  | DeleteDatabase n => text "deleteDatabase(" ++ quoted n ++ text ")"
  | CreateBranch n => text "createBranch(" ++ quoted n ++ text ")"
  | RestoreDb n tl => text "restoreDb(" ++ quoted n ++ text "," ++ quoted tl ++ text ")"
  end.

Definition field_is (d : Value) (key : string) (s : string) : bool := bool_decide (get_str key d = Some (text s)).

(** [d.current && d.current !== 'live'] *)
Definition is_restored (d : Value) : bool := truthy (vget "current" d) && negb (field_is d "current" "live").

Definition life_buttons (ctl : bool) (d : Value) : list button :=
  let n := shown (get_str "name" d) in
  if ctl && field_is d "compute" "running" then [DbAction n StopIt]
  else if ctl && field_is d "compute" "hibernated" then [DbAction n StartIt]
  else [].

Definition warm_buttons (ctl : bool) (d : Value) : list button :=
  if ctl && negb (field_is d "compute" "unmanaged") then [DbWarm (shown (get_str "name" d)) (negb (truthy (vget "keepWarm" d)))] else [].

Definition restore_buttons (d : Value) : list button :=
  let n := shown (get_str "name" d) in
  match vget "branches" d ≫= as_array with
  | None | Some [] => []
  | Some rps => map (fun b => RestoreDb n (shown (get_str "timeline" b))) rps ++ (if is_restored d then [RestoreDb n (text "live")] else [])
  end.

(** The buttons of a card, as they appear. *)
Definition card_buttons (ctl : bool) (d : Value) : list button :=
  let n := shown (get_str "name" d) in
  warm_buttons ctl d ++ life_buttons ctl d ++
  [CopyText (shown (get_str "connection" d)); OpenMetrics n; ToggleBranch n; DeleteDatabase n; CreateBranch n] ++
  restore_buttons d.

(** The badge with the restore point a database serves from. *)
Definition serving_badge (d : Value) : option bytes := if is_restored d then get_str "current" d else None.

(** ** Requests *)

(** What the user has typed in a card's fields, and answers to a confirmation. *)
Record input := mkInput { in_branch : bytes; in_lsn : bytes; in_confirm : bool }.

Record page_call := mkPageCall { pc_method : Method; pc_path : bytes; pc_body : option Value }.

Section Script.
Context `{Browser}.

Definition database_path (ws : list bytes) : bytes := text "/api/databases/" ++ join_char slash_char ws.

Definition branch_body (u : input) : Value :=
  vobj [("branch", VStr (js_trim (text_or (in_branch u) (text "restore"))));
        ("lsn", if non_empty (in_lsn u) then js_number (in_lsn u) else VNum 0)].

(** The functions of the buttons, each up to the request it sends. *)
Definition dbAction (n : bytes) (a : action) : page_call := mkPageCall Post (database_path [n; action_name a]) None.
Definition dbWarm (n : bytes) (on : bool) : page_call := mkPageCall Post (database_path [n; text (if on then "keepwarm" else "nokeepwarm")]) None.
Definition openMetrics (n : bytes) : page_call := mkPageCall Get (database_path [n; text "metrics"]) None.
Definition createBranch (u : input) (n : bytes) : page_call := mkPageCall Post (database_path [n; text "branch"]) (Some (branch_body u)).
Definition restoreDb (u : input) (n timeline : bytes) : option page_call :=
  if in_confirm u then Some (mkPageCall Post (database_path [n; text "restore"]) (Some (vobj [("timeline", VStr timeline)]))) else None.
Definition deleteDatabase (u : input) (n : bytes) : option page_call :=
  if in_confirm u then Some (mkPageCall Delete (database_path [n]) None) else None.

(** The request a click sends, if it sends one. *)
Definition click (u : input) (b : button) : option page_call :=
  match b with
  | DbAction n a => Some (dbAction n a)
  | DbWarm n on => Some (dbWarm n on)
  | OpenMetrics n => Some (openMetrics n)
  | CreateBranch n => Some (createBranch u n)
  | RestoreDb n tl => restoreDb u n tl
  | DeleteDatabase n => deleteDatabase u n
  | CopyText _ | ToggleBranch _ => None
  end.

(** The field above the list. *)
Definition createDatabase (typed : bytes) : option page_call :=
  let name := js_trim typed in
  if non_empty name then Some (mkPageCall Post (text "/api/databases") (Some (vobj [("name", VStr name)]))) else None.

(** [show] and [refreshAll] *)
Definition loadDatabases : page_call := mkPageCall Get (text "/api/databases") None.
Definition refreshAll : page_call := mkPageCall Get (text "/api/status") None.

Definition sent_body (p : page_call) : bytes := match pc_body p with Some v => js_stringify v | None => [] end.

(** [api], once the reply is there: its data, or the text of the error thrown. *)
Definition page_result (r : Reply) : outcome bytes Value :=
  let data := if non_empty (re_body r)
              then match js_parse (re_body r) with Some v => v | None => vobj [("raw", VStr (re_body r))] end
              else vobj [] in
  if (200 <=? re_status r) && (re_status r <=? 299) then Ok data
  else Err (text_or (default [] (get_str "error" data))
             (text_or (default [] (get_str "raw" data)) (text "HTTP " ++ fmt_dec (re_status r)))).

(** ** The deploy form *)

Record Form := mkForm {
  fm_cloud : bytes; fm_namespace : bytes; fm_release : bytes; fm_object_store : bytes;
  fm_repo : bytes; fm_tag : bytes; fm_expose : bool; fm_safekeepers : bytes;
  fm_autoscaling : bool; fm_min : bytes; fm_max : bytes; fm_pdb : bool; fm_spread : bool; fm_pooling : bool
}.

(** Choosing a cloud exposes the endpoint. *)
Definition setCloud (c : bytes) (f : Form) : Form :=
  mkForm c (fm_namespace f) (fm_release f) (fm_object_store f) (fm_repo f) (fm_tag f) (fm_expose f || non_empty c)
    (fm_safekeepers f) (fm_autoscaling f) (fm_min f) (fm_max f) (fm_pdb f) (fm_spread f) (fm_pooling f).

Inductive preset := LocalPreset | ProductionPreset.

Definition applyPreset (p : preset) (f : Form) : Form :=
  match p with
  | LocalPreset =>
      let f := setCloud [] f in
      mkForm (fm_cloud f) (fm_namespace f) (fm_release f) [] (fm_repo f) (fm_tag f) false (text "1") false (fm_min f) (fm_max f) false false false
  | ProductionPreset =>
      let f := if non_empty (fm_cloud f) then f else setCloud (text "aws") f in
      mkForm (fm_cloud f) (fm_namespace f) (fm_release f) (fm_object_store f) (fm_repo f) (fm_tag f) true (text "3") true (fm_min f) (fm_max f) true true (fm_pooling f)
  end.

(** [s.trim() || null] and [Number(s || d)] *)
Definition text_or_null (s : bytes) : Value := if non_empty (js_trim s) then VStr (js_trim s) else VNull.
Definition number_or (s : bytes) (d : string) : Value := js_number (text_or s (text d)).

Definition deployBody (f : Form) : Value :=
  vobj [("cloud", VStr (fm_cloud f)); ("namespace", VStr (fm_namespace f)); ("release", VStr (fm_release f));
        ("objectStoreUrl", text_or_null (fm_object_store f));
        ("imageRepo", text_or_null (fm_repo f)); ("imageTag", text_or_null (fm_tag f));
        ("expose", VBool (fm_expose f)); ("safekeeperReplicas", number_or (fm_safekeepers f) "1");
        ("autoscaling", VBool (fm_autoscaling f)); ("autoMin", number_or (fm_min f) "2"); ("autoMax", number_or (fm_max f) "10");
        ("pdb", VBool (fm_pdb f)); ("spread", VBool (fm_spread f)); ("pooling", VBool (fm_pooling f))].

Definition preview_click (f : Form) : page_call := mkPageCall Post (text "/api/deploy/preview") (Some (deployBody f)).
Definition command_click (f : Form) : page_call := mkPageCall Post (text "/api/deploy/command") (Some (deployBody f)).
Definition apply_click (f : Form) (confirm : bool) : option page_call :=
  if confirm then Some (mkPageCall Post (text "/api/deploy/apply") (Some (deployBody f))) else None.
End Script.

(** ** The console behind the page *)

Section Behind.
Context `{Browser} `{Json} `{Crypto} `{RegistryJson} `{Floats} `{Page} {R : Type} `{Disk R} `{Ureq R} `{System R} `{Clock R}.
Context (client : Client) (cfg : ServeCfg).

(** The page's request at the server. *)
Definition asked (p : page_call) : stateM (Console R) bytes Reply := serve_one client cfg (pc_method p) (fetch_url (pc_path p)) (sent_body p).

(** The operation a button stands for, with the body its request has. *)
Definition operation (b : button) (body : bytes) : option (stateM (Console R) bytes Value) :=
  match b with
  | DbAction n a => Some (database_action cfg n (match a with StartIt => true | StopIt => false end))
  | DbWarm n on => Some (database_warm cfg n on)
  | OpenMetrics n => Some (database_metrics cfg n)
  | DeleteDatabase n => Some (delete_database client cfg n)
  | CreateBranch n => Some (branch_database client n body)
  | RestoreDb n _ => Some (restore_database cfg n body)
  | CopyText _ | ToggleBranch _ => None
  end.

Context {laws : BrowserLaws}.

(** ** Paths *)

Lemma unreserved_path n : plain_name n -> plain_path n = true.
Proof using.
  intros [_ Hn]. unfold plain_path. apply forallb_forall. intros b Hb. rewrite Forall_forall in Hn.
  by rewrite Hn by (by apply list_elem_of_In).
Qed.

Lemma plain_path_app a b : plain_path (a ++ b) = plain_path a && plain_path b.
Proof using. apply forallb_app. Qed.

Lemma path_of_plain p : plain_path p = true -> path_of p = p.
Proof using.
  intros Hp. unfold path_of. enough (E : split_once (z2b 63) p = None) by (by rewrite E).
  induction p as [| b p IH]; [reflexivity |]. cbn [plain_path forallb] in Hp. apply andb_true_iff in Hp as [Hb Hp]. cbn [split_once].
  destruct (decide (b = z2b 63)) as [-> | Hne]; [by vm_compute in Hb |]. by rewrite IH.
Qed.

Lemma strip_suffix_app p s : strip_suffix p (s ++ p) = Some s.
Proof using. unfold strip_suffix. rewrite rev_app_distr, strip_prefix_app. cbn. by rewrite rev_involutive. Qed.

Lemma database_path_two n w : database_path [n; w] = text "/api/databases/" ++ n ++ slash_char :: w.
Proof using. reflexivity. Qed.

(** The database a button is about. *)
Definition about (b : button) : bytes :=
  match b with
  | DbAction n _ | DbWarm n _ | OpenMetrics n | ToggleBranch n | DeleteDatabase n | CreateBranch n | RestoreDb n _ => n
  | CopyText s => s
  end.

Lemma strip_suffix_other v w n : starts_with (rev v) (rev w ++ rev n) = false -> strip_suffix v (n ++ w) = None.
Proof using. unfold strip_suffix, strip_prefix. intros E. by rewrite rev_app_distr, E. Qed.

(** Which of the words ends [n ++ w], for words that are known. *)
Ltac read_suffix :=
  repeat match goal with
  | |- context [strip_suffix (text ?v) (?n ++ text ?v)] => rewrite (strip_suffix_app (text v) n)
  | |- context [strip_suffix (text ?v) (?n ++ text ?w)] => rewrite (strip_suffix_other (text v) (text w) n eq_refl)
  end.

(** The last segment of a path is a word that is known. *)
Ltac route_word n w :=
  let v := eval vm_compute in (String.append "/" w) in
  change (database_path [n; text w]) with (text "/api/databases/" ++ n ++ text v);
  unfold database_route; rewrite strip_prefix_app; cbn [mbind option_bind]; read_suffix; reflexivity.

Lemma no_slash_inside n : Forall (fun b => unreserved b = true) n -> contains [slash] n = false.
Proof using.
  intros Hn. induction Hn as [| b n Hb Hn IH]; [reflexivity |]. cbn [contains]. rewrite IH, orb_false_r. cbn [starts_with].
  destruct (decide (slash = b)) as [<- | Hne]; [by vm_compute in Hb |].
  unfold starts_with. cbn. by rewrite bool_decide_false by congruence.
Qed.

(** A click on a plain name is routed to its operation. *)
Lemma click_routes u b p :
  plain_name (about b) -> click u b = Some p ->
  exists op, operation b (sent_body p) = Some op /\ database_route client cfg (pc_method p) (pc_path p) (sent_body p) = Some op /\
    plain_path (pc_path p) = true /\ pc_path p <> text "/api/deploy/apply".
Proof using.
  intros Hn Hc. pose proof (unreserved_path _ Hn) as Hp.
  assert (Hw : forall w, plain_path (text w) = true ->
    plain_path (database_path [about b; text w]) = true /\ database_path [about b; text w] <> text "/api/deploy/apply").
  { intros w Hw. change (database_path [about b; text w]) with (text "/api/databases/" ++ about b ++ [slash_char] ++ text w).
    rewrite !plain_path_app, Hp, Hw. split; [reflexivity | discriminate]. }
  destruct b as [n a | n on | s | n | n | n | n | n tl]; cbn [click about] in *; unfold restoreDb, deleteDatabase in Hc; try discriminate;
    [destruct a | destruct on | | destruct (in_confirm u) | | destruct (in_confirm u)]; try discriminate; injection Hc as <-;
    cbn [pc_method pc_path operation dbAction dbWarm openMetrics createBranch]; eexists; (split; [reflexivity |]).
  all: change (action_name StartIt) with (text "start") || change (action_name StopIt) with (text "stop") || idtac.
  all: try match goal with |- context [database_path [?n; text ?w]] => split; [route_word n w | exact (Hw w eq_refl)] end.
  change (database_path [n]) with (text "/api/databases/" ++ n). unfold database_route. rewrite strip_prefix_app. cbn [mbind option_bind].
  rewrite no_slash_inside by apply Hn. split; [reflexivity |]. rewrite plain_path_app, Hp. split; [reflexivity | discriminate].
Qed.

Lemma sent_text p : read_body (sent_body p) = sent_body p.
Proof using laws. unfold read_body, sent_body. destruct (pc_body p); [by rewrite stringify_text | by destruct (utf8_valid [])]. Qed.

(** What the page makes of a call's reply. *)
Lemma page_reads_api (r : stateM (Console R) bytes Value) c :
  match r c with
  | (c1, Ok _) => exists rep v, api r c = (c1, Ok rep) /\ page_result rep = Ok v
  | (c1, Err e) => exists rep e', api r c = (c1, Ok rep) /\ page_result rep = Err e' /\ (utf8_valid e = true -> e <> [] -> e' = e)
  | (c1, Panic) => api r c = (c1, Panic)
  end.
Proof using laws.
  unfold api, stry, sbind. destruct (r c) as [c1 [v | e |]]; [| | reflexivity].
  - do 2 eexists. split; [reflexivity |]. unfold page_result. cbn. reflexivity.
  - do 2 eexists. split; [reflexivity |]. split; [reflexivity |]. intros He Hne. destruct (error_read e He) as (v & Ev & Ee). cbn [re_body].
    assert (Hp : non_empty (json_print (vobj [("error", VStr e)])) = true).
    { unfold non_empty. apply negb_true_iff, bool_decide_false. intros E0. rewrite E0, parse_empty in Ev. discriminate. }
    rewrite Hp, Ev, Ee. cbn. unfold text_or, non_empty. by rewrite bool_decide_false.
Qed.

(** Every button of a database's card is about that database. *)
Lemma card_is_about ctl live compute warm d u b p :
  b ∈ card_buttons ctl (database_value cfg live compute warm d) -> click u b = Some p -> about b = db_name d.
Proof using.
  unfold card_buttons. rewrite !elem_of_app, !elem_of_cons, elem_of_nil. intros Hb Hc.
  assert (En : shown (get_str "name" (database_value cfg live compute warm d)) = db_name d) by reflexivity. rewrite !En in Hb.
  destruct Hb as [Hb | [Hb | [Hb | Hb]]].
  - unfold warm_buttons in Hb. destruct (_ && _); [| by apply elem_of_nil in Hb]. apply list_elem_of_singleton in Hb as ->. exact En.
  - unfold life_buttons in Hb. destruct (_ && _); [| destruct (_ && _)]; [| | by apply elem_of_nil in Hb]; apply list_elem_of_singleton in Hb as ->; exact En.
  - destruct Hb as [-> | [-> | [-> | [-> | [-> | []]]]]]; done.
  - unfold restore_buttons in Hb. rewrite En in Hb. destruct (_ ≫= as_array) as [[| x l] |]; [by apply elem_of_nil in Hb | | by apply elem_of_nil in Hb].
    apply elem_of_app in Hb as [(y & -> & _)%list_elem_of_fmap | Hb]; [done |].
    destruct (is_restored _); [by apply list_elem_of_singleton in Hb as -> | by apply elem_of_nil in Hb].
Qed.


(** ** The bodies *)

(** The server reads the members that were sent. *)
Lemma sent_members m path l : Forall (fun x => carried x.2) l ->
  forall k, vget k (parse (sent_body (mkPageCall m path (Some (vobj l))))) = vget k (vobj l).
Proof using laws. intros Hl k. destruct (stringify_read l Hl) as (v & Ev & Hv). unfold sent_body, parse. cbn [pc_body]. by rewrite Ev. Qed.

(** A restore point is made where the card's fields say. *)
Lemma branch_asked u n p lsn :
  click u (CreateBranch n) = Some p -> in_branch u <> [] -> js_trim (in_branch u) = in_branch u -> utf8_valid (in_branch u) = true ->
  in_lsn u = fmt_i64 lsn -> 0 <= lsn <= MAX_SAFE_INTEGER ->
  restore_point n (sent_body p) = mkRestorePoint (in_branch u) (id_from_name (n ++ text "/" ++ in_branch u)) lsn.
Proof using laws.
  intros [= <-] Hne Ht Hu El Hr. assert (Hs : - MAX_SAFE_INTEGER <= lsn <= MAX_SAFE_INTEGER) by (unfold MAX_SAFE_INTEGER in *; lia).
  unfold restore_point, opt, get_str, get_u64, createBranch, branch_body.
  assert (Eb : js_trim (text_or (in_branch u) (text "restore")) = in_branch u) by (unfold text_or, non_empty; by rewrite bool_decide_false).
  assert (En : (if non_empty (in_lsn u) then js_number (in_lsn u) else VNum 0) = VNum lsn).
  { rewrite El, number_written by exact Hs. destruct (non_empty _) eqn:E; [done |]. exfalso. unfold non_empty in E. apply negb_false_iff, bool_decide_eq_true in E.
    revert E. unfold fmt_i64. destruct (Z.ltb_spec lsn 0); [lia |]. apply fmt_dec_word. lia. }
  rewrite Eb, En, !sent_members by (apply Forall_cons; split; [exact Hu | apply Forall_singleton; exact Hs]).
  set (body := vobj _). change (vget "branch" body) with (Some (VStr (in_branch u))). change (vget "lsn" body) with (Some (VNum lsn)).
  cbn [mbind option_bind as_str as_u64 opt_filter]. unfold non_empty. rewrite bool_decide_false by done. unfold u64_max, MAX_SAFE_INTEGER in *.
  rewrite (proj2 (Z.leb_le 0 lsn)), (proj2 (Z.leb_le lsn _)) by lia. reflexivity.
Qed.

(** A position below zero makes a restore point at the latest one. *)
Lemma negative_lsn_is_latest u n p lsn :
  click u (CreateBranch n) = Some p -> utf8_valid (js_trim (text_or (in_branch u) (text "restore"))) = true ->
  in_lsn u = fmt_i64 lsn -> - MAX_SAFE_INTEGER <= lsn < 0 -> rp_lsn (restore_point n (sent_body p)) = 0.
Proof using laws.
  intros [= <-] Hu El Hr. assert (Hs : - MAX_SAFE_INTEGER <= lsn <= MAX_SAFE_INTEGER) by (unfold MAX_SAFE_INTEGER in *; lia).
  cbn [rp_lsn restore_point]. unfold get_u64, createBranch, branch_body. rewrite El, (number_written lsn Hs).
  assert (En : non_empty (fmt_i64 lsn) = true) by (unfold fmt_i64; rewrite (proj2 (Z.ltb_lt lsn 0)) by lia; reflexivity).
  rewrite En, sent_members by (apply Forall_cons; split; [exact Hu | apply Forall_singleton; exact Hs]).
  set (body := vobj _). change (vget "lsn" body) with (Some (VNum lsn)). cbn [mbind option_bind as_u64]. by rewrite (proj2 (Z.leb_gt 0 lsn)) by lia.
Qed.

(** The timeline the user picked is the one that is pinned; [live] unpins. *)
Lemma restore_asked u n tl p :
  click u (RestoreDb n tl) = Some p -> utf8_valid tl = true ->
  opt_filter restore_target (get_str "timeline" (parse (sent_body p))) = if restore_target tl then Some tl else None.
Proof using laws.
  cbn [click]. unfold restoreDb. intros Hc Hu. destruct (in_confirm u); [| discriminate]. injection Hc as <-. unfold get_str.
  rewrite sent_members by (apply Forall_singleton; exact Hu). reflexivity.
Qed.

(** The other requests of the page. *)
Lemma page_loads :
  asked loadDatabases = api (list_databases client cfg) /\ asked refreshAll = api (status client cfg).
Proof using laws. unfold asked, serve_one. rewrite !sent_text, !fetch_plain by reflexivity. split; reflexivity. Qed.

Lemma create_asked typed p :
  createDatabase typed = Some p -> utf8_valid (js_trim typed) = true ->
  asked p = api (create_database client cfg (sent_body p)) /\ get_str "name" (parse (sent_body p)) = Some (js_trim typed).
Proof using laws.
  unfold createDatabase. intros Hc Hu. destruct (non_empty _); [| discriminate]. injection Hc as <-. split.
  - unfold asked, serve_one. rewrite sent_text, fetch_plain by reflexivity. reflexivity.
  - unfold get_str. by rewrite sent_members by (apply Forall_singleton; exact Hu).
Qed.

(** ** What the form deploys *)

Definition shown_text (s : bytes) : option bytes := if non_empty (js_trim s) then Some (js_trim s) else None.

Definition form_opts (f : Form) (replicas lo hi : Z) (dry_run : bool) : DeployOpts :=
  mkDeployOpts (text_or (fm_release f) (text "aethel")) (text_or (fm_namespace f) (text "aethel")) []
    [text "safekeeper.replicas=" ++ fmt_i64 replicas;
     text "autoscaling.proxy.enabled=" ++ json_bool (fm_autoscaling f);
     text "autoscaling.proxy.minReplicas=" ++ fmt_i64 lo;
     text "autoscaling.proxy.maxReplicas=" ++ fmt_i64 hi;
     text "podDisruptionBudget.safekeeper.enabled=" ++ json_bool (fm_pdb f);
     text "podDisruptionBudget.proxy.enabled=" ++ json_bool (fm_pdb f);
     text "topologySpread.enabled=" ++ json_bool (fm_spread f);
     text "pooling.enabled=" ++ json_bool (fm_pooling f)]
    (shown_text (fm_object_store f)) (shown_text (fm_repo f)) (shown_text (fm_tag f))
    (fm_expose f || non_empty (fm_cloud f)) false dry_run.

(** The form's texts are texts, and its numbers integers that are exact. *)
Definition form_ok (f : Form) (replicas lo hi : Z) : Prop :=
  Forall (fun s => utf8_valid s = true) [fm_cloud f; fm_namespace f; fm_release f; js_trim (fm_object_store f); js_trim (fm_repo f); js_trim (fm_tag f)] /\
  text_or (fm_safekeepers f) (text "1") = fmt_i64 replicas /\ text_or (fm_min f) (text "2") = fmt_i64 lo /\ text_or (fm_max f) (text "10") = fmt_i64 hi /\
  Forall (fun z => - MAX_SAFE_INTEGER <= z <= MAX_SAFE_INTEGER) [replicas; lo; hi].

Lemma in_i64 z : - MAX_SAFE_INTEGER <= z <= MAX_SAFE_INTEGER -> (- 2 ^ 63 <=? z) && (z <? 2 ^ 63) = true.
Proof using. unfold MAX_SAFE_INTEGER. intros Hz. apply andb_true_iff. split; [apply Z.leb_le | apply Z.ltb_lt]; lia. Qed.

Lemma form_deploys f replicas lo hi m path dry :
  form_ok f replicas lo hi ->
  deploy_opts (parse (sent_body (mkPageCall m path (Some (deployBody f))))) dry = form_opts f replicas lo hi dry.
Proof using laws.
  intros (Hu & E1 & E2 & E3 & Hz). rewrite !Forall_cons in Hu. rewrite !Forall_cons in Hz. destruct Hz as (Hz1 & Hz2 & Hz3 & _).
  destruct Hu as (U1 & U2 & U3 & U4 & U5 & U6 & _).
  assert (Hn : forall s, utf8_valid (js_trim s) = true -> carried (text_or_null s)) by (intros s Hs; unfold text_or_null; destruct (non_empty (js_trim s)); [exact Hs | exact I]).
  unfold deployBody, number_or. rewrite E1, E2, E3, (number_written _ Hz1), (number_written _ Hz2), (number_written _ Hz3).
  set (l := [("cloud", _); _; _; _; _; _; _; _; _; _; _; _; _; _]).
  assert (Hl : Forall (fun x => carried x.2) l) by (unfold l; repeat (apply Forall_cons; split; [first [exact I | assumption | by apply Hn] |]); constructor).
  pose proof (sent_members m path l Hl) as Hg. unfold deploy_opts, opt, get_str. rewrite !Hg.
  assert (Hk : Forall (fun x => vget x.1 (vobj l) = Some x.2) l) by (unfold l; repeat (apply Forall_cons; split; [reflexivity |]); constructor).
  assert (Hw : vget "wait" (vobj l) = None) by reflexivity. clear Hg Hl. revert Hk Hw. generalize (vobj l). unfold l. intros body Hk Hw.
  rewrite !Forall_cons in Hk. destruct Hk as (K1 & K2 & K3 & K4 & K5 & K6 & K7 & K8 & K9 & K10 & K11 & K12 & K13 & K14 & _). cbn [fst snd] in *.
  rewrite K1, K2, K3, K4, K5, K6, K7, K8, K9, K10, K11, K12, K13, K14, Hw. unfold form_opts, shown_text.
  assert (Ht : forall s, opt_filter non_empty (as_str (text_or_null s)) = if non_empty (js_trim s) then Some (js_trim s) else None).
  { intros s. unfold text_or_null. destruct (non_empty (js_trim s)) eqn:E; [cbn; by rewrite E | done]. }
  cbn [mbind option_bind as_str as_bool as_i64]. rewrite !Ht, !in_i64 by done.
  assert (Ho : forall s, match opt_filter non_empty (Some s) with Some r => r | None => text "aethel" end = text_or s (text "aethel")).
  { intros s. unfold text_or. cbn. by destruct (non_empty s). }
  rewrite !Ho. f_equal. cbn [opt_filter]. by destruct (non_empty (fm_cloud f)).
Qed.

(** The deploy form is what is deployed.  The preview, the copied command and the
    deployment come from the same options, which are the form's fields with their
    defaults; they differ in the dry run alone, and nothing is deployed without the
    user's confirmation. *)
Theorem deploy_form_is_deployed f replicas lo hi confirm :
  form_ok f replicas lo hi ->
  let o := form_opts f replicas lo hi in
  asked (preview_click f) =
    api (let! output := deploy_capture (o true) None in
         sret (vobj [("ok", VBool true); ("command", VStr (command_preview (o true))); ("output", VStr output)])) /\
  asked (command_click f) = api (sret (vobj [("command", VStr (command_preview (o false)))])) /\
  (forall p, apply_click f confirm = Some p ->
     confirm = true /\ exists body, asked p = stream_apply cfg body /\ deploy_opts (parse body) false = o false).
Proof using laws.
  intros Hf o. unfold asked, serve_one, preview_click, command_click, apply_click. cbn [pc_method pc_path].
  rewrite !sent_text, !fetch_plain by reflexivity. split_and!.
  - unfold o. rewrite <- (form_deploys f replicas lo hi Post (text "/api/deploy/preview") true Hf). reflexivity.
  - unfold o. rewrite <- (form_deploys f replicas lo hi Post (text "/api/deploy/command") false Hf). reflexivity.
  - intros p Hp. destruct confirm; [| discriminate]. injection Hp as <-. split; [done |]. rewrite sent_text. cbn [pc_method pc_path].
    rewrite fetch_plain by reflexivity. eexists. split; [reflexivity |]. by apply form_deploys.
Qed.

(** The presets. *)
Lemma presets_deploy pr f replicas lo hi dry :
  form_ok (applyPreset pr f) replicas lo hi ->
  let o := form_opts (applyPreset pr f) replicas lo hi dry in
  match pr with
  | LocalPreset => replicas = 1 /\ do_expose o = false /\ do_object_store_url o = None
  | ProductionPreset => replicas = 3 /\ do_expose o = true
  end.
Proof using laws.
  intros (_ & E & _ & _ & Hz) o. apply Forall_cons in Hz as [Hz _].
  assert (Hr : forall z, - MAX_SAFE_INTEGER <= z <= MAX_SAFE_INTEGER -> fmt_i64 z = fmt_i64 replicas -> replicas = z).
  { intros z Hz' Ez. pose proof (number_written z Hz') as N. rewrite Ez, number_written in N by done. by injection N. }
  destruct pr; (split; [apply Hr; [by vm_compute | exact E] |]).
  - split; [reflexivity |]. cbn. unfold shown_text. by rewrite trim_empty.
  - reflexivity.
Qed.
End Behind.

(** ** Names in the markup *)

(** A name is put into a handler as it is: this database's button deletes another. *)
Lemma name_becomes_script :
  onclick (DeleteDatabase (text "a'),deleteDatabase('b")) = onclick (DeleteDatabase (text "a")) ++ text "," ++ onclick (DeleteDatabase (text "b")).
Proof. reflexivity. Qed.

(** A database that serves from a restore point with this name is shown as live, and
    has no button that takes it back. *)
Lemma restore_point_named_live (cfg : ServeCfg) live compute warm ctl d tl lsn :
  db_branches d = [mkRestorePoint (text "live") tl lsn] -> db_current d = Some tl -> tl <> text "live" ->
  let v := database_value cfg live compute warm d in
  serving_badge v = None /\ RestoreDb (db_name d) (text "live") ∉ card_buttons ctl v.
Proof.
  intros Eb Ec Hne v.
  assert (Er : is_restored v = false).
  { assert (Ev : get_str "current" v = Some (text "live")).
    { change (get_str "current" v) with (Some (current_name d)). unfold current_name. rewrite Ec, Eb. cbn [List.find rp_timeline rp_name].
      by rewrite bool_decide_true. }
    unfold is_restored, field_is. by rewrite Ev, bool_decide_true, andb_false_r. }
  unfold serving_badge. rewrite Er. split; [done |]. unfold card_buttons. rewrite !elem_of_app. intros [Hb | [Hb | [Hb | Hb]]].
  - unfold warm_buttons in Hb. destruct (_ && _); [by apply list_elem_of_singleton in Hb | by apply elem_of_nil in Hb].
  - unfold life_buttons in Hb. destruct (_ && _); [| destruct (_ && _)]; [by apply list_elem_of_singleton in Hb.. | by apply elem_of_nil in Hb].
  - rewrite !elem_of_cons, elem_of_nil in Hb. by destruct Hb as [Hb | [Hb | [Hb | [Hb | [Hb | []]]]]].
  - assert (Ev : vget "branches" v ≫= as_array = Some [restore_point_value (mkRestorePoint (text "live") tl lsn)]) by (cbn; by rewrite Eb).
    unfold restore_buttons in Hb. rewrite Ev, Er, app_nil_r in Hb. apply list_elem_of_singleton in Hb as [=]. by subst tl.
Qed.

(** ** A browser and a server with one text format *)

Abbreviation packed := (bytes + (Z + option bool))%type.

Definition pack (v : Value) : packed :=
  match v with VStr s => inl s | VNum z => inr (inl z) | VBool b => inr (inr (Some b)) | _ => inr (inr None) end.
Definition unpack (x : packed) : Value :=
  match x with inl s => VStr s | inr (inl z) => VNum z | inr (inr (Some b)) => VBool b | inr (inr None) => VNull end.

Definition members_list (v : Value) : list (bytes * Value) := match v with VObj l => l | _ => [] end.

Definition flat_print (v : Value) : bytes := text "{" ++ bits_of (encode (map (fun m => (m.1, pack m.2)) (members_list v))).
Definition flat_parse (b : bytes) : option Value :=
  match b with
  | [] => None
  | _ :: bits => (fun l : list (bytes * packed) => VObj (map (fun m => (m.1, unpack m.2)) l)) <$> decode (of_bits bits)
  end.

Definition flat_json : Json := {| json_parse := flat_parse; json_print := flat_print; json_pretty := flat_print |}.
Definition flat_browser : Browser := {|
  fetch_url p := p;
  js_trim := trim;
  js_number s :=
    match parse_u64 s, s with
    | Some z, _ => VNum z
    | None, _ :: s' => match parse_u64 s' with Some z => VNum (- z) | None => VNull end
    | None, [] => VNull
    end;
  js_stringify := flat_print;
  js_parse := flat_parse
|}.

Lemma flat_read v : flat_parse (flat_print v) = Some (VObj (map (fun m => (m.1, unpack (pack m.2))) (members_list v))).
Proof. unfold flat_print, flat_parse. cbn [app text]. cbn. rewrite of_bits_of, decode_encode. cbn. by rewrite map_map. Qed.

Lemma unpack_pack v : carried v -> unpack (pack v) = v.
Proof. by destruct v. Qed.

Lemma bits_ascii p : Forall (fun b => ch b < 128) (bits_of p).
Proof. induction p; cbn [bits_of]; constructor; done. Qed.

Lemma flat_laws : @BrowserLaws flat_json flat_browser.
Proof.
  split.
  - done.
  - intros z Hz. cbn [js_number flat_browser]. unfold MAX_SAFE_INTEGER in Hz. unfold fmt_i64. destruct (Z.ltb_spec z 0).
    + change (text "-" ++ fmt_dec (- z)) with (z2b 45 :: fmt_dec (- z)).
      assert (E : parse_u64 (z2b 45 :: fmt_dec (- z)) = None).
      { pose proof (fmt_dec_word (- z) ltac:(lia)) as [Hne _]. unfold parse_u64. destruct (fmt_dec (- z)) as [| b s]; [done |]. by destruct b. }
      rewrite E, parse_fmt_dec by (unfold in_u64, u64_max; lia). f_equal. lia.
    + rewrite parse_fmt_dec by (unfold in_u64, u64_max; lia). done.
  - intros v. apply utf8_valid_ascii. apply Forall_app. split; [by repeat constructor | apply bits_ascii].
  - intros l Hl. eexists. split; [apply flat_read |]. intros k. cbn [members_list vobj vget]. unfold vobj. cbn [members_list].
    f_equal. induction Hl as [| [k' v] l Hv Hl IH]; [done |]. cbn in *. by rewrite unpack_pack, IH.
  - intros v. eexists. apply flat_read.
  - intros e _. eexists. split; [apply flat_read |]. reflexivity.
  - done.
  - done.
Qed.

Definition demo_db : Database := mkDatabase (text "orders") (text "00") [] None.
Definition demo_page_console : Console spawned := mkConsole None [].
Definition demo_delete : page_call := mkPageCall Delete (text "/api/databases/orders") None.


Definition demo_form : Form :=
  mkForm (text "aws") (text "prod") [] (text " s3://wal ") [] [] true (text "3") true [] (text "8") true false false.

Lemma deploy_form_is_deployed_witness :
  form_ok (H := flat_browser) demo_form 3 2 8 /\
  @asked flat_browser flat_json toy_crypto bit_registry toy_floats toy_page spawned log_disk log_ureq log_system log_clock toy_client (toy_cfg true)
    (command_click (H := flat_browser) demo_form) =
  @api flat_json spawned (sret (vobj [("command", VStr (command_preview (form_opts (H := flat_browser) demo_form 3 2 8 false)))])).
Proof.
  assert (Hf : form_ok (H := flat_browser) demo_form 3 2 8).
  { split; [repeat constructor |]. split_and!; try reflexivity. repeat constructor; unfold MAX_SAFE_INTEGER; lia. }
  split; [exact Hf |].
  apply (@deploy_form_is_deployed flat_browser flat_json toy_crypto bit_registry toy_floats toy_page spawned log_disk log_ureq log_system log_clock
    toy_client (toy_cfg true) flat_laws demo_form 3 2 8 true Hf).
Defined.
