(* ===== verification/Cli.v ===== *)
(** The command line of aethelctl (src/aethelctl/src/main.rs), after its arguments
    have been parsed: the calls each command makes and the lines it prints. *)

From S2P Require Import Prelude Bytes Text Common PageVersion ObjStore Http Compute Scram Databases Client Console.

Inductive Cloud := Aws | Azure | Gcp.

Inductive TenantCmd := TenantList | TenantCreate (id : bytes).

Inductive TimelineCmd := TimelineList (tenant : option bytes) | TimelineCreate (id : bytes) (tenant : option bytes).

(** [Serve] comes with the error of binding its address, if any, and the requests
    that arrive. *)
Inductive Command :=
| Status
| TenantC (c : TenantCmd)
| TimelineC (c : TimelineCmd)
| Branch (new from : bytes) (lsn : Z) (tenant : option bytes)
| Receive (timeline safekeeper : bytes) (start_lsn : Z) (tenant : option bytes)
| Gc (horizon_lsn : Z) (tenant : option bytes)
| Up (file : bytes) (foreground : bool)
| Down (file : bytes)
| Deploy (release namespace : bytes) (cloud : option Cloud) (object_store_url image_repo image_tag : option bytes) (expose : bool)
    (values sets : list bytes) (chart : option bytes) (wait dry_run : bool)
| Uninstall (release namespace : bytes)
| Serve (listen : bytes) (apply : bool) (grafana : option bytes) (endpoint : bytes) (proxy prometheus : option bytes)
    (bind_error : option bytes) (requests : list (Method * bytes * bytes)).

Record Cli := mkCli {
  cli_server : bytes;
  cli_token : option bytes;
  cli_json : bool;
  cli_command : Command
}.

(** The lines printed, and the replies sent when serving. *)
Record Output := mkOutput { out_lines : list bytes; out_replies : list Reply }.

Definition says (lines : list bytes) : Output := mkOutput lines [].

Section Main.
Context `{Json} `{Crypto} `{RegistryJson} `{Floats} `{Page} {R : Type} `{Disk R} `{Ureq R} `{System R} `{Clock R}.

Abbreviation console := (stateM (Console R) bytes).

Definition strings (key : string) (l : list bytes) : Value := vobj [(key, VArr (VStr <$> l))].

(** [report]: the JSON of the response, or a line. *)
Definition report (json : bool) (v : Value) (human : bytes) : Output := says [if json then json_pretty v else human].

Definition print_list (json : bool) (key : string) (l : list bytes) : Output := says (if json then [json_pretty (strings key l)] else l).

Definition serve (listen : bytes) (cfg : ServeCfg) (token : option bytes) (bind_error : option bytes) (requests : list (Method * bytes * bytes)) :
    console Output :=
  match bind_error with
  | Some e => serr (text "binding " ++ listen ++ text ": " ++ e)
  | None =>
      let client := Client_new (control_url cfg) token in
      let! replies := serve_all client cfg requests in
      sret (mkOutput [text "AethelDB console → http://" ++ listen; text "  control plane: " ++ control_url cfg;
                      text "  apply enabled: " ++ json_bool (allow_apply cfg)] replies)
  end.

Definition count (v : Value) (key : string) : bytes := fmt_dec (get_u64 v key).

Definition main (cli : Cli) : console Output :=
  let client := Client_new (cli_server cli) (cli_token cli) in
  let json := cli_json cli in
  match cli_command cli with
  | Status =>
      let! _ := healthz client in
      let! tenants := client_list_tenants client in
      let! timelines := client_list_timelines client None in
      sret (says (if json
        then [json_pretty (vobj [("tenants", VArr (VStr <$> tenants)); ("root_timelines", VArr (VStr <$> timelines))])]
        else [text "control plane: ok (" ++ cli_server cli ++ text ")";
              text "tenants (" ++ fmt_dec (len tenants) ++ text "): " ++ join_with [space] tenants;
              text "root-tenant timelines (" ++ fmt_dec (len timelines) ++ text "): " ++ join_with [space] timelines]))
  | TenantC TenantList => let! tenants := client_list_tenants client in sret (print_list json "tenants" tenants)
  | TenantC (TenantCreate id) =>
      let! v := client_create_tenant client id in sret (report json v (text "created tenant " ++ id))
  | TimelineC (TimelineList tenant) => let! timelines := client_list_timelines client tenant in sret (print_list json "timelines" timelines)
  | TimelineC (TimelineCreate id tenant) =>
      let! v := client_create_timeline client id tenant in sret (report json v (text "created timeline " ++ id))
  | Branch new from lsn tenant =>
      let! v := client_branch client new from lsn tenant in
      sret (report json v (text "branched " ++ new ++ text " from " ++ from ++ text " @ " ++ fmt_dec lsn))
  | Receive timeline safekeeper start_lsn tenant =>
      let! v := client_receive client timeline safekeeper start_lsn tenant in
      sret (report json v (text "receiving " ++ timeline ++ text " from " ++ safekeeper ++ text " @ " ++ fmt_dec start_lsn))
  | Gc horizon_lsn tenant =>
      let! v := client_gc client horizon_lsn tenant in
      sret (says [if json then json_pretty v
                  else text "gc @ " ++ fmt_dec horizon_lsn ++ text ": " ++ count v "timelines" ++ text " timelines, " ++
                       count v "versions_removed" ++ text " versions removed, " ++ count v "objects_deleted" ++ text " objects deleted"])
  | Up file foreground => let! _ := compose "up" file (negb foreground) in sret (says [])
  | Down file => let! _ := compose "down" file false in sret (says [])
  | Deploy release namespace cloud object_store_url image_repo image_tag expose values sets chart wait dry_run =>
      let o := mkDeployOpts release namespace values sets object_store_url image_repo image_tag
                 (expose || bool_decide (is_Some cloud)) wait dry_run in
      let! _ := deploy o chart in sret (says [])
  | Uninstall release namespace => let! _ := uninstall release namespace in sret (says [])
  | Serve listen apply grafana endpoint proxy prometheus bind_error requests =>
      serve listen (mkServeCfg (cli_server cli) apply grafana endpoint proxy prometheus) (cli_token cli) bind_error requests
  end.
End Main.

(** ** What the commands start *)

Section Commands.
Context `{Json} `{Crypto} `{RegistryJson} `{Floats} `{Page} {R : Type} `{Disk R} `{Ureq R} `{System R} `{Clock R} `{!Traced R}.

(** The processes a command may start: those of the local stack for [up] and
    [down], Helm for [deploy] and [uninstall] with exactly the command's own
    arguments, dry runs for a console (and with [--allow-apply] a shell that runs
    Helm), and none otherwise. *)
Definition may_start (cmd : Command) (p : bytes * list bytes) : Prop :=
  match cmd with
  | Up file _ => p.1 = text "docker" /\ take 4 p.2 = [text "compose"; text "-f"; file; text "up"]
  | Down file => p = (text "docker", [text "compose"; text "-f"; file; text "down"])
  | Deploy release namespace cloud url repo tag expose values sets _ wait dry =>
      exists chart, p = (text "helm", helm_args (mkDeployOpts release namespace values sets url repo tag (expose || bool_decide (is_Some cloud)) wait dry) chart)
  | Uninstall release namespace => p = (text "helm", [text "uninstall"; release; text "--namespace"; namespace])
  | Serve _ false _ _ _ _ _ _ => dry_run p
  | Serve _ true _ _ _ _ _ _ => dry_run p \/ exists o chart, p = (text "sh", [text "-c"; text "helm " ++ join_with [space] (helm_args o chart) ++ text " 2>&1"])
  | _ => False
  end.

(** The processes started by a call are of this kind. *)
Definition starts (P : bytes * list bytes -> Prop) {A} (m : stateM (Console R) bytes A) : Prop := forall c,
  exists new, started (co_world (m c).1) = started (co_world c) ++ new /\ Forall P new.

Lemma starts_bind P {A B} (m : stateM (Console R) bytes A) (k : A -> stateM (Console R) bytes B) :
  starts P m -> (forall a, starts P (k a)) -> starts P (sbind m k).
Proof using.
  intros Hm Hk c. unfold sbind. destruct (Hm c) as (new & E & Hn). destruct (m c) as [c1 [a | e |]]; cbn [fst snd] in *; [| by exists new ..].
  destruct (Hk a c1) as (new1 & E1 & Hn1). exists (new ++ new1). rewrite E1, E, app_assoc. split; [done |]. by apply Forall_app.
Qed.

Lemma starts_nothing P {A} (m : stateM (Console R) bytes A) : (forall c, started (co_world (m c).1) = started (co_world c)) -> starts P m.
Proof using. intros Hm c. exists []. by rewrite app_nil_r. Qed.

Lemma starts_run P cl req body : starts P (run cl req body).
Proof using.
  apply starts_nothing. intros c. unfold run, sbind, outside. pose proof (started_call (with_body req body) (co_world c)) as E.
  by destruct (ureq_call _ _) as [r []].
Qed.

Lemma starts_chart P o : starts P (chart_dir o).
Proof using.
  apply starts_nothing. intros c. destruct o as [dir |]; [done |]. unfold chart_dir, extract_chart, sbind, outside. cbv zeta. cbn [co_world co_file].
  set (dir := path_join _ _). pose proof (started_remove_dir dir (co_world c)) as E1.
  pose proof (started_create_dir dir (remove_dir_all dir (co_world c))) as E2. destruct (create_dir_all dir _) as [r2 [e |]]; cbn in *; [congruence |].
  pose proof (started_unpack dir r2) as E3. destruct (unpack_chart dir r2) as [r3 [e |]]; cbn in *; congruence.
Qed.

Lemma starts_program (P : bytes * list bytes -> Prop) program args : P (text program, args) -> starts P (run_program program args).
Proof using.
  intros Hp c. unfold run_program, sbind, outside. pose proof (started_spawn (text program) args Inherited (co_world c)) as E.
  exists [(text program, args)]. destruct (spawn _ _ _ _) as [r [e | st [] out err]]; by split; [| apply Forall_singleton].
Qed.

Lemma starts_mono (P Q : bytes * list bytes -> Prop) {A} (m : stateM (Console R) bytes A) : (forall p, P p -> Q p) -> starts P m -> starts Q m.
Proof using. intros HPQ Hm c. destruct (Hm c) as (new & E & Hn). exists new. split; [done |]. by eapply Forall_impl. Qed.

Lemma starts_try P {A} (m : stateM (Console R) bytes A) : starts P m -> starts P (stry m).
Proof using. intros Hm c. unfold stry. specialize (Hm c). by destruct (m c) as [c1 []]. Qed.

Lemma starts_ret P {A} (a : A) : starts P (sret a).
Proof using. by apply starts_nothing. Qed.

Lemma starts_apply (P : bytes * list bytes -> Prop) cfg body :
  (forall o chart, P (text "sh", [text "-c"; text "helm " ++ join_with [space] (helm_args o chart) ++ text " 2>&1"])) -> starts P (stream_apply cfg body).
Proof using.
  intros HP. unfold stream_apply. destruct (allow_apply cfg); [| apply starts_ret]. cbv zeta.
  apply starts_bind; [apply starts_try; exact (starts_chart P None) |]. intros [dir | e]; [| apply starts_ret]. intros c. unfold sbind, outside.
  set (args := [_; _]). pose proof (started_spawn (text "sh") args Streamed (co_world c)) as E. exists [(text "sh", args)].
  destruct (spawn _ _ _ _) as [r [e | st ok out err]]; (split; [exact E | apply Forall_singleton, HP]).
Qed.

Lemma starts_serve (P : bytes * list bytes -> Prop) client cfg reqs :
  (forall p, dry_run p -> P p) ->
  (allow_apply cfg = true -> forall o chart, P (text "sh", [text "-c"; text "helm " ++ join_with [space] (helm_args o chart) ++ text " 2>&1"])) ->
  starts P (serve_all client cfg reqs).
Proof using.
  intros Hdry Happly. induction reqs as [| [[method url] data] reqs IH]; [apply starts_ret |]. cbn [serve_all].
  apply starts_bind; [| intros r; apply starts_bind; [done |]; intros rs; apply starts_ret].
  assert (Ht : forall (m : stateM (Console R) bytes Reply), tame m -> starts P m).
  { intros m Hm. apply (starts_mono dry_run); [done |]. intros c. by destruct (Hm c). }
  destruct (allow_apply cfg) eqn:Ea; [| by apply Ht, tame_serve_one]. unfold serve_one. cbv zeta. case_match; [by apply starts_apply, Happly |].
  apply Ht. unfold route. destruct (database_route _ _ _ _ _) eqn:E; [apply tame_api; by eapply tame_database_route | apply tame_static_route].
Qed.

(** Every command starts only the processes it is for, whichever of its calls fail:
    the commands that operate the control plane start none, [up] and [down] run
    Docker Compose on the file given, [deploy] and [uninstall] run Helm with exactly
    the options given (a dry run when that is asked for), and the console starts
    dry runs, or with [--allow-apply] a shell that runs Helm. *)
Theorem commands_start_their_processes cli c :
  exists new, started (co_world (main cli c).1) = started (co_world c) ++ new /\ Forall (may_start (cli_command cli)) new.
Proof using.
  revert c.
  change (starts (may_start (cli_command cli)) (main cli)). unfold main. cbv zeta. set (client := Client_new _ _). set (json := cli_json cli).
  destruct (cli_command cli) as [| [|] | [|] | | | | | | | | listen apply ? ? ? ? err ?];
    unfold healthz, client_list_tenants, client_list_timelines, client_create_tenant, client_create_timeline, client_branch, client_receive, client_gc,
      deploy, uninstall, compose;
    try solve [repeat first [apply starts_ret | apply starts_run | apply starts_chart | apply starts_program; cbn; by eauto | apply starts_bind; [| intros]]].
  unfold serve. destruct err; [by apply starts_nothing |]. cbv zeta. apply starts_bind; [| intros; apply starts_ret].
  apply starts_serve; cbn; [destruct apply; cbn; by auto | intros ->; eauto].
Qed.
End Commands.
