(* ===== verification/Smgr.v ===== *)
(** The compute node's storage manager (src/compute/extension/aethel_smgr/aethel_smgr.c):
    PostgreSQL reads pages and relation sizes of permanent relations from the page
    server over one cached connection.  [ereport(ERROR)] leaves a callback with an
    error; undefined behaviour is a panic.  Sockets are a parameter: a call sends or
    receives some of the bytes asked for, or fails. *)

From S2P Require Import Prelude Bytes Text Common PageService PageVersion WalRedo Repository WalDecode WalIngest Timeline Tenant TenantManager.
From S2P Require Import PageServer Http.

Definition SP_MAGIC : Z := 0x53504731.
Definition SP_VERSION : Z := 1.
Definition SP_TYPE_GET_PAGE : Z := 1.
Definition SP_TYPE_GET_RELSIZE : Z := 2.
Definition SP_STATUS_OK : Z := 0.
Definition SP_RESP_HEADER : Z := 12.
Definition BLCKSZ : Z := 8192.
Definition InvalidXLogRecPtr : Z := 0.
Definition InvalidBlockNumber : Z := 0xFFFFFFFF.
Definition MaxAllocSize : Z := 0x3fffffff.

(** ** Encoders *)

(** A cast to [uint8] keeps the low byte, as [z2b] does. *)
Definition put_be32 (v : Z) : bytes := [z2b (Z.shiftr v 24); z2b (Z.shiftr v 16); z2b (Z.shiftr v 8); z2b v].

(** The cast to [uint32] of the high half. *)
Definition put_be64 (v : Z) : bytes := put_be32 (Z.shiftr v 32 mod 2 ^ 32) ++ put_be32 (Z.land v 0xFFFFFFFF).

Definition get_be32 (p : bytes) : Z :=
  let b i := b2z (nth i p x00) in
  Z.lor (Z.lor (Z.lor (Z.shiftl (b 0%nat) 24) (Z.shiftl (b 1%nat) 16)) (Z.shiftl (b 2%nat) 8)) (b 3%nat).

(** ** Identifiers *)

Definition is_space (b : byte) : bool := (ch b =? 32) || ((9 <=? ch b) && (ch b <=? 13)).

Fixpoint skip_spaces (s : bytes) : bytes :=
  match s with b :: s' => if is_space b then skip_spaces s' else s | [] => [] end.

Section Hex.
(** What the C library makes of a prefix [0x] that the width cuts off. *)
Context (bare_prefix : option Z).

(** [sscanf(s, "%2x", &byte)]: white space is skipped and does not count; then at
    most two characters: a sign and a digit, or one or two digits. *)
Definition scan_hex2 (s : bytes) : option Z :=
  match skip_spaces s with
  | [] => None
  | [a] => digit_val 16 a
  | a :: b :: _ =>
      if ch a =? 43 then digit_val 16 b
      else if ch a =? 45 then (fun d => (- d) mod 2 ^ 32) <$> digit_val 16 b
      else if (ch a =? 48) && ((ch b =? 120) || (ch b =? 88)) then bare_prefix
      else match digit_val 16 a, digit_val 16 b with
           | Some x, Some y => Some (16 * x + y)
           | Some x, None => Some x
           | None, _ => None
           end
  end.

Fixpoint hex_loop (n : nat) (s : bytes) : option bytes :=
  match n with
  | O => Some []
  | S n' => byte ← scan_hex2 s; rest ← hex_loop n' (drop 2 s); Some (z2b byte :: rest)
  end.

(** The string ends at its first NUL, as [strlen] sees it. *)
Definition parse_hex16 (s : bytes) : option bytes := if len s =? 32 then hex_loop 16 s else None.

(** The identifiers of the settings; an empty one is all zeros. *)
Definition parse_setting (s : bytes) : option bytes := if bool_decide (s = []) then Some (replicate 16 x00) else parse_hex16 s.
End Hex.

(** ** The connection *)

Inductive errcode := CONNECTION_FAILURE | PROTOCOL_VIOLATION | IO_ERROR | INTERNAL_ERROR.

Record pg_error := mkError { er_code : errcode; er_msg : bytes }.

(** [getaddrinfo] gives addresses or an error text; an attempt at one opens a
    connection or not.  [sk_send] says how much was taken, [sk_recv] gives the bytes
    received; nothing means the call failed. *)
Class Sockets (R : Type) := {
  sk_addr : Type;
  sk_resolve : bytes -> Z -> R -> R * (list sk_addr + bytes);
  sk_attempt : sk_addr -> R -> R * bool;
  sk_send : bytes -> R -> R * Z;
  sk_recv : Z -> R -> R * bytes;
  sk_close : R -> R
}.

(** The settings. *)
Record Settings := mkSettings {
  sp_pageserver_host : bytes;
  sp_pageserver_port : Z;
  sp_tenant : Id;
  sp_timeline : Id
}.

Record RelFileLocator := mkLocator { spcOid : Z; dbOid : Z; relNumber : Z }.

#[export] Instance RelFileLocator_eq_dec : EqDecision RelFileLocator.
Proof. solve_decision. Defined.
#[export] Instance RelFileLocator_countable : Countable RelFileLocator.
Proof. refine (inj_countable' (fun l => (spcOid l, dbOid l, relNumber l)) (fun x => mkLocator x.1.1 x.1.2 x.2) _). by intros []. Defined.

(** A backend: whether it holds a connection, the network, and the block counts the
    open relations cache. *)
Record Backend {R : Type} := mkBackend {
  sp_conn : bool;
  sp_net : R;
  smgr_cached_nblocks : gmap (RelFileLocator * Z) Z
}.
Arguments Backend R : clear implicits.
Arguments mkBackend {R}.

Section Manager.
Context {R : Type} `{Sockets R} (st : Settings).

Abbreviation pg := (stateM (Backend R) pg_error).

Definition on_net {A} (f : R -> R * A) : pg A := fun b =>
  let '(r, a) := f (sp_net b) in (mkBackend (sp_conn b) r (smgr_cached_nblocks b), Ok a).

Definition ereport {A} (code : errcode) (msg : bytes) : pg A := serr (mkError code (text "aethel_smgr: " ++ msg)).

Definition sp_disconnect : pg unit := fun b =>
  if sp_conn b then (mkBackend false (sk_close (sp_net b)) (smgr_cached_nblocks b), Ok tt) else (b, Ok tt).

Definition address : bytes := sp_pageserver_host st ++ text ":" ++ fmt_dec (sp_pageserver_port st).

Fixpoint try_addresses (addrs : list sk_addr) : pg bool :=
  match addrs with
  | [] => sret false
  | a :: addrs' => let! ok := on_net (sk_attempt a) in if ok : bool then sret true else try_addresses addrs'
  end.

Definition sp_connect : pg unit :=
  let! b := sget in
  if sp_conn b then sret tt
  else
    let! res := on_net (sk_resolve (sp_pageserver_host st) (sp_pageserver_port st)) in
    match res with
    | inr e => ereport CONNECTION_FAILURE (text "could not resolve page server " ++ address ++ text ": " ++ e)
    | inl addrs =>
        let! ok := try_addresses addrs in
        if ok : bool then smod (fun b => mkBackend true (sp_net b) (smgr_cached_nblocks b))
        else ereport CONNECTION_FAILURE (text "could not connect to page server " ++ address)
    end.

(** Every round sends at least one byte, so as many rounds as bytes are enough. *)
Fixpoint send_loop (fuel : nat) (buf : bytes) : pg unit :=
  match buf with
  | [] => sret tt
  | _ =>
      match fuel with
      | O => spanic
      | S fuel' =>
          let! n := on_net (sk_send buf) in
          if n <=? 0 then
            let! _ := sp_disconnect in
            ereport CONNECTION_FAILURE (text "send to page server failed")
          else send_loop fuel' (drop (Z.to_nat n) buf)
      end
  end.

Definition sp_write_all (buf : bytes) : pg unit := let! _ := sp_connect in send_loop (length buf) buf.

Fixpoint recv_loop (fuel : nat) (got : bytes) (n : Z) : pg bytes :=
  if n <=? 0 then sret got
  else
    match fuel with
    | O => spanic
    | S fuel' =>
        let! b := on_net (sk_recv n) in
        match b with
        | [] =>
            let! _ := sp_disconnect in
            ereport CONNECTION_FAILURE (text "page server closed connection mid-response")
        | _ => recv_loop fuel' (got ++ b) (n - len b)
        end
    end.

Definition sp_read_all (n : Z) : pg bytes := recv_loop (Z.to_nat n) [] n.

(** ** Requests *)

(** The fields fill the buffer from its start, each at its offset. *)
Definition sp_fill_common (type : Z) (forknum : Z) (rloc : RelFileLocator) : bytes :=
  put_be32 SP_MAGIC ++ [z2b SP_VERSION; z2b type; z2b forknum; x00] ++ sp_tenant st ++ sp_timeline st ++
  put_be32 (spcOid rloc) ++ put_be32 (dbOid rloc) ++ put_be32 (relNumber rloc).

(** [palloc] refuses requests over its limit. *)
Definition palloc (size : Z) : pg unit :=
  if size <=? MaxAllocSize then sret tt
  else serr (mkError INTERNAL_ERROR (text "invalid memory alloc request size " ++ fmt_dec size)).

(** Receiving into a buffer of [size] bytes; writing past its end is undefined. *)
Definition read_into (size n : Z) : pg bytes := if n <=? size then sp_read_all n else spanic.

(** A C string ends at its first NUL. *)
Fixpoint c_string (s : bytes) : bytes :=
  match s with b :: s' => if decide (b = x00) then [] else b :: c_string s' | [] => [] end.

Definition status_of (hdr : bytes) : Z := b2z (nth 5 hdr x00).
Definition length_of (hdr : bytes) : Z := get_be32 (drop 8 hdr).

Definition sp_read_status : pg Z :=
  let! hdr := sp_read_all SP_RESP_HEADER in
  if negb (get_be32 hdr =? SP_MAGIC) || negb (b2z (nth 4 hdr x00) =? SP_VERSION) then
    let! _ := sp_disconnect in
    ereport PROTOCOL_VIOLATION (text "malformed response header from page server")
  else
    let status := status_of hdr in
    let n := length_of hdr in
    if status =? SP_STATUS_OK then sret n
    else if 0 <? n then
      (** [len + 1] is 32-bit arithmetic. *)
      let size := (n + 1) mod 2 ^ 32 in
      let! _ := palloc size in
      let! msg := read_into size n in
      if n <? size then ereport IO_ERROR (text "page server error: " ++ c_string msg) else spanic
    else ereport IO_ERROR (text "page server returned status " ++ fmt_dec status).

(** ** Callbacks *)

Definition aethel_smgr_exists (rloc : RelFileLocator) (forknum : Z) : pg bool :=
  let! _ := sp_write_all (sp_fill_common SP_TYPE_GET_RELSIZE forknum rloc ++ put_be64 InvalidXLogRecPtr) in
  let! hdr := sp_read_all SP_RESP_HEADER in
  let n := length_of hdr in
  let! _ := (if 0 <? n then let! _ := palloc n in let! _ := read_into n n in sret tt else sret tt) in
  sret (status_of hdr =? SP_STATUS_OK).

Definition aethel_smgr_read (rloc : RelFileLocator) (forknum blocknum : Z) : pg bytes :=
  let! _ := sp_write_all (sp_fill_common SP_TYPE_GET_PAGE forknum rloc ++ put_be32 blocknum ++ put_be64 InvalidXLogRecPtr) in
  let! n := sp_read_status in
  if negb (n =? BLCKSZ) then
    let! _ := sp_disconnect in
    ereport IO_ERROR (text "expected " ++ fmt_dec BLCKSZ ++ text "-byte page, got " ++ fmt_dec n ++ text " bytes")
  else sp_read_all BLCKSZ.

Definition aethel_smgr_nblocks (rloc : RelFileLocator) (forknum : Z) : pg Z :=
  let! _ := sp_write_all (sp_fill_common SP_TYPE_GET_RELSIZE forknum rloc ++ put_be64 InvalidXLogRecPtr) in
  let! n := sp_read_status in
  if negb (n =? 4) then
    let! _ := sp_disconnect in
    ereport IO_ERROR (text "expected 4-byte rel size, got " ++ fmt_dec n ++ text " bytes")
  else let! payload := sp_read_all 4 in sret (get_be32 payload).

Definition cached (b : Backend R) (rloc : RelFileLocator) (forknum : Z) : Z := default InvalidBlockNumber (smgr_cached_nblocks b !! (rloc, forknum)).

Definition set_cached (rloc : RelFileLocator) (forknum n : Z) : pg unit :=
  smod (fun b => mkBackend (sp_conn b) (sp_net b) (<[(rloc, forknum) := n]> (smgr_cached_nblocks b))).

(** Block numbers are 32-bit. *)
Definition aethel_smgr_extend (rloc : RelFileLocator) (forknum blocknum : Z) : pg unit :=
  let! b := sget in
  if (cached b rloc forknum =? blocknum) || (cached b rloc forknum =? InvalidBlockNumber)
  then set_cached rloc forknum ((blocknum + 1) mod 2 ^ 32)
  else set_cached rloc forknum InvalidBlockNumber.

Definition aethel_smgr_zeroextend (rloc : RelFileLocator) (forknum blocknum nblocks : Z) : pg unit :=
  set_cached rloc forknum ((blocknum + nblocks) mod 2 ^ 32).

Definition aethel_smgr_truncate (rloc : RelFileLocator) (forknum old_blocks nblocks : Z) : pg unit := set_cached rloc forknum nblocks.

Definition aethel_smgr_prefetch (rloc : RelFileLocator) (forknum blocknum : Z) : pg bool := sret false.

(** Creation, deletion, writes and syncs of pages: the WAL carries them. *)
Definition aethel_smgr_noop : pg unit := sret tt.
End Manager.

(** [aethel_smgr_selector]: the standard manager for temporary relations. *)
Inductive smgr_choice := StandardManager | AethelManager.

Definition aethel_smgr_selector (backend : Z) : smgr_choice := if negb (backend =? -1) then StandardManager else AethelManager.

Definition aethel_smgr_status (host : option bytes) (port : Z) (tenant_id timeline_id : option bytes) : bytes :=
  let shown o := match o with Some s => if bool_decide (s = []) then text "(unset)" else s | None => text "(unset)" end in
  take 255 (text "pageserver=" ++ (match host with Some h => h | None => text "(unset)" end) ++ text ":" ++ fmt_dec port ++
            text " tenant=" ++ shown tenant_id ++ text " timeline=" ++ shown timeline_id).

(** [_PG_init]: the settings, or the text of the error. *)
Definition PG_init (bare_prefix : option Z) (preloading : bool) (host : bytes) (port : Z) (tenant_id timeline_id : bytes) : outcome bytes Settings :=
  ensure preloading else text "aethel_smgr must be loaded via shared_preload_libraries" in
  let? tenant := ok_or (parse_setting bare_prefix tenant_id) (text "aethel_smgr.tenant_id must be 32 hex characters") in
  let? timeline := ok_or (parse_setting bare_prefix timeline_id) (text "aethel_smgr.timeline_id must be 32 hex characters") in
  Ok (mkSettings host port tenant timeline).

(** ** Identifiers are read as the page server writes them *)

Lemma scan_display bp b rest : scan_hex2 bp (fmt_02x b ++ rest) = Some (b2z b).
Proof. destruct b; reflexivity. Qed.

Lemma hex_loop_display bp i : hex_loop bp (length i) (Id_display i) = Some i.
Proof.
  induction i as [| b i IH]; [done |]. change (Id_display (b :: i)) with (fmt_02x b ++ Id_display i). cbn [length hex_loop].
  rewrite scan_display. change (drop 2 (fmt_02x b ++ Id_display i)) with (Id_display i). cbn. rewrite IH. cbn. by rewrite z2b_b2z.
Qed.

Lemma parse_hex16_display bp i : Id_wf i -> parse_hex16 bp (Id_display i) = Some i.
Proof.
  intros Hi. unfold parse_hex16. rewrite Id_display_len. unfold Id_wf, len in *. rewrite (proj2 (Z.eqb_eq _ _)) by lia.
  replace 16%nat with (length i) by lia. apply hex_loop_display.
Qed.

(** But signs pass for digits: this is no identifier. *)
Lemma signs_pass_for_hex : parse_hex16 None (text "+1-1+1-1+1-1+1-1+1-1+1-1+1-1+1-1") = Some (concat (replicate 8 [x01; xff])).
Proof. vm_compute; reflexivity. Qed.

(** A node started with the settings of a tenant and a timeline asks for them. *)
Lemma init_reads_ids bp host port te ti :
  Id_wf te -> Id_wf ti -> PG_init bp true host port (Id_display te) (Id_display ti) = Ok (mkSettings host port te ti).
Proof.
  intros Ht Hi. unfold PG_init, parse_setting.
  assert (Hne : forall i, Id_wf i -> Id_display i <> []).
  { intros i Hw E. pose proof (Id_display_len i) as Hl. rewrite E in Hl. unfold Id_wf, len in *. cbn in Hl. lia. }
  rewrite !bool_decide_false by (by apply Hne). by rewrite !parse_hex16_display.
Qed.

(** ** The encoders are those of the protocol *)

Lemma put_be32_spec v : put_be32 v = put_u32 v.
Proof.
  unfold put_be32, put_u32, be_bytes. cbn [le_bytes rev app]. rewrite !Z.shiftr_div_pow2 by lia. rewrite !Z.div_div by lia. reflexivity.
Qed.

Lemma z2b_eq a b : a mod 256 = b mod 256 -> z2b a = z2b b.
Proof. unfold z2b. by intros ->. Qed.

Lemma low_half v k : 0 <= k <= 24 -> (v mod 2 ^ 32) / 2 ^ k mod 256 = v / 2 ^ k mod 256.
Proof.
  intros Hk. rewrite (Z.div_mod v (2 ^ 32)) at 2 by lia.
  replace (2 ^ 32 * (v / 2 ^ 32) + v mod 2 ^ 32) with (v / 2 ^ 32 * 2 ^ (24 - k) * 256 * 2 ^ k + v mod 2 ^ 32).
  - rewrite Z.div_add_l by lia. by rewrite Z.add_comm, Z.mod_add by lia.
  - replace (2 ^ 32) with (2 ^ (24 - k) * 256 * 2 ^ k); [lia |]. change 256 with (2 ^ 8). rewrite <- !Z.pow_add_r by lia. f_equal. lia.
Qed.

Lemma put_be64_spec v : put_be64 v = put_u64 v.
Proof.
  unfold put_be64, put_be32, put_u64, be_bytes. cbn [le_bytes rev app]. change 0xFFFFFFFF with (Z.ones 32). rewrite Z.land_ones by lia.
  rewrite !Z.shiftr_div_pow2 by lia. rewrite !Z.div_div by lia.
  pose proof (fun k H => low_half (v / 2 ^ 32) k H) as Hh. pose proof (low_half v) as Hl.
  repeat (apply (f_equal2 (@cons byte)); [apply z2b_eq |]); [.. | done].
  - rewrite Hh by lia. by rewrite Z.div_div by lia.
  - rewrite Hh by lia. by rewrite Z.div_div by lia.
  - rewrite Hh by lia. by rewrite Z.div_div by lia.
  - rewrite <- (Z.div_1_r (v / 2 ^ 32 mod 2 ^ 32)). change 1 with (2 ^ 0). rewrite Hh by lia. by rewrite Z.div_1_r.
  - by rewrite Hl by lia.
  - by rewrite Hl by lia.
  - by rewrite Hl by lia.
  - rewrite <- (Z.div_1_r (v mod 2 ^ 32)). change 1 with (2 ^ 0). rewrite Hl by lia. by rewrite Z.div_1_r.
Qed.

Lemma shift_lor a b k : 0 <= k -> 0 <= b < 2 ^ k -> Z.lor (Z.shiftl a k) b = a * 2 ^ k + b.
Proof.
  intros Hk Hb. rewrite <- Z.shiftl_mul_pow2 by lia. rewrite <- Z.add_lor_land.
  replace (Z.land (Z.shiftl a k) b) with 0; [lia |]. symmetry. apply Z.bits_inj'. intros i Hi. rewrite Z.land_spec, Z.bits_0.
  destruct (Z.lt_ge_cases i k); [by rewrite Z.shiftl_spec_low by lia |]. apply andb_false_intro2.
  rewrite <- (Z.mod_small b (2 ^ k)) by lia. apply Z.mod_pow2_bits_high. lia.
Qed.

Lemma get_be32_spec (p : bytes) : length p = 4%nat -> get_be32 p = be_val p.
Proof.
  destruct p as [| a [| b [| c [| d [|]]]]]; try discriminate. intros _. unfold get_be32, be_val. cbn [nth rev app le_val].
  pose proof (b2z_range a). pose proof (b2z_range b). pose proof (b2z_range c). pose proof (b2z_range d).
  replace (Z.shiftl (b2z a) 24) with (Z.shiftl (Z.shiftl (b2z a) 8) 16) by (by rewrite Z.shiftl_shiftl by lia).
  rewrite <- Z.shiftl_lor, (shift_lor (b2z a) (b2z b) 8) by lia.
  replace (Z.shiftl (b2z a * 2 ^ 8 + b2z b) 16) with (Z.shiftl (Z.shiftl (b2z a * 2 ^ 8 + b2z b) 8) 8) by (by rewrite Z.shiftl_shiftl by lia).
  rewrite <- Z.shiftl_lor, !(shift_lor _ _ 8) by lia. lia.
Qed.

Definition rel_tag (rloc : RelFileLocator) (f : ForkNumber) : RelTag := mkRelTag (spcOid rloc) (dbOid rloc) (relNumber rloc) f.

(** The requests, as the page server's own encoder writes them. *)
Lemma page_request_bytes st rloc f block :
  sp_fill_common st SP_TYPE_GET_PAGE (ForkNumber_as_u8 f) rloc ++ put_be32 block ++ put_be64 InvalidXLogRecPtr =
  Request_encode (GetPage (sp_tenant st) (sp_timeline st) (rel_tag rloc f) block InvalidXLogRecPtr).
Proof. unfold sp_fill_common. rewrite !put_be32_spec, put_be64_spec, <- !app_assoc. reflexivity. Qed.

Lemma size_request_bytes st rloc f :
  sp_fill_common st SP_TYPE_GET_RELSIZE (ForkNumber_as_u8 f) rloc ++ put_be64 InvalidXLogRecPtr =
  Request_encode (GetRelSize (sp_tenant st) (sp_timeline st) (rel_tag rloc f) InvalidXLogRecPtr).
Proof. unfold sp_fill_common. rewrite !put_be32_spec, put_be64_spec, <- !app_assoc. reflexivity. Qed.

(** ** A network with a page server at its end

    The plan says what becomes of each call: how many bytes it moves at most, or
    zero when it fails; after the plan every call succeeds in full.  The server
    answers a request when its last byte has arrived. *)

Record Wire {PS : Type} := mkWire {
  w_srv : PS;
  w_in : bytes;
  w_out : bytes;
  w_plan : list nat
}.
Arguments Wire PS : clear implicits.
Arguments mkWire {PS}.

Definition whole_request (input : bytes) : bool :=
  match Request_total_len (sub input 0 8) with Ok n => len input =? n | _ => false end.

Section Network.
Context {PS : Type} (serve : bytes -> PS -> PS * option bytes).

(** How much of [n] the next call moves. *)
Definition next_size (n : Z) (plan : list nat) : Z * list nat :=
  match plan with k :: plan' => (Z.min (Z.of_nat k) n, plan') | [] => (n, []) end.

Definition wire_send (b : bytes) (w : Wire PS) : Wire PS * Z :=
  let '(n, plan) := next_size (len b) (w_plan w) in
  let input := w_in w ++ sub b 0 n in
  if whole_request input then
    let '(s, out) := serve input (w_srv w) in (mkWire s [] (w_out w ++ default [] out) plan, n)
  else (mkWire (w_srv w) input (w_out w) plan, n).

Definition wire_recv (n : Z) (w : Wire PS) : Wire PS * bytes :=
  let '(k, plan) := next_size n (w_plan w) in
  (mkWire (w_srv w) (w_in w) (drop (Z.to_nat k) (w_out w)) plan, sub (w_out w) 0 k).

Definition wire_attempt (_ : unit) (w : Wire PS) : Wire PS * bool :=
  let '(k, plan) := next_size 1 (w_plan w) in (mkWire (w_srv w) [] [] plan, 0 <? k).

#[local] Instance WireSockets : Sockets (Wire PS) := {|
  sk_addr := unit;
  sk_resolve _ _ w := (w, inl [tt]);
  sk_attempt := wire_attempt;
  sk_send := wire_send;
  sk_recv := wire_recv;
  sk_close w := mkWire (w_srv w) [] [] (w_plan w)
|}.

Lemma next_size_bound n plan : 0 <= n -> 0 <= (next_size n plan).1 <= n.
Proof. intros Hn. destruct plan; cbn; lia. Qed.

Implicit Types (b : Backend (Wire PS)).

Abbreviation srv b := (w_srv (sp_net b)).

(** Between calls: nothing is on its way on an open connection. *)
Definition idle b : Prop := sp_conn b = true -> w_in (sp_net b) = [] /\ w_out (sp_net b) = [].

(** The same backend but for the connection, further along the plan. *)
Definition goes_on b b' : Prop := smgr_cached_nblocks b' = smgr_cached_nblocks b /\ w_plan (sp_net b') `suffix_of` w_plan (sp_net b).

(** A call that failed as planned: the connection is gone. *)
Definition lost b (e : pg_error) b' : Prop := er_code e = CONNECTION_FAILURE /\ sp_conn b' = false /\ goes_on b b' /\ 0%nat ∈ w_plan (sp_net b).

#[local] Instance goes_on_preorder : PreOrder goes_on.
Proof. split; [intros b; done |]. intros b1 b2 b3 [E1 S1] [E2 S2]. split; [congruence | by etrans]. Qed.

Lemma lost_later b b1 e b' : goes_on b b1 -> lost b1 e b' -> lost b e b'.
Proof.
  intros Hg (Hc & Ho & Hg' & Hz). split; [done |]. split; [done |]. split; [by etrans |]. destruct Hg as [_ [pre ->]]. apply elem_of_app. by right.
Qed.

Lemma next_size_plan n plan k plan' : next_size n plan = (k, plan') -> 0 < n -> plan' `suffix_of` plan /\ (k <= 0 -> 0%nat ∈ plan).
Proof.
  destruct plan as [| x plan]; cbn; intros [= <- <-] Hn; [split; [done | lia] |]. split; [by exists [x] |]. intros Hk.
  replace x with 0%nat by lia. left.
Qed.

Section Calls.
Context (st : Settings).

Lemma connect_wire b : idle b ->
  runs (sp_connect st) b
    (fun _ b' => sp_conn b' = true /\ w_in (sp_net b') = [] /\ w_out (sp_net b') = [] /\ srv b' = srv b /\ goes_on b b')
    (fun e b' => lost b e b' /\ srv b' = srv b).
Proof.
  intros Hi. unfold sp_connect. apply runs_get. destruct (sp_conn b) eqn:Ec.
  { destruct (Hi Ec). unfold runs, sret. by split_and!. }
  unfold runs, sbind, on_net. cbn [sk_resolve WireSockets try_addresses sk_attempt sp_net sp_conn]. unfold sbind, on_net, wire_attempt. cbn [sp_net sp_conn sk_attempt].
  destruct (next_size 1 (w_plan (sp_net b))) as [k plan] eqn:En.
  destruct (next_size_plan _ _ _ _ En) as [Hs Hz]; [lia |]. destruct (0 <? k) eqn:Ek; cbn.
  - split_and!; done.
  - apply Z.ltb_ge in Ek. split; [| done]. split; [done |]. split; [done |]. split; [done | by apply Hz].
Qed.

(** A request that is cut off before its end is not whole. *)
Lemma part_is_not_whole req sent rest :
  Request_wf req -> sent ++ rest = Request_encode req -> rest <> [] -> whole_request sent = false.
Proof.
  intros Hwf He Hr. pose proof (len_nonneg sent). assert (Hl : len sent < len (Request_encode req)).
  { rewrite <- He, len_app. unfold len. destruct rest; [done | cbn; lia]. }
  unfold whole_request. destruct (Z.lt_ge_cases (len sent) 8) as [Hs | Hs].
  - unfold Request_total_len, HEADER_LEN. rewrite (proj2 (Z.ltb_lt _ _)); [done |].
    unfold sub, len in *. rewrite length_take, drop_0. lia.
  - rewrite <- (sub_app_le sent rest 0 8) by lia. rewrite He, Request_total_len_encode by done. apply Z.eqb_neq. lia.
Qed.

(** Sending the rest of a request: the server answers at its end. *)
Lemma send_wire req s' out fuel : forall b sent rest,
  Request_wf req -> serve (Request_encode req) (srv b) = (s', Some out) -> sent ++ rest = Request_encode req -> rest <> [] ->
  sp_conn b = true -> w_in (sp_net b) = sent -> w_out (sp_net b) = [] -> (length rest <= fuel)%nat ->
  runs (send_loop fuel rest) b
    (fun _ b' => sp_conn b' = true /\ w_in (sp_net b') = [] /\ w_out (sp_net b') = out /\ srv b' = s' /\ goes_on b b')
    (fun e b' => lost b e b' /\ srv b' = srv b).
Proof.
  induction fuel as [| fuel IH]; intros b sent rest Hwf Hs He Hr Hc Hin Hout Hf; [by destruct rest; cbn in Hf; [| lia] |].
  assert (Hlr : 0 < len rest) by (unfold len; destruct rest; [done | cbn; lia]).
  unfold send_loop. fold send_loop. destruct rest as [| x rest0] eqn:Er; [done |]. rewrite <- Er in *. clear Er.
  unfold runs, sbind, on_net. cbn [sk_send WireSockets]. unfold wire_send.
  destruct (next_size (len rest) (w_plan (sp_net b))) as [n plan] eqn:En. pose proof (next_size_bound (len rest) (w_plan (sp_net b))) as Hn.
  rewrite En in Hn. cbn [fst] in Hn. destruct (next_size_plan _ _ _ _ En Hlr) as [Hsuf Hz]. rewrite Hin.
  unfold sub. rewrite drop_0. destruct (Z.eq_dec n (len rest)) as [-> | Hmore].
  - assert (Hall : Z.to_nat (len rest) = length rest) by (unfold len; lia). rewrite Hall, firstn_all, He. assert (Hw : whole_request (Request_encode req) = true).
    { unfold whole_request. rewrite Request_total_len_encode by done. apply Z.eqb_refl. }
    rewrite Hw, Hs. rewrite (proj2 (Z.leb_gt _ _)) by lia. rewrite Hall, drop_all.
    destruct fuel; cbn; rewrite Hout; by split_and!.
  - assert (Hd : drop (Z.to_nat n) rest <> []) by (intros E; apply (f_equal length) in E; rewrite length_drop in E; unfold len in *; cbn in E; lia).
    assert (Hj : (sent ++ take (Z.to_nat n) rest) ++ drop (Z.to_nat n) rest = Request_encode req) by (by rewrite <- app_assoc, take_drop).
    rewrite (part_is_not_whole req _ _ Hwf Hj Hd). destruct (n <=? 0) eqn:E0.
    + unfold sp_disconnect. cbn. rewrite Hc. cbn. apply Z.leb_le in E0. split; [| done]. split; [done |]. split; [done |]. split; [done | by apply Hz].
    + apply Z.leb_gt in E0. set (b1 := mkBackend _ _ _). assert (Hg : goes_on b b1) by done.
      eapply runs_conseq; [apply (IH b1 _ _ Hwf Hs Hj Hd Hc eq_refl Hout) | |].
      * rewrite length_drop. unfold len in *. lia.
      * intros u b' (? & ? & ? & ? & ?). split_and!; try done. by etrans.
      * intros e b' [Hl ?]. split; [by eapply lost_later | done].
Qed.

(** Connected, with these bytes of the answer still to be read. *)
Definition answered b0 (s : PS) (out : bytes) b : Prop :=
  sp_conn b = true /\ w_in (sp_net b) = [] /\ w_out (sp_net b) = out /\ srv b = s /\ goes_on b0 b.

Definition broken b0 (s : PS) (e : pg_error) b : Prop := lost b0 e b /\ srv b = s.

Lemma write_wire req s' out b :
  idle b -> Request_wf req -> serve (Request_encode req) (srv b) = (s', Some out) ->
  runs (sp_write_all st (Request_encode req)) b (fun _ b' => answered b s' out b') (broken b (srv b)).
Proof.
  intros Hi Hwf Hs. pose proof (len_Request_encode req Hwf) as Hl. unfold sp_write_all. eapply runs_bind; [by apply connect_wire |].
  intros [] b1 (Hc & Hin & Hout & Hsr & Hg). eapply runs_conseq.
  - apply (send_wire req s' out _ b1 [] (Request_encode req)); try done; [by rewrite Hsr |]. intros E. rewrite E in Hl. by cbn in Hl.
  - intros u b' (? & ? & ? & ? & ?). unfold answered. split_and!; try done. by etrans.
  - intros e b' [He Es]. split; [by eapply lost_later | by rewrite Es].
Qed.

Lemma recv_wire s fuel : forall b0 b got n out,
  answered b0 s out b -> 0 <= n <= len out -> n <= Z.of_nat fuel ->
  runs (recv_loop fuel got n) b (fun x b' => x = got ++ sub out 0 n /\ answered b0 s (drop (Z.to_nat n) out) b') (broken b0 s).
Proof.
  induction fuel as [| fuel IH]; intros b0 b got n out (Hc & Hin & Hout & Hs & Hg) Hn Hf; unfold recv_loop; fold recv_loop.
  { replace n with 0 by lia. cbn. unfold runs. rewrite app_nil_r, drop_0. done. }
  destruct (n <=? 0) eqn:E0.
  { apply Z.leb_le in E0. replace n with 0 by lia. unfold runs. cbn. rewrite app_nil_r, drop_0. done. }
  apply Z.leb_gt in E0. unfold runs, sbind, on_net. cbn [sk_recv WireSockets]. unfold wire_recv.
  destruct (next_size n (w_plan (sp_net b))) as [k plan] eqn:En. pose proof (next_size_bound n (w_plan (sp_net b))) as Hk.
  rewrite En in Hk. cbn [fst] in Hk. destruct (next_size_plan _ _ _ _ En E0) as [Hsuf Hz]. rewrite Hout.
  assert (Hlk : len (sub out 0 k) = k) by (apply sub_len; lia). destruct (sub out 0 k) as [| x got'] eqn:Eg.
  - change (len []) with 0 in Hlk. unfold sp_disconnect. cbn [sp_conn]. rewrite Hc. cbn. split; [| done]. split; [done |]. split; [done |].
    split; [split; [apply Hg | etrans; [exact Hsuf | apply Hg]] |]. destruct Hg as [_ [pre ->]]. apply elem_of_app. right. apply Hz. lia.
  - assert (Hl0 : 0 < k) by (rewrite len_cons in Hlk; pose proof (len_nonneg got'); lia). rewrite <- Eg in *. clear Eg. set (b1 := mkBackend _ _ _).
    assert (Hb1 : answered b0 s (drop (Z.to_nat k) out) b1).
    { split_and!; try done. etrans; [exact Hg |]. done. }
    rewrite Hlk. eapply runs_conseq; [apply (IH b0 b1 (got ++ sub out 0 k) (n - k) (drop (Z.to_nat k) out) Hb1) | | done].
    + rewrite len_drop. lia.
    + lia.
    + intros y b' [-> Ha]. split.
      * rewrite <- app_assoc. f_equal. replace n with (k + (n - k)) at 2 by lia. rewrite (sub_app_split out 0 k (n - k)) by lia. f_equal.
      * replace (drop (Z.to_nat n) out) with (drop (Z.to_nat (n - k)) (drop (Z.to_nat k) out)); [done |]. rewrite drop_drop. f_equal. lia.
Qed.

Lemma read_wire s b0 b n out : answered b0 s out b -> 0 <= n <= len out ->
  runs (sp_read_all n) b (fun x b' => x = sub out 0 n /\ answered b0 s (drop (Z.to_nat n) out) b') (broken b0 s).
Proof. intros Ha Hn. unfold sp_read_all. apply (recv_wire s _ b0 b [] n out Ha); lia. Qed.

(** ** Responses *)

Definition resp_parts (r : Response) : Z * bytes :=
  match r with
  | PageService.Page p => (STATUS_OK, p)
  | RelSize n => (STATUS_OK, put_u32 n)
  | PageService.NotFound => (STATUS_NOT_FOUND, [])
  | Error_ m => (STATUS_ERROR, m)
  end.

(** A page is a page, and an error message is shorter than a gigabyte. *)
Definition resp_ok (r : Response) : Prop :=
  match r with
  | PageService.Page p => len p = BLCKSZ
  | RelSize n => in_u32 n
  | PageService.NotFound => True
  | Error_ m => len m < MaxAllocSize
  end.

Definition resp_header (r : Response) : bytes :=
  put_u32 MAGIC ++ [z2b VERSION; z2b (resp_parts r).1; x00; x00] ++ put_u32 (len (resp_parts r).2).

Lemma resp_encode_parts r : Response_encode r = resp_header r ++ (resp_parts r).2.
Proof. unfold Response_encode, resp_header, resp_parts. destruct r; by rewrite <- !app_assoc. Qed.

Lemma resp_header_len r : len (resp_header r) = SP_RESP_HEADER.
Proof. unfold resp_header, put_u32. rewrite !len_app, !len_be_bytes. reflexivity. Qed.

Lemma payload_range r : resp_ok r -> 0 <= len (resp_parts r).2 < 2 ^ 31.
Proof.
  intros Hr. pose proof (len_nonneg (resp_parts r).2). destruct r as [p | n | | m]; cbn [resp_parts resp_ok snd] in *; unfold BLCKSZ, MaxAllocSize in *; [lia | | done | lia].
  unfold put_u32. rewrite len_be_bytes. lia.
Qed.

Lemma get_be32_app p q : length p = 4%nat -> get_be32 (p ++ q) = be_val p.
Proof. intros Hp. rewrite <- (get_be32_spec p Hp). by destruct p as [| a [| b [| c [| d [|]]]]]. Qed.

Lemma header_fields r : resp_ok r ->
  get_be32 (resp_header r) = SP_MAGIC /\ b2z (nth 4 (resp_header r) x00) = SP_VERSION /\
  status_of (resp_header r) = (resp_parts r).1 /\ length_of (resp_header r) = len (resp_parts r).2.
Proof.
  intros Hr. pose proof (payload_range r Hr) as Hp. split_and!.
  - unfold resp_header. rewrite get_be32_app by done. reflexivity.
  - reflexivity.
  - by destruct r.
  - unfold length_of, resp_header. change (drop 8 _) with (put_u32 (len (resp_parts r).2)). rewrite <- (app_nil_r (put_u32 _)).
    rewrite get_be32_app by apply length_be_bytes. apply be_val_u32. unfold in_u32. lia.
Qed.

(** The error a response turns into, if any. *)
Definition resp_error (r : Response) : option pg_error :=
  let err msg := Some (mkError IO_ERROR (text "aethel_smgr: " ++ msg)) in
  match r with
  | PageService.Page _ | RelSize _ => None
  | PageService.NotFound => err (text "page server returned status 1")
  | Error_ m => err (if bool_decide (m = []) then text "page server returned status 2" else text "page server error: " ++ c_string m)
  end.

Lemma read_header_wire s b0 b r : answered b0 s (Response_encode r) b ->
  runs (sp_read_all SP_RESP_HEADER) b (fun x b' => x = resp_header r /\ answered b0 s (resp_parts r).2 b') (broken b0 s).
Proof.
  intros Ha. pose proof (resp_header_len r) as Hl. pose proof (len_nonneg (resp_parts r).2). rewrite resp_encode_parts in Ha.
  eapply runs_conseq; [apply (read_wire s b0 b SP_RESP_HEADER _ Ha); rewrite len_app, Hl; unfold SP_RESP_HEADER; lia | | done].
  intros x b' [-> Hb']. rewrite sub_app_exact by done. split; [done |].
  replace (drop (Z.to_nat SP_RESP_HEADER) (resp_header r ++ (resp_parts r).2)) with (resp_parts r).2 in Hb'; [done |].
  rewrite drop_app_length'; [done |]. unfold len in Hl. lia.
Qed.

Lemma status_wire s b0 b r : answered b0 s (Response_encode r) b -> resp_ok r ->
  runs sp_read_status b
    (fun n b' => resp_error r = None /\ n = len (resp_parts r).2 /\ answered b0 s (resp_parts r).2 b')
    (fun e b' => broken b0 s e b' \/ (resp_error r = Some e /\ answered b0 s [] b')).
Proof.
  intros Ha Hr. destruct (header_fields r Hr) as (E1 & E2 & E3 & E4). pose proof (payload_range r Hr) as Hp. unfold sp_read_status.
  eapply runs_bind; [eapply runs_conseq; [by apply read_header_wire | intros x b' Hx; exact Hx | intros e b' He; by left] |].
  intros hdr b1 [-> Hb1]. rewrite E1, E2, E3, E4. cbn [negb orb Z.eqb]. rewrite !Z.eqb_refl. cbn [negb orb]. destruct r as [p | n | | m]; cbn [resp_parts fst snd] in *.
  - by rewrite Z.eqb_refl.
  - by rewrite Z.eqb_refl.
  - right. done.
  - cbn [resp_ok] in Hr. destruct (0 <? len m) eqn:Em.
    + cbv zeta. unfold STATUS_ERROR, SP_STATUS_OK. cbn [Z.eqb]. rewrite Z.mod_small by lia. unfold palloc. rewrite (proj2 (Z.leb_le _ _)) by lia.
      apply runs_ret. unfold read_into. rewrite (proj2 (Z.leb_le _ _)) by lia.
      eapply runs_bind; [eapply runs_conseq; [apply (read_wire s b0 b1 (len m) m Hb1); lia | intros x b' Hx; exact Hx | intros e b' He; by left] |].
      intros x b2 [-> Hb2]. rewrite (proj2 (Z.ltb_lt _ _)) by lia. right. rewrite sub_full by done. split.
      * cbn. rewrite bool_decide_false; [done |]. intros ->. by cbn in Em.
      * replace (drop (Z.to_nat (len m)) m) with (@nil byte) in Hb2; [done |]. symmetry. apply drop_ge. unfold len. lia.
    + apply Z.ltb_ge in Em. assert (m = []) as -> by (destruct m; [done | rewrite len_cons in Em; pose proof (len_nonneg m); lia]). right. done.
Qed.

(** ** Callbacks are remote calls *)

Inductive smgr_call :=
| CallRead (rloc : RelFileLocator) (f : ForkNumber) (block : Z)
| CallNblocks (rloc : RelFileLocator) (f : ForkNumber)
| CallExists (rloc : RelFileLocator) (f : ForkNumber)
| CallExtend (rloc : RelFileLocator) (f : ForkNumber) (block : Z)
| CallZeroExtend (rloc : RelFileLocator) (f : ForkNumber) (block nblocks : Z)
| CallTruncate (rloc : RelFileLocator) (f : ForkNumber) (old_blocks nblocks : Z).

Inductive smgr_result := ResPage (p : bytes) | ResSize (n : Z) | ResBool (x : bool) | ResDone.

Definition call_smgr (c : smgr_call) : stateM (Backend (Wire PS)) pg_error smgr_result :=
  match c with
  | CallRead rloc f block => let! p := aethel_smgr_read st rloc (ForkNumber_as_u8 f) block in sret (ResPage p)
  | CallNblocks rloc f => let! n := aethel_smgr_nblocks st rloc (ForkNumber_as_u8 f) in sret (ResSize n)
  | CallExists rloc f => let! x := aethel_smgr_exists st rloc (ForkNumber_as_u8 f) in sret (ResBool x)
  | CallExtend rloc f block => let! _ := aethel_smgr_extend rloc (ForkNumber_as_u8 f) block in sret ResDone
  | CallZeroExtend rloc f block n => let! _ := aethel_smgr_zeroextend rloc (ForkNumber_as_u8 f) block n in sret ResDone
  | CallTruncate rloc f old n => let! _ := aethel_smgr_truncate rloc (ForkNumber_as_u8 f) old n in sret ResDone
  end.

(** The request a callback sends, if any: always for position zero. *)
Definition request_of (c : smgr_call) : option Request :=
  match c with
  | CallRead rloc f block => Some (GetPage (sp_tenant st) (sp_timeline st) (rel_tag rloc f) block InvalidXLogRecPtr)
  | CallNblocks rloc f | CallExists rloc f => Some (GetRelSize (sp_tenant st) (sp_timeline st) (rel_tag rloc f) InvalidXLogRecPtr)
  | _ => None
  end.

(** What a callback makes of the response. *)
Definition meaning (c : smgr_call) (r : Response) : outcome pg_error smgr_result :=
  let unexpected expected n := Err (mkError IO_ERROR (text "aethel_smgr: " ++ text expected ++ fmt_dec n ++ text " bytes")) in
  match c with
  | CallRead _ _ _ =>
      match r with
      | PageService.Page p => Ok (ResPage p)
      | RelSize _ => unexpected "expected 8192-byte page, got " 4
      | _ => match resp_error r with Some e => Err e | None => Panic end
      end
  | CallNblocks _ _ =>
      match r with
      | RelSize n => Ok (ResSize n)
      | PageService.Page _ => unexpected "expected 4-byte rel size, got " BLCKSZ
      | _ => match resp_error r with Some e => Err e | None => Panic end
      end
  | CallExists _ _ => Ok (ResBool (match r with PageService.Page _ | RelSize _ => true | _ => false end))
  | _ => Ok ResDone
  end.

(** One callback: the meaning of the response, or a failure of the connection. *)
Definition call_result b (c : smgr_call) (s' : PS) (r : Response) (out : outcome pg_error smgr_result) b' : Prop :=
  idle b' /\ w_plan (sp_net b') `suffix_of` w_plan (sp_net b) /\
  ((out = meaning c r /\ srv b' = s') \/
   (exists e, out = Err e /\ er_code e = CONNECTION_FAILURE /\ 0%nat ∈ w_plan (sp_net b) /\ (srv b' = srv b \/ srv b' = s'))).

Lemma result_broken b c s s' r e b' : broken b s e b' -> s = srv b \/ s = s' -> call_result b c s' r (Err e) b'.
Proof.
  intros [(Hc & Ho & [_ Hsuf] & Hz) <-] Hs. split; [intros E; congruence |]. split; [done |]. right. by exists e.
Qed.

Lemma result_answered b c s' r out b' : answered b s' [] b' -> out = meaning c r -> call_result b c s' r out b'.
Proof. intros (Hc & Hin & Hout & Hs & [_ Hsuf]) ->. split; [done |]. split; [done |]. by left. Qed.

Lemma result_dropped b c s' out0 r out b' :
  answered b s' out0 b' -> out = meaning c r ->
  call_result b c s' r out (mkBackend false (sk_close (sp_net b')) (smgr_cached_nblocks b')).
Proof. intros (Hc & Hin & Hout & Hs & [_ Hsuf]) ->. split; [done |]. split; [done |]. by left. Qed.

(** Going on from a result. *)
Lemma runs_result {A} (m : stateM (Backend (Wire PS)) pg_error A) (wrap : A -> smgr_result) b0 b c s' r :
  runs m b (fun a b' => call_result b0 c s' r (Ok (wrap a)) b') (fun e b' => call_result b0 c s' r (Err e) b') ->
  let '(b', out) := (let! a := m in sret (wrap a)) b in call_result b0 c s' r out b'.
Proof. unfold runs, sbind. by destruct (m b) as [b' [a | e |]]. Qed.

Lemma broken_step {A} (m : stateM (Backend (Wire PS)) pg_error A) b0 b c s s' r Q :
  (s = srv b0 \/ s = s') -> runs m b Q (broken b0 s) -> runs m b Q (fun e b' => call_result b0 c s' r (Err e) b').
Proof. intros Hs Hm. eapply runs_conseq; [exact Hm | done |]. intros e b' He. by eapply result_broken. Qed.

Lemma status_step b0 b c s' r :
  answered b0 s' (Response_encode r) b -> resp_ok r ->
  (forall e, resp_error r = Some e -> meaning c r = Err e) ->
  runs sp_read_status b (fun n b' => resp_error r = None /\ n = len (resp_parts r).2 /\ answered b0 s' (resp_parts r).2 b')
    (fun e b' => call_result b0 c s' r (Err e) b').
Proof.
  intros Ha Hr Hm. eapply runs_conseq; [by apply status_wire | done |]. intros e b' [He | [He Hb']].
  - eapply result_broken; [exact He | by right].
  - apply result_answered; [done |]. symmetry. by apply Hm.
Qed.

(** The rest of a payload, read to its end. *)
Lemma payload_step b0 b c s' r payload n :
  answered b0 s' payload b -> n = len payload ->
  runs (sp_read_all n) b (fun x b' => x = payload /\ answered b0 s' [] b') (fun e b' => call_result b0 c s' r (Err e) b').
Proof.
  intros Ha ->. eapply (broken_step _ _ _ _ s'); [by right |]. pose proof (len_nonneg payload).
  eapply runs_conseq; [apply (read_wire s' b0 b (len payload) payload Ha); lia | | done]. intros x b' [-> Hb']. rewrite sub_full by done. split; [done |].
  replace (drop (Z.to_nat (len payload)) payload) with (@nil byte) in Hb'; [done |]. symmetry. apply drop_ge. unfold len. lia.
Qed.

Lemma read_call b rloc f block s' r :
  let c := CallRead rloc f block in
  let req := GetPage (sp_tenant st) (sp_timeline st) (rel_tag rloc f) block InvalidXLogRecPtr in
  idle b -> Request_wf req -> serve (Request_encode req) (srv b) = (s', Some (Response_encode r)) -> resp_ok r ->
  runs (aethel_smgr_read st rloc (ForkNumber_as_u8 f) block) b
    (fun p b' => call_result b c s' r (Ok (ResPage p)) b') (fun e b' => call_result b c s' r (Err e) b').
Proof.
  intros c req Hi Hwf Hs Hr. unfold aethel_smgr_read. rewrite page_request_bytes. fold req.
  eapply runs_bind; [eapply (broken_step _ _ _ c (srv b)); [by left | by eapply write_wire] |]. intros [] b1 Hb1.
  eapply runs_bind; [apply (status_step b b1 c s' r Hb1 Hr); intros e He; cbn; destruct r; by rewrite ?He |].
  intros n b2 (He & -> & Hb2). destruct r as [p | n | | m]; [| | done | done]; cbn [resp_parts snd] in *.
  - cbn [resp_ok] in Hr. rewrite Hr, Z.eqb_refl. cbn [negb]. eapply runs_conseq; [apply (payload_step b b2 c s' (PageService.Page p) p _ Hb2 (eq_sym Hr)) | | done].
    intros x b' [-> Hb']. by apply result_answered.
  - unfold put_u32 in *. rewrite len_be_bytes. change (Z.of_nat 4 =? BLCKSZ) with false. destruct Hb2 as (Hc & Hb2).
    unfold runs, sbind, sp_disconnect. cbn [negb]. rewrite Hc.
    eapply result_dropped; [split; [exact Hc | exact Hb2] | done].
Qed.

Lemma nblocks_call b rloc f s' r :
  let c := CallNblocks rloc f in
  let req := GetRelSize (sp_tenant st) (sp_timeline st) (rel_tag rloc f) InvalidXLogRecPtr in
  idle b -> Request_wf req -> serve (Request_encode req) (srv b) = (s', Some (Response_encode r)) -> resp_ok r ->
  runs (aethel_smgr_nblocks st rloc (ForkNumber_as_u8 f)) b
    (fun n b' => call_result b c s' r (Ok (ResSize n)) b') (fun e b' => call_result b c s' r (Err e) b').
Proof.
  intros c req Hi Hwf Hs Hr. unfold aethel_smgr_nblocks. rewrite size_request_bytes. fold req.
  eapply runs_bind; [eapply (broken_step _ _ _ c (srv b)); [by left | by eapply write_wire] |]. intros [] b1 Hb1.
  eapply runs_bind; [apply (status_step b b1 c s' r Hb1 Hr); intros e He; cbn; destruct r; by rewrite ?He |].
  intros n b2 (He & -> & Hb2). destruct r as [p | n | | m]; [| | done | done]; cbn [resp_parts snd] in *.
  - cbn [resp_ok] in Hr. rewrite Hr. change (BLCKSZ =? 4) with false. destruct Hb2 as (Hc & Hb2). unfold runs, sbind, sp_disconnect. cbn [negb]. rewrite Hc.
    eapply result_dropped; [split; [exact Hc | exact Hb2] | done].
  - unfold put_u32 in *. rewrite len_be_bytes. change (Z.of_nat 4 =? 4) with true. cbn [negb].
    eapply runs_bind; [apply (payload_step b b2 c s' (RelSize n) (be_bytes 4 n) 4 Hb2); by rewrite len_be_bytes |]. intros x b' [-> Hb'].
    apply result_answered; [done |]. rewrite get_be32_spec by apply length_be_bytes. by rewrite be_val_u32 by done.
Qed.

Lemma exists_call b rloc f s' r :
  let c := CallExists rloc f in
  let req := GetRelSize (sp_tenant st) (sp_timeline st) (rel_tag rloc f) InvalidXLogRecPtr in
  idle b -> Request_wf req -> serve (Request_encode req) (srv b) = (s', Some (Response_encode r)) -> resp_ok r ->
  runs (aethel_smgr_exists st rloc (ForkNumber_as_u8 f)) b
    (fun x b' => call_result b c s' r (Ok (ResBool x)) b') (fun e b' => call_result b c s' r (Err e) b').
Proof.
  intros c req Hi Hwf Hs Hr. destruct (header_fields r Hr) as (_ & _ & E3 & E4). pose proof (payload_range r Hr) as Hp.
  unfold aethel_smgr_exists. rewrite size_request_bytes. fold req.
  eapply runs_bind; [eapply (broken_step _ _ _ c (srv b)); [by left | by eapply write_wire] |]. intros [] b1 Hb1.
  eapply runs_bind; [eapply (broken_step _ _ _ c s'); [by right | by apply read_header_wire] |]. intros hdr b2 [-> Hb2]. cbv zeta. rewrite E3, E4.
  assert (Hm : meaning c r = Ok (ResBool ((resp_parts r).1 =? SP_STATUS_OK))) by (by destruct r).
  apply (runs_bind _ _ _ (fun _ b' => answered b s' [] b')); [| intros u b' Hb'; by apply result_answered].
  destruct (0 <? len (resp_parts r).2) eqn:E0.
  - unfold palloc. rewrite (proj2 (Z.leb_le _ _)).
    2: { destruct r; cbn [resp_parts snd resp_ok] in *; unfold BLCKSZ, MaxAllocSize, put_u32 in *; [lia | rewrite len_be_bytes; lia | done | lia]. }
    apply runs_ret. unfold read_into. rewrite Z.leb_refl. eapply runs_bind; [by apply (payload_step b b2 c s' r (resp_parts r).2) |].
    intros x b' [_ Hb']. done.
  - apply Z.ltb_ge in E0. replace (resp_parts r).2 with (@nil byte) in Hb2; [done |].
    destruct (resp_parts r).2 as [| x l]; [done | rewrite len_cons in E0; pose proof (len_nonneg l); lia].
Qed.

(** The requests the callbacks make are well-formed. *)
Definition call_wf (c : smgr_call) : Prop := match request_of c with Some req => Request_wf req | None => True end.

Lemma call_wire b c s' r :
  idle b -> call_wf c -> resp_ok r ->
  match request_of c with Some req => serve (Request_encode req) (srv b) = (s', Some (Response_encode r)) | None => s' = srv b end ->
  let '(b', out) := call_smgr c b in call_result b c s' r out b'.
Proof.
  intros Hi Hwf Hr Hs. destruct c as [rloc f block | rloc f | rloc f | rloc f block | rloc f block n | rloc f old n]; cbn [request_of call_wf] in *.
  - unfold call_smgr. apply runs_result. by apply read_call.
  - unfold call_smgr. apply runs_result. by apply nblocks_call.
  - unfold call_smgr. apply runs_result. by apply exists_call.
  - unfold call_smgr. apply runs_result. unfold aethel_smgr_extend. apply runs_get. case_match; (split; [exact Hi |]; split; [done |]; by left).
  - split; [exact Hi |]. split; [done |]. by left.
  - split; [exact Hi |]. split; [done |]. by left.
Qed.

Lemma cache_call c b : request_of c = None -> exists b', call_smgr c b = (b', Ok ResDone) /\ sp_net b' = sp_net b.
Proof.
  destruct c; intros Hn; try discriminate Hn; unfold call_smgr, aethel_smgr_extend, sbind, sget; [destruct (_ || _) | |]; by eexists.
Qed.

Fixpoint run_calls (calls : list smgr_call) b : Backend (Wire PS) * list (outcome pg_error smgr_result) :=
  match calls with
  | [] => (b, [])
  | c :: calls' => let '(b1, out) := call_smgr c b in let '(b', outs) := run_calls calls' b1 in (b', out :: outs)
  end.

Definition conn_failure (out : outcome pg_error smgr_result) : Prop := exists e, out = Err e /\ er_code e = CONNECTION_FAILURE.

Context (rpc : Request -> PS -> PS * Response).

(** A run of calls as remote procedure calls on the server's state: every callback
    returns the meaning of the server's answer to its own request, or fails with the
    connection before or after the server saw it. *)
Fixpoint explained (s : PS) (calls : list smgr_call) (outs : list (outcome pg_error smgr_result)) (s_end : PS) : Prop :=
  match calls, outs with
  | [], [] => s_end = s
  | c :: calls', out :: outs' =>
      exists s1, explained s1 calls' outs' s_end /\
        match request_of c with
        | None => s1 = s /\ out = Ok ResDone
        | Some req => (out = meaning c (rpc req s).2 /\ s1 = (rpc req s).1) \/ (conn_failure out /\ (s1 = s \/ s1 = (rpc req s).1))
        end
  | _, _ => False
  end.

Hypothesis server_answers : forall req s, Request_wf req ->
  serve (Request_encode req) s = ((rpc req s).1, Some (Response_encode (rpc req s).2)) /\ resp_ok (rpc req s).2.

End Calls.
End Network.

(** *** A server that knows one relation *)

Definition toy_rpc (req : Request) (s : nat) : nat * Response :=
  (S s, match req with
        | GetPage _ _ rel block _ => if (rel_node rel =? 7) && (block =? 0) then PageService.Page (replicate (Z.to_nat BLCKSZ) x00) else PageService.NotFound
        | GetRelSize _ _ rel _ => if rel_node rel =? 7 then RelSize 1 else Error_ (text "unknown tenant/timeline")
        end).

Definition toy_serve (input : bytes) (s : nat) : nat * option bytes :=
  match Request_decode input with Ok req => ((toy_rpc req s).1, Some (Response_encode (toy_rpc req s).2)) | _ => (s, None) end.

Lemma toy_server_answers req s : Request_wf req ->
  toy_serve (Request_encode req) s = ((toy_rpc req s).1, Some (Response_encode (toy_rpc req s).2)) /\ resp_ok (toy_rpc req s).2.
Proof.
  intros Hwf. split.
  - unfold toy_serve. rewrite <- (app_nil_r (Request_encode req)), Request_decode_encode by done. reflexivity.
  - destruct req; cbn; case_match; done.
Qed.

Definition toy_settings : Settings := mkSettings (text "ps") 6400 Id_ZERO Id_ZERO.
Definition toy_rel (n : Z) : RelFileLocator := mkLocator 1663 5 n.
Definition toy_calls : list smgr_call :=
  [CallNblocks (toy_rel 7) Main; CallRead (toy_rel 7) Main 0; CallExists (toy_rel 8) Main; CallExtend (toy_rel 7) Main 1;
   CallRead (toy_rel 7) Main 3; CallNblocks (toy_rel 8) Main].

(** The connection is lost in the middle of the second answer. *)
Definition toy_backend : Backend (Wire nat) := mkBackend false (mkWire 0%nat [] [] [1; 3; 80; 5; 80; 2; 60; 80; 80; 0]%nat) ∅.


(** ** The storage manager and the page server *)

Section EndToEnd.
Context {R} `{HM : WalRedoManager R} (tm : TenantManager).

(** The page server's side of the connection. *)
Definition serve_page (input : bytes) (r : R) : R * option bytes :=
  match handle_page_conn tm 1 input ([], r) with
  | ((out, r'), Ok tt) => (r', Some out)
  | ((_, r'), _) => (r', None)
  end.
End EndToEnd.

(** A callback always asks for position zero, which the page server does not take
    for the latest: the page the server has is not found. *)
Lemma storage_manager_reads_nothing :
  let st := mkSettings (text "ps") 6400 (tid x07) (tid x01) in
  let b := mkBackend false (mkWire tt [] [] []) ∅ in
  let rloc := mkLocator (spc_node demo_rel) (db_node demo_rel) (rel_node demo_rel) in
  (call_smgr (serve_page demo_server) st (CallRead rloc (fork demo_rel) 0) b).2 =
    Err (mkError IO_ERROR (text "aethel_smgr: page server returned status 1")) /\
  (answer (R := unit) demo_server (GetPage (tid x07) (tid x01) demo_rel 0 100) tt).2 <> Ok PageService.NotFound.
Proof. split; vm_compute; [reflexivity | discriminate]. Qed.

(** A relation without blocks has no size: its scan fails instead of being empty. *)
Lemma empty_relation_has_no_size :
  let st := mkSettings (text "ps") 6400 (tid x07) (tid x01) in
  let b := mkBackend false (mkWire tt [] [] []) ∅ in
  (call_smgr (serve_page demo_server) st (CallNblocks (mkLocator 1663 5 99999) Main) b).2 =
    Err (mkError IO_ERROR (text "aethel_smgr: page server returned status 1")).
Proof. vm_compute; reflexivity. Qed.

(** ** Responses out of range *)

Definition error_header (n : Z) : bytes := put_u32 MAGIC ++ [z2b VERSION; z2b STATUS_ERROR; x00; x00] ++ put_u32 n.

(** The longest length wraps to a buffer of no bytes, which the message overruns. *)
Lemma longest_error_overruns_buffer :
  let b := mkBackend true (mkWire tt [] (error_header (2 ^ 32 - 1) ++ text "x") []) ∅ in
  (sp_read_status (H := WireSockets (serve_page (R := unit) demo_server)) b).2 = Panic.
Proof. vm_compute; reflexivity. Qed.

(** A message over the allocation limit is left unread on a connection that stays
    open: the next answer is read from its middle. *)
Lemma oversized_error_stays_unread :
  let b := mkBackend true (mkWire tt [] (error_header (2 ^ 30) ++ text "rest") []) ∅ in
  let '(b', out) := sp_read_status (H := WireSockets (serve_page (R := unit) demo_server)) b in
  is_ok out = false /\ sp_conn b' = true /\ w_out (sp_net b') = text "rest".
Proof. vm_compute; split_and!; reflexivity. Qed.
