(* ===== verification/Entrypoint.v ===== *)
(** The compute node's entrypoint (src/compute/entrypoint.sh): the data directory is
    made on the first boot, the configuration is rendered from the environment on
    every boot, and the server is started.  [initdb] and the file system's refusals
    are parameters; with [set -e] a command that fails ends the script. *)

From S2P Require Import Prelude Bytes Text Common Http PageService PageServer Smgr.

(** [${VAR:-default}]: also for an empty value. *)
Definition env_or (v : option bytes) (d : string) : bytes :=
  match v with Some s => if bool_decide (s = []) then text d else s | None => text d end.

Record ComputeEnv := mkComputeEnv {
  env_pgdata : option bytes;
  env_user : option bytes;
  env_render_only : option bytes;
  env_tenant : option bytes;
  env_timeline : option bytes;
  env_pageserver_host : option bytes;
  env_pageserver_port : option bytes;
  env_safekeepers : option bytes
}.

Definition ZERO_ID : string := "00000000000000000000000000000000".

Definition safekeepers (e : ComputeEnv) : bytes := env_or (env_safekeepers e) "safekeeper1,safekeeper2,safekeeper3".

(** The fields of one line at its commas. *)
Definition sk_fields (e : ComputeEnv) : list bytes := Http.split_str [z2b 44] (safekeepers e).

Fixpoint drop_blanks (s : bytes) : bytes := match s with b :: s' => if decide (b = space) then drop_blanks s' else s | [] => [] end.

(** [sed 's/, */, /g'] *)
Definition sk_list (e : ComputeEnv) : bytes :=
  match sk_fields e with
  | [] => []
  | f :: fs => f ++ flat_map (fun g => text ", " ++ drop_blanks g) fs
  end.

Definition sk_n (e : ComputeEnv) : Z := len (sk_fields e).
Definition sk_q (e : ComputeEnv) : Z := sk_n e / 2 + 1.

Definition quote : byte := z2b 39.

Definition render_conf (e : ComputeEnv) : list bytes :=
  let set k v := text k ++ text " = " ++ [quote] ++ v ++ [quote] in
  [text "# Managed by the AethelDB compute entrypoint — do not edit by hand.";
   set "shared_preload_libraries" (text "aethel_smgr");
   set "aethel_smgr.pageserver_host" (env_or (env_pageserver_host e) "127.0.0.1");
   text "aethel_smgr.pageserver_port = " ++ env_or (env_pageserver_port e) "6400";
   set "aethel_smgr.tenant_id" (env_or (env_tenant e) ZERO_ID);
   set "aethel_smgr.timeline_id" (env_or (env_timeline e) ZERO_ID);
   text "wal_level = replica";
   text "max_wal_senders = 10";
   text "max_replication_slots = 10";
   text "synchronous_commit = on";
   set "synchronous_standby_names" (text "ANY " ++ fmt_dec (sk_q e) ++ text " (" ++ sk_list e ++ text ")")].

(** The node waits for a majority of its safekeepers, of which there is at least one. *)
Lemma standby_quorum_is_majority e : sk_n e < 2 * sk_q e /\ sk_q e <= sk_n e.
Proof.
  assert (Hn : 0 < sk_n e).
  { unfold sk_n, sk_fields, Http.split_str. destruct (length (safekeepers e)) as [| n]; [done |].
    assert (H : forall fuel pat cur s, 0 < len (Http.split_at fuel pat cur s)); [| apply H].
    induction fuel as [| fuel IH]; intros pat cur s; [done |]. cbn. destruct s; [done |]. case_match; [| apply IH].
    rewrite len_cons. specialize (IH pat [] (drop (length pat) (b :: s))). lia. }
  unfold sk_q. pose proof (Z.div_mod (sk_n e) 2). pose proof (Z.mod_pos_bound (sk_n e) 2). lia.
Qed.

(** An id of the environment, or its absence for the root. *)
Lemma env_or_id v i : Id_wf i -> v = Some (Id_display i) \/ i = Id_ZERO /\ env_or v "" = [] -> env_or v ZERO_ID = Id_display i.
Proof.
  intros Hw [-> | [-> E]].
  - unfold env_or. rewrite bool_decide_false; [done |]. intros E. pose proof (Id_display_len i) as Hl. rewrite E in Hl. unfold Id_wf, len in *. cbn in Hl. lia.
  - destruct v as [[| b s] |]; [done | | done]. unfold env_or in E. rewrite bool_decide_false in E by done. done.
Qed.

(** A node told its tenant and timeline, or neither, serves them. *)
Lemma environment_selects_timeline bp e te ti host port :
  Id_wf te -> Id_wf ti ->
  (env_tenant e = Some (Id_display te) \/ te = Id_ZERO /\ env_or (env_tenant e) "" = []) ->
  (env_timeline e = Some (Id_display ti) \/ ti = Id_ZERO /\ env_or (env_timeline e) "" = []) ->
  PG_init bp true host port (env_or (env_tenant e) ZERO_ID) (env_or (env_timeline e) ZERO_ID) = Ok (mkSettings host port te ti).
Proof.
  intros Ht Hi Et Ei. rewrite (env_or_id _ te), (env_or_id _ ti) by done. by apply init_reads_ids.
Qed.

(** ** The script *)

Definition PGDATA (e : ComputeEnv) : bytes := env_or (env_pgdata e) "/var/lib/postgresql/data".
Definition POSTGRES_USER (e : ComputeEnv) : bytes := env_or (env_user e) "postgres".
Definition conf_path (e : ComputeEnv) : bytes := PGDATA e ++ text "/postgresql.auto.conf".

(** [[ -s path ]] *)
Definition has_content (fs : gmap bytes bytes) (p : bytes) : bool :=
  match fs !! p with Some (_ :: _) => true | _ => false end.

Definition unlines (l : list bytes) : bytes := flat_map (fun b => b ++ [z2b 10]) l.

Definition banner (e : ComputeEnv) : bytes :=
  text "aethel compute: tenant=" ++ env_or (env_tenant e) ZERO_ID ++ text " timeline=" ++ env_or (env_timeline e) ZERO_ID ++
  text " pageserver=" ++ env_or (env_pageserver_host e) "127.0.0.1" ++ text ":" ++ env_or (env_pageserver_port e) "6400" ++
  text " quorum=ANY " ++ fmt_dec (sk_q e) ++ text " of " ++ fmt_dec (sk_n e).

(** How the script ends: the server takes its place, the configuration has been
    shown, or a command has failed. *)
Inductive ending := Exec (datadir : bytes) | Rendered | Failed.

Section Script.
(** [initdb -D dir -U user], and whether the shell may write to a path. *)
Variable initdb : bytes -> bytes -> gmap bytes bytes -> option (gmap bytes bytes).
Variable writable : gmap bytes bytes -> bytes -> bool.

Definition first_boot (e : ComputeEnv) (fs : gmap bytes bytes) : option (gmap bytes bytes) :=
  if has_content fs (PGDATA e ++ text "/PG_VERSION") then Some fs else initdb (PGDATA e) (POSTGRES_USER e) fs.

(** What the script leaves, prints and becomes. *)
Definition entrypoint (e : ComputeEnv) (fs : gmap bytes bytes) : gmap bytes bytes * list bytes * ending :=
  match first_boot e fs with
  | None => (fs, [], Failed)
  | Some fs1 =>
      if writable fs1 (conf_path e) then
        let fs2 := <[conf_path e := unlines (render_conf e)]> fs1 in
        if bool_decide (env_or (env_render_only e) "0" = text "1") then
          (fs2, [banner e; text "--- rendered " ++ conf_path e ++ text " ---"] ++ render_conf e, Rendered)
        else (fs2, [banner e], Exec (PGDATA e))
      else (fs1, [], Failed)
  end.

(** A server is started, or the configuration shown, only over a data directory that
    exists, with the configuration rendered from the environment of this boot,
    whatever an earlier boot left in its place. *)
Lemma boot_configures e fs fs' out d :
  entrypoint e fs = (fs', out, d) -> d <> Failed ->
  fs' !! conf_path e = Some (unlines (render_conf e)) /\
  exists fs1, first_boot e fs = Some fs1 /\ forall p, p <> conf_path e -> fs' !! p = fs1 !! p.
Proof.
  unfold entrypoint. intros E Hd. destruct (first_boot e fs) as [fs1 |]; [| by simplify_eq].
  destruct (writable fs1 (conf_path e)); [| by simplify_eq].
  destruct (bool_decide _); simplify_eq; (split; [apply lookup_insert_eq |]);
    exists fs1; (split; [done |]); intros p Hp; by apply lookup_insert_ne.
Qed.

(** A boot makes the data directory, or finds it; [initdb] leaves a version file. *)
Hypothesis initdb_version : forall dir user fs fs', initdb dir user fs = Some fs' -> has_content fs' (dir ++ text "/PG_VERSION") = true.

Lemma boot_leaves_data e fs fs' out d :
  entrypoint e fs = (fs', out, d) -> d <> Failed -> has_content fs' (PGDATA e ++ text "/PG_VERSION") = true.
Proof using initdb_version.
  intros E Hd. destruct (boot_configures e fs fs' out d E Hd) as (_ & fs1 & Hb & Hf).
  assert (Hv : has_content fs1 (PGDATA e ++ text "/PG_VERSION") = true).
  { unfold first_boot in Hb. destruct (has_content fs _) eqn:Hc; [by simplify_eq | by apply initdb_version in Hb]. }
  unfold has_content in *. rewrite Hf; [done |]. unfold conf_path. intros Hp%app_inv_head. by vm_compute in Hp.
Qed.

End Script.

(** ** A node that is restored *)

Definition demo_initdb (dir _ : bytes) (fs : gmap bytes bytes) : option (gmap bytes bytes) :=
  Some (<[dir ++ text "/PG_VERSION" := text "16"]> (<[dir ++ text "/postgresql.auto.conf" := text "# empty"]> fs)).

Definition demo_node (timeline : option bytes) : ComputeEnv :=
  mkComputeEnv None None None (Some (Id_display Id_ZERO)) timeline None None (Some (text "sk1, sk2,sk3")).

Definition demo_branch : Id := repeat x5a 16.

