(* ===== verification/RedoBackend.v ===== *)
(** The wal-redo backend: the two patches to PostgreSQL under
    src/compute/patches.  0001-smgr-pluggable.patch lets a hook choose the storage
    manager of a relation when it is first opened; 0002-wal-redo-mode.patch adds
    walredo.c, a process that reads redo requests on its standard input, keeps the
    page asked for in memory behind such a storage manager, applies the records
    with PostgreSQL's redo routines, and writes the page back.

    PostgreSQL itself is a parameter: the magnetic disk manager, the buffer
    manager, the record decoder and the resource managers, with what they promise
    as the laws of a type class.  [elog(ERROR)] is an error carrying its message;
    the end of the process without a reply ([elog(FATAL)], a crash) is a panic. *)

From S2P Require Import Prelude Bytes Text Common WalRedoProto PageVersion WalRedo WalRedoProcess.
From S2P Require Import WalRedoMock Http Smgr.

(** ** Storage managers (0001-smgr-pluggable.patch) *)

Record BufferTag := mkBufferTag {
  t_rel : RelFileLocator;
  t_fork : Z;
  t_blk : Z
}.

#[export] Instance BufferTag_eq_dec : EqDecision BufferTag.
Proof. solve_decision. Defined.
#[export] Instance BufferTag_countable : Countable BufferTag.
Proof. refine (inj_countable' (fun t => (t_rel t, t_fork t, t_blk t)) (fun x => mkBufferTag x.1.1 x.1.2 x.2) _). by intros []. Defined.

(** The function table, over the manager's own state.  The flags [isRedo] and
    [skipFsync] are left out, and so are the hooks for start and shutdown. *)
Record f_smgr (S : Type) := mk_f_smgr {
  smgr_open : RelFileLocator -> stateM S bytes unit;
  smgr_close : RelFileLocator -> Z -> stateM S bytes unit;
  smgr_create : RelFileLocator -> Z -> stateM S bytes unit;
  smgr_exists : RelFileLocator -> Z -> stateM S bytes bool;
  smgr_unlink : RelFileLocator -> Z -> stateM S bytes unit;
  smgr_extend : BufferTag -> bytes -> stateM S bytes unit;
  smgr_zeroextend : BufferTag -> Z -> stateM S bytes unit;
  smgr_prefetch : BufferTag -> stateM S bytes bool;
  smgr_read : BufferTag -> stateM S bytes bytes;
  smgr_write : BufferTag -> bytes -> stateM S bytes unit;
  smgr_writeback : BufferTag -> Z -> stateM S bytes unit;
  smgr_nblocks : RelFileLocator -> Z -> stateM S bytes Z;
  smgr_truncate : RelFileLocator -> Z -> Z -> Z -> stateM S bytes unit;
  smgr_immedsync : RelFileLocator -> Z -> stateM S bytes unit
}.
Arguments smgr_open {S}. Arguments smgr_close {S}. Arguments smgr_create {S}. Arguments smgr_exists {S}.
Arguments smgr_unlink {S}. Arguments smgr_extend {S}. Arguments smgr_zeroextend {S}. Arguments smgr_prefetch {S}.
Arguments smgr_read {S}. Arguments smgr_write {S}. Arguments smgr_writeback {S}. Arguments smgr_nblocks {S}.
Arguments smgr_truncate {S}. Arguments smgr_immedsync {S}.

(** What [reln->smgr] points to: PostgreSQL's own table or the plugin's. *)
Inductive Manager := MagneticDisk | Plugin.

(** The open relations of a backend with the manager each was given, and the
    states of the two managers. *)
Record Storage {X D : Type} := mkStorage {
  relns : gmap RelFileLocator Manager;
  plugged : X;
  disk : D
}.
Arguments Storage X D : clear implicits.
Arguments mkStorage {X D}.

Record SMgrRelation := mkSMgrRelation {
  smgr_rlocator : RelFileLocator;
  smgr : Manager
}.

Section Pluggable.
Context {X D : Type} (plugin : f_smgr X) (md : f_smgr D).
(** The hook, [None] when unset; its result may be a null pointer. *)
Context (smgr_hook : option (X -> RelFileLocator -> option Manager)).

Definition smgr_standard (rlocator : RelFileLocator) : Manager := MagneticDisk.

Definition via {A} (m : Manager) (f : forall S, f_smgr S -> stateM S bytes A) : stateM (Storage X D) bytes A := fun st =>
  match m with
  | Plugin => let '(x, r) := f X plugin (plugged st) in (mkStorage (relns st) x (disk st), r)
  | MagneticDisk => let '(d, r) := f D md (disk st) in (mkStorage (relns st) (plugged st) d, r)
  end.

(** A relation that is open already keeps the manager it has. *)
Definition smgropen (rlocator : RelFileLocator) : stateM (Storage X D) bytes SMgrRelation :=
  let! st := sget in
  match relns st !! rlocator with
  | Some m => sret (mkSMgrRelation rlocator m)
  | None =>
      let choice := match smgr_hook with
                    | Some hook => hook (plugged st) rlocator
                    | None => Some (smgr_standard rlocator)
                    end in
      match choice with
      | None => spanic
      | Some m =>
          let! _ := smod (fun st => mkStorage (<[rlocator := m]> (relns st)) (plugged st) (disk st)) in
          let! _ := via m (fun _ t => smgr_open t rlocator) in
          sret (mkSMgrRelation rlocator m)
      end
  end.

Definition smgrexists (reln : SMgrRelation) (forknum : Z) :=
  via (smgr reln) (fun _ t => smgr_exists t (smgr_rlocator reln) forknum).

Definition smgrcreate (reln : SMgrRelation) (forknum : Z) :=
  via (smgr reln) (fun _ t => smgr_create t (smgr_rlocator reln) forknum).

Definition smgrprefetch (reln : SMgrRelation) (forknum blocknum : Z) :=
  via (smgr reln) (fun _ t => smgr_prefetch t (mkBufferTag (smgr_rlocator reln) forknum blocknum)).

Definition smgrread (reln : SMgrRelation) (forknum blocknum : Z) :=
  via (smgr reln) (fun _ t => smgr_read t (mkBufferTag (smgr_rlocator reln) forknum blocknum)).

Definition smgrwrite (reln : SMgrRelation) (forknum blocknum : Z) (buffer : bytes) :=
  via (smgr reln) (fun _ t => smgr_write t (mkBufferTag (smgr_rlocator reln) forknum blocknum) buffer).

Definition smgrwriteback (reln : SMgrRelation) (forknum blocknum nblocks : Z) :=
  via (smgr reln) (fun _ t => smgr_writeback t (mkBufferTag (smgr_rlocator reln) forknum blocknum) nblocks).

Definition smgrimmedsync (reln : SMgrRelation) (forknum : Z) :=
  via (smgr reln) (fun _ t => smgr_immedsync t (smgr_rlocator reln) forknum).
End Pluggable.

(** ** The in-memory storage manager (walredo.c) *)

Record Inmem := mkInmem {
  inmem_active : bool;
  inmem_loc : RelFileLocator;
  inmem_fork : Z;
  inmem_blkno : Z;
  inmem_page : bytes
}.

Definition inmem_init : Inmem := mkInmem false (mkLocator 0 0 0) 0 0 (replicate (Z.to_nat BLCKSZ) x00).

Definition set_page (p : bytes) (i : Inmem) : Inmem :=
  mkInmem (inmem_active i) (inmem_loc i) (inmem_fork i) (inmem_blkno i) p.

Definition inmem_is_target (i : Inmem) (t : BufferTag) : bool :=
  inmem_active i && bool_decide (t_rel t = inmem_loc i) && (t_fork t =? inmem_fork i) && (t_blk t =? inmem_blkno i).

Definition inmem_write (t : BufferTag) (buffer : bytes) : stateM Inmem bytes unit :=
  smod (fun i => if inmem_is_target i t then set_page buffer i else i).

Definition inmem_zeroextend (t : BufferTag) (nblocks : Z) : stateM Inmem bytes unit :=
  smod (fun i => if inmem_active i && (t_fork t =? inmem_fork i) && (t_blk t =? inmem_blkno i)
                 then set_page (replicate (Z.to_nat BLCKSZ) x00) i else i).

Definition inmem_read (t : BufferTag) : stateM Inmem bytes bytes :=
  let! i := sget in
  sret (if inmem_is_target i t then inmem_page i else replicate (Z.to_nat BLCKSZ) x00).

(** Block numbers are 32-bit. *)
Definition inmem_nblocks (l : RelFileLocator) (forknum : Z) : stateM Inmem bytes Z :=
  let! i := sget in
  sret (if inmem_active i && bool_decide (l = inmem_loc i) && (forknum =? inmem_fork i)
        then (inmem_blkno i + 1) mod 2 ^ 32 else 0).

(** [inmem_extend] has the body of [inmem_write]. *)
Definition inmem_smgr : f_smgr Inmem := {|
  smgr_open _ := sret tt;
  smgr_close _ _ := sret tt;
  smgr_create _ _ := sret tt;
  smgr_exists _ _ := sret true;
  smgr_unlink _ _ := sret tt;
  smgr_extend := inmem_write;
  smgr_zeroextend := inmem_zeroextend;
  smgr_prefetch _ := sret true;
  smgr_read := inmem_read;
  smgr_write := inmem_write;
  smgr_writeback _ _ := sret tt;
  smgr_nblocks := inmem_nblocks;
  smgr_truncate _ _ _ _ := sret tt;
  smgr_immedsync _ _ := sret tt
|}.

Definition walredo_smgr_hook (i : Inmem) (rlocator : RelFileLocator) : option Manager :=
  if inmem_active i && bool_decide (rlocator = inmem_loc i) then Some Plugin else Some (smgr_standard rlocator).

(** ** PostgreSQL *)

(** A decoded record; its contents are PostgreSQL's. *)
Record DecodedXLogRecord {Body : Type} := mkDecoded {
  d_lsn : Lsn;
  d_next_lsn : Lsn;
  d_body : Body
}.
Arguments DecodedXLogRecord Body : clear implicits.
Arguments mkDecoded {Body}.

Record XLogReaderState {Body : Type} := mkReader {
  rd_record : option (DecodedXLogRecord Body);
  ReadRecPtr : Lsn;
  EndRecPtr : Lsn
}.
Arguments XLogReaderState Body : clear implicits.
Arguments mkReader {Body}.

Inductive ReadBufferMode := RBM_NORMAL | RBM_ZERO_AND_LOCK.

(** The buffer pool and the storage under it. *)
Record World {P D : Type} := mkWorld {
  pool : P;
  store : Storage Inmem D
}.
Arguments World P D : clear implicits.
Arguments mkWorld {P D}.

(** The operations of PostgreSQL that walredo.c calls, with [B] the buffers,
    and the contents of memory that was never written. *)
Class Postgres (P D B Body : Type) := {
  ReadBufferWithoutRelcache : BufferTag -> ReadBufferMode -> stateM (World P D) bytes B;
  BufferGetPage : B -> World P D -> bytes;
  BufferPutPage : B -> bytes -> World P D -> World P D;      (* [memcpy] into the buffer *)
  MarkBufferDirty : B -> World P D -> World P D;
  LockBuffer : B -> World P D -> World P D;
  UnlockReleaseBuffer : B -> World P D -> World P D;
  DecodeXLogRecordRequiredSpace : Z -> Z;
  DecodeXLogRecord : bytes -> Lsn -> DecodedXLogRecord Body + option bytes;
  RmgrTable : Z -> option (XLogReaderState Body -> stateM (World P D) bytes unit);
  uninit : Z -> bytes
}.

(** ** The process (walredo.c) *)

(** Standard input: what has arrived, and whether the other end is closed. *)
Record Input := mkInput {
  avail : bytes;
  hung_up : bool
}.

(** Why reading stops: nothing more to read yet, or the process ends. *)
Inductive Stop := Blocked | Fatal.

Record WalRedoRequest := mkWalRedoRequest {
  rlocator : RelFileLocator;
  forknum : Z;
  blkno : Z;
  has_base : bool;
  base : bytes;
  records : list (Lsn * bytes)
}.

(** Fields of the record header, little-endian as on the machines PostgreSQL
    writes it on. *)
Definition SizeOfXLogRecord : Z := 24.

Definition get_be64 (p : bytes) : Z := Z.lor (Z.shiftl (get_be32 p) 32) (get_be32 (drop 4 p)).

Section Walredo.
Context {P D B Body : Type} `{Postgres P D B Body}.

(** [false] at the end of the input, with the rest of the buffer unwritten. *)
Definition read_full (n : Z) : stateM Input Stop (bool * bytes) := fun i =>
  if n <=? len (avail i) then
    (mkInput (sub (avail i) n (len (avail i) - n)) (hung_up i), Ok (true, sub (avail i) 0 n))
  else if hung_up i then (mkInput [] true, Ok (false, avail i ++ uninit (n - len (avail i))))
  else (i, Err Blocked).

(** A failed allocation outside of [PG_TRY] ends the process. *)
Definition palloc (size : Z) : stateM Input Stop unit := if size <=? MaxAllocSize then sret tt else serr Fatal.

Fixpoint read_request_records (n : nat) : stateM Input Stop (list (Lsn * bytes)) :=
  match n with
  | O => sret []
  | S n' =>
      let! rh := read_full 12 in
      let lsn := get_be64 rh.2 in
      let n := get_be32 (drop 8 rh.2) in
      let! _ := palloc n in
      let! rec := read_full n in
      let! rest := read_request_records n' in
      sret ((lsn, rec.2) :: rest)
  end.

(** [None] at the end of the input. *)
Definition read_request : stateM Input Stop (option WalRedoRequest) :=
  let! got := read_full 28 in
  if negb got.1 then sret None else
  let hdr := got.2 in
  if negb (get_be32 hdr =? REQ_MAGIC) then serr Fatal else
  if negb (b2z (nth 4 hdr x00) =? WalRedoProto.VERSION) then serr Fatal else
  let flags := b2z (nth 5 hdr x00) in
  let rlocator := mkLocator (get_be32 (drop 8 hdr)) (get_be32 (drop 12 hdr)) (get_be32 (drop 16 hdr)) in
  let has_base := negb (Z.land flags FLAG_HAS_BASE =? 0) in
  let! base := (if has_base then read_full BLCKSZ else sret (true, replicate (Z.to_nat BLCKSZ) x00)) in
  let! nbuf := read_full 4 in
  let n_records := get_be32 nbuf.2 in
  let! _ := palloc (8 * Z.max n_records 1) in
  let! _ := palloc (4 * Z.max n_records 1) in
  let! records := read_request_records (Z.to_nat n_records) in
  sret (Some (mkWalRedoRequest rlocator (b2z (nth 20 hdr x00)) (get_be32 (drop 24 hdr)) has_base base.2 records)).

Definition write_page_response (page : bytes) : bytes :=
  put_be32 RESP_MAGIC ++ [z2b WalRedoProto.VERSION; z2b STATUS_OK; x00; x00] ++ page.

Definition write_error_response (msg : bytes) : bytes :=
  put_be32 RESP_MAGIC ++ [z2b WalRedoProto.VERSION; z2b STATUS_ERR; x00; x00] ++
  put_be32 (len (c_string msg) mod 2 ^ 32) ++ c_string msg.

(** *** Redo *)

Abbreviation session := (World P D * XLogReaderState Body)%type.

Definition on_world {A} (m : stateM (World P D) bytes A) : stateM session bytes A := fun s =>
  let '(w, r) := m s.1 in ((w, s.2), r).

Definition buffer_op (f : World P D -> World P D) : stateM session bytes unit := on_world (smod f).

(** [record->xl_tot_len] and [record->xl_rmid]; a read past the end of a record
    finds unwritten memory. *)
Definition xl_tot_len (rec : bytes) : Z := le_val (take 4 (rec ++ uninit (24 - len rec))).
Definition xl_rmid (rec : bytes) : Z := b2z (nth 17 rec x00).

Definition malformed (rec : bytes) : bytes :=
  text "wal-redo: malformed record (len=" ++ fmt_dec (len rec) ++ text ", xl_tot_len=" ++ fmt_dec (xl_tot_len rec) ++ text ")".

Definition alloc_error (size : Z) : bytes := text "invalid memory alloc request size " ++ fmt_dec size.

Definition decode_failed (errormsg : option bytes) : bytes :=
  text "wal-redo: decode failed: " ++ match errormsg with Some m => m | None => text "(unknown)" end.

(** The reader as the redo routine finds it. *)
Definition reader_for (decoded : DecodedXLogRecord Body) (lsn : Lsn) (tot_len : Z) : XLogReaderState Body :=
  let next_lsn := (lsn + tot_len) mod 2 ^ 64 in
  mkReader (Some (mkDecoded (d_lsn decoded) next_lsn (d_body decoded))) (d_lsn decoded) next_lsn.

(** An entry of the table without a routine is a call through a null pointer. *)
Definition apply_one_record (lsn : Lsn) (rec : bytes) : stateM session bytes unit :=
  if (len rec <? SizeOfXLogRecord) || negb (xl_tot_len rec =? len rec) then serr (malformed rec) else
  let space := DecodeXLogRecordRequiredSpace (xl_tot_len rec) in
  if negb (space <=? MaxAllocSize) then serr (alloc_error space) else
  match DecodeXLogRecord rec lsn with
  | inr errormsg => serr (decode_failed errormsg)
  | inl decoded =>
      let reader := reader_for decoded lsn (xl_tot_len rec) in
      let! _ := smod (fun s => (s.1, reader)) in
      match RmgrTable (xl_rmid rec) with
      | None => spanic
      | Some rm_redo =>
          let! _ := on_world (rm_redo reader) in
          smod (fun s => (s.1, mkReader None (ReadRecPtr s.2) (EndRecPtr s.2)))
      end
  end.

Fixpoint apply_records (recs : list (Lsn * bytes)) : stateM session bytes unit :=
  match recs with
  | [] => sret tt
  | (lsn, rec) :: recs' => let! _ := apply_one_record lsn rec in apply_records recs'
  end.

Definition set_inmem (f : Inmem -> Inmem) : World P D -> World P D := fun w =>
  mkWorld (pool w) (mkStorage (relns (store w)) (f (plugged (store w))) (disk (store w))).

Definition deactivate (i : Inmem) : Inmem :=
  mkInmem false (inmem_loc i) (inmem_fork i) (inmem_blkno i) (inmem_page i).

Definition process_request (req : WalRedoRequest) : stateM session bytes bytes :=
  let tag := mkBufferTag (rlocator req) (forknum req) (blkno req) in
  let! _ := buffer_op (set_inmem (fun _ => mkInmem true (rlocator req) (forknum req) (blkno req) (base req))) in
  let! buf := on_world (ReadBufferWithoutRelcache tag RBM_ZERO_AND_LOCK) in
  let! _ := buffer_op (BufferPutPage buf (base req)) in
  let! _ := buffer_op (MarkBufferDirty buf) in
  let! _ := buffer_op (UnlockReleaseBuffer buf) in
  let! _ := apply_records (records req) in
  let! buf := on_world (ReadBufferWithoutRelcache tag RBM_NORMAL) in
  let! _ := buffer_op (LockBuffer buf) in
  let! s := sget in
  let result := BufferGetPage buf s.1 in
  let! _ := buffer_op (UnlockReleaseBuffer buf) in
  let! _ := buffer_op (set_inmem deactivate) in
  sret (write_page_response result).

(** *** The loop *)

Record Redo := mkRedo {
  rb_session : session;
  rb_input : Input;
  rb_running : bool
}.

Definition proc_exit (b : Redo) : Redo := mkRedo (rb_session b) (rb_input b) false.

(** Up to the point where the process waits for input or ends. *)
Fixpoint redo_loop (fuel : nat) (b : Redo) (out : bytes) : Redo * bytes :=
  match fuel with
  | O => (b, out)
  | S fuel' =>
      match read_request (rb_input b) with
      | (_, Err Blocked) => (b, out)
      | (_, Ok None) | (_, Err Fatal) | (_, Panic) => (proc_exit b, out)
      | (inp, Ok (Some req)) =>
          match process_request req (rb_session b) with
          | (s, Ok reply) => redo_loop fuel' (mkRedo s inp true) (out ++ reply)
          | (s, Err msg) => (mkRedo s inp false, out ++ write_error_response msg)
          | (s, Panic) => (mkRedo s inp false, out)
          end
      end
  end.

(** A request takes 28 bytes of the input, so its length bounds the rounds. *)
Definition WalRedoMain (b : Redo) : Redo * bytes := redo_loop (S (S (length (avail (rb_input b))))) b [].

Definition redo_feed (b : Redo) (bs : bytes) : option (Redo * bytes) :=
  if rb_running b
  then Some (WalRedoMain (mkRedo (rb_session b) (mkInput (avail (rb_input b) ++ bs) (hung_up (rb_input b))) true))
  else None.

(** The page server closes its end of the pipe. *)
Definition redo_hang_up (b : Redo) : Redo * bytes :=
  if rb_running b then WalRedoMain (mkRedo (rb_session b) (mkInput (avail (rb_input b)) true) true) else (b, []).

(** [postgres --wal-redo], once single-user initialization has left [w]. *)
Definition redo_start (w : World P D) : Redo := mkRedo (w, mkReader None 0 0) (mkInput [] false) true.
End Walredo.

Arguments Redo P D Body : clear implicits.

(** ** What PostgreSQL promises

    [visible w t] is what a reader of block [t] sees, from the pool or from the
    storage manager when the block is not cached; [holds w b t settled] says that
    buffer [b] is pinned on [t] and, when [settled], that its contents survive the
    release of the pin.  Only a write leaves a buffer unsettled, until it is marked
    dirty.  [named] gives the relations a record touches, [page_redo] what its
    redo routine does to one page, and [local] the relations PostgreSQL opens of
    its own accord. *)

(** A message is a C string in UTF-8. *)
Definition message_ok (m : bytes) : Prop :=
  utf8_valid m = true /\ Forall (fun b => ch b <> 0) m /\ len m <= 2 ^ 20.

(** The block asked for is served from memory: it is the target, and no relation
    but PostgreSQL's own was given to the disk. *)
Definition on_disk_only {D} (local : gset RelFileLocator) (st : Storage Inmem D) : Prop :=
  forall l, relns st !! l = Some MagneticDisk -> l ∈ local.

Definition routed {D} (local : gset RelFileLocator) (st : Storage Inmem D) (t : BufferTag) : Prop :=
  inmem_is_target (plugged st) t = true /\ (t_rel t ∉ local) /\ on_disk_only local st.

Class PostgresLaws (P D B Body : Type) `{Postgres P D B Body} := {
  local : gset RelFileLocator;
  visible : World P D -> BufferTag -> bytes;
  holds : World P D -> B -> BufferTag -> bool -> Prop;
  named : Body -> RelFileLocator -> Prop;
  page_redo : Z -> XLogReaderState Body -> BufferTag -> bytes -> bytes + bytes;   (* the page, or an error *)
  read_ok w t mode : routed local (store w) t ->
    exists w' b, ReadBufferWithoutRelcache t mode w = (w', Ok b) /\ routed local (store w') t /\
      holds w' b t (match mode with RBM_NORMAL => true | RBM_ZERO_AND_LOCK => false end) /\ (mode = RBM_NORMAL -> visible w' t = visible w t);
  get_ok w b t c : holds w b t c -> BufferGetPage b w = visible w t;
  put_ok w b t c p : routed local (store w) t -> holds w b t c -> len p = BLCKSZ ->
    let w' := BufferPutPage b p w in routed local (store w') t /\ holds w' b t false /\ visible w' t = p;
  dirty_ok w b t c : routed local (store w) t -> holds w b t c ->
    let w' := MarkBufferDirty b w in routed local (store w') t /\ holds w' b t true /\ visible w' t = visible w t;
  lock_ok w b t c : routed local (store w) t -> holds w b t c ->
    let w' := LockBuffer b w in routed local (store w') t /\ holds w' b t c /\ visible w' t = visible w t;
  release_ok w b t : routed local (store w) t -> holds w b t true ->
    let w' := UnlockReleaseBuffer b w in routed local (store w') t /\ visible w' t = visible w t;
  rm_redo_ok id rm_redo d rd w t :
    RmgrTable id = Some rm_redo -> rd_record rd = Some d -> (forall l, named (d_body d) l -> l = t_rel t) ->
    routed local (store w) t -> len (visible w t) = BLCKSZ ->
    exists w', match page_redo id rd t (visible w t) with
    | inl p => rm_redo rd w = (w', Ok tt) /\ routed local (store w') t /\ visible w' t = p
    | inr m => rm_redo rd w = (w', Err m)
    end;
  page_redo_ok id rd t p : len p = BLCKSZ ->
    match page_redo id rd t p with inl p' => len p' = BLCKSZ | inr m => message_ok m end;
  decode_message rec lsn m : DecodeXLogRecord rec lsn = inr (Some m) -> message_ok m;
  space_range n : 0 <= DecodeXLogRecordRequiredSpace n < 2 ^ 64
}.

Section Correct.
Context {P D B Body : Type} `{HP : Postgres P D B Body} `{!PostgresLaws P D B Body}.

(** What one record does to a page. *)
Definition record_effect (t : BufferTag) (lsn : Lsn) (rec : bytes) (p : bytes) : outcome bytes bytes :=
  if (len rec <? SizeOfXLogRecord) || negb (xl_tot_len rec =? len rec) then Err (malformed rec) else
  let space := DecodeXLogRecordRequiredSpace (xl_tot_len rec) in
  if negb (space <=? MaxAllocSize) then Err (alloc_error space) else
  match DecodeXLogRecord rec lsn with
  | inr e => Err (decode_failed e)
  | inl d =>
      match page_redo (xl_rmid rec) (reader_for d lsn (xl_tot_len rec)) t p with inl p' => Ok p' | inr m => Err m end
  end.

Lemma record_effect_returns t lsn rec p : record_effect t lsn rec p <> Panic.
Proof.
  unfold record_effect. case_test; [done |]. case_test; [done |].
  destruct (DecodeXLogRecord rec lsn) as [d |]; [| done]. by destruct (page_redo _ _ _ _).
Qed.

Fixpoint records_effect (t : BufferTag) (recs : list (Lsn * bytes)) (p : bytes) : outcome bytes bytes :=
  match recs with
  | [] => Ok p
  | (lsn, rec) :: recs' => let? p := record_effect t lsn rec p in records_effect t recs' p
  end.

(** Records the process can be asked to apply: they fit in memory, name no other
    relation, and belong to a resource manager there is. *)
Definition applicable (l : RelFileLocator) (e : Lsn * bytes) : Prop :=
  len e.2 <= MaxAllocSize /\
  forall d, DecodeXLogRecord e.2 e.1 = inl d -> (forall l', named (d_body d) l' -> l' = l) /\ RmgrTable (xl_rmid e.2) <> None.

Lemma apply_one_record_ok t lsn rec s :
  routed local (store s.1) t -> len (visible s.1 t) = BLCKSZ -> applicable (t_rel t) (lsn, rec) ->
  exists s', match record_effect t lsn rec (visible s.1 t) with
  | Ok p => apply_one_record lsn rec s = (s', Ok tt) /\ routed local (store s'.1) t /\ visible s'.1 t = p /\ len p = BLCKSZ
  | Err m => apply_one_record lsn rec s = (s', Err m)
  | Panic => False
  end.
Proof.
  intros Hr Hl [_ Ha]. unfold apply_one_record, record_effect. cbn [fst snd] in *.
  case_test; [by exists s |]. case_test; [by exists s |].
  destruct (DecodeXLogRecord rec lsn) as [d | e]; [| by exists s]. destruct (Ha d eq_refl) as [Hn Ht].
  destruct (RmgrTable (xl_rmid rec)) as [f |] eqn:Ef; [| done]. set (rd := reader_for d lsn (xl_tot_len rec)).
  destruct (rm_redo_ok (xl_rmid rec) f (mkDecoded (d_lsn d) ((lsn + xl_tot_len rec) mod 2 ^ 64) (d_body d)) rd s.1 t Ef eq_refl Hn Hr Hl)
    as (w' & E). pose proof (page_redo_ok (xl_rmid rec) rd t (visible s.1 t) Hl) as Hp.
  unfold sbind, smod, on_world. cbn [fst snd].
  destruct (page_redo (xl_rmid rec) rd t (visible s.1 t)) as [p | m]; [| by eexists; rewrite E].
  destruct E as (-> & Hr' & Hv). eexists. split; [reflexivity |]. by cbn [fst].
Qed.

Lemma apply_records_ok t recs : forall s,
  routed local (store s.1) t -> len (visible s.1 t) = BLCKSZ -> Forall (applicable (t_rel t)) recs ->
  exists s', match records_effect t recs (visible s.1 t) with
  | Ok p => apply_records recs s = (s', Ok tt) /\ routed local (store s'.1) t /\ visible s'.1 t = p /\ len p = BLCKSZ
  | Err m => apply_records recs s = (s', Err m)
  | Panic => False
  end.
Proof.
  induction recs as [| [lsn rec] recs IH]; intros s Hr Hl Ha; [by exists s |].
  apply Forall_cons in Ha as [Ha Hrs]. cbn [apply_records records_effect].
  destruct (apply_one_record_ok t lsn rec s Hr Hl Ha) as (s1 & E).
  destruct (record_effect t lsn rec (visible s.1 t)) as [p | m |]; cbn [bind]; [| | done].
  - destruct E as (E & Hr1 & <- & Hl1). rewrite (sbind_Ok _ _ _ _ _ E). by apply IH.
  - exists s1. unfold sbind. by rewrite E.
Qed.

Lemma buffer_op_step {A} (f : World P D -> World P D) (k : unit -> stateM (World P D * XLogReaderState Body) bytes A) s :
  sbind (buffer_op f) k s = k tt (f s.1, s.2).
Proof. done. Qed.

(** The page a request asks for, whatever requests came before it: the pool and the
    storage are left fit for the next one. *)
Lemma process_request_ok req s :
  let t := mkBufferTag (rlocator req) (forknum req) (blkno req) in
  on_disk_only local (store s.1) -> t_rel t ∉ local -> len (base req) = BLCKSZ ->
  Forall (applicable (t_rel t)) (records req) ->
  exists s', match records_effect t (records req) (base req) with
  | Ok p => process_request req s = (s', Ok (write_page_response p)) /\ on_disk_only local (store s'.1) /\ len p = BLCKSZ
  | Err m => process_request req s = (s', Err m)
  | Panic => False
  end.
Proof.
  intros t Hd Hl Hb Ha.
  set (w0 := set_inmem (fun _ => mkInmem true (rlocator req) (forknum req) (blkno req) (base req)) s.1).
  assert (Hr0 : routed local (store w0) t).
  { split; [| done]. cbn. unfold inmem_is_target. cbn. by rewrite bool_decide_true, !Z.eqb_refl by done. }
  destruct (read_ok w0 t RBM_ZERO_AND_LOCK Hr0) as (w1 & b & E1 & Hr1 & Hh1 & _).
  destruct (put_ok w1 b t _ (base req) Hr1 Hh1 Hb) as (Hr2 & Hh2 & Hv2). set (w2 := BufferPutPage b (base req) w1) in *.
  destruct (dirty_ok w2 b t _ Hr2 Hh2) as (Hr3 & Hh3 & Hv3). set (w3 := MarkBufferDirty b w2) in *.
  destruct (release_ok w3 b t Hr3 Hh3) as (Hr4 & Hv4). set (w4 := UnlockReleaseBuffer b w3) in *.
  assert (Ev : visible w4 t = base req) by congruence.
  assert (E0 : process_request req s = sbind (apply_records (records req)) (fun _ =>
    let! buf := on_world (ReadBufferWithoutRelcache t RBM_NORMAL) in
    let! _ := buffer_op (LockBuffer buf) in
    let! s := sget in
    let! _ := buffer_op (UnlockReleaseBuffer buf) in
    let! _ := buffer_op (set_inmem deactivate) in
    sret (write_page_response (BufferGetPage buf s.1))) (w4, s.2)).
  { unfold process_request. fold t. rewrite buffer_op_step. fold w0. unfold sbind at 1, on_world at 1. cbn [fst snd].
    rewrite E1. cbn iota. by rewrite !buffer_op_step. }
  rewrite E0. clear E0.
  destruct (apply_records_ok t (records req) (w4, s.2) Hr4) as (s5 & E5); [cbn [fst]; by rewrite Ev | done |].
  cbn [fst] in E5. rewrite Ev in E5.
  destruct (records_effect t (records req) (base req)) as [p | m |]; [| by exists s5; unfold sbind at 1; rewrite E5 | done].
  destruct E5 as (E5 & Hr5 & Hv5 & Hl5). rewrite (sbind_Ok _ _ _ _ _ E5). unfold sbind at 1, on_world at 1.
  destruct (read_ok s5.1 t RBM_NORMAL Hr5) as (w6 & b' & -> & Hr6 & Hh6 & Hv6). cbn iota.
  destruct (lock_ok w6 b' t _ Hr6 Hh6) as (Hr7 & Hh7 & Hv7).
  destruct (release_ok _ b' t Hr7 Hh7) as ((_ & _ & Hd8) & _).
  exists (set_inmem deactivate (UnlockReleaseBuffer b' (LockBuffer b' w6)), s5.2).
  split; [| split; [exact Hd8 | done]]. unfold sbind, buffer_op, on_world, smod, sget, sret. cbn [fst snd].
  rewrite (get_ok _ _ _ _ Hh7), Hv7, Hv6, Hv5 by done. reflexivity.
Qed.

(** ** Requests are read as the page server writes them *)

Lemma read_full_app n a l h : n = len a -> read_full n (mkInput (a ++ l) h) = (mkInput l h, Ok (true, a)).
Proof.
  intros ->. unfold read_full. cbn [avail hung_up]. rewrite len_app. pose proof (len_nonneg l).
  rewrite (proj2 (Z.leb_le _ _)) by lia. rewrite sub_app_exact by done. rewrite sub_app_ge by lia.
  rewrite Z.sub_diag. by rewrite sub_full by lia.
Qed.

Lemma get_be32_nonneg p : 0 <= get_be32 p.
Proof. unfold get_be32. repeat (apply Z.lor_nonneg; split); rewrite ?Z.shiftl_nonneg; apply b2z_range. Qed.

Lemma get_be64_app a l : length a = 8%nat -> get_be64 (a ++ l) = be_val a.
Proof.
  intros Ha. destruct a as [| a0 [| a1 [| a2 [| a3 a]]]]; try discriminate. unfold get_be64.
  change (drop 4 ((a0 :: a1 :: a2 :: a3 :: a) ++ l)) with (a ++ l).
  change ((a0 :: a1 :: a2 :: a3 :: a) ++ l) with ([a0; a1; a2; a3] ++ a ++ l). rewrite !get_be32_app by (cbn in *; lia).
  pose proof (be_val_range a) as Hr. replace (len a) with 4 in Hr by (unfold len; cbn in Ha; lia).
  rewrite shift_lor by (change (2 ^ 32) with (256 ^ 4); lia).
  destruct a as [| a4 [| a5 [| a6 [| a7 [|]]]]]; try discriminate. unfold be_val. cbn [rev app le_val]. lia.
Qed.

Lemma read_request_records_app rs l h :
  Forall (fun e => in_u64 e.1 /\ in_u32 (len e.2)) rs -> Forall (fun e => len e.2 <= MaxAllocSize) rs ->
  read_request_records (length rs) (mkInput (flat_map write_record rs ++ l) h) = (mkInput l h, Ok rs).
Proof.
  induction rs as [| [lsn rec] rs IH]; intros Hw Hm; [done |].
  apply Forall_cons in Hw as [[Hl Hr] Hw], Hm as [Hm Hms]. cbn [fst snd] in *. cbn [length read_request_records flat_map].
  unfold write_record at 1. cbn [fst snd]. rewrite !app_assoc, <- !(app_assoc (_ ++ _)).
  erewrite sbind_Ok by (apply read_full_app; by rewrite len_app, !len_be_bytes). cbn [snd].
  rewrite get_be64_app by apply length_be_bytes. rewrite drop_app_length' by (by rewrite length_be_bytes).
  rewrite <- (app_nil_r (be_bytes 4 (len rec))), get_be32_app by apply length_be_bytes. rewrite be_val_u32, be_val_u64 by done.
  unfold palloc. rewrite (proj2 (Z.leb_le _ _)) by done.
  unfold sbind at 1, sret at 1. erewrite sbind_Ok by (by apply read_full_app).
  by erewrite sbind_Ok by (by apply IH).
Qed.

(** The request as the process holds it. *)
Definition locator (r : RelTag) : RelFileLocator := mkLocator (spc_node r) (db_node r) (rel_node r).

Definition received (req : RedoRequest) : WalRedoRequest :=
  mkWalRedoRequest (locator (rq_rel req)) (ForkNumber_as_u8 (fork (rq_rel req))) (rq_blkno req)
    (match rq_base_image req with Some _ => true | None => false end)
    (match rq_base_image req with Some img => img | None => zero_page end) (rq_records req).

Lemma read_request_encoded req l h :
  RedoRequest_wf req -> 8 * len (rq_records req) <= MaxAllocSize -> Forall (fun e => len e.2 <= MaxAllocSize) (rq_records req) ->
  read_request (mkInput (RedoRequest_encode req ++ l) h) = (mkInput l h, Ok (Some (received req))).
Proof.
  intros ((Hs & Hd & Hrn) & Hblk & Hb & Hn & Hr) Hm Hms. rewrite RedoRequest_encode_parts, <- !app_assoc. unfold read_request.
  erewrite sbind_Ok by (apply read_full_app; by rewrite len_request_header). cbn [fst snd negb].
  set (hdr := request_header req).
  assert (Hw : forall k v l, drop k hdr = be_bytes 4 v ++ l -> in_u32 v -> get_be32 (drop k hdr) = v)
    by (intros k v l' -> Hv; by rewrite get_be32_app, be_val_u32 by (done || apply length_be_bytes)).
  rewrite (Hw 8%nat _ _ eq_refl Hs), (Hw 12%nat _ _ eq_refl Hd), (Hw 16%nat _ _ eq_refl Hrn).
  rewrite (Hw 24%nat (rq_blkno req) [] (eq_sym (app_nil_r _)) Hblk).
  change (get_be32 hdr) with REQ_MAGIC. change (b2z (nth 4 hdr x00)) with VERSION. rewrite !Z.eqb_refl. cbn [negb].
  change (nth 20 hdr x00) with (z2b (ForkNumber_as_u8 (fork (rq_rel req)))).
  change (nth 5 hdr x00) with (z2b (match rq_base_image req with Some _ => FLAG_HAS_BASE | None => 0 end)).
  assert (Htail : forall has img, sbind (read_full 4) (fun nbuf =>
      let! _ := palloc (8 * Z.max (get_be32 nbuf.2) 1) in
      let! _ := palloc (4 * Z.max (get_be32 nbuf.2) 1) in
      let! records := read_request_records (Z.to_nat (get_be32 nbuf.2)) in
      sret (Some (mkWalRedoRequest (locator (rq_rel req)) (b2z (z2b (ForkNumber_as_u8 (fork (rq_rel req)))))
        (rq_blkno req) has img records))) (mkInput (be_bytes 4 (len (rq_records req)) ++ flat_map write_record (rq_records req) ++ l) h) =
    (mkInput l h, Ok (Some (mkWalRedoRequest (locator (rq_rel req)) (ForkNumber_as_u8 (fork (rq_rel req))) (rq_blkno req) has img
       (rq_records req))))).
  { intros has img. erewrite sbind_Ok by (apply read_full_app; by rewrite len_be_bytes). cbn [snd].
    rewrite <- (app_nil_r (be_bytes 4 (len (rq_records req)))), get_be32_app, be_val_u32 by (done || apply length_be_bytes).
    unfold palloc. pose proof (len_nonneg (rq_records req)). unfold MaxAllocSize in *.
    rewrite !(proj2 (Z.leb_le _ _)) by lia. unfold sbind at 1 2, sret at 1 2.
    replace (Z.to_nat (len (rq_records req))) with (length (rq_records req)) by (unfold len; lia).
    erewrite sbind_Ok by (by apply read_request_records_app). cbn [sret].
    by destruct (fork (rq_rel req)). }
  destruct (rq_base_image req) as [img |] eqn:Ei; cbn [app].
  - change (negb (Z.land (b2z (z2b FLAG_HAS_BASE)) FLAG_HAS_BASE =? 0)) with true. cbn iota.
    erewrite sbind_Ok by (by apply read_full_app). cbn [snd]. rewrite Htail. unfold received. by rewrite Ei.
  - change (negb (Z.land (b2z (z2b 0)) FLAG_HAS_BASE =? 0)) with false. cbn iota.
    unfold sbind at 1, sret at 1. cbn [snd]. rewrite Htail. unfold received. by rewrite Ei.
Qed.

(** ** Replies are written as the page server reads them *)

Definition reply_ok (m : bytes) : Prop := utf8_valid m = true /\ Forall (fun b => ch b <> 0) m /\ in_u32 (len m).

Lemma c_string_id m : Forall (fun b => ch b <> 0) m -> c_string m = m.
Proof. induction 1 as [| b m Hb _ IH]; [done |]. cbn. rewrite decide_False by (by intros ->). by rewrite IH. Qed.

Lemma page_response_encoded p : write_page_response p = RedoResponse_encode (RPage p).
Proof. unfold write_page_response. by rewrite put_be32_spec. Qed.

Lemma error_response_encoded m : reply_ok m -> write_error_response m = RedoResponse_encode (RError m).
Proof.
  intros (_ & Hn & Hl). unfold write_error_response. rewrite c_string_id by done. unfold in_u32 in Hl. rewrite Z.mod_small by lia.
  by rewrite !put_be32_spec.
Qed.

(** Texts of the code, numbers and messages of PostgreSQL, and their sequences. *)
Definition piece_ok (n : Z) (m : bytes) : Prop := utf8_valid m = true /\ Forall (fun b => ch b <> 0) m /\ len m <= n.

Lemma piece_app n k a b : piece_ok n a -> piece_ok k b -> piece_ok (n + k) (a ++ b).
Proof.
  intros (Ua & Na & La) (Ub & Nb & Lb). split; [by apply utf8_valid_app |]. split; [by apply Forall_app |]. rewrite len_app. lia.
Qed.

Lemma piece_dec z : 0 <= z -> piece_ok 20 (fmt_dec z).
Proof.
  intros Hz. pose proof (fmt_dec_digits z Hz) as Hd.
  assert (Hp : Forall (fun b => 0 < ch b < 128) (fmt_dec z)).
  { eapply Forall_impl; [exact Hd |]. intros b (d & Hr & ->). destruct (digit_lower_plain d ltac:(lia)) as (_ & _ & Hp). lia. }
  split; [apply utf8_valid_ascii; eapply Forall_impl; [exact Hp |]; cbn; lia |].
  split; [eapply Forall_impl; [exact Hp |]; cbn; lia | apply len_to_radix].
Qed.

Lemma piece_text n s : (forallb (fun b => (0 <? ch b) && (ch b <? 128)) s && (len s <=? n)) = true -> piece_ok n s.
Proof.
  intros [Hs Hl]%andb_true_iff. assert (Hp : Forall (fun b => 0 < ch b < 128) s).
  { apply Forall_forall. intros b Hb%list_elem_of_In. rewrite forallb_forall in Hs. apply Hs in Hb. bool_to_prop. lia. }
  split; [apply utf8_valid_ascii; eapply Forall_impl; [exact Hp |]; cbn; lia |].
  split; [eapply Forall_impl; [exact Hp |]; cbn; lia | by apply Z.leb_le].
Qed.

Lemma piece_reply n m : piece_ok n m -> n < 2 ^ 32 -> reply_ok m.
Proof. intros (? & ? & ?) ?. pose proof (len_nonneg m). repeat split; try done. lia. Qed.

Ltac pieces :=
  lazymatch goal with
  | |- piece_ok _ (_ ++ _) => apply piece_app; pieces
  | |- piece_ok _ (fmt_dec _) => apply piece_dec; first [done | apply len_nonneg]
  | |- piece_ok _ (text _) => by apply (piece_text 64)
  end.

Lemma record_effect_ok t lsn rec p : len p = BLCKSZ ->
  match record_effect t lsn rec p with Ok p' => len p' = BLCKSZ | Err m => reply_ok m | Panic => False end.
Proof.
  intros Hp. unfold record_effect.
  assert (Ht : 0 <= xl_tot_len rec) by apply le_val_range.
  case_test.
  { eapply piece_reply; [unfold malformed; pieces | done]. }
  case_test.
  { pose proof (space_range (xl_tot_len rec)) as [? _]. eapply piece_reply; [unfold alloc_error; pieces | done]. }
  destruct (DecodeXLogRecord rec lsn) as [d | [m |]] eqn:Ed.
  - pose proof (page_redo_ok (xl_rmid rec) (reader_for d lsn (xl_tot_len rec)) t p Hp) as Hr.
    destruct (page_redo _ _ _ _) as [p' | m]; [done |]. by eapply piece_reply; [exact Hr |].
  - eapply piece_reply; [unfold decode_failed; apply piece_app; [pieces | exact (decode_message _ _ _ Ed)] | done].
  - eapply piece_reply; [unfold decode_failed; pieces | done].
Qed.

Lemma records_effect_ok t recs : forall p, len p = BLCKSZ ->
  match records_effect t recs p with Ok p' => len p' = BLCKSZ | Err m => reply_ok m | Panic => False end.
Proof.
  induction recs as [| [lsn rec] recs IH]; intros p Hp; [done |]. cbn [records_effect].
  pose proof (record_effect_ok t lsn rec p Hp) as H1. destruct (record_effect t lsn rec p); [by apply IH | done | done].
Qed.

Lemma records_effect_app t rs1 rs2 : forall p,
  records_effect t (rs1 ++ rs2) p = (let? p := records_effect t rs1 p in records_effect t rs2 p).
Proof.
  induction rs1 as [| [lsn rec] rs1 IH]; intros p; [done |]. cbn [app records_effect].
  destruct (record_effect t lsn rec p); [apply IH | done | done].
Qed.

(** ** The process is a child the page server can rely on *)

Definition tag_of (rel : RelTag) (blk : Z) : BufferTag := mkBufferTag (locator rel) (ForkNumber_as_u8 (fork rel)) blk.

Definition start_page (base : option bytes) : bytes := match base with Some p => p | None => zero_page end.

(** The page function the process implements. *)
Definition walredo (req : RedoRequest) : RedoResponse :=
  match records_effect (tag_of (rq_rel req) (rq_blkno req)) (rq_records req) (start_page (rq_base_image req)) with
  | Ok p => RPage p
  | Err m => RError m
  | Panic => RError []
  end.

(** Between requests: running, nothing unread, PostgreSQL's own relations alone on
    the disk. *)
Definition redo_idle (b : Redo P D Body) : Prop :=
  rb_running b = true /\ rb_input b = mkInput [] false /\ on_disk_only local (store (rb_session b).1).

Lemma redo_feed_idle b req :
  redo_idle b -> RedoRequest_wf req -> locator (rq_rel req) ∉ local ->
  Forall (applicable (locator (rq_rel req))) (rq_records req) -> len (rq_records req) <= MaxAllocSize / 8 ->
  exists b', redo_feed b (RedoRequest_encode req) = Some (b', RedoResponse_encode (walredo req)) /\
    (redo_idle b' \/ rb_running b' = false).
Proof.
  intros (Hr & Hi & Hd) Hw Hl Ha Hm. unfold redo_feed. rewrite Hr, Hi. cbn [avail hung_up app]. unfold WalRedoMain.
  cbn [redo_loop rb_input rb_session]. replace (RedoRequest_encode req) with (RedoRequest_encode req ++ []) by apply app_nil_r.
  rewrite read_request_encoded; [| done | change (MaxAllocSize / 8) with 134217727 in Hm; unfold MaxAllocSize; lia
    | eapply Forall_impl; [exact Ha | by intros e [? _]]].
  assert (Hb : len (start_page (rq_base_image req)) = BLCKSZ)
    by (destruct Hw as (_ & _ & Hb & _); by destruct (rq_base_image req); [| apply len_zero_page]).
  pose proof (records_effect_ok (tag_of (rq_rel req) (rq_blkno req)) (rq_records req) _ Hb) as He.
  destruct (process_request_ok (received req) (rb_session b) Hd Hl Hb Ha) as (s' & E). unfold walredo.
  cbn [received records base rlocator forknum blkno] in E. unfold start_page, tag_of in *.
  destruct (records_effect _ _ _) as [p | m |]; [| | done].
  - destruct E as (-> & Hd' & _). cbn [app]. rewrite page_response_encoded.
    eexists. split; [reflexivity |]. by left.
  - rewrite E. cbn [app]. rewrite error_response_encoded by done. eexists. split; [reflexivity |]. by right.
Qed.

Section Service.
Context (boot : nat -> World P D) (boot_ok : forall n, on_disk_only local (store (boot n))).

#[export] Instance redo_program : RedoProgram (Redo P D Body) := {|
  start n := Some (redo_start (boot n));
  feed := redo_feed
|}.

#[export] Program Instance redo_service : RedoService walredo := {|
  WalRedoProcess.healthy := redo_idle;
  covers rel := locator rel ∉ local;
  servable rel := applicable (locator rel);
  max_batch := MaxAllocSize / 8
|}.
Next Obligation. done. Qed.
Next Obligation. intros n. eexists. split; [reflexivity |]. split; [done |]. split; [done | apply boot_ok]. Qed.
Next Obligation.
  intros c req Hc Hw Hl Ha Hm. destruct (redo_feed_idle c req Hc Hw Hl Ha Hm) as (c' & E & Hi). exists c'. split; [exact E |].
  destruct Hi as [Hi | Hi]; [by left | right]. intros bs. cbn. unfold redo_feed. by rewrite Hi.
Qed.
Next Obligation.
  intros req (_ & _ & Hb & _). unfold walredo.
  assert (Hp : len (start_page (rq_base_image req)) = BLCKSZ) by (by destruct (rq_base_image req); [| apply len_zero_page]).
  pose proof (records_effect_ok (tag_of (rq_rel req) (rq_blkno req)) (rq_records req) _ Hp) as He.
  destruct (records_effect _ _ _) as [p | m |]; [done | | done]. by destruct He as (? & _ & ?).
Qed.
Next Obligation.
  intros rel blk base rs1 rs2 _ _. unfold walredo. cbn [rq_rel rq_blkno rq_records rq_base_image]. rewrite records_effect_app.
  by destruct (records_effect _ rs1 _) as [p | m |].
Qed.

(** What the page server sees of one record. *)
Definition backend_apply (key : PageKey) (base : option bytes) (lsn : Lsn) (rec : bytes) : outcome RedoError bytes :=
  map_err RedoFailed (record_effect (tag_of (rel key) (block key)) lsn rec (start_page base)).

(** C16: a page is rebuilt by PostgreSQL's redo routines, record by record.  The
    page server's process backend, over pipes to the wal-redo processes it starts,
    each of which ends after the first error, returns for every history of a page
    what applying its records one after the other with PostgreSQL's routine for
    each of them does, an error included: the batches, the encodings, the buffer
    pool, the in-memory storage manager and the restarts are invisible.  It holds
    for relations PostgreSQL did not open itself, for records that name no other
    relation and belong to a known resource manager, and for histories as long as
    a request can be. *)
Theorem redo_backend_replays_records key lsn vs st :
  usable walredo st -> key_ok walredo key -> Forall (version_wf walredo key) vs -> len vs <= MaxAllocSize / 8 ->
  exists st', reconstruct key lsn vs st = (st', page_at backend_apply key vs) /\ usable walredo st'.
Proof.
  intros Hu Hk Hv Hn. destruct (process_full_replay walredo key lsn vs st Hu Hk Hv Hn) as (st' & E & Hu').
  exists st'. split; [| done]. rewrite E. f_equal. apply page_at_ext. intros b l rec. unfold record_redo, walredo, backend_apply.
  cbn [rq_rel rq_blkno rq_records rq_base_image records_effect]. pose proof (record_effect_returns (tag_of (rel key) (block key)) l rec (start_page b)).
  by destruct (record_effect _ _ _ _).
Qed.
End Service.
End Correct.

(** ** The loop waits or ends *)

Section Progress.
Context {P D B Body : Type} `{HP : Postgres P D B Body}.

Abbreviation no_longer i := (fun _ i' => len (avail i') <= len (avail i)).

Lemma read_full_rest n i : 0 <= n ->
  runs (read_full n) i (fun r i' => len (avail i') = (if r.1 : bool then len (avail i) - n else 0)) (fun _ _ => True).
Proof.
  intros Hn. unfold runs, read_full. case_test; [bool_to_prop; cbn; apply sub_len; lia |]. by case_test.
Qed.

Lemma read_full_shrinks n i : 0 <= n -> runs (read_full n) i (no_longer i) (fun _ _ => True).
Proof.
  intros Hn. eapply runs_conseq; [by apply read_full_rest | | done]. intros [[] b] i' E; cbn in E |- *; pose proof (len_nonneg (avail i)); lia.
Qed.

Lemma palloc_shrinks n i : runs (palloc n) i (no_longer i) (fun _ _ => True).
Proof. unfold palloc. case_test; cbn; [lia | done]. Qed.

Lemma read_request_records_shrink n : forall i, runs (read_request_records n) i (no_longer i) (fun _ _ => True).
Proof.
  induction n as [| n IH]; intros i; [cbn; lia |]. cbn [read_request_records].
  eapply runs_bind; [by apply read_full_shrinks |]. cbn beta. intros rh i1 H1.
  eapply runs_bind; [apply palloc_shrinks |]. cbn beta. intros _ i2 H2.
  eapply runs_bind; [apply read_full_shrinks, get_be32_nonneg |]. cbn beta. intros rec i3 H3.
  eapply runs_bind; [apply IH |]. cbn beta. intros rest i4 H4. cbn. lia.
Qed.

Lemma read_request_consumes i i' req : read_request i = (i', Ok (Some req)) -> len (avail i') < len (avail i).
Proof.
  intros E. assert (Hr : runs read_request i (fun r i' => match r with Some _ => len (avail i') < len (avail i) | None => True end) (fun _ _ => True));
    [| unfold runs in Hr; by rewrite E in Hr].
  unfold read_request. eapply runs_bind; [by apply read_full_rest |]. cbn beta. intros [[] hdr] i1 H1; [| done]. cbn [fst snd negb] in *.
  case_test; [done |]. case_test; [done |].
  eapply runs_bind with (Q' := no_longer i1); [case_test; [by apply read_full_shrinks | cbn; lia] |]. cbn beta. intros base i2 H2.
  eapply runs_bind; [by apply read_full_shrinks |]. cbn beta. intros nbuf i3 H3.
  do 2 (eapply runs_bind; [apply palloc_shrinks |]; cbn beta; intros _ ? ?).
  eapply runs_bind; [apply read_request_records_shrink |]. cbn beta. intros rs i6 H6. cbn. lia.
Qed.

(** The fuel of [WalRedoMain] is enough: it stops where the process ends or waits
    for the rest of a request. *)
Lemma redo_loop_waits fuel : forall (b : Redo P D Body) out,
  len (avail (rb_input b)) < Z.of_nat fuel ->
  let b' := (redo_loop fuel b out).1 in
  rb_running b' = false \/ exists i, read_request (rb_input b') = (i, Err Blocked).
Proof.
  induction fuel as [| fuel IH]; intros b out Hf; [pose proof (len_nonneg (avail (rb_input b))); lia |]. cbn [redo_loop].
  destruct (read_request (rb_input b)) as [i [[req |] | [] |]] eqn:E; [| by left | right; by exists i | by left | by left].
  apply read_request_consumes in E. destruct (process_request req (rb_session b)) as [s [reply | msg |]]; [| by left | by left].
  apply IH. cbn [rb_input]. lia.
Qed.

Lemma WalRedoMain_waits (b : Redo P D Body) :
  let b' := (WalRedoMain b).1 in
  rb_running b' = false \/ exists i, read_request (rb_input b') = (i, Err Blocked).
Proof. apply redo_loop_waits. unfold len. lia. Qed.

(** A process whose input is closed does not wait, and so ends. *)
Definition closed {A} (m : stateM Input Stop A) : Prop := forall i, hung_up i = true ->
  runs m i (fun _ i' => hung_up i' = true) (fun e _ => e = Fatal).

Lemma closed_bind {A C} (m : stateM Input Stop A) (k : A -> stateM Input Stop C) :
  closed m -> (forall a, closed (k a)) -> closed (sbind m k).
Proof. intros Hm Hk i Hi. eapply runs_bind; [by apply Hm |]. cbn beta. intros a i' Hi'. by apply Hk. Qed.

Lemma closed_read_full n : closed (read_full n).
Proof. intros i Hi. unfold runs, read_full. case_test; [done |]. by rewrite Hi. Qed.

Lemma closed_palloc n : closed (palloc n).
Proof. intros i Hi. unfold runs, palloc. by case_test. Qed.

Lemma closed_records n : closed (read_request_records n).
Proof.
  induction n as [| n IH]; [by intros i Hi |]. cbn [read_request_records].
  repeat (apply closed_bind; [first [apply closed_read_full | apply closed_palloc | apply IH] | intros ?]). by intros i Hi.
Qed.

Lemma closed_request : closed read_request.
Proof.
  unfold read_request. apply closed_bind; [apply closed_read_full |]. intros [[] hdr]; cbn [fst snd negb]; [| by intros i Hi].
  case_test; [by intros i Hi |]. case_test; [by intros i Hi |].
  apply closed_bind; [case_test; [apply closed_read_full | by intros i Hi] | intros base].
  repeat (apply closed_bind; [first [apply closed_read_full | apply closed_palloc | apply closed_records] | intros ?]). by intros i Hi.
Qed.

Lemma redo_hang_up_ends (b : Redo P D Body) : rb_running (redo_hang_up b).1 = false.
Proof.
  unfold redo_hang_up. destruct (rb_running b) eqn:Er; [| done]. unfold WalRedoMain. cbn [rb_input avail].
  assert (Hgo : forall fuel (b : Redo P D Body) out, hung_up (rb_input b) = true -> len (avail (rb_input b)) < Z.of_nat fuel ->
    rb_running (redo_loop fuel b out).1 = false); [| apply Hgo; [done |]; unfold len; cbn; lia].
  clear b Er. induction fuel as [| fuel IH]; intros b out Hh Hf; [pose proof (len_nonneg (avail (rb_input b))); lia |]. cbn [redo_loop].
  pose proof (closed_request (rb_input b) Hh) as Hc. unfold runs in Hc.
  destruct (read_request (rb_input b)) as [i [[req |] | [] |]] eqn:E; [| done ..].
  apply read_request_consumes in E. destruct (process_request req (rb_session b)) as [s [reply | msg |]]; [| done ..].
  apply IH; [done |]. cbn [rb_input]. lia.
Qed.
End Progress.

(** ** An engine to run it on

    A pool whose pages are written back, through the storage managers, as soon as
    they are released, over a disk on which every operation fails; one resource
    manager, whose records set a byte of a block. *)

Definition failing {A} : stateM unit bytes A := serr (text "no such file").

Definition no_disk : f_smgr unit := {|
  smgr_open _ := sret tt;
  smgr_close _ _ := sret tt;
  smgr_create _ _ := failing;
  smgr_exists _ _ := sret false;
  smgr_unlink _ _ := failing;
  smgr_extend _ _ := failing;
  smgr_zeroextend _ _ := failing;
  smgr_prefetch _ := failing;
  smgr_read _ := failing;
  smgr_write _ _ := failing;
  smgr_writeback _ _ := failing;
  smgr_nblocks _ _ := failing;
  smgr_truncate _ _ _ _ := failing;
  smgr_immedsync _ _ := failing
|}.

(** Each block in the pool with its contents and whether they are to be written
    back; a buffer is known by the block it holds. *)
Abbreviation small := (World (gmap BufferTag (bytes * bool)) unit).

Definition on_store {A} (m : stateM (Storage Inmem unit) bytes A) : stateM small bytes A := fun w =>
  let '(st, r) := m (store w) in (mkWorld (pool w) st, r).

Definition small_open := smgropen inmem_smgr no_disk (Some walredo_smgr_hook).

Definition cache (t : BufferTag) (p : bytes * bool) (w : small) : small := mkWorld (<[t := p]> (pool w)) (store w).

Definition small_fetch (t : BufferTag) : stateM small bytes (bytes * bool) :=
  let! p := on_store (let! reln := small_open (t_rel t) in smgrread inmem_smgr no_disk reln (t_fork t) (t_blk t)) in
  sret (p, false).

Definition small_read (t : BufferTag) (mode : ReadBufferMode) : stateM small bytes BufferTag :=
  let! w := sget in
  let! p := match mode, pool w !! t with
            | RBM_ZERO_AND_LOCK, _ => sret (replicate (Z.to_nat BLCKSZ) x00, false)
            | RBM_NORMAL, Some p => sret (p.1, true)
            | RBM_NORMAL, None => small_fetch t
            end in
  let! _ := smod (cache t p) in
  sret t.

Definition small_page (t : BufferTag) (w : small) : bytes := match pool w !! t with Some p => p.1 | None => [] end.

Definition small_put (t : BufferTag) (p : bytes) : small -> small := cache t (p, false).

Definition small_dirty (t : BufferTag) (w : small) : small := cache t (small_page t w, true) w.

Definition small_release (t : BufferTag) (w : small) : small :=
  match pool w !! t with
  | Some (p, dirty) =>
      let w := if dirty : bool
               then (on_store (let! reln := small_open (t_rel t) in
                               smgrwrite inmem_smgr no_disk reln (t_fork t) (t_blk t) p) w).1
               else w in
      mkWorld (delete t (pool w)) (store w)
  | None => w
  end.

(** The body of a record: a block, an offset in it and a byte. *)
Abbreviation edit := (BufferTag * (Z * byte))%type.

Definition no_room : bytes := text "offset past the end of the page".

Definition edit_redo (rd : XLogReaderState edit) : stateM small bytes unit :=
  match rd_record rd with
  | None => sret tt
  | Some d =>
      let '(t, (off, b)) := d_body d in
      if BLCKSZ <=? off then serr no_room else
      let! buf := small_read t RBM_NORMAL in
      smod (fun w => small_release buf (small_dirty buf (small_put buf (<[Z.to_nat off := b]> (small_page buf w)) w)))
  end.

Definition edit_page (rd : XLogReaderState edit) (t : BufferTag) (p : bytes) : bytes + bytes :=
  match rd_record rd with
  | None => inl p
  | Some d =>
      let '(t', (off, b)) := d_body d in
      if BLCKSZ <=? off then inr no_room
      else inl (if bool_decide (t' = t) then <[Z.to_nat off := b]> p else p)
  end.

Definition edit_decode (rec : bytes) (lsn : Lsn) : DecodedXLogRecord edit + option bytes :=
  let b := drop 24 rec in
  if negb (len b =? 20) then inr None else
  let w k := be_val (take 4 (drop k b)) in
  inl (mkDecoded lsn 0 (mkBufferTag (mkLocator (w 0) (w 4) (w 8))%nat (b2z (nth 12 b x00)) (w 13%nat),
                        (be_val (take 2 (drop 17 b)), nth 19 b x00))).

#[export] Instance small_postgres : Postgres (gmap BufferTag (bytes * bool)) unit BufferTag edit := {|
  ReadBufferWithoutRelcache := small_read;
  BufferGetPage := small_page;
  BufferPutPage := small_put;
  MarkBufferDirty := small_dirty;
  LockBuffer _ w := w;
  UnlockReleaseBuffer := small_release;
  DecodeXLogRecordRequiredSpace n := n mod 2 ^ 64;
  DecodeXLogRecord := edit_decode;
  RmgrTable id := if id =? 10 then Some edit_redo else None;
  uninit n := replicate (Z.to_nat n) x00
|}.

(** The relation the engine opened while it started. *)
Definition pg_database : RelFileLocator := mkLocator 1664 0 1262.

Definition small_boot : small := mkWorld ∅ (mkStorage {[ pg_database := MagneticDisk ]} inmem_init tt).

Definition small_visible (w : small) (t : BufferTag) : bytes :=
  match pool w !! t with Some p => p.1 | None => inmem_page (plugged (store w)) end.

Definition small_holds (w : small) (b t : BufferTag) (settled : bool) : Prop :=
  b = t /\ exists p d, pool w !! t = Some (p, d) /\ (settled = true -> d = true \/ p = inmem_page (plugged (store w))).

Abbreviation own := ({[ pg_database ]} : gset RelFileLocator).

Lemma is_target i t :
  inmem_is_target i t = true <-> inmem_active i = true /\ t = mkBufferTag (inmem_loc i) (inmem_fork i) (inmem_blkno i).
Proof.
  unfold inmem_is_target. rewrite !andb_true_iff, bool_decide_eq_true, !Z.eqb_eq. destruct t as [l f b]. cbn. split.
  - by intros [[[? ->] ->] ->].
  - by intros [? [= -> -> ->]].
Qed.

Lemma target_unique i t t' : inmem_is_target i t = true -> inmem_is_target i t' = bool_decide (t' = t).
Proof.
  intros [Ha ->]%is_target. apply eq_bool_prop_intro. rewrite bool_decide_spec. split.
  - intros H%Is_true_true%is_target. tauto.
  - intros ->. by apply Is_true_true, is_target.
Qed.

(** A relation that is the target's is opened in memory. *)
Lemma small_open_routed (st : Storage Inmem unit) t :
  routed own st t -> exists st', small_open (t_rel t) st = (st', Ok (mkSMgrRelation (t_rel t) Plugin)) /\
    plugged st' = plugged st /\ routed own st' t.
Proof.
  intros (Ht & Hl & Hd). unfold small_open, smgropen, sbind at 1, sget.
  destruct (relns st !! t_rel t) as [[] |] eqn:E; [by apply Hd in E | by exists st |].
  assert (Hh : walredo_smgr_hook (plugged st) (t_rel t) = Some Plugin).
  { apply is_target in Ht as [Ha ->]. unfold walredo_smgr_hook. cbn. by rewrite Ha, bool_decide_true. }
  rewrite Hh. eexists. split; [reflexivity |]. cbn. split; [done |]. split; [done |]. split; [done |].
  intros l. cbn. destruct (decide (l = t_rel t)) as [-> | Hne]; [by rewrite lookup_insert_eq | rewrite lookup_insert_ne by done; apply Hd].
Qed.

(** What the engine finds in a block of the target's relation. *)
Lemma small_fetch_routed t t' w :
  routed own (store w) t -> t_rel t' = t_rel t ->
  exists st', small_fetch t' w =
    (mkWorld (pool w) st', Ok (if bool_decide (t' = t) then inmem_page (plugged (store w)) else replicate (Z.to_nat BLCKSZ) x00, false)) /\
    plugged st' = plugged (store w) /\ routed own st' t.
Proof.
  intros Hr Et. destruct (small_open_routed (store w) t Hr) as (st' & E & Ep & Hr').
  exists st'. split; [| done]. unfold small_fetch. unfold sbind at 1, on_store at 1. rewrite Et. rewrite (sbind_Ok _ _ _ _ _ E).
  unfold smgrread. cbn. rewrite Ep. destruct Hr as [Ht _]. destruct t' as [l f b]. cbn in Et. subst l. cbn.
  rewrite (target_unique _ _ _ Ht). destruct st' as [rs x []]. cbn in Ep. by subst x.
Qed.

Lemma small_read_routed t t' w :
  routed own (store w) t -> t_rel t' = t_rel t ->
  exists st' p d, small_read t' RBM_NORMAL w = (mkWorld (<[t' := (p, d)]> (pool w)) st', Ok t') /\
    plugged st' = plugged (store w) /\ routed own st' t /\
    (t' = t -> p = small_visible w t /\ (d = true \/ p = inmem_page (plugged st'))).
Proof.
  intros Hr Et. unfold small_read, sbind at 1, sget. unfold small_visible. destruct (pool w !! t') as [p |] eqn:Ec.
  - eexists (store w), _, _. split; [reflexivity |]. split_and!; [done | apply Hr .. |]. intros <-. rewrite Ec. split; [done | by left].
  - destruct (small_fetch_routed t t' w Hr Et) as (st' & E & Ep & Hr').
    eexists st', _, _. rewrite (sbind_Ok _ _ _ _ _ E). split; [reflexivity |]. split_and!; [done | apply Hr' .. |].
    intros ->. cbn [fst snd]. rewrite bool_decide_true, Ec, Ep by done. split; [done | by right].
Qed.

Lemma small_release_routed t t' p w :
  routed own (store w) t -> t_rel t' = t_rel t -> pool w !! t' = Some (p, true) ->
  exists st', small_release t' w = mkWorld (delete t' (pool w)) st' /\ routed own st' t /\
    inmem_page (plugged st') = (if bool_decide (t' = t) then p else inmem_page (plugged (store w))).
Proof.
  intros Hr Et Hp. destruct (small_open_routed (store w) t Hr) as ([rs x []] & E & Ep & (Ht' & Hl' & Hd')). cbn in Ep. subst x.
  unfold small_release. rewrite Hp. unfold on_store. rewrite Et, (sbind_Ok _ _ _ _ _ E).
  destruct Hr as [Ht _]. destruct t' as [l f b]. cbn in Et. subst l. unfold smgrwrite, via, inmem_write, smod. cbn.
  rewrite (target_unique _ _ _ Ht). eexists. split; [reflexivity |]. unfold routed. cbn.
  case_bool_decide; (split; [split; [| done] | done]); [| done].
  apply is_target in Ht as [Ha ->]. by apply is_target.
Qed.

(** A page is changed in the pool and written back. *)
Lemma small_update_routed t t' p d p' w :
  routed own (store w) t -> t_rel t' = t_rel t -> pool w !! t' = Some (p, d) ->
  let w' := small_release t' (small_dirty t' (small_put t' p' w)) in
  routed own (store w') t /\ small_visible w' t = (if bool_decide (t' = t) then p' else small_visible w t).
Proof.
  intros Hr Et Hp w'. set (w1 := small_dirty t' (small_put t' p' w)) in *.
  assert (E1 : pool w1 !! t' = Some (p', true)).
  { cbn. unfold small_page. cbn. by rewrite lookup_insert_eq, lookup_insert_eq. }
  destruct (small_release_routed t t' p' w1 Hr Et E1) as (st' & E & Hr' & Ep). unfold w'. rewrite E. split; [exact Hr' |].
  unfold small_visible. cbn. rewrite Ep. case_bool_decide as Ht; [subst t'; by rewrite lookup_delete_eq |].
  by rewrite lookup_delete_ne, !lookup_insert_ne by done.
Qed.

#[export] Program Instance small_laws : PostgresLaws (gmap BufferTag (bytes * bool)) unit BufferTag edit := {|
  local := own;
  visible := small_visible;
  holds := small_holds;
  named body l := l = t_rel body.1;
  page_redo _ := edit_page
|}.
Next Obligation.
  intros w t [] Hr.
  - destruct (small_read_routed t t w Hr eq_refl) as (st' & p & d & E & Ep & Hr' & Hv). destruct (Hv eq_refl) as [Hp Hd].
    eexists _, t. split; [exact E |]. split; [exact Hr' |]. split; [split; [done |] | intros _].
    + eexists _, _. split; [cbn; by rewrite lookup_insert_eq | done].
    + unfold small_visible at 1. cbn. by rewrite lookup_insert_eq.
  - eexists _, t. split; [reflexivity |]. split; [exact Hr |]. split; [| done]. split; [done |].
    eexists _, _. split; [cbn; by rewrite lookup_insert_eq | done].
Qed.
Next Obligation. intros w b t c (-> & p & d & E & _). cbn. unfold small_page, small_visible. by rewrite E. Qed.
Next Obligation.
  intros w b t c p Hr (-> & p' & d & E & _) _. cbn. split; [exact Hr |]. split; [split; [done |] |].
  - eexists _, _. split; [cbn; by rewrite lookup_insert_eq | done].
  - unfold small_visible. cbn. by rewrite lookup_insert_eq.
Qed.
Next Obligation.
  intros w b t c Hr (-> & p & d & E & _). cbn. split; [exact Hr |]. unfold small_dirty, small_page. rewrite E. split; [split; [done |] |].
  - eexists _, _. split; [cbn; by rewrite lookup_insert_eq |]. intros _. by left.
  - unfold small_visible. rewrite E. cbn. by rewrite lookup_insert_eq.
Qed.
Next Obligation. intros w b t c Hr Hh. by cbn. Qed.
Next Obligation.
  intros w b t Hr (-> & p & d & E & Hs). cbn. destruct d.
  - destruct (small_release_routed t t p w Hr eq_refl E) as (st' & -> & Hr' & Ep). split; [exact Hr' |].
    unfold small_visible. cbn. rewrite Ep, E, lookup_delete_eq. by rewrite bool_decide_true.
  - destruct (Hs eq_refl) as [? | ->]; [done |]. unfold small_release, small_visible. rewrite E. cbn. split; [exact Hr |].
    by rewrite lookup_delete_eq.
Qed.
Next Obligation.
  intros id f d rd w t Hf Hrd Hn Hr Hl. cbn in Hf. case_test; [| done]. injection Hf as <-. unfold edit_page, edit_redo. rewrite Hrd.
  destruct (d_body d) as [t' [off b]]. specialize (Hn _ eq_refl). cbn in Hn. case_test; [by exists w |].
  destruct (small_read_routed t t' w Hr Hn) as (st' & p & dd & E & Ep & Hr' & Hv). rewrite (sbind_Ok _ _ _ _ _ E).
  set (w1 := mkWorld _ st'). eexists. split; [reflexivity |].
  assert (E1 : pool w1 !! t' = Some (p, dd)) by (cbn; by rewrite lookup_insert_eq).
  destruct (small_update_routed t t' p dd (<[Z.to_nat off := b]> (small_page t' w1)) w1 Hr' Hn E1) as [Hr2 Hv2].
  split; [exact Hr2 |]. cbn [visible]. rewrite Hv2. unfold small_page. rewrite E1. case_bool_decide as Ht.
  - destruct (Hv Ht) as [-> _]. done.
  - unfold small_visible. cbn. rewrite lookup_insert_ne by done. by rewrite Ep.
Qed.
Next Obligation.
  intros id rd t p Hp. unfold edit_page. destruct (rd_record rd) as [d |]; [| done]. destruct (d_body d) as [t' [off b]].
  case_test; [by apply (piece_text (2 ^ 20) no_room) |]. case_bool_decide; [| done]. unfold len in *. by rewrite length_insert.
Qed.
Next Obligation. intros rec lsn m. cbn. unfold edit_decode. by case_test. Qed.
Next Obligation. intros n. cbn. apply Z.mod_pos_bound. lia. Qed.

(** *** The processes at work *)

Definition small_program : RedoProgram (Redo (gmap BufferTag (bytes * bool)) unit edit) := redo_program (fun _ => small_boot).

(** A record that sets one byte of a block of relation 16384 of database 5. *)
Definition set_byte (blk : byte) (rmid : byte) (off : Z) (b : byte) : bytes :=
  le_bytes 4 44 ++ replicate 13 x00 ++ [rmid] ++ replicate 6 x00 ++
  be_bytes 4 1663 ++ be_bytes 4 5 ++ be_bytes 4 16384 ++ [x00] ++ [x00; x00; x00; blk] ++ be_bytes 2 off ++ [b].

Lemma small_boot_ok (n : nat) : on_disk_only local (store small_boot).
Proof.
  intros l. cbn. intros E. apply lookup_singleton_Some in E as [<- _]. by apply elem_of_singleton.
Qed.

Lemma set_byte_applicable lsn blk off b : in_u16 off -> applicable (mkLocator 1663 5 16384) (lsn, set_byte blk x0a off b).
Proof.
  intros Ho. split; [done |]. cbn [fst snd]. intros d Hd. cbn in Hd. injection Hd as <-. split; [| done]. intros l ->. reflexivity.
Qed.

(** A page started by one record and changed by others, with an edit in between and
    a record for another block of the relation; the first process has ended. *)
Lemma redo_backend_replays_records_witness :
  let key := mkPageKey (mkRelTag 1663 5 16384 Main) 0 in
  let vs := [(10, WalRec (mkWalRecord true (set_byte x00 x0a 0 x61))); (20, WalRec (mkWalRecord false (set_byte x07 x0a 0 x62)));
             (30, Delta [mkByteEdit 2 [x63]]); (40, WalRec (mkWalRecord false (set_byte x00 x0a 3 x64)))] in
  let H := small_program in
  let dead := mkRedo (small_boot, mkReader None 0 0) (mkInput [] false) false in
  exists st', reconstruct key 50 vs (mkPostgresRedo (Some (mkRedoProc dead [])) 1) =
    (st', Ok (Some ([x61; x00; x63; x64] ++ replicate (Z.to_nat 8188) x00))).
Proof.
  intros key vs H dead.
  destruct (redo_backend_replays_records (fun _ => small_boot) small_boot_ok key 50 vs (mkPostgresRedo (Some (mkRedoProc dead [])) 1))
    as (st' & E & _).
  - right. intros req. by eexists _, _.
  - split; [by_compute |]. cbn. intros Hc%elem_of_singleton. done.
  - do 4 (constructor; [split; [by repeat constructor | try (split; [by_compute | by apply set_byte_applicable]); done] |]). constructor.
  - by_compute.
  - exists st'. etransitivity; [exact E | vm_compute; reflexivity].
Defined.

(** ** What the code does not guard against *)

(** A hook that returns no table is said to select the standard manager; the null
    pointer is followed instead. *)
Lemma null_hook_crashes {X D} (plugin : f_smgr X) (md : f_smgr D) (st : Storage X D) l :
  relns st !! l = None -> (smgropen plugin md (Some (fun _ _ => None)) l st).2 = Panic.
Proof. intros E. unfold smgropen, sbind, sget. by rewrite E. Qed.

(** A relation opened before it became the target, by PostgreSQL's own start or by
    a record of an earlier request, stays with the disk: its page in memory is
    neither read nor written. *)
Lemma opened_early_stays_on_disk :
  let t := mkBufferTag pg_database 0 0 in
  let active := mkInmem true pg_database 0 0 (replicate (Z.to_nat BLCKSZ) x01) in
  let st := mkStorage (relns (store small_boot)) active tt in
  (small_open pg_database st).2 = Ok (mkSMgrRelation pg_database MagneticDisk) /\
  (on_store (let! reln := small_open pg_database in smgrread inmem_smgr no_disk reln 0 0) (mkWorld ∅ st)).2 = Err (text "no such file") /\
  walredo_smgr_hook active (t_rel t) = Some Plugin.
Proof. split_and!; vm_compute; reflexivity. Qed.

(** A block of another relation does not read back as zeros: it goes to the disk. *)
Lemma other_relations_go_to_disk :
  let active := mkInmem true (mkLocator 1663 5 16384) 0 0 (replicate (Z.to_nat BLCKSZ) x01) in
  let st := mkStorage ∅ active tt in
  (on_store (let! reln := small_open (mkLocator 1663 5 16385) in smgrread inmem_smgr no_disk reln 0 0) (mkWorld ∅ st)).2 =
  Err (text "no such file").
Proof. vm_compute; reflexivity. Qed.

(** Extending a relation with zeros clears the target although the relation is
    another one that was the target before, and does not clear it when it lies
    inside the new range. *)
Lemma zeroextend_checks_the_wrong_block :
  let a := mkLocator 1663 5 16384 in
  let b := mkLocator 1663 5 16385 in
  let page := replicate (Z.to_nat BLCKSZ) x01 in
  inmem_page (inmem_zeroextend (mkBufferTag a 0 3) 1 (mkInmem true b 0 3 page)).1 = replicate (Z.to_nat BLCKSZ) x00 /\
  inmem_page (inmem_zeroextend (mkBufferTag b 0 2) 5 (mkInmem true b 0 3 page)).1 = page.
Proof. split; vm_compute; reflexivity. Qed.

Definition one_record (rec : bytes) : RedoRequest := mkRedoRequest (mkRelTag 1663 5 16384 Main) 0 None [(10, rec)].

(** A record of a resource manager that does not exist ends the process without a
    reply; the page server starts another one for nothing, and reports a broken
    pipe rather than a failed redo. *)
Lemma unknown_manager_ends_process :
  let H := small_program in
  let req := one_record (set_byte x00 x7f 0 x61) in
  (exists b, redo_feed (redo_start small_boot) (RedoRequest_encode req) = Some (b, []) /\ rb_running b = false) /\
  let '(st, r) := redo_page (rq_rel req) (rq_blkno req) None (rq_records req) PostgresRedo_new in
  spawned st = 2%nat /\ proc st = None /\ r = Err (Process "read response header").
Proof. split; [eexists; split; [vm_compute; reflexivity | reflexivity] | vm_compute; repeat split; reflexivity]. Qed.

(** A request cut off by the end of the input is carried out as if it were whole:
    here neither the base page nor the number of records arrived. *)
Lemma truncated_request_is_answered :
  let req := mkRedoRequest (mkRelTag 1663 5 16384 Main) 0 (Some (replicate (Z.to_nat BLCKSZ) x01)) [(10, set_byte x00 x0a 0 x61)] in
  match redo_feed (redo_start small_boot) (take 28 (RedoRequest_encode req)) with
  | Some (b, out) => out = [] /\ rb_running b = true /\ (redo_hang_up b).2 = write_page_response zero_page
  | None => False
  end.
Proof. vm_compute. split_and!; reflexivity. Qed.

(** The error for a record of less than four bytes quotes memory past its end. *)
Lemma short_record_reads_past_end `{Postgres P D B Body} : xl_tot_len [] = le_val (take 4 (uninit 24)).
Proof. reflexivity. Qed.
