(* ===== verification/Startup.v ===== *)
(** Start-up of the three servers (src/pageserver/src/main.rs,
    src/safekeeper/src/main.rs, src/proxy/src/main.rs and tls.rs) from their parsed
    arguments, and the cloud object stores a page server can be started on
    (src/pageserver/src/objstore.rs).  The object storage client, binding a socket,
    parsing of socket addresses and the TLS library are parameters. *)

From S2P Require Import Prelude Bytes BTree Text Common PageVersion Layer WalRedo Repository WalDecode WalIngest Timeline Tenant.
From S2P Require Import TenantManager ObjStore Catalog Offload WalReceiver Control Http.
From S2P Require Import Consensus WalStorage Safekeeper Compute Proxy.

(** ** Cloud object stores *)

(** The errors of the client, of which the stores tell one apart. *)
Inductive CloudError := CloudNotFound | CloudFailed.

(** The client: [Path::from], and the operations of a backend; [get] gives a handle
    the bytes are read from. *)
Class CloudBackend (C H : Type) := {
  Path_from : bytes -> bytes;
  cb_put : bytes -> bytes -> stateM C CloudError unit;
  cb_get : bytes -> stateM C CloudError H;
  cb_bytes : H -> stateM C CloudError bytes;
  cb_list : bytes -> stateM C CloudError (list bytes);
  cb_delete : bytes -> stateM C CloudError unit
}.

Section Cloud.
Context {C H : Type} `{CloudBackend C H}.

Definition wrap {A : Type} (f : CloudError -> StoreError) (m : stateM C CloudError A) : stateM C StoreError A := fun c =>
  let '(c, r) := m c in (c, map_err f r).

Definition get_error (e : CloudError) : StoreError := match e with CloudNotFound => NoObject | CloudFailed => StoreIo end.

Definition cloud_put (key v : bytes) : stateM C StoreError unit := wrap (fun _ => StoreIo) (cb_put (Path_from key) v).

Definition cloud_get (key : bytes) : stateM C StoreError bytes :=
  let! result := wrap get_error (cb_get (Path_from key)) in
  wrap (fun _ => StoreIo) (cb_bytes result).

Definition cloud_list (prefix : bytes) : stateM C StoreError (list bytes) :=
  let! metas := wrap (fun _ => StoreIo) (cb_list (Path_from prefix)) in
  sret (sort_key id metas).

(** A missing object is deleted already. *)
Definition cloud_delete (key : bytes) : stateM C StoreError unit := fun c =>
  match cb_delete (Path_from key) c with
  | (c, Err CloudNotFound) => (c, Ok tt)
  | (c, r) => (c, map_err (fun _ => StoreIo) r)
  end.

Definition CloudStore : ObjectStore C := {|
  os_put := cloud_put;
  os_get := cloud_get;
  os_list := cloud_list;
  os_delete := cloud_delete
|}.

(** [S3ObjectStore] has the same operations, with other texts in its errors. *)
Definition S3Store : ObjectStore C := CloudStore.
End Cloud.

(** What the client promises, for keys its paths keep as they are: a backend is a map
    of objects, and a failed operation has taken effect or not. *)
Class CloudLaws (C H : Type) `{CloudBackend C H} := {
  cloud_objects : C -> gmap bytes bytes;
  contents : H -> bytes;
  kept_key : bytes -> Prop;
  kept_path key : kept_key key -> Path_from key = key;
  cb_put_law p v c :
    runs (cb_put p v) c (fun _ c' => cloud_objects c' = <[p := v]> (cloud_objects c))
      (fun _ c' => cloud_objects c' = cloud_objects c \/ cloud_objects c' = <[p := v]> (cloud_objects c));
  cb_get_law p c :
    runs (cb_get p) c (fun h c' => cloud_objects c !! p = Some (contents h) /\ cloud_objects c' = cloud_objects c)
      (fun e c' => cloud_objects c' = cloud_objects c /\ (e = CloudNotFound -> cloud_objects c !! p = None));
  cb_bytes_law h c :
    runs (cb_bytes h) c (fun v c' => v = contents h /\ cloud_objects c' = cloud_objects c)
      (fun _ c' => cloud_objects c' = cloud_objects c);
  cb_delete_law p c :
    runs (cb_delete p) c (fun _ c' => cloud_objects c' = delete p (cloud_objects c))
      (fun e c' => match e with
                   | CloudNotFound => cloud_objects c' = cloud_objects c /\ cloud_objects c !! p = None
                   | CloudFailed => cloud_objects c' = cloud_objects c \/ cloud_objects c' = delete p (cloud_objects c)
                   end)
}.

Section Cloud_laws.
Context {C H : Type} `{CloudLaws C H}.

Lemma runs_wrap {A : Type} f (m : stateM C CloudError A) c Q R R' :
  runs m c Q R -> (forall e c', R e c' -> R' (f e) c') -> runs (wrap f m) c Q R'.
Proof. unfold runs, wrap. intros Hm Hf. destruct (m c) as [c' [a | e |]]; cbn; [done | by apply Hf | done]. Qed.

(** A cloud store is an object store, so what is shown of the offload worker, the
    catalog and restarts holds on it. *)
#[export] Program Instance CloudStoreLaws : @ObjectStoreLaws C CloudStore := {|
  objects := cloud_objects;
  plain_key := kept_key
|}.
Next Obligation.
  intros key v c Hk. cbn. unfold cloud_put. rewrite kept_path by done. eapply runs_wrap; [apply cb_put_law | done].
Qed.
Next Obligation.
  intros key c Hk. cbn. unfold cloud_get. rewrite kept_path by done.
  eapply runs_bind with (Q' := fun h c' => cloud_objects c !! key = Some (contents h) /\ cloud_objects c' = cloud_objects c).
  - eapply runs_wrap; [apply cb_get_law |]. cbn beta. intros [] c' [Ho He]; (split; [done |]); [by auto | done].
  - intros h c1 [Hg Ho]. eapply runs_wrap; [eapply runs_conseq; [apply cb_bytes_law | |] |].
    + cbn beta. intros v c' [-> E]. split; [done | congruence].
    + cbn beta. intros e c' E. exact (eq_trans E Ho).
    + cbn beta. by intros e c' E.
Qed.
Next Obligation.
  intros key c Hk. cbn. unfold cloud_delete. rewrite kept_path by done. pose proof (cb_delete_law key c) as Hd. unfold runs in *.
  destruct (cb_delete key c) as [c' [[] | [] |]]; [done | | done | done].
  destruct Hd as [-> Hn]. symmetry. by apply delete_id.
Qed.
End Cloud_laws.

(** *** Which store a URL names *)

(** [s.split_once(pat)] *)
Fixpoint split_once_str (pat s : bytes) : option (bytes * bytes) :=
  match strip_prefix pat s, s with
  | Some rest, _ => Some ([], rest)
  | None, b :: s' => '(l, r) ← split_once_str pat s'; Some (b :: l, r)
  | None, [] => None
  end.

(** An environment variable that is set to one or true. *)
Definition env_flag (v : option bytes) : bool :=
  match v with Some v => bool_decide (v = text "1") || eq_ignore_ascii_case v (text "true") | None => false end.

(** The clients [from_url] and [S3ObjectStore::new] configure. *)
Inductive CloudConfig :=
| AmazonS3 (url : bytes) (allow_http : bool)
| AmazonS3Keyed (endpoint bucket region access_key secret_key : bytes) (allow_http : bool)
| MicrosoftAzure (url : bytes) (allow_http use_emulator : bool)
| GoogleCloudStorage (url : bytes).

Definition url_scheme (url : bytes) : bytes :=
  ascii_lower <$> match split_once_str (text "://") url with Some (s, _) => s | None => [] end.

Definition from_url (env_allow_http env_emulator : option bytes) (url : bytes) : outcome bytes CloudConfig :=
  let scheme := url_scheme url in
  let named s := bool_decide (scheme = text s) in
  if named "s3" then Ok (AmazonS3 url (env_flag env_allow_http))
  else if named "az" || named "azure" || named "abfs" || named "abfss" then
    Ok (MicrosoftAzure url (env_flag env_allow_http) (env_flag env_emulator))
  else if named "gs" then Ok (GoogleCloudStorage url)
  else Err (text "unsupported object-store URL scheme").

Definition S3ObjectStore_new (endpoint bucket region access_key secret_key : bytes) : CloudConfig :=
  AmazonS3Keyed endpoint bucket region access_key secret_key (starts_with (text "http://") endpoint).

(** ** The page server (pageserver/src/main.rs) *)

(** Addresses are kept as text. *)
Record PsArgs := mkPsArgs {
  ps_listen : bytes;
  ps_ingest_listen : bytes;
  ps_safekeeper : option bytes;
  ps_wal_start_lsn : Lsn;
  ps_object_dir : bytes;
  ps_object_store_url : option bytes;
  ps_s3_endpoint : option bytes;
  ps_s3_bucket : option bytes;
  ps_s3_region : bytes;
  ps_s3_access_key : bytes;
  ps_s3_secret_key : bytes;
  ps_freeze_threshold : Z;
  ps_offload_tick_secs : Z;
  ps_metrics_listen : bytes;
  ps_control_listen : bytes;
  ps_http_listen : bytes;
  ps_wal_redo : option bytes;
  ps_wal_redo_datadir : bytes;
  ps_wal_redo_db : bytes;
  ps_control_token : option bytes
}.

Inductive StoreChoice := CloudChoice (c : CloudConfig) | LocalChoice (dir : bytes).

(** The most specific choice first. *)
Definition select_store (env_allow_http env_emulator : option bytes) (a : PsArgs) : outcome bytes StoreChoice :=
  match ps_object_store_url a with
  | Some url => let? c := from_url env_allow_http env_emulator url in Ok (CloudChoice c)
  | None =>
      match ps_s3_endpoint a, ps_s3_bucket a with
      | Some endpoint, Some bucket =>
          Ok (CloudChoice (S3ObjectStore_new endpoint bucket (ps_s3_region a) (ps_s3_access_key a) (ps_s3_secret_key a)))
      | _, _ => Ok (LocalChoice (ps_object_dir a))
      end
  end.

(** The redo program and its arguments, [None] for the native backend. *)
Definition select_redo (a : PsArgs) : option (bytes * list bytes) :=
  match ps_wal_redo a with
  | Some postgres => Some (postgres, [text "--wal-redo"; text "-D"; ps_wal_redo_datadir a; ps_wal_redo_db a])
  | None => None
  end.

(** What is started, in this order; all of it serves the same tenants. *)
Inductive PsService :=
| MetricsEndpoint (addr : bytes)
| OffloadWorker (tick_secs : Z)
| IngestEndpoint (addr : bytes) (timeline : taddr)
| ControlEndpoint (addr : bytes) (token : option bytes)
| HttpEndpoint (addr : bytes) (token : option bytes)
| WalPuller (safekeeper : bytes) (timeline : taddr) (cfg : WalReceiverConfig)
| PageEndpoint (addr : bytes).

Definition bound_address (s : PsService) : option bytes :=
  match s with
  | MetricsEndpoint a | IngestEndpoint a _ | ControlEndpoint a _ | HttpEndpoint a _ | PageEndpoint a => Some a
  | OffloadWorker _ | WalPuller _ _ _ => None
  end.

Definition ps_services (a : PsArgs) (root : taddr) : list PsService :=
  [MetricsEndpoint (ps_metrics_listen a); OffloadWorker (ps_offload_tick_secs a); IngestEndpoint (ps_ingest_listen a) root;
   ControlEndpoint (ps_control_listen a) (ps_control_token a); HttpEndpoint (ps_http_listen a) (ps_control_token a)] ++
  match ps_safekeeper a with
  | Some sk => [WalPuller sk root (WalReceiverConfig_new Id_ZERO Id_ZERO (ps_wal_start_lsn a))]
  | None => []
  end ++ [PageEndpoint (ps_listen a)].

Inductive PsError := NoStore (e : bytes) | NoRoot (e : TenantError) | BindFailed (addr : bytes).

Section Services.
Context (can_bind : bytes -> bool).

(** Services whose address can be bound are started; the first that cannot ends the
    start-up, with those before it running. *)
Fixpoint start_services (l : list PsService) : list PsService * outcome PsError unit :=
  match l with
  | [] => ([], Ok tt)
  | s :: l' =>
      match bound_address s with
      | Some addr =>
          if can_bind addr then let '(started, r) := start_services l' in (s :: started, r)
          else ([], Err (BindFailed addr))
      | None => let '(started, r) := start_services l' in (s :: started, r)
      end
  end.
End Services.

(** The address of the root timeline, which [start_tenants] has made sure of. *)
Definition root_timeline (tm : TenantManager) : option taddr :=
  tn ← tenant_of tm Id_ZERO; get_timeline tn Id_ZERO.

Record PsRunning {S : Type} := mkPsRunning {
  pr_store : option S;
  pr_tenants : option TenantManager;
  pr_redo : option (bytes * list bytes);
  pr_services : list PsService
}.
Arguments PsRunning S : clear implicits.
Arguments mkPsRunning {S}.

Section Pageserver.
Context {S : Type} `{ObjectStore S} `{CatalogJson} `{HashOrder}.
Context (open_store : StoreChoice -> outcome bytes S) (can_bind : bytes -> bool) (env_allow_http env_emulator : option bytes).

Definition pageserver_main (a : PsArgs) : PsRunning S * outcome PsError unit :=
  match (let? c := select_store env_allow_http env_emulator a in open_store c) with
  | Ok s =>
      let redo := select_redo a in
      match start_tenants (ps_freeze_threshold a) s with
      | (s', Ok tm) =>
          match root_timeline tm with
          | Some root =>
              let '(started, r) := start_services can_bind (ps_services a root) in
              (mkPsRunning (Some s') (Some tm) redo started, r)
          | None => (mkPsRunning (Some s') (Some tm) redo [], Panic)
          end
      | (s', Err e) => (mkPsRunning (Some s') None redo [], Err (NoRoot e))
      | (s', Panic) => (mkPsRunning (Some s') None redo [], Panic)
      end
  | Err e => (mkPsRunning None None None [], Err (NoStore e))
  | Panic => (mkPsRunning None None None [], Panic)
  end.
End Pageserver.

Lemma start_services_all can_bind l : (forall addr, can_bind addr = true) -> start_services can_bind l = (l, Ok tt).
Proof. intros Hb. induction l as [| s l IH]; [done |]. cbn. rewrite IH. destruct (bound_address s); by rewrite ?Hb. Qed.

(** Whatever fails, services start in order, and only once the topology is there. *)
Lemma start_services_prefix can_bind l : (start_services can_bind l).1 `prefix_of` l.
Proof.
  induction l as [| s l IH]; [done |]. cbn. destruct (bound_address s) as [a |]; [destruct (can_bind a) |];
    try (destruct (start_services can_bind l); by apply prefix_cons). apply prefix_nil.
Qed.

Section Started.
Context {S} `{HS : ObjectStore S, !ObjectStoreLaws S} `{HJ : CatalogJson} `{HO : HashOrder}.
Hypothesis json_round_trip : forall c, exists bs, to_vec_pretty c = Some bs /\ from_slice bs = Some c.
Hypothesis catalog_key_plain : plain_key CATALOG_KEY.

(** A page server started on a store that holds the catalog of another one, on any
    kind of store, comes up with the same tenants, timelines and branch points; when
    every address can be bound all of its services run, both management endpoints
    behind the same token, and the pushed and the pulled WAL go to the same
    timeline. *)
Lemma started_server_serves_catalog open_store can_bind e1 e2 a c (s : S) tm :
  select_store e1 e2 a = Ok c -> open_store c = Ok s -> (forall addr, can_bind addr = true) ->
  catalog_holds s tm -> has_root tm -> is_ok (os_get CATALOG_KEY s).2 = true ->
  exists s' tm' root, pageserver_main open_store can_bind e1 e2 a =
      (mkPsRunning (Some s') (Some tm') (select_redo a) (ps_services a root), Ok tt) /\
    manager_wf tm' /\ same_topology tm tm' /\ root_timeline tm' = Some root /\
    exists tmx, catalog_holds s' tmx /\ same_topology tm tmx.
Proof.
  intros Hc Hs Hb Hcat Hroot Hok.
  destruct (restart_keeps_topology json_round_trip catalog_key_plain tm s (ps_freeze_threshold a) Hcat Hroot Hok)
    as (s' & tm' & E & Hwf & Hsame & (tn & Ht & Hr) & Hx).
  assert (Hroot' : exists root, root_timeline tm' = Some root).
  { unfold root_timeline. rewrite Ht. cbn. pose proof (tenant_of_wf tm' Id_ZERO tn Hwf Ht) as Htn. unfold get_timeline.
    destruct (timelines tn !! Id_ZERO) as [r |] eqn:Er; [by exists r | by apply (topo_None _ _ (tw_ok _ Htn)) in Er]. }
  destruct Hroot' as [root Er]. exists s', tm', root. unfold pageserver_main. rewrite Hc. cbn [bind]. rewrite Hs, E, Er.
  by rewrite start_services_all.
Qed.
End Started.

(** *** A backend in memory

    Each call may fail, before or after it takes effect; paths lose empty segments,
    and a prefix matches whole segments, as the client documents. *)
Record MemCloud := mkMemCloud {
  mc_objects : gmap bytes bytes;
  mc_calls : nat
}.

Inductive cloud_fault := Works | FailsBefore | FailsAfter.

Definition mem_path (key : bytes) : bytes := join_char slash (List.filter (fun s => negb (bool_decide (s = []))) (split_str [slash] key)).

Section Memory.
Context (fault : nat -> cloud_fault).

Definition mem_call {A : Type} (f : gmap bytes bytes -> gmap bytes bytes) (a : outcome CloudError A) : stateM MemCloud CloudError A := fun c =>
  match fault (mc_calls c) with
  | Works => (mkMemCloud (f (mc_objects c)) (S (mc_calls c)), a)
  | FailsBefore => (mkMemCloud (mc_objects c) (S (mc_calls c)), Err CloudFailed)
  | FailsAfter => (mkMemCloud (f (mc_objects c)) (S (mc_calls c)), Err CloudFailed)
  end.

#[export] Instance mem_backend : CloudBackend MemCloud bytes := {|
  Path_from := mem_path;
  cb_put p v := mem_call (insert p v) (Ok tt);
  cb_get p := fun c => mem_call id (ok_or (mc_objects c !! p) CloudNotFound) c;
  cb_bytes h := mem_call id (Ok h);
  cb_list p := fun c => mem_call id (Ok (List.filter (fun k => bool_decide (p = []) || starts_with (p ++ [slash]) k) (map_to_list (mc_objects c)).*1)) c;
  cb_delete p := fun c => match mc_objects c !! p with
                          | Some _ => mem_call (delete p) (Ok tt) c
                          | None => mem_call id (Err CloudNotFound) c
                          end
|}.

#[export] Program Instance mem_laws : CloudLaws MemCloud bytes := {|
  cloud_objects := mc_objects;
  contents h := h;
  kept_key key := mem_path key = key
|}.
Next Obligation. done. Qed.
Next Obligation. intros p v c. unfold runs, cb_put. cbn. unfold mem_call. destruct (fault _); cbn; [done | by left | by right]. Qed.
Next Obligation.
  intros p c. unfold runs, cb_get. cbn. unfold mem_call. destruct (fault _); cbn; [| done | done].
  by destruct (mc_objects c !! p) eqn:E.
Qed.
Next Obligation. intros h c. unfold runs, cb_bytes. cbn. unfold mem_call. by destruct (fault _). Qed.
Next Obligation.
  intros p c. unfold runs, cb_delete. cbn. unfold mem_call.
  destruct (mc_objects c !! p) eqn:E; destruct (fault _); cbn; first [done | by left | by right].
Qed.
End Memory.

(** A page server started on a cloud store that holds its catalog. *)
Lemma cloud_server_starts :
  let fault := fun _ : nat => Works in
  let args := mkPsArgs (text "0.0.0.0:6400") (text "0.0.0.0:6401") None 0 (text ".data") (Some (text "S3://layers")) None None [] [] [] 5 10
    (text "0.0.0.0:9400") (text "0.0.0.0:6402") (text "0.0.0.0:6403") None [] [] (Some (text "secret")) in
  let store := mkMemCloud {[ CATALOG_KEY := default [] (@to_vec_pretty bit_json (snapshot root_manager)) ]} 0 in
  let opened c := match c with CloudChoice (AmazonS3 _ _) => Ok store | _ => Err (text "no such store") end in
  exists s' tm' root, @pageserver_main _ (@CloudStore _ _ (mem_backend fault)) bit_json _ opened (fun _ => true) None None args =
      (mkPsRunning (Some s') (Some tm') None (ps_services args root), Ok tt) /\ same_topology root_manager tm'.
Proof.
  intros fault args store opened.
  destruct (@started_server_serves_catalog _ (@CloudStore _ _ (mem_backend fault)) (@CloudStoreLaws _ _ _ (mem_laws fault)) bit_json default_order
    bit_json_round_trip ltac:(vm_compute; reflexivity) opened (fun _ => true) None None args (CloudChoice (AmazonS3 (text "S3://layers") false))
    store root_manager) as (s' & tm' & root & E & _ & Hs & _).
  - vm_compute; reflexivity.
  - reflexivity.
  - done.
  - split; [exact root_manager_wf |]. eexists. split; [reflexivity |]. apply lookup_singleton_eq.
  - exact root_manager_has_root.
  - vm_compute; reflexivity.
  - exists s', tm', root. split; [exact E | exact Hs].
Qed.

(** The trait lists the keys that begin with a prefix; a cloud store those below it. *)
Lemma stores_list_differently :
  let key := layer_key 7 in
  let prefix := text "layers/000" in
  (@os_list _ (LocalStore (fun _ => None)) prefix (mkLocalObjectStore {[ key := [] ]} 0)).2 = Ok [key] /\
  (@os_list _ (@CloudStore _ _ (mem_backend (fun _ => Works))) prefix (mkMemCloud {[ key := [] ]} 0)).2 = Ok [].
Proof. split; vm_compute; reflexivity. Qed.

(** The setting that permits plain HTTP is not passed on for Google's storage. *)
Lemma gs_ignores_allow_http url e :
  url_scheme url = text "gs" -> from_url (Some (text "1")) e url = from_url None e url.
Proof. intros E. unfold from_url. by rewrite E. Qed.

(** One life of a server: it starts, a page version arrives, and its layer is
    offloaded. *)
Definition one_life (b : byte) (s : LocalObjectStore) : LocalObjectStore :=
  let store := LocalStore (fun _ => None) in
  match @start_tenants _ store bit_json _ 1 s with
  | (s, Ok tm) =>
      let tm := (in_tenant 0 (in_arena (Timeline_ingest 0 [mkModification demo_rel 0 10 (Delta [mkByteEdit 0 [b]])])) tm).1 in
      (@offload_all _ store WalDecodeError _ (tm, s)).1.2
  | (s, _) => s
  end.

(** A restarted server numbers its layers from zero again: the first one it freezes
    is stored over the first one of its former life. *)
Lemma restart_overwrites_layers :
  let stored s := match local_objects s !! layer_key 0 with Some v => Layer_deserialize v | None => Panic end in
  let layer b := Ok (Layer_new 0 [(mkPageKey demo_rel 0, 10, Delta [mkByteEdit 0 [b]])]) in
  let s := one_life x61 empty_store in
  stored s = layer x61 /\ stored (one_life x62 s) = layer x62 /\ size (local_objects (one_life x62 s)) = size (local_objects s).
Proof. split_and!; vm_compute; reflexivity. Qed.

(** ** The safekeeper (safekeeper/src/main.rs) *)

Record SkArgs := mkSkArgs {
  sk_listen : bytes;
  sk_node_id : NodeId;
  sk_members : list NodeId;
  sk_peer_addrs : list bytes;
  sk_segment_size : Z;
  sk_ring_bytes : Z;
  sk_metrics_listen : bytes
}.

Inductive SkError :=
| SkStart (e : StartError)
| BadPeer (spec : bytes)
| SkBind (addr : bytes).

Section Safekeeper_main.
Context {Addr : Type} (parse_addr : bytes -> option Addr) (can_bind : bytes -> bool) (fault : nat -> option Z).

Inductive ReplicatorChoice := SimulatedPeers (peers : list NodeId) | NetworkPeers (peers : list (NodeId * Addr)).

(** [id=host:port] *)
Definition parse_peer (spec : bytes) : outcome SkError (NodeId * Addr) :=
  let? parts := ok_or (split_once (z2b 61) spec) (BadPeer spec) in
  let? node := ok_or (parse_u64 parts.1) (BadPeer spec) in
  let? a := ok_or (parse_addr parts.2) (BadPeer spec) in
  Ok (node, a).

Fixpoint parse_peers (specs : list bytes) : outcome SkError (list (NodeId * Addr)) :=
  match specs with
  | [] => Ok []
  | spec :: specs' =>
      let? p := parse_peer spec in
      let? ps := parse_peers specs' in
      Ok (p :: ps)
  end.

Definition choose_replicator (a : SkArgs) (members : list NodeId) : outcome SkError ReplicatorChoice :=
  match sk_peer_addrs a with
  | [] => Ok (SimulatedPeers (peers_of (sk_node_id a) members))
  | specs => let? targets := parse_peers specs in Ok (NetworkPeers targets)
  end.

Definition sk_group (a : SkArgs) : list NodeId := match sk_members a with [] => [sk_node_id a] | _ => sk_members a end.

Definition safekeeper_main (a : SkArgs) : stateM Disk SkError (Safekeeper * ReplicatorChoice) := fun d =>
  match start_node fault (mkWalConfig (sk_segment_size a) (sk_ring_bytes a)) (sk_node_id a) (sk_members a) d with
  | (d, Ok sk) =>
      (d, let? r := choose_replicator a (sk_group a) in
          ensure can_bind (sk_metrics_listen a) else SkBind (sk_metrics_listen a) in
          ensure can_bind (sk_listen a) else SkBind (sk_listen a) in
          Ok (sk, r))
  | (d, Err e) => (d, Err (SkStart e))
  | (d, Panic) => (d, Panic)
  end.

(** A started node belongs to its group, and replicates to the others of it or to
    the peers it was given, one for every specification. *)
Lemma started_node_knows_its_peers a d d' sk r :
  safekeeper_main a d = (d', Ok (sk, r)) ->
  sk_node_id a ∈ sk_group a /\ members (consensus sk) = sk_group a /\
  match r with
  | SimulatedPeers ps => sk_peer_addrs a = [] /\ forall p, p ∈ ps <-> p ∈ sk_group a /\ p <> sk_node_id a
  | NetworkPeers ps => Forall2 (fun spec p => parse_peer spec = Ok p) (sk_peer_addrs a) ps
  end.
Proof.
  unfold safekeeper_main, start_node. cbv zeta. fold (sk_group a).
  assert (Hps : forall specs ps, parse_peers specs = Ok ps -> Forall2 (fun spec p => parse_peer spec = Ok p) specs ps).
  { induction specs as [| s specs IH]; cbn [parse_peers]; [intros ps [= <-]; constructor |]. intros ps.
    destruct (parse_peer s) as [p | |] eqn:Ep; [| done | done]. cbn [bind].
    destruct (parse_peers specs) as [l | |]; [| done | done]. intros [= <-]. constructor; [done | by apply IH]. }
  destruct (existsb (Z.eqb (sk_node_id a)) (sk_group a)) eqn:Em; [| done].
  apply existsb_exists in Em as (m & Hm & <-%Z.eqb_eq).
  destruct (WalStorage_open fault _ d) as [d1 [s | |]]; [| done | done].
  unfold Consensus_new. case_bool_decide as Hin; [| done]. cbn [bind]. unfold choose_replicator.
  destruct (sk_peer_addrs a) as [| spec specs] eqn:Ea.
  - cbn [bind]. case_test; [| done]. case_test; [| done]. intros [= <- <- <-]. split; [done |]. split; [done |]. split; [done |].
    intros p. unfold peers_of. rewrite !list_elem_of_In, filter_In, negb_true_iff, Z.eqb_neq. done.
  - destruct (parse_peers (spec :: specs)) as [ps | |] eqn:Ep; [| done | done]. cbn [bind]. case_test; [| done]. case_test; [| done].
    intros [= <- <- <-]. split; [done |]. split; [done |]. by apply Hps.
Qed.
End Safekeeper_main.

(** The group is not checked for repeated members: a node that is listed twice is a
    majority of three by itself. *)
Lemma repeated_member_commits_alone :
  let args := mkSkArgs (text "0.0.0.0:6500") 1 [1; 1; 2] [text "2=10.0.0.2:6500"] 64 64 (text "0.0.0.0:9500") in
  match safekeeper_main Some (fun _ => true) (fun _ => None) args empty_disk with
  | (_, Ok (sk, _)) => commit_lsn (record_flush (consensus sk) 1 10) = 10
  | _ => False
  end.
Proof. vm_compute. reflexivity. Qed.

(** ** The proxy (proxy/src/main.rs, tls.rs) *)

Record ProxyArgs := mkProxyArgs {
  px_listen : bytes;
  px_tenants : list bytes;
  px_start_command : option bytes;
  px_stop_command : option bytes;
  px_kube_namespace : option bytes;
  px_kube_name_template : bytes;
  px_wake_budget_ms : Z;
  px_idle_secs : Z;
  px_reap_tick_secs : Z;
  px_metrics_listen : bytes;
  px_control_listen : option bytes;
  px_backend_template : bytes;
  px_tls_cert : option bytes;
  px_tls_key : option bytes
}.

Inductive ActivatorChoice := Kubernetes (namespace template : bytes) | ShellOrNoop (k : ActivatorKind).

Inductive PxService :=
| PxReaper (idle_after tick : Z)
| PxMetrics (addr : bytes)
| PxControl (addr template : bytes)
| PxClients (addr : bytes).

Inductive PxError := BadTenant (spec : bytes) | HalfCommand | NoKube | BadTls (what : string) | PxBind (addr : bytes).

(** The TLS library: the certificates and the key in PEM text, and a configuration
    made of them. *)
Class TlsLibrary (Cert Key : Type) := {
  pem_certs : bytes -> option (list Cert);
  pem_key : bytes -> option (option Key);
  server_config : list Cert -> Key -> bool
}.

Section Proxy_main.
Context {Cert Key : Type} `{TlsLibrary Cert Key}.
Context (read_file : bytes -> option bytes) (kube_connect : bytes -> bool) (can_bind : bytes -> bool).

Definition acceptor_from_pem_bytes (cert_pem key_pem : bytes) : outcome PxError unit :=
  let? certs := ok_or (pem_certs cert_pem) (BadTls "parsing TLS certificate chain") in
  ensure negb (bool_decide (length certs = 0%nat)) else BadTls "no certificates found in the cert PEM" in
  let? key := ok_or (pem_key key_pem) (BadTls "parsing TLS private key") in
  let? key := ok_or key (BadTls "no private key found in the key PEM") in
  ensure server_config certs key else BadTls "building the rustls server config" in
  Ok tt.

Definition acceptor_from_pem (cert_path key_path : bytes) : outcome PxError unit :=
  let? cert_pem := ok_or (read_file cert_path) (BadTls "reading TLS cert") in
  let? key_pem := ok_or (read_file key_path) (BadTls "reading TLS key") in
  acceptor_from_pem_bytes cert_pem key_pem.

Fixpoint parse_tenants (specs : list bytes) (now : Z) : outcome PxError (list (bytes * TenantState)) :=
  match specs with
  | [] => Ok []
  | spec :: specs' =>
      let? e := ok_or (parse_tenant spec now) (BadTenant spec) in
      let? es := parse_tenants specs' now in
      Ok (e :: es)
  end.

Definition select_activator (a : ProxyArgs) : outcome PxError ActivatorChoice :=
  match px_kube_namespace a with
  | Some ns => ensure kube_connect ns else NoKube in Ok (Kubernetes ns (px_kube_name_template a))
  | None => let? k := ok_or (command_or_noop (px_start_command a) (px_stop_command a)) HalfCommand in Ok (ShellOrNoop k)
  end.

Definition select_tls (a : ProxyArgs) : outcome PxError bool :=
  match px_tls_cert a, px_tls_key a with
  | Some cert, Some key => let? _ := acceptor_from_pem cert key in Ok true
  | _, _ => Ok false
  end.

(** Nanoseconds, as everywhere in the model of the proxy. *)
Definition proxy_main (a : ProxyArgs) (now : Z) : outcome PxError (Shared * Proxy * ActivatorChoice * list PxService) :=
  let? entries := parse_tenants (px_tenants a) now in
  let registry := registry_from entries now in
  let? activator := select_activator a in
  let? tls := select_tls a in
  let proxy := mkProxy (px_wake_budget_ms a * 10 ^ 6) HealthConfig_interval tls in
  let reaper := PxReaper (px_idle_secs a * 10 ^ 9) (px_reap_tick_secs a * 10 ^ 9) in
  ensure can_bind (px_metrics_listen a) else PxBind (px_metrics_listen a) in
  let? control := match px_control_listen a with
                  | Some addr => ensure can_bind addr else PxBind addr in Ok [PxControl addr (px_backend_template a)]
                  | None => Ok []
                  end in
  ensure can_bind (px_listen a) else PxBind (px_listen a) in
  Ok (registry, proxy, activator, [reaper; PxMetrics (px_metrics_listen a)] ++ control ++ [PxClients (px_listen a)]).

Definition fresh_tenant (st : TenantState) : Prop := running st = false /\ active_conns st = 0 /\ scram st = None.

Lemma parse_tenants_fresh specs now : forall es, parse_tenants specs now = Ok es -> Forall (fun e => fresh_tenant e.2) es.
Proof.
  induction specs as [| spec specs IH]; intros es; cbn [parse_tenants]; [intros [= <-]; constructor |].
  destruct (parse_tenant spec now) as [[n st] |] eqn:E; [| done]. cbn [ok_or bind].
  destruct (parse_tenants specs now) as [l | |]; [| done | done]. intros [= <-]. constructor; [| by apply IH].
  unfold parse_tenant in E. destruct (split_once (z2b 61) spec) as [[name addr] |]; [| done]. cbn [mbind option_bind] in E.
  destruct (contains (text ":") addr); [| done]. by injection E as _ <-.
Qed.

Lemma registry_from_heap (Q : TenantState -> Prop) es now :
  Forall (fun e => Q e.2) es -> Forall Q (sh_heap (registry_from es now)).
Proof.
  intros He. unfold registry_from.
  assert (Hg : forall s, Forall Q (sh_heap s) -> Forall Q (sh_heap (fold_left (fun s e => registry_register e.1 e.2 s) es s))); [| by apply Hg].
  induction He as [| e es H1 _ IH]; intros s Hs; [done |]. cbn [fold_left]. apply IH. cbn. apply Forall_app. by split; [| constructor].
Qed.

(** Every tenant of a started proxy is asleep, without connections, and without a
    password verifier: the arguments give no way to set one. *)
Lemma started_tenants_unguarded a now sh px act svs st :
  proxy_main a now = Ok (sh, px, act, svs) -> st ∈ sh_heap sh -> fresh_tenant st.
Proof.
  unfold proxy_main. destruct (parse_tenants (px_tenants a) now) as [es | |] eqn:Ep; [| done | done]. cbn [bind]. cbv zeta.
  destruct (select_activator a); cbn [bind]; [| done | done]. destruct (select_tls a); cbn [bind]; [| done | done].
  case_test; [| done].
  destruct (match px_control_listen a with Some _ => _ | None => _ end); [| done | done]. cbn [bind]. case_test; [| done].
  intros [= <- _ _ _] Hst. apply parse_tenants_fresh, (registry_from_heap fresh_tenant _ now) in Ep.
  rewrite Forall_forall in Ep. by apply Ep.
Qed.
End Proxy_main.
